(* ===== verification/_CoqProject ===== *)
-Q . S2P
Prelude.v
Kernel.v
KList.v
State.v
Paging.v
Bytes.v
Frame.v
FrameSpec.v
FrameRefine.v
FrameMark.v
Demo.v
FrameInit.v
PmmInit.v
FrameEdge.v
PagingWf.v
PagingTree.v
Mmu.v
MmuWalk.v
MmuSpec.v
MmuMap.v
MmuBoot.v
MmuInit.v
Start.v
UserPages.v
Elf.v
ElfLoad.v
Typed.v
FrameClient.v
FrameRace.v
FrameDemo.v
MmuDemo.v
Lib.v
Printf.v
PrintfSpec.v
PrintfRender.v
PrintfSafe.v
Io.v
Term.v
TermSpec.v
TermRefine.v
Desc.v
Machine.v
Lapic.v
Trap.v
TrapSpec.v
Pic.v
Ioapic.v
Rtc.v
Drivers.v
Console.v
Acpi.v
Syscall.v
Boot.v
LibDemo.v
DeviceDemo.v
BoardDemo.v
X86.v
AsmLib.v
AsmSys.v
AsmCpu.v
AsmTrap.v
AsmTrace.v
AsmSpec.v
AsmDemo.v
BootDemo.v
ElfDemo.v
StartDemo.v
StartBig.v
