(* ===== verification/Prelude.v ===== *)
(** * osdev64: a verification library for the kernel

    osdev64 is a small x86-64 kernel in C and assembly. This library models
    its C code as functions on explicit states and its assembly routines as
    instructions of a small processor, and proves what the functions
    do. Paths below are relative to [src/].

    ** The program

    The boot loader enters [main] ([src/kernel.c]) in the higher half. It
    clears the console ([src/term.c]), loads descriptor tables
    ([src/desc.c]), programs the 8259A interrupt controllers ([src/pic.c]),
    fills in the trap table ([src/interrupts.c]), starts the timer
    ([src/pit.c]) and the [syscall] instruction ([src/syscall.c]), reads the
    clock ([src/drivers/rtc.c]), hands the memory map to the physical page
    allocator ([src/frame.c]) and the root table to the virtual memory manager
    ([src/mmu.c]), walks the firmware's tables ([src/acpi.c]), which
    initialises the I/O interrupt controllers ([src/ioapic.c]), and starts the
    local one ([src/lapic.c]). Text goes through [vsnprintf]
    ([src/lib/vsnprintf.c]) to the serial port ([src/drivers/uart.c]) and the
    console. The allocator keeps each page on intrusive lists
    ([include/list.h]); [mmu_map_page] takes page tables from it.

    ** How code is modelled

    A function of the source is a definition of the same name in the monad
    [M] below: state passing with faults. A fault is what the C code or the
    processor does off its path: NULL or wild pointers, indices outside an
    array, page faults, division by zero, a lock that is never released, a
    halt. A C loop with a bound is [for_range]; one without is a [Fixpoint]
    with fuel, whose exhaustion is the fault [NoFuel], so that a theorem of
    the form [returns m s Q] says that the code ends, without a fault, with
    [Q]; [ends c s Q] describes the states in which it ends or stops, and
    [keeps R c] says that it stays within the relation [R] either way. Integers are [Z] with the wrap-around of their C type written out
    ([u64], [u32], [u16], [u8], [s32], [s8]). Assembly that the C code calls is
    modelled where it is called: port, register and memory-mapped accesses
    are events of a trace (file [Io]), the string routines are functions on
    bytes. The string routines, [setjmp] and [longjmp], the entry points of
    interrupts and system calls, the accesses to ports and system registers, and
    the stack trace are modelled once more, as what they are: lists of
    instructions that [X86.run] executes on registers and flat memory. What
    devices, firmware, the boot loader's image and the processor's
    page walk answer is not code of the repository: it is a parameter (the
    classes [Devices], [Firmware], [MMU], [Asm], [Handlers], [Symbols],
    [Layout], [Image], [Cpu]).

    ** The files

    - [Prelude]: the monad, [returns], [keeps], [ends] and their rules, machine integers, bit
      lemmas, loops. [Kernel]: [include/arch/x86_64/kernel.h].
    - [KList]: [include/list.h] over a heap of nodes, and doubly linked
      segments.
    - [State]: the state of the memory manager: list nodes, page array,
      counters, lock, physical memory, root table, log.
    - [Frame]: [src/frame.c]. [FrameSpec]: the abstract pools (free, used,
      least recently used) and what each list operation does to them.
      [FrameRefine], [FrameMark]: the operations of [Frame] refine those of
      the pools. [FrameInit]: [page_init]. [PmmInit]: [pmm_init] of
      [src/kernel.c], and the pools that the memory map stands for. [FrameEdge]: defects of marking and of the bounds.
      [FrameClient]: sequences of allocations and releases. [FrameRace]:
      [page_alloc] and [page_free] on several processors, as a step relation.
      [Demo], [FrameDemo]: a concrete machine and instances.
    - [Paging]: entries, indices, the page walk, and the first half of
      [src/mmu.c] ([mmu_recursive], [mmu_bootstrap]). [PagingWf]:
      well-formed table trees and the recursive window. [PagingTree]: the
      lower half as a tree without sharing, and writes outside the tables. [Mmu]: the second
      half of [src/mmu.c]. [MmuWalk], [MmuSpec], [MmuMap], [MmuBoot]: its
      theorems. [MmuInit]: [mmu_init]. [Start]: [pmm_init] and [mmu_init] one
      after the other. [MmuDemo], [StartDemo], [StartBig]: instances, the last
      two with the boot loader's tables.
    - [Bytes]: bytes and words in virtual memory, [src/lib/memcpy.asm] and
      [src/lib/memset.asm]. [UserPages]: pages of the lower half mapped by
      [mmu_req_page], and writes to them. [Elf]: [src/elf.c]; [ElfLoad]: what
      loading leaves in memory. [Typed]: every value that the files so far
      store fits its C type. [ElfDemo]: instances.
    - [Lib], [Printf]: [src/lib/]. [PrintfSpec]: numbers. [PrintfRender]: the
      formatter against a reference renderer. [PrintfSafe]: bounds and
      divergence. [LibDemo]: instances.
    - [Io]: the trace of device accesses. [Term], [TermSpec]: [src/term.c].
      [TermRefine]: an abstract screen. [Desc]: [src/desc.c]. [DeviceDemo]:
      instances.
    - [Machine]: the state of the whole kernel; it contains those of [State],
      [Term] and [Desc]. On it: [Lapic] ([src/lapic.c]), [Trap] and [TrapSpec]
      ([src/interrupts.c], [src/pit.c]), [Pic] ([src/pic.c]), [Ioapic]
      ([src/ioapic.c]), [Rtc] ([src/drivers/rtc.c]), [Drivers]
      ([src/drivers/uart.c], [src/drivers/pci.c], [src/config.c]), [Console]
      ([printf] and its variants, from the format to the devices), [Acpi]
      ([src/acpi.c]), [Syscall] ([src/syscall.c]), [Boot] ([main] of
      [src/kernel.c]). [BoardDemo]: instances. [BootDemo]: a whole start.
    - [X86]: the processor, with rules for its instructions and for blocks of
      pushes and pops. [AsmLib]: the assembly of [src/lib/]. [AsmSys]:
      [src/common_x86_64.asm] and [exec_user] of [src/exec.asm]. [AsmCpu]: the
      rest of these two files, and [sse42_enabled] of [src/sse.asm]. [AsmTrap]:
      [src/vectors.asm]. [AsmTrace]: [src/stack_trace.asm]. [AsmSpec]: the
      routines of [AsmLib] refine the string functions of [Printf] and [Term].
      [AsmDemo]: instances.

    ** What the theorems show

    - The allocator ([FrameRefine], [FrameMark]): [page_alloc], [page_free] and
      [page_mark_range] implement operations on three abstract pools, with
      counters in step and a representation invariant that every operation
      preserves; [page_init] builds the array ([FrameInit]) and [pmm_init]
      fills the lists from the loader's map ([PmmInit]), soundly unless the map
      has touching regions of different kinds ([BootDemo]); clients that
      release only what they hold never share a page ([FrameClient]). On several
      processors ([FrameRace]) the lock excludes, a free page for each makes
      every interleaving of allocations and releases safe and free of deadlock,
      and too few pages do not.
    - The memory manager: [mmu_map_page] installs a mapping and keeps every
      other translation and the invariant ([MmuMap]); [mmu_virt_to_phys]
      through the recursive slot is the walk of the tables ([MmuWalk]);
      [mmu_req_page] returns a mapped page, and what it does when it cannot;
      page tables must come from cleared frames ([MmuDemo]);
      [mmu_bootstrap] installs the direct map ([MmuBoot]).
    - The start: the invariant that these theorems assume is what [pmm_init]
      and [mmu_init] leave behind, with the boot loader's tables or with those
      of [mmu_bootstrap], for the number of pages that are clear and directly
      mapped; the frames of the boot loader's tables are not reserved
      ([Start]).
    - Output: [vsnprintf] prints the text of the reference renderer when it
      has room, never leaves its buffer, and loops on an unknown conversion;
      numbers round-trip; [vga_puts] implements printing on an abstract screen
      that wraps and scrolls ([TermRefine]); [printf] sends the rendered text
      to the serial port and to that screen ([Console]).
    - Programs: [elf_load] leaves every segment of the file at its address,
      with zeroes behind it, and the rest of memory as it was ([ElfLoad]);
      which headers it visits, where it stops ([Elf]), and which programs it
      cannot load ([ElfDemo]).
    - Types: no operation stores a value that its field cannot hold, also
      when it stops at a fault ([Typed]).
    - Tables and devices: what the processor or the device makes of what it is
      sent, against small reference decoders: gates and segments ([Desc]),
      the two 8259A controllers ([Pic]), the redirection table ([Ioapic]), the
      local controller's registers ([Lapic]), model-specific registers
      ([Syscall]), the bytes on the serial line ([Drivers]).
    - Control: [trap] for every vector, and the timer interrupt from its
      installation to its tick ([TrapSpec]); [main] enables interrupts last,
      and on a concrete machine reaches its idle loop ([Boot], [BootDemo]); the
      clock against the Gregorian
      calendar ([Rtc]); the walk of the interrupt-controller table ([Acpi]).

    - Assembly: the code of every vector gives [trap] the frame that the C
      code expects and resumes what was interrupted, but for two vectors
      whose frame is off by a word; [syscall_entry] calls its handler and then
      jumps to the caller ([AsmTrap]); [longjmp] goes back to where [setjmp]
      returned, and the string routines do what their callers take them to
      do, but for [strcpy] and for [strncpy] with no room ([AsmLib],
      [AsmSpec], [AsmDemo]); the port and register accesses are the events of
      [Io], and what [gdt_flush] and [exec_user] load selects the descriptors
      that [gdt_init] writes ([AsmSys]); the feature tests lose a register of
      their caller ([AsmCpu]); [stack_trace] prints a line for each frame that
      returns into the kernel, and faults on a frame pointer that is not mapped
      ([AsmTrace], [AsmDemo]).

    Theorems state the code as it is: where it departs from its intention, the
    theorem says exactly how (the last redirection entry that stays enabled,
    the drift of the clock, the entries that the firmware walk misses).

    ** Fuel and bounds

    [list_for_each] and [page_lru] take one unit per node; [vsnprintf] one per
    character of the format, with the same bound for the characters of one
    conversion; [ulltostr] has 65 units for at most 64 digits; the polling
    loops ([uart_wait], [icr_wait]) one per read of the status, and their
    theorems assume that the device becomes ready within them; [madt_loop] one
    per entry; [find_rsdp] 4097 for 64 KB in steps of 16 bytes; [scan_map] and
    [mark_map] one per entry of the map, computed from its end; [elf_load] one
    per header, with one per page for the pages of a segment. [X86.run] takes
    one unit per instruction and per round of a [rep] prefix; its theorems hold
    from a stated number on, linear in the length of the data.

    ** Not modelled

    Only [Console] sends formatted text to the devices; where any other
    component prints or logs, the format and its arguments are recorded as one
    entry of the state ([State.kernel_log]). Of the assembly, the boot loader
    ([src/boot/]), the start of the other processors ([ap_entry.s]) and the
    string routines of [sse.asm], which no C code calls, are not modelled: they
    run in other modes of the processor, or need more of it than [X86] has. The
    processor of [X86] takes no interrupts, its direction flag is clear, of the
    arithmetic flags it keeps zero and carry, and a called C function is a step
    of its own that keeps to the calling convention. Handlers get a trap frame by value: the
    handlers of the repository only read it. Accesses to device registers do
    not go through the page tables. *)

From Stdlib Require Export ZArith Lia.
From stdpp Require Export base numbers gmap strings option list.

Open Scope Z_scope.

(** ** Faults, results and the effect monad *)

(** What the C abstract machine or the processor does when the code leaves
    the defined path. *)
Inductive fault : Set :=
  | NullDeref
  | BadPointer (p : Z)
  | OutOfBounds (i : Z)
  | PageFault (va : Z)
  | Deadlock
  | DivideError
  | Halted
  | NoFuel.

#[global] Instance fault_eq_dec : EqDecision fault.
Proof. solve_decision. Defined.

(** A computation ends with a value, or stops at a fault; the state reached
    is kept in both cases. *)
Inductive res (St A : Type) : Type :=
  | Ok (a : A) (s : St)
  | Err (f : fault) (s : St).
Arguments Ok {St A} a s.
Arguments Err {St A} f s.

(** Stateful, fallible code. *)
Definition M (St A : Type) : Type := St → res St A.

#[global] Instance M_ret {St} : MRet (M St) := λ A a s, Ok a s.
#[global] Instance M_bind {St} : MBind (M St) := λ A B k m s,
  match m s with
  | Ok a s' => k a s'
  | Err f s' => Err f s'
  end.

Definition gets {St A} (g : St → A) : M St A := λ s, Ok (g s) s.
Definition modify {St} (g : St → St) : M St () := λ s, Ok () (g s).
Definition throw {St A} (f : fault) : M St A := λ s, Err f s.
Definition skip {St} : M St () := mret ().

(** Run a computation on a part of the state. *)
Definition zoom {St T A} (get : St → T) (put : T → St → St) (m : M T A) : M St A :=
  λ s, match m (get s) with
       | Ok a t => Ok a (put t s)
       | Err f t => Err f (put t s)
       end.

(** [returns m s Q]: run from [s], [m] terminates without a fault, and its
    value and final state satisfy [Q] (total correctness). *)
Definition returns {St A} (m : M St A) (s : St) (Q : A → St → Prop) : Prop :=
  match m s with
  | Ok a s' => Q a s'
  | Err _ _ => False
  end.

(** [faults m s f]: run from [s], [m] stops at the fault [f]. *)
Definition faults {St A} (m : M St A) (s : St) (f : fault) : Prop :=
  ∃ s', m s = Err f s'.

Section returns_rules.
Context {St A B : Type}.
Implicit Types (s : St) (m : M St A) (k : A → M St B).

Lemma returns_ret (a : A) s Q : Q a s → returns (mret a) s Q.
Proof. done. Qed.

Lemma returns_bind m k s Q :
  returns m s (λ a s', returns (k a) s' Q) → returns (m ≫= k) s Q.
Proof. unfold returns, mbind, M_bind. by destruct (m s). Qed.

Lemma returns_bind_inv m k s Q :
  returns (m ≫= k) s Q → returns m s (λ a s', returns (k a) s' Q).
Proof. unfold returns, mbind, M_bind. by destruct (m s). Qed.

Lemma returns_mono m s (P Q : A → St → Prop) :
  returns m s P → (∀ a s', P a s' → Q a s') → returns m s Q.
Proof. unfold returns. destruct (m s); eauto. Qed.

Lemma returns_and m s (P Q : A → St → Prop) :
  returns m s P → returns m s Q → returns m s (λ a s', P a s' ∧ Q a s').
Proof. unfold returns. by destruct (m s). Qed.

Lemma returns_gets (g : St → A) s Q : Q (g s) s → returns (gets g) s Q.
Proof. done. Qed.

Lemma returns_modify (g : St → St) s Q : Q () (g s) → returns (modify g) s Q.
Proof. done. Qed.

Lemma returns_run m s Q :
  returns m s Q ↔ ∃ a s', m s = Ok a s' ∧ Q a s'.
Proof.
  unfold returns. destruct (m s) as [a s'|f s'].
  - split; [eauto|]. by intros (? & ? & [= <- <-] & ?).
  - split; [done|]. by intros (? & ? & ? & ?).
Qed.

Lemma faults_bind_l m k s f : faults m s f → faults (m ≫= k) s f.
Proof. intros [s' E]. exists s'. unfold mbind, M_bind. by rewrite E. Qed.

Lemma faults_bind_r m k s f :
  returns m s (λ a s', faults (k a) s' f) → faults (m ≫= k) s f.
Proof.
  intros (a & s' & E & s'' & E')%returns_run. exists s''.
  unfold mbind, M_bind. by rewrite E.
Qed.
End returns_rules.

Lemma returns_eq {St A} (c : M St A) s Q :
  returns c s Q = match c s with Ok a s' => Q a s' | Err _ _ => False end.
Proof. done. Qed.

(** Running a sequence. *)
Lemma bind_ok {St A B} (c : M St A) (k : A → M St B) s a s' :
  c s = Ok a s' → (c ≫= k) s = k a s'.
Proof. unfold mbind, M_bind. by intros ->. Qed.

Lemma bind_err {St A B} (c : M St A) (k : A → M St B) s f s' :
  c s = Err f s' → (c ≫= k) s = Err f s'.
Proof. unfold mbind, M_bind. by intros ->. Qed.

Lemma bind_assoc {St A B C} (c : M St A) (f : A → M St B) (g : B → M St C) s :
  ((c ≫= f) ≫= g) s = (c ≫= (λ a, f a ≫= g)) s.
Proof. unfold mbind, M_bind. by destruct (c s). Qed.

Lemma returns_zoom {St T A} (get : St → T) (put : T → St → St) (m : M T A) s Q :
  returns m (get s) (λ a t, Q a (put t s)) → returns (zoom get put m) s Q.
Proof. unfold returns, zoom. by destruct (m (get s)). Qed.

Create HintDb rets.
#[export] Hint Resolve returns_ret returns_gets returns_modify : rets.

(** Take one step of a [returns] goal along the program text. *)
Ltac ret_step :=
  lazymatch goal with
  | |- returns (mbind _ _) _ _ => apply returns_bind
  | |- returns (mret _) _ _ => apply returns_ret
  | |- returns skip _ _ => apply returns_ret
  | |- returns (gets _) _ _ => apply returns_gets
  | |- returns (modify _) _ _ => apply returns_modify
  | |- returns (zoom _ _ _) _ _ => apply returns_zoom
  end; cbv beta.
Ltac ret_steps := repeat ret_step.

(** Use a lemma about the computation at the head of the goal and go on with
    its postcondition. *)
Tactic Notation "ret_use" uconstr(H) :=
  eapply returns_mono; [eapply H|cbv beta].

(** ** Machine integers *)

(** [wrap w x]: the unsigned [w]-bit integer congruent to [x]; [sgn w x]: the
    signed one. The C types of the source are [wrap 64] ([size_t],
    [uint64_t], pointers), [wrap 32], [wrap 16], [wrap 8], and [sgn 32]
    ([int]), [sgn 8] ([char]). *)
Definition wrap (w x : Z) : Z := x mod 2 ^ w.
Definition sgn (w x : Z) : Z :=
  let y := wrap w x in if y <? 2 ^ (w - 1) then y else y - 2 ^ w.

Declare Scope cword_scope.
Delimit Scope cword_scope with W.
Notation "'u64' x" := (wrap 64 x) (at level 9, x at level 9) : cword_scope.
Notation "'u32' x" := (wrap 32 x) (at level 9, x at level 9) : cword_scope.
Notation "'u16' x" := (wrap 16 x) (at level 9, x at level 9) : cword_scope.
Notation "'u8' x" := (wrap 8 x) (at level 9, x at level 9) : cword_scope.
Notation "'s32' x" := (sgn 32 x) (at level 9, x at level 9) : cword_scope.
Notation "'s8' x" := (sgn 8 x) (at level 9, x at level 9) : cword_scope.
Open Scope cword_scope.

(** The C truth value of an integer flag test. *)
Definition nz (x : Z) : bool := negb (x =? 0).

Lemma wrap_bounds w x : 0 <= w → 0 <= wrap w x < 2 ^ w.
Proof. intros. apply Z.mod_pos_bound. lia. Qed.

Lemma wrap_small w x : 0 <= x < 2 ^ w → wrap w x = x.
Proof. apply Z.mod_small. Qed.

Lemma wrap_wrap w x : wrap w (wrap w x) = wrap w x.
Proof. apply Zmod_mod. Qed.

Lemma sgn_bounds w x : 0 < w → - 2 ^ (w - 1) <= sgn w x < 2 ^ (w - 1).
Proof.
  intros. unfold sgn. pose proof (wrap_bounds w x ltac:(lia)) as B.
  replace (2 ^ w) with (2 * 2 ^ (w - 1)) in *.
  - destruct (Z.ltb_spec (wrap w x) (2 ^ (w - 1))); lia.
  - rewrite <- Z.pow_succ_r by lia. f_equal. lia.
Qed.

Lemma sgn_small w x : 0 < w → 0 <= x < 2 ^ (w - 1) → sgn w x = x.
Proof.
  intros Hw B. assert (2 ^ w = 2 * 2 ^ (w - 1)).
  { rewrite <- Z.pow_succ_r by lia. f_equal. lia. }
  unfold sgn. rewrite wrap_small by lia.
  destruct (Z.ltb_spec x (2 ^ (w - 1))); lia.
Qed.

Create HintDb words.
Create Rewrite HintDb words_rw.
#[export] Hint Resolve wrap_bounds sgn_bounds : words.

(** Linear arithmetic with division and remainder by constants. *)
Ltac dlia := zify; Z.to_euclidean_division_equations; lia.

(** ** Bits *)

Lemma testbit_above a n i : 0 <= a < 2 ^ n → n <= i → Z.testbit a i = false.
Proof.
  intros Ha Hi. assert (0 <= n).
  { destruct (Z.le_gt_cases 0 n); [done|]. rewrite Z.pow_neg_r in Ha; lia. }
  rewrite <- (Z.mod_small a (2 ^ n)) by done. apply Z.mod_pow2_bits_high. lia.
Qed.

(** Or-ing in bits above the ones in use is addition. *)
Lemma lor_add n a b : 0 <= n → 0 <= a < 2 ^ n → Z.lor a (b * 2 ^ n) = a + b * 2 ^ n.
Proof.
  intros Hn Ha. symmetry. apply Z.add_nocarry_lor, Z.bits_inj'. intros i Hi.
  rewrite Z.land_spec, Z.bits_0. destruct (Z.lt_ge_cases i n).
  - by rewrite Z.mul_pow2_bits_low, andb_false_r.
  - by rewrite (testbit_above a n i).
Qed.

Lemma lor_add' n a b :
  0 <= n → 0 <= a < 2 ^ n → b mod 2 ^ n = 0 → Z.lor b a = b + a.
Proof.
  intros Hn Ha Hb. rewrite Z.lor_comm.
  rewrite (Z.div_mod b (2 ^ n)), Hb, Z.add_0_r by lia.
  rewrite (Z.mul_comm (2 ^ n)), lor_add by done. lia.
Qed.

(** Clearing the low [n] bits. *)
Lemma land_lnot_low n a : 0 <= n → Z.land a (Z.lnot (2 ^ n - 1)) = a / 2 ^ n * 2 ^ n.
Proof.
  intros Hn. replace (2 ^ n - 1) with (Z.ones n) by (rewrite Z.ones_equiv; lia).
  rewrite <- Z.ldiff_land, Z.ldiff_ones_r by done.
  by rewrite Z.shiftl_mul_pow2, Z.shiftr_div_pow2 by done.
Qed.

(** Keeping the low [n] bits. *)
Lemma land_low n a : 0 <= n → Z.land a (2 ^ n - 1) = a mod 2 ^ n.
Proof.
  intros Hn. replace (2 ^ n - 1) with (Z.ones n) by (rewrite Z.ones_equiv; lia).
  by apply Z.land_ones.
Qed.

(** Extracting the [n]-bit field at bit [k], and what remains of a sum of
    fields. *)
Lemma field_spec k n a : 0 <= k → 0 <= n →
  Z.land (Z.shiftr a k) (2 ^ n - 1) = a / 2 ^ k mod 2 ^ n.
Proof. intros. by rewrite land_low, Z.shiftr_div_pow2. Qed.

Lemma land_bounds n a m : 0 <= n → 0 <= m < 2 ^ n → 0 <= Z.land a m < 2 ^ n.
Proof.
  intros Hn Hm. split; [apply Z.land_nonneg; lia|].
  destruct (Z.eq_dec (Z.land a m) 0) as [->|Hz]; [lia|].
  apply Z.log2_lt_pow2; [pose proof (Z.land_nonneg a m); lia|].
  apply Z.lt_nge. intros Hle.
  assert (H : Z.testbit (Z.land a m) (Z.log2 (Z.land a m)) = true).
  { apply Z.bit_log2. pose proof (Z.land_nonneg a m). lia. }
  rewrite Z.land_spec, (testbit_above m n), andb_false_r in H; done.
Qed.

Lemma lor_bounds n a b : 0 <= n → 0 <= a < 2 ^ n → 0 <= b < 2 ^ n → 0 <= Z.lor a b < 2 ^ n.
Proof.
  intros Hn Ha Hb. assert (0 <= Z.lor a b) by (apply Z.lor_nonneg; lia).
  split; [done|]. destruct (Z.eq_dec a 0) as [->|]; [rewrite Z.lor_0_l; lia|].
  destruct (Z.eq_dec b 0) as [->|]; [rewrite Z.lor_0_r; lia|].
  destruct (Z.eq_dec (Z.lor a b) 0) as [->|Hz]; [lia|].
  apply Z.log2_lt_pow2; [lia|]. rewrite Z.log2_lor by lia.
  apply Z.max_lub_lt; apply ->  Z.log2_lt_pow2; lia.
Qed.

(** A single flag bit of a word. *)
Lemma land_pow2_testbit a k : 0 <= k → nz (Z.land a (2 ^ k)) = Z.testbit a k.
Proof.
  intros Hk. unfold nz. destruct (Z.testbit a k) eqn:E.
  - destruct (Z.eqb_spec (Z.land a (2 ^ k)) 0) as [H|]; [|done].
    assert (Z.testbit (Z.land a (2 ^ k)) k = false) as H' by by rewrite H, Z.bits_0.
    by rewrite Z.land_spec, E, Z.pow2_bits_true in H'.
  - destruct (Z.eqb_spec (Z.land a (2 ^ k)) 0) as [|H]; [done|].
    destruct H. apply Z.bits_inj'. intros i Hi.
    rewrite Z.land_spec, Z.bits_0, Z.pow2_bits_eqb by done.
    destruct (Z.eqb_spec k i); subst; by rewrite ?E, ?andb_false_r.
Qed.

(** Bitwise equality of two words, bit by bit. *)
Ltac bits_ext i :=
  apply Z.bits_inj'; intros i ?;
  rewrite ?Z.lor_spec, ?Z.land_spec, ?Z.lxor_spec, ?Z.ldiff_spec,
    ?Z.shiftr_spec, ?Z.shiftl_spec by lia.

(** ** Counted loops *)

(** [for_up n i step f]: the body [f] at [i], [i + step], ..., [n] times. A C
    loop [for (i = a; i < b; i += step)] runs [n = (b - a + step - 1) / step]
    times when its body leaves [i] and [b] alone. *)
Fixpoint for_up {St} (n : nat) (i step : Z) (f : Z → M St ()) : M St () :=
  match n with
  | O => skip
  | S n => f i;; for_up n (i + step) step f
  end.

(** [for (i = a; i < b; i++) f(i);] *)
Definition for_range {St} (a b : Z) (f : Z → M St ()) : M St () :=
  for_up (Z.to_nat (b - a)) a 1 f.

(** An invariant [I i] that the body carries from [i] to [i + step]. *)
Lemma returns_for_up {St} (I : Z → St → Prop) n i step (f : Z → M St ()) s (Q : () → St → Prop) :
  I i s →
  (∀ k t, 0 <= k < Z.of_nat n → I (i + k * step) t →
     returns (f (i + k * step)) t (λ _ t', I (i + (k + 1) * step) t')) →
  (∀ t, I (i + Z.of_nat n * step) t → Q () t) →
  returns (for_up n i step f) s Q.
Proof.
  revert i s. induction n as [|n IH]; intros i s HI Hf HQ; cbn.
  - apply HQ. by replace (i + Z.of_nat 0 * step) with i by lia.
  - apply returns_bind. eapply returns_mono.
    + specialize (Hf 0 s ltac:(lia)). rewrite Z.mul_0_l, Z.add_0_r in Hf. by apply Hf.
    + cbn beta. intros _ t Ht. apply (IH (i + step) t).
      * by replace (i + (0 + 1) * step) with (i + step) in Ht by lia.
      * intros k t' Hk. replace (i + step + k * step) with (i + (k + 1) * step) by lia.
        replace (i + step + (k + 1) * step) with (i + (k + 1 + 1) * step) by lia.
        apply Hf. lia.
      * intros t' Ht'. apply HQ.
        by replace (i + Z.of_nat (S n) * step) with (i + step + Z.of_nat n * step) by lia.
Qed.

Lemma returns_for_range {St} (I : Z → St → Prop) a b (f : Z → M St ()) s (Q : () → St → Prop) :
  a <= b → I a s →
  (∀ k t, a <= k < b → I k t → returns (f k) t (λ _ t', I (k + 1) t')) →
  (∀ t, I b t → Q () t) →
  returns (for_range a b f) s Q.
Proof.
  intros Hab HI Hf HQ. unfold for_range. apply (returns_for_up I); [done|..].
  - intros k t Hk. rewrite !Z.mul_1_r. replace (a + (k + 1)) with (a + k + 1) by lia.
    apply Hf. lia.
  - intros t. rewrite Z.mul_1_r, Z2Nat.id by lia. replace (a + (b - a)) with b by lia. auto.
Qed.

(** The [n]-bit field at bit [k], left in place. *)
Lemma land_field_in_place k n a : 0 <= k → 0 <= n →
  Z.land a ((2 ^ n - 1) * 2 ^ k) = a / 2 ^ k mod 2 ^ n * 2 ^ k.
Proof.
  intros Hk Hn. rewrite <- field_spec by done.
  rewrite <- !Z.shiftl_mul_pow2 by done. bits_ext i.
  destruct (Z.lt_ge_cases i k).
  - by rewrite !(Z.testbit_neg_r _ (i - k)), andb_false_r by lia.
  - rewrite Z.land_spec, Z.shiftr_spec by lia.
    by replace (i - k + k) with i by lia.
Qed.

Lemma testbit_lor_low n a f k :
  0 <= k < n → a mod 2 ^ n = 0 → Z.testbit (Z.lor a f) k = Z.testbit f k.
Proof.
  intros Hk Ha. rewrite Z.lor_spec.
  rewrite (Z.div_mod a (2 ^ n)), Ha, Z.add_0_r by lia.
  rewrite (Z.mul_comm (2 ^ n)), Z.mul_pow2_bits_low by lia. done.
Qed.

(** ** Ranges of integers *)

Lemma seqZ_snoc a k : a <= k → seqZ a (k + 1 - a) = seqZ a (k - a) ++ [k].
Proof.
  intros. replace (k + 1 - a) with (k - a + 1) by lia.
  rewrite seqZ_app by lia. replace (a + (k - a)) with k by lia. done.
Qed.

(** ** What every run keeps

    [keeps R c]: the states before and after [c] are related by [R], whether
    [c] returns or stops at a fault. *)

Definition final_state {St A} (r : res St A) : St := match r with Ok _ s | Err _ s => s end.
Definition keeps {St A} (R : relation St) (c : M St A) : Prop := ∀ s, R s (final_state (c s)).

Section keeps_rules.
Context {St : Type} (R : relation St) `{!PreOrder R}.

Lemma keeps_ret {A} (a : A) : keeps R (mret a).
Proof. intros s. done. Qed.
Lemma keeps_gets {A} (g : St → A) : keeps R (gets g).
Proof. intros s. done. Qed.
Lemma keeps_throw {A} f : keeps R (throw (A := A) f).
Proof. intros s. done. Qed.
Lemma keeps_modify g : (∀ s, R s (g s)) → keeps R (modify g).
Proof. by intros Hg s. Qed.

Lemma keeps_bind {A B} (c : M St A) (k : A → M St B) :
  keeps R c → (∀ a, keeps R (k a)) → keeps R (c ≫= k).
Proof.
  intros Hc Hk s. specialize (Hc s). unfold mbind, M_bind.
  destruct (c s) as [a s'|f s']; cbn in *; [|done]. etrans; [done|apply Hk].
Qed.

Lemma keeps_if {A} (b : bool) (c c' : M St A) : keeps R c → keeps R c' → keeps R (if b then c else c').
Proof. by destruct b. Qed.

Lemma keeps_for_up n i step f : (∀ j, keeps R (f j)) → keeps R (for_up n i step f).
Proof.
  intros Hf. revert i. induction n as [|n IH]; intros i; cbn; [apply keeps_ret|].
  apply keeps_bind; [done|]. intros _. apply IH.
Qed.
Lemma keeps_for_range a b f : (∀ j, keeps R (f j)) → keeps R (for_range a b f).
Proof. apply keeps_for_up. Qed.
End keeps_rules.

Lemma keeps_zoom {St T A} (R : relation St) (RT : relation T) get put (m : M T A) :
  keeps RT m → (∀ s t, RT (get s) t → R s (put t s)) → keeps R (zoom get put m).
Proof. intros Hm HR s. specialize (Hm (get s)). unfold zoom. destruct (m (get s)); by apply HR. Qed.

Lemma returns_keeps {St A} R (c : M St A) s Q :
  keeps R c → returns c s Q → returns c s (λ a s', Q a s' ∧ R s s').
Proof. intros Hc HQ. specialize (Hc s). unfold returns in *. by destruct (c s). Qed.

Lemma keeps_any {St A} (c : M St A) : keeps (λ _ _, True) c.
Proof. done. Qed.

Create HintDb keeps.

(** Follow the program text; what is left is about its single steps. *)
Ltac keeps_step :=
  lazymatch goal with
  | |- keeps ?R (mbind _ _) => apply (keeps_bind R); [|intros ?]
  | |- keeps ?R (if _ then _ else _) => apply (keeps_if R)
  | |- keeps ?R (for_range _ _ _) => apply (keeps_for_range R); intros ?
  | |- keeps ?R (for_up _ _ _ _) => apply (keeps_for_up R); intros ?
  | |- keeps ?R (mret _) => apply (keeps_ret R)
  | |- keeps ?R skip => apply (keeps_ret R)
  | |- keeps ?R (gets _) => apply (keeps_gets R)
  | |- keeps ?R (throw _) => apply (keeps_throw R)
  | |- keeps _ (let _ := _ in _) => cbv zeta
  | |- keeps _ (match ?a with _ => _ end) => destruct a
  | |- keeps _ _ => solve [auto with keeps nocore]
  end.
Ltac keeps_steps := repeat (cbv beta; keeps_step).

(** [ends c s Q]: if [c], run from [s], returns, it does so with [Q]; only
    used next to a proof that it returns. *)
Definition ends {St A} (c : M St A) (s : St) (Q : A → St → Prop) : Prop :=
  match c s with Ok a s' => Q a s' | Err _ _ => True end.

Lemma ends_bind {St A B} (c : M St A) (k : A → M St B) s Q :
  ends c s (λ a s', ends (k a) s' Q) → ends (c ≫= k) s Q.
Proof. unfold ends, mbind, M_bind. by destruct (c s). Qed.

Lemma ends_mono {St A} (c : M St A) s (P Q : A → St → Prop) :
  ends c s P → (∀ a s', P a s' → Q a s') → ends c s Q.
Proof. unfold ends. destruct (c s); eauto. Qed.

Lemma returns_ends {St A} (c : M St A) s Q : returns c s Q → ends c s Q.
Proof. unfold returns, ends. by destruct (c s). Qed.

Lemma keeps_ends {St A} R (c : M St A) s : keeps R c → ends c s (λ _ s', R s s').
Proof. intros Hc. specialize (Hc s). unfold ends. by destruct (c s). Qed.

Lemma returns_and_ends {St A} (c : M St A) s P Q :
  returns c s P → ends c s Q → returns c s (λ a s', P a s' ∧ Q a s').
Proof. unfold returns, ends. by destruct (c s). Qed.

Section ends_rules.
Context {St A B : Type}.
Implicit Types (c : M St A) (k : A → M St B).

Lemma ends_ret (a : A) (s : St) Q : Q a s → ends (mret a) s Q.
Proof. done. Qed.
Lemma ends_run c k s a s' Q : c s = Ok a s' → ends (k a) s' Q → ends (c ≫= k) s Q.
Proof. intros E Hk. apply ends_bind. unfold ends at 1. by rewrite E. Qed.
Lemma ends_skip c k s Q : (∀ a s', ends (k a) s' Q) → ends (c ≫= k) s Q.
Proof. intros Hk. apply ends_bind. unfold ends at 1. destruct (c s); [apply Hk|done]. Qed.
Lemma ends_keeps R c k s Q :
  keeps R c → (∀ a s', R s s' → ends (k a) s' Q) → ends (c ≫= k) s Q.
Proof. intros Hc Hk. apply ends_bind. eapply ends_mono; [by apply keeps_ends|]. auto. Qed.
Lemma ends_use c k s P Q :
  ends c s P → (∀ a s', P a s' → ends (k a) s' Q) → ends (c ≫= k) s Q.
Proof. intros Hc Hk. apply ends_bind. eapply ends_mono; [exact Hc|]. auto. Qed.
End ends_rules.
