(* ===== verification/Kernel.v ===== *)
(** Kernel-wide macros of [include/arch/x86_64/kernel.h]: the page size, the
    rounding macros and the conversion between physical addresses and the
    higher-half addresses the kernel uses, with the arithmetic the other
    files need. *)

From S2P Require Import Prelude.

Open Scope Z_scope.

Definition PAGE_SIZE : Z := 0x1000.
Definition KERNEL_VIRT : Z := 0xFFFFFFFF80000000.
Definition INITIAL_TOP : Z := 0xFFFFFFFF80400000.

(** [((a) & ~((b) - 1))] on 64-bit operands. *)
Definition ROUND_DOWN (a b : Z) : Z := Z.land a (Z.lnot (b - 1)).
(** [(((a) + (b)) & ~((b) - 1))]: the sum wraps at 64 bits. *)
Definition ROUND_UP (a b : Z) : Z := Z.land (u64 (a + b)) (Z.lnot (b - 1)).

(** [((size_t) (x) | KERNEL_VIRT)] and [((size_t) (x) & ~KERNEL_VIRT)]. *)
Definition P2V (x : Z) : Z := Z.lor x KERNEL_VIRT.
Definition V2P (x : Z) : Z := Z.land x (Z.lnot KERNEL_VIRT).

(** ** Rounding *)

Lemma ROUND_DOWN_page a : ROUND_DOWN a PAGE_SIZE = a / 4096 * 4096.
Proof. apply (land_lnot_low 12). lia. Qed.

Lemma ROUND_UP_page a :
  0 <= a < 2 ^ 64 - 4096 → ROUND_UP a PAGE_SIZE = (a / 4096 + 1) * 4096.
Proof.
  intros Ha. unfold ROUND_UP. rewrite wrap_small by (unfold PAGE_SIZE; lia).
  rewrite (land_lnot_low 12) by lia. change (2 ^ 12) with 4096.
  unfold PAGE_SIZE. dlia.
Qed.

(** The page index [ROUND_DOWN(a, PAGE_SIZE) / PAGE_SIZE]. *)
Lemma ROUND_DOWN_index a : ROUND_DOWN a PAGE_SIZE / PAGE_SIZE = a / 4096.
Proof. rewrite ROUND_DOWN_page. unfold PAGE_SIZE. by rewrite Z.div_mul. Qed.

Lemma ROUND_UP_index a :
  0 <= a < 2 ^ 64 - 4096 → ROUND_UP a PAGE_SIZE / PAGE_SIZE = a / 4096 + 1.
Proof. intros. rewrite ROUND_UP_page by done. unfold PAGE_SIZE. by rewrite Z.div_mul. Qed.

Lemma ROUND_DOWN_aligned a : a mod 4096 = 0 → ROUND_DOWN a PAGE_SIZE = a.
Proof. rewrite ROUND_DOWN_page. dlia. Qed.

Lemma ROUND_DOWN_entry a f :
  a mod 4096 = 0 → 0 <= f < 4096 → ROUND_DOWN (Z.lor a f) PAGE_SIZE = a.
Proof.
  intros Ha Hf. rewrite (lor_add' 12) by (done || lia). rewrite ROUND_DOWN_page. dlia.
Qed.

#[export] Hint Rewrite ROUND_DOWN_page ROUND_DOWN_index : words_rw.

(** ** Higher-half addresses *)

Lemma P2V_add x : 0 <= x < 2 ^ 31 → P2V x = x + KERNEL_VIRT.
Proof.
  intros. unfold P2V. change KERNEL_VIRT with ((KERNEL_VIRT / 2 ^ 31) * 2 ^ 31).
  rewrite lor_add by lia. done.
Qed.

Lemma P2V_V2P x : 0 <= x < 2 ^ 31 → V2P (P2V x) = x.
Proof.
  intros Hx. unfold V2P, P2V. rewrite Z.land_lor_distr_l, Z.land_lnot_diag, Z.lor_0_r.
  bits_ext i. rewrite Z.lnot_spec by done. destruct (Z.lt_ge_cases i 31).
  - replace (Z.testbit KERNEL_VIRT i) with false; [by rewrite andb_true_r|].
    change KERNEL_VIRT with ((KERNEL_VIRT / 2 ^ 31) * 2 ^ 31).
    by rewrite Z.mul_pow2_bits_low.
  - by rewrite (testbit_above x 31 i).
Qed.
