(* ===== verification/KList.v ===== *)
(** The intrusive circular doubly linked list of [include/list.h].

    A [struct list] is a node with a [next] and a [prev] pointer. Nodes live
    in a heap indexed by their address, so that aliasing, self-linked nodes
    and the stale pointers left behind by [list_del] are what they are in the
    code. [dll h hd xs] says that the nodes [xs] hang off the list head [hd]
    in this order; the lemmas give the effect of each operation on it and on
    the rest of the heap. *)

From S2P Require Import Prelude.

Open Scope Z_scope.

(** [struct list { struct list* next, *prev; }] *)
Record node := Node { next : Z; prev : Z }.

#[global] Instance node_eq_dec : EqDecision node.
Proof. solve_decision. Defined.

Abbreviation heap := (gmap Z node).

(** ** Loads and stores of the two fields *)

Definition load (p : Z) : M heap node := λ h,
  match h !! p with
  | Some n => Ok n h
  | None => Err (BadPointer p) h
  end.
Definition get_next (p : Z) : M heap Z := n ← load p; mret (next n).
Definition get_prev (p : Z) : M heap Z := n ← load p; mret (prev n).
Definition set_next (p v : Z) : M heap () :=
  n ← load p; modify (insert p (Node v (prev n))).
Definition set_prev (p v : Z) : M heap () :=
  n ← load p; modify (insert p (Node (next n) v)).

(** ** The operations of list.h *)

(** [list->next = list; list->prev = list;] *)
Definition list_init (l : Z) : M heap () := set_next l l;; set_prev l l.

(** [return (list->next == list);] *)
Definition list_empty (l : Z) : M heap bool := n ← get_next l; mret (n =? l).

(** [next->prev = prev; prev->next = next;] *)
Definition __list_del (prv nxt : Z) : M heap () := set_prev nxt prv;; set_next prv nxt.

Definition list_del (entry : Z) : M heap () :=
  p ← get_prev entry; n ← get_next entry; __list_del p n.

Definition list_replace (old entry : Z) : M heap () :=
  n ← get_next old; set_next entry n;;
  en ← get_next entry; set_prev en entry;;
  p ← get_prev old; set_prev entry p;;
  ep ← get_prev entry; set_next ep entry.

Definition __list_add (entry prv nxt : Z) : M heap () :=
  set_prev nxt entry;; set_next entry nxt;; set_prev entry prv;; set_next prv entry.

Definition list_add (head entry : Z) : M heap () :=
  n ← get_next head; __list_add entry head n.

Definition list_add_tail (head entry : Z) : M heap () :=
  p ← get_prev head; __list_add entry p head.

Definition list_move (head entry : Z) : M heap () :=
  list_del entry;; list_add head entry.

Definition list_move_tail (head entry : Z) : M heap () :=
  list_del entry;; list_add_tail head entry.

(** [list_for_each(pos, head)]: the nodes the iterator visits, in order. The
    loop of the macro has no bound; [fuel] bounds the number of rounds. *)
Fixpoint list_for_each_from (fuel : nat) (pos head : Z) : M heap (list Z) :=
  if pos =? head then mret []
  else match fuel with
       | O => throw NoFuel
       | S fuel => n ← get_next pos; rest ← list_for_each_from fuel n head; mret (pos :: rest)
       end.
Definition list_for_each (fuel : nat) (head : Z) : M heap (list Z) :=
  n ← get_next head; list_for_each_from fuel n head.

(** ** Shape of the heap *)

Definition nx (h : heap) (a : Z) : option Z := next <$> h !! a.
Definition pv (h : heap) (a : Z) : option Z := prev <$> h !! a.

(** [a] and [b] are linked neighbours. *)
Definition link (h : heap) (a b : Z) : Prop := nx h a = Some b ∧ pv h b = Some a.

(** A doubly linked segment from [a] through [xs] to [b]. *)
Fixpoint seg (h : heap) (a : Z) (xs : list Z) (b : Z) : Prop :=
  match xs with
  | [] => link h a b
  | x :: xs => link h a x ∧ seg h x xs b
  end.

(** The circular list with head [hd] holding the nodes [xs]. *)
Definition dll (h : heap) (hd : Z) (xs : list Z) : Prop :=
  NoDup (hd :: xs) ∧ seg h hd xs hd.

(** A node whose two pointers point at itself, as [list_init] leaves it. *)
Definition self_linked (h : heap) (e : Z) : Prop := h !! e = Some (Node e e).

(** ** Field updates *)

Definition with_next (v : Z) (n : node) : node := Node v (prev n).
Definition with_prev (v : Z) (n : node) : node := Node (next n) v.

Lemma nx_alter_next h p v a :
  nx (alter (with_next v) p h) a = if decide (p = a) then (λ _, v) <$> h !! a else nx h a.
Proof. unfold nx. rewrite lookup_alter. repeat case_decide; try done; subst; by destruct (h !! a). Qed.

Lemma nx_alter_prev h p v a : nx (alter (with_prev v) p h) a = nx h a.
Proof. unfold nx. rewrite lookup_alter. repeat case_decide; try done; subst; by destruct (h !! a). Qed.

Lemma pv_alter_prev h p v a :
  pv (alter (with_prev v) p h) a = if decide (p = a) then (λ _, v) <$> h !! a else pv h a.
Proof. unfold pv. rewrite lookup_alter. repeat case_decide; try done; subst; by destruct (h !! a). Qed.

Lemma pv_alter_next h p v a : pv (alter (with_next v) p h) a = pv h a.
Proof. unfold pv. rewrite lookup_alter. repeat case_decide; try done; subst; by destruct (h !! a). Qed.

Lemma fmap_const {A B} (v : B) (o : option A) : is_Some o → (λ _, v) <$> o = Some v.
Proof. by intros [? ->]. Qed.

Create Rewrite HintDb heap_rw.
#[export] Hint Rewrite nx_alter_next nx_alter_prev pv_alter_prev pv_alter_next : heap_rw.

Lemma nx_is_Some h a b : nx h a = Some b → is_Some (h !! a).
Proof. unfold nx. destruct (h !! a); [eauto|done]. Qed.
Lemma pv_is_Some h a b : pv h a = Some b → is_Some (h !! a).
Proof. unfold pv. destruct (h !! a); [eauto|done]. Qed.
Lemma link_l h a b : link h a b → is_Some (h !! a).
Proof. intros [H _]. by eapply nx_is_Some. Qed.
Lemma link_r h a b : link h a b → is_Some (h !! b).
Proof. intros [_ H]. by eapply pv_is_Some. Qed.
Lemma is_Some_alter (f : node → node) p (h : heap) a :
  is_Some (h !! a) → is_Some (alter f p h !! a).
Proof. intros [n Hn]. rewrite lookup_alter. case_decide; subst; rewrite Hn; eauto. Qed.

Lemma lookup_alter_other (f : node → node) p (h : heap) a :
  a ≠ p → alter f p h !! a = h !! a.
Proof. intros. by rewrite lookup_alter_ne. Qed.

Create HintDb heap.
#[export] Hint Resolve nx_is_Some pv_is_Some link_l link_r is_Some_alter : heap.

Lemma alter_eq_insert (f : node → node) p n (h : heap) :
  f <$> h !! p = Some n → alter f p h = <[p:=n]> h.
Proof.
  intros E. apply map_eq. intros i. rewrite lookup_alter, lookup_insert.
  repeat case_decide; by subst.
Qed.

Section field_rules.
Context (h : heap) (p v : Z).

Lemma returns_get_next Q : nx h p = Some v → Q v h → returns (get_next p) h Q.
Proof.
  unfold nx. intros E HQ. unfold get_next, load, returns, mbind, M_bind.
  destruct (h !! p); [|done]. cbn in *. congruence.
Qed.

Lemma returns_get_prev Q : pv h p = Some v → Q v h → returns (get_prev p) h Q.
Proof.
  unfold pv. intros E HQ. unfold get_prev, load, returns, mbind, M_bind.
  destruct (h !! p); [|done]. cbn in *. congruence.
Qed.

Lemma returns_set_next Q :
  is_Some (h !! p) → Q () (alter (with_next v) p h) → returns (set_next p v) h Q.
Proof.
  intros [n Hn] HQ. unfold set_next, load, returns, mbind, M_bind. rewrite Hn. cbn.
  replace (<[p:=_]> h) with (alter (with_next v) p h); [done|].
  apply alter_eq_insert. by rewrite Hn.
Qed.

Lemma returns_set_prev Q :
  is_Some (h !! p) → Q () (alter (with_prev v) p h) → returns (set_prev p v) h Q.
Proof.
  intros [n Hn] HQ. unfold set_prev, load, returns, mbind, M_bind. rewrite Hn. cbn.
  replace (<[p:=_]> h) with (alter (with_prev v) p h); [done|].
  apply alter_eq_insert. by rewrite Hn.
Qed.
End field_rules.

(** Run the straight-line pointer code at the head of a [returns] goal. *)
Ltac ptr_step :=
  lazymatch goal with
  | |- returns (mbind _ _) _ _ => apply returns_bind
  | |- returns (mret _) _ _ => apply returns_ret
  | |- returns (get_next _) _ _ => eapply returns_get_next; [by eauto with heap|]
  | |- returns (get_prev _) _ _ => eapply returns_get_prev; [by eauto with heap|]
  | |- returns (set_next _ _) _ _ => apply returns_set_next; [by eauto 6 with heap|]
  | |- returns (set_prev _ _) _ _ => apply returns_set_prev; [by eauto 6 with heap|]
  end; cbv beta.

(** ** Segments *)

(** The node before the end of a segment, and the one after its start. *)
Fixpoint seg_last (a : Z) (xs : list Z) : Z :=
  match xs with [] => a | x :: xs => seg_last x xs end.
Definition seg_first (xs : list Z) (b : Z) : Z :=
  match xs with [] => b | x :: _ => x end.

Lemma seg_last_in a xs : seg_last a xs ∈ a :: xs.
Proof. revert a. induction xs as [|x xs IH]; intros a; cbn; set_solver. Qed.
Lemma seg_first_in xs b : seg_first xs b ∈ b :: xs.
Proof. destruct xs; cbn; set_solver. Qed.
Lemma seg_last_snoc a xs x : seg_last a (xs ++ [x]) = x.
Proof. revert a. induction xs as [|y xs IH]; intros a; cbn; auto. Qed.

Lemma seg_app h a xs y ys b : seg h a (xs ++ y :: ys) b ↔ seg h a xs y ∧ seg h y ys b.
Proof. revert a. induction xs as [|x xs IH]; intros a; cbn; [done|]. rewrite IH. tauto. Qed.

Lemma seg_link_last h a xs b : seg h a xs b → link h (seg_last a xs) b.
Proof. revert a. induction xs as [|x xs IH]; intros a; cbn; [done|]. intros [_ ?]. auto. Qed.

Lemma seg_link_first h a xs b : seg h a xs b → link h a (seg_first xs b).
Proof. destruct xs; cbn; [done|]. by intros []. Qed.

Lemma seg_frame h h' a xs b :
  (∀ y, y ∈ a :: xs → nx h' y = nx h y) →
  (∀ y, y ∈ xs ++ [b] → pv h' y = pv h y) →
  seg h a xs b → seg h' a xs b.
Proof.
  revert a. induction xs as [|x xs IH]; intros a Hn Hp; cbn; unfold link.
  - rewrite Hn, Hp by set_solver. done.
  - rewrite Hn, Hp by set_solver. intros [? ?]. split; [done|].
    apply IH; [|set_solver..|done]. set_solver.
Qed.

(** Swing the last link of a segment to a new end. *)
Lemma seg_set_end h h' a xs e n :
  NoDup (a :: xs) → seg h a xs e →
  link h' (seg_last a xs) n →
  (∀ y, y ∈ a :: xs → y ≠ seg_last a xs → nx h' y = nx h y) →
  (∀ y, y ∈ xs → pv h' y = pv h y) →
  seg h' a xs n.
Proof.
  revert a. induction xs as [|x xs IH]; intros a; cbn; [done|].
  intros [Ha Hnd]%NoDup_cons [[L1 L2] Hs] Hl Hn Hp.
  pose proof (seg_last_in x xs). split.
  - split; [rewrite Hn; [done|set_solver|set_solver]|rewrite Hp; [done|set_solver]].
  - apply IH; [done..| |]; set_solver.
Qed.

(** ** Circular lists *)

Lemma dll_frame h h' hd xs :
  (∀ y, y ∈ hd :: xs → h' !! y = h !! y) → dll h hd xs → dll h' hd xs.
Proof.
  intros He [Hnd Hs]. split; [done|].
  eapply seg_frame; [..|exact Hs]; intros y Hy; unfold nx, pv; rewrite He; done || set_solver.
Qed.

Lemma dll_nodes h hd xs y : dll h hd xs → y ∈ hd :: xs → is_Some (h !! y).
Proof.
  intros [_ Hs] [->|Hy]%elem_of_cons.
  - eapply link_l, seg_link_first, Hs.
  - apply list_elem_of_split in Hy as (l1 & l2 & ->).
    apply seg_app in Hs as [_ Hs]. eapply link_l, seg_link_first, Hs.
Qed.

(** The heap changes only inside [D]. *)
Definition same_outside (D : list Z) (h h' : heap) : Prop :=
  ∀ y, y ∉ D → h' !! y = h !! y.

Lemma same_outside_trans D h1 h2 h3 :
  same_outside D h1 h2 → same_outside D h2 h3 → same_outside D h1 h3.
Proof. intros H1 H2 y Hy. by rewrite H2, H1. Qed.

Lemma same_outside_alter D f p (h : heap) : p ∈ D → same_outside D h (alter f p h).
Proof. intros Hp y Hy. apply lookup_alter_ne. set_solver. Qed.

Lemma same_outside_weaken D D' h h' :
  same_outside D h h' → (∀ y, y ∈ D → y ∈ D') → same_outside D' h h'.
Proof. intros H Hs y Hy. apply H. auto. Qed.

Lemma dll_outside D h h' hd xs :
  same_outside D h h' → (∀ y, y ∈ hd :: xs → y ∉ D) → dll h hd xs → dll h' hd xs.
Proof. intros H HD. apply dll_frame. intros y Hy. apply H. auto. Qed.

Lemma outside_nx D h h' y : same_outside D h h' → y ∉ D → nx h' y = nx h y.
Proof. intros H Hy. unfold nx. by rewrite H. Qed.
Lemma outside_pv D h h' y : same_outside D h h' → y ∉ D → pv h' y = pv h y.
Proof. intros H Hy. unfold pv. by rewrite H. Qed.

(** What a write of [prev] at [n] and one of [next] at [p] leaves behind. *)
Definition relink (h : heap) (p n : Z) : heap :=
  alter (with_next n) p (alter (with_prev p) n h).

Lemma relink_nx h p n a :
  nx (relink h p n) a = if decide (p = a) then (λ _, n) <$> h !! a else nx h a.
Proof.
  unfold relink. rewrite nx_alter_next, nx_alter_prev. case_decide; [|done].
  rewrite lookup_alter. case_decide; subst; [|done]. by destruct (h !! a).
Qed.

Lemma relink_pv h p n a :
  pv (relink h p n) a = if decide (n = a) then (λ _, p) <$> h !! a else pv h a.
Proof. unfold relink. by rewrite pv_alter_next, pv_alter_prev. Qed.

Lemma relink_link h p n : is_Some (h !! p) → is_Some (h !! n) → link (relink h p n) p n.
Proof.
  intros [? Hp] [? Hn]. split; rewrite ?relink_nx, ?relink_pv, decide_True by done.
  - by rewrite Hp.
  - by rewrite Hn.
Qed.

Lemma relink_outside h p n : same_outside [p; n] h (relink h p n).
Proof.
  eapply same_outside_trans; apply same_outside_alter; set_solver.
Qed.

(** Cutting the circular list [hd, xs, e, ys] between the neighbours of [e]. *)
Lemma dll_relink h hd xs e ys :
  dll h hd (xs ++ e :: ys) →
  dll (relink h (seg_last hd xs) (seg_first ys hd)) hd (xs ++ ys).
Proof.
  intros [Hnd Hs]. apply seg_app in Hs as [H1 H2].
  pose proof (seg_link_last _ _ _ _ H1) as L1.
  pose proof (seg_link_first _ _ _ _ H2) as L2.
  set (p := seg_last hd xs) in *. set (n := seg_first ys hd) in *.
  assert (Hp : p ∈ hd :: xs) by apply seg_last_in.
  assert (Hnd' : NoDup ((hd :: xs) ++ e :: ys)) by done.
  apply NoDup_app in Hnd' as (Hx & Hxy & [Hey Hy]%NoDup_cons).
  split.
  { change (NoDup ((hd :: xs) ++ ys)). apply NoDup_app. split_and!; set_solver. }
  assert (Hl : link (relink h p n) p n) by (apply relink_link; eauto with heap).
  assert (Hxs : seg (relink h p n) hd xs n).
  { eapply (seg_set_end h); [done..|exact Hl| |]; intros y Hy' *.
    - intros Hne. rewrite relink_nx, decide_False; done.
    - rewrite relink_pv, decide_False; [done|]. subst n.
      destruct ys; cbn; [|set_solver]. apply NoDup_cons in Hx as [? _]. set_solver. }
  destruct ys as [|y ys]; cbn in n; subst n; [by rewrite app_nil_r|].
  apply seg_app. split; [done|]. destruct H2 as [_ H2].
  eapply seg_frame; [..|exact H2]; intros z Hz.
  - rewrite relink_nx, decide_False; [done|]. set_solver.
  - rewrite relink_pv, decide_False; [done|]. intros ->.
    apply elem_of_app in Hz as [Hz|Hz]; [by apply NoDup_cons in Hy as []|].
    set_solver.
Qed.

(** *** Effect of each operation *)

Lemma returns_list_empty h hd xs :
  dll h hd xs → returns (list_empty hd) h (λ b h', h' = h ∧ b = bool_decide (xs = [])).
Proof.
  intros [Hnd Hs]. unfold list_empty. pose proof (seg_link_first _ _ _ _ Hs) as [L _].
  repeat ptr_step. split; [done|]. destruct xs as [|x xs]; cbn.
  - apply Z.eqb_refl.
  - apply NoDup_cons in Hnd as [? _].
    apply Z.eqb_neq. set_solver.
Qed.

Lemma returns_list_init h l :
  is_Some (h !! l) →
  returns (list_init l) h (λ _ h', self_linked h' l ∧ same_outside [l] h h').
Proof.
  intros Hl. unfold list_init. repeat ptr_step. split.
  - destruct Hl as [n Hl]. unfold self_linked. rewrite !lookup_alter, !decide_True by done.
    by rewrite Hl.
  - eapply same_outside_trans; apply same_outside_alter; set_solver.
Qed.

Lemma self_linked_dll h l : self_linked h l → dll h l [].
Proof.
  intros H. split; [apply NoDup_singleton|]. split; unfold nx, pv; by rewrite H.
Qed.

Lemma returns_list_del h hd xs e ys :
  dll h hd (xs ++ e :: ys) →
  returns (list_del e) h (λ _ h',
    dll h' hd (xs ++ ys) ∧ same_outside (hd :: xs ++ ys) h h').
Proof.
  intros Hd. pose proof Hd as [Hnd Hs]. apply seg_app in Hs as [H1 H2].
  pose proof (seg_link_last _ _ _ _ H1) as [L1 L1'].
  pose proof (seg_link_first _ _ _ _ H2) as [L2 L2'].
  unfold list_del, __list_del. repeat ptr_step. split; [by apply dll_relink in Hd|].
  eapply same_outside_weaken; [apply relink_outside|].
  pose proof (seg_last_in hd xs). pose proof (seg_first_in ys hd). set_solver.
Qed.

Lemma returns_list_del_self h e :
  self_linked h e → returns (list_del e) h (λ _ h', h' = h).
Proof.
  intros He. assert (nx h e = Some e) by (unfold nx; by rewrite He).
  assert (pv h e = Some e) by (unfold pv; by rewrite He).
  unfold list_del, __list_del. repeat ptr_step. apply map_eq. intros i.
  rewrite !lookup_alter. repeat case_decide; subst; rewrite ?He; done.
Qed.

(** The heap after [__list_add entry prv nxt]. *)
Definition splice (h : heap) (e p n : Z) : heap :=
  alter (with_next e) p (alter (with_prev p) e (alter (with_next n) e (alter (with_prev e) n h))).

Lemma returns___list_add h e p n Q :
  is_Some (h !! e) → is_Some (h !! p) → is_Some (h !! n) →
  Q () (splice h e p n) → returns (__list_add e p n) h Q.
Proof. intros. unfold __list_add. repeat ptr_step. done. Qed.

Section splice.
Context (h : heap) (e p n : Z).

Lemma splice_outside : same_outside [e; p; n] h (splice h e p n).
Proof.
  unfold splice.
  repeat (eapply same_outside_trans; [|apply same_outside_alter; set_solver]). done.
Qed.

Lemma splice_nx y : y ≠ e → y ≠ p → nx (splice h e p n) y = nx h y.
Proof. intros. unfold splice. autorewrite with heap_rw. by rewrite !decide_False. Qed.

Lemma splice_pv y : y ≠ e → y ≠ n → pv (splice h e p n) y = pv h y.
Proof. intros. unfold splice. autorewrite with heap_rw. by rewrite !decide_False. Qed.

Hypotheses (He : is_Some (h !! e)) (Hp : is_Some (h !! p)) (Hn : is_Some (h !! n)).
Hypotheses (Hep : e ≠ p) (Hen : e ≠ n).

Lemma splice_link_l : link (splice h e p n) p e.
Proof.
  unfold splice. split; autorewrite with heap_rw; rewrite decide_True by done;
    apply fmap_const; eauto 6 with heap.
Qed.

Lemma splice_link_r : link (splice h e p n) e n.
Proof.
  unfold splice. split; autorewrite with heap_rw; rewrite decide_False, decide_True by done;
    apply fmap_const; eauto 6 with heap.
Qed.
End splice.

Lemma returns_list_add_tail h hd xs e :
  dll h hd xs → e ∉ hd :: xs → is_Some (h !! e) →
  returns (list_add_tail hd e) h (λ _ h',
    dll h' hd (xs ++ [e]) ∧ same_outside (hd :: xs ++ [e]) h h').
Proof.
  intros Hd He Hs. pose proof Hd as [Hnd H]. pose proof (seg_link_last _ _ _ _ H) as [L L'].
  pose proof (seg_last_in hd xs) as Hl.
  unfold list_add_tail. repeat ptr_step.
  assert (Hne : e ≠ seg_last hd xs) by set_solver.
  assert (Hne' : e ≠ hd) by set_solver.
  apply returns___list_add; [by eauto with heap..|]. split.
  - split.
    { change (NoDup ((hd :: xs) ++ [e])). apply NoDup_app.
      split_and!; [done|set_solver|apply NoDup_singleton]. }
    apply seg_app. split; [|by apply splice_link_r; eauto with heap].
    eapply (seg_set_end h); [done..| | |].
    + by apply splice_link_l; eauto with heap.
    + intros y ? ?. apply splice_nx; [set_solver|done].
    + intros y ?. apply splice_pv; [set_solver|]. intros ->. by apply NoDup_cons in Hnd as [].
  - eapply same_outside_weaken; [apply splice_outside|]. set_solver.
Qed.

Lemma returns_list_add h hd xs e :
  dll h hd xs → e ∉ hd :: xs → is_Some (h !! e) →
  returns (list_add hd e) h (λ _ h',
    dll h' hd (e :: xs) ∧ same_outside (hd :: e :: xs) h h').
Proof.
  intros Hd He Hs. pose proof Hd as [Hnd H]. pose proof (seg_link_first _ _ _ _ H) as [L L'].
  pose proof (seg_first_in xs hd) as Hf.
  unfold list_add. repeat ptr_step.
  assert (Hne : e ≠ seg_first xs hd) by set_solver.
  assert (Hne' : e ≠ hd) by set_solver.
  apply returns___list_add; [by eauto with heap..|]. split.
  - split.
    { apply NoDup_cons in Hnd as [? ?]. apply NoDup_cons. split; [set_solver|].
      apply NoDup_cons. split; [set_solver|done]. }
    split; [by apply splice_link_l; eauto with heap|].
    destruct xs as [|x xs]; [by apply splice_link_r; eauto with heap|].
    apply NoDup_cons in Hnd as [Hh Hnd]. apply NoDup_cons in Hnd as [Hx Hnd].
    split; [by apply splice_link_r; eauto with heap|]. destruct H as [_ H].
    eapply seg_frame; [..|exact H]; intros y Hy.
    + apply splice_nx; set_solver.
    + apply splice_pv; set_solver.
  - eapply same_outside_weaken; [apply splice_outside|]. set_solver.
Qed.

(** [e] is out of every list of [h] that matters to a move: either it was
    just unlinked from one, or it is self-linked. [returns_list_del_any]
    unifies the two cases for the callers. *)
Inductive unlinks (h : heap) (e : Z) (D : list Z) (P : heap → Prop) : Prop :=
  | unlinks_from hd xs ys :
      dll h hd (xs ++ e :: ys) → D = hd :: xs ++ ys →
      (∀ h', dll h' hd (xs ++ ys) → same_outside D h h' → P h') → unlinks h e D P
  | unlinks_self : self_linked h e → D = [] → P h → unlinks h e D P.

Lemma unlinks_node h e D P : unlinks h e D P → is_Some (h !! e) ∧ e ∉ D.
Proof.
  intros [hd xs ys Hd -> _|Hs -> _].
  - split; [eapply dll_nodes; [exact Hd|set_solver]|].
    destruct Hd as [Hnd _].
    assert (Hnd' : NoDup ((hd :: xs) ++ e :: ys)) by done.
    apply NoDup_app in Hnd' as (_ & Hx & [Hy _]%NoDup_cons). set_solver.
  - split; [by rewrite Hs|set_solver].
Qed.

Lemma returns_list_del_any h e D P :
  unlinks h e D P → returns (list_del e) h (λ _ h', P h' ∧ same_outside D h h').
Proof.
  intros [hd xs ys Hd -> HP|Hs -> HP].
  - ret_use returns_list_del; [exact Hd|]. intros _ h' [? ?]. auto.
  - ret_use returns_list_del_self; [exact Hs|]. by intros _ h' ->.
Qed.

Lemma returns_list_move_tail h hd xs e D :
  unlinks h e D (λ h', dll h' hd xs) → e ∉ hd :: xs →
  returns (list_move_tail hd e) h (λ _ h',
    dll h' hd (xs ++ [e]) ∧
    ∃ h1, same_outside D h h1 ∧ dll h1 hd xs ∧ same_outside (hd :: xs ++ [e]) h1 h').
Proof.
  intros Hu He. unfold list_move_tail. apply returns_bind.
  ret_use returns_list_del_any; [exact Hu|]. intros _ h1 [Hd Ho].
  apply unlinks_node in Hu as [Hs HeD].
  ret_use returns_list_add_tail; [exact Hd|done|by rewrite Ho|].
  intros _ h' [? ?]. eauto 6.
Qed.

Lemma returns_list_move h hd xs e D :
  unlinks h e D (λ h', dll h' hd xs) → e ∉ hd :: xs →
  returns (list_move hd e) h (λ _ h',
    dll h' hd (e :: xs) ∧
    ∃ h1, same_outside D h h1 ∧ dll h1 hd xs ∧ same_outside (hd :: e :: xs) h1 h').
Proof.
  intros Hu He. unfold list_move. apply returns_bind.
  ret_use returns_list_del_any; [exact Hu|]. intros _ h1 [Hd Ho].
  apply unlinks_node in Hu as [Hs HeD].
  ret_use returns_list_add; [exact Hd|done|by rewrite Ho|].
  intros _ h' [? ?]. eauto 6.
Qed.

(** Iterating over a well-formed list visits exactly its nodes in order, and
    one round per node is enough fuel. *)
Lemma returns_for_each_from h hd a xs fuel :
  seg h a xs hd → hd ∉ xs → (length xs <= fuel)%nat →
  ∀ n, nx h a = Some n →
  returns (list_for_each_from fuel n hd) h (λ r h', h' = h ∧ r = xs).
Proof.
  revert a fuel. induction xs as [|x xs IH]; intros a fuel Hs Hhd Hf n Hn; cbn in Hs.
  - destruct Hs as [L _]. assert (n = hd) as -> by congruence.
    destruct fuel; cbn; rewrite Z.eqb_refl; done.
  - destruct Hs as [[L _] Hs]. assert (n = x) as -> by congruence.
    destruct fuel as [|fuel]; [cbn in Hf; lia|].
    pose proof (seg_link_first _ _ _ _ Hs) as [L' _]. cbn.
    destruct (Z.eqb_spec x hd) as [->|]; [set_solver|]. repeat ptr_step.
    ret_use IH; [exact Hs|set_solver|cbn in Hf; lia|done|].
    by intros r h' [-> ->].
Qed.

Lemma returns_list_for_each h hd xs fuel :
  dll h hd xs → (length xs <= fuel)%nat →
  returns (list_for_each fuel hd) h (λ r h', h' = h ∧ r = xs).
Proof.
  intros [Hnd Hs] Hf. pose proof (seg_link_first _ _ _ _ Hs) as [L _].
  unfold list_for_each. repeat ptr_step.
  eapply returns_for_each_from; [done|by apply NoDup_cons in Hnd as []|done|done].
Qed.

(** ** No operation creates or destroys a node *)

Definition more_nodes (h h' : heap) : Prop := ∀ y, is_Some (h !! y) → is_Some (h' !! y).

#[export] Instance more_nodes_preorder : PreOrder more_nodes.
Proof. split; [by intros h y|]. intros h1 h2 h3 A B y Hy. by apply B, A. Qed.

Lemma more_nodes_load p : keeps more_nodes (load p).
Proof. intros h. unfold load. by destruct (h !! p). Qed.

Lemma more_nodes_insert p n : keeps more_nodes (modify (insert p n)).
Proof. intros h y Hy. cbn. rewrite lookup_insert. by case_decide. Qed.
#[export] Hint Resolve more_nodes_load more_nodes_insert : keeps.

Definition keeps_nodes {A} (m : M heap A) : Prop :=
  ∀ h Q, returns m h Q → returns m h (λ a h', Q a h' ∧ more_nodes h h').

(** From an operation's loads and stores. *)
Lemma keeps_nodes_intro {A} (m : M heap A) : keeps more_nodes m → keeps_nodes m.
Proof. intros Hm h Q HQ. by apply returns_keeps. Qed.

Ltac keeps_nodes :=
  apply keeps_nodes_intro;
  cbv [list_init list_empty __list_del list_del list_replace __list_add list_add
    list_add_tail list_move list_move_tail get_next get_prev set_next set_prev];
  keeps_steps.

Lemma keeps_list_del e : keeps_nodes (list_del e).
Proof. keeps_nodes. Qed.
Lemma keeps_list_add_tail hd e : keeps_nodes (list_add_tail hd e).
Proof. keeps_nodes. Qed.
Lemma keeps_list_move hd e : keeps_nodes (list_move hd e).
Proof. keeps_nodes. Qed.
Lemma keeps_list_move_tail hd e : keeps_nodes (list_move_tail hd e).
Proof. keeps_nodes. Qed.
