(* ===== verification/State.v ===== *)
(** The state of the memory manager that [frame.c], [mmu.c] and their callers
    share: the page array with its embedded list nodes, the counters and the
    lock, physical memory as the page tables see it, the page-table root and
    the kernel log. *)

From S2P Require Import Prelude Kernel KList.

Open Scope Z_scope.

(** [struct page] of [include/frame.h] without its two embedded lists, which
    live in the heap of list nodes at the offsets below. *)
Record page := Page {
  address : Z;
  flags : Z;
  data : Z;
  refs : Z;
}.

(** Field offsets and size of [struct page] (x86-64 System V layout). *)
Definition off_lru : Z := 32.
Definition off_pages : Z := 48.
Definition sizeof_page : Z := 64.

Definition P_FREE : Z := 0x01000.
Definition P_USED : Z := 0x02000.
Definition P_KERNEL : Z := 0x04000.
Definition P_USER : Z := 0x08000.
Definition P_VIRT : Z := 0x10000.
Definition P_PHYS : Z := 0x18000.
Definition P_IMMUTABLE : Z := 0x20000.

(** What [kernel_log], [printf] and a failing [assert] are asked to print. *)
Inductive arg := AInt (z : Z) | AStr (s : string).
Inductive log_entry :=
  | KLog (fmt : string) (args : list arg)
  | Print (fmt : string) (args : list arg)
  | AssertFailed (expr : string).

Record kstate := KState {
  lists : heap;            (** every [struct list] node, by address *)
  store : gmap Z page;     (** every [struct page], by address *)
  parray : Z;
  numpages : Z;
  num_free_pages : Z;
  num_used_pages : Z;
  page_lock : bool;
  ram : Z → Z;             (** 64-bit words of physical memory, by address *)
  cr3 : Z;
  PML4 : Z;                (** the static [struct page*] of mmu.c *)
  klog : list log_entry;   (** newest first *)
}.

Definition put_lists v s := KState v (store s) (parray s) (numpages s) (num_free_pages s)
  (num_used_pages s) (page_lock s) (ram s) (cr3 s) (PML4 s) (klog s).
Definition put_store v s := KState (lists s) v (parray s) (numpages s) (num_free_pages s)
  (num_used_pages s) (page_lock s) (ram s) (cr3 s) (PML4 s) (klog s).
Definition put_parray v s := KState (lists s) (store s) v (numpages s) (num_free_pages s)
  (num_used_pages s) (page_lock s) (ram s) (cr3 s) (PML4 s) (klog s).
Definition put_numpages v s := KState (lists s) (store s) (parray s) v (num_free_pages s)
  (num_used_pages s) (page_lock s) (ram s) (cr3 s) (PML4 s) (klog s).
Definition put_num_free v s := KState (lists s) (store s) (parray s) (numpages s) v
  (num_used_pages s) (page_lock s) (ram s) (cr3 s) (PML4 s) (klog s).
Definition put_num_used v s := KState (lists s) (store s) (parray s) (numpages s)
  (num_free_pages s) v (page_lock s) (ram s) (cr3 s) (PML4 s) (klog s).
Definition put_lock v s := KState (lists s) (store s) (parray s) (numpages s)
  (num_free_pages s) (num_used_pages s) v (ram s) (cr3 s) (PML4 s) (klog s).
Definition put_ram v s := KState (lists s) (store s) (parray s) (numpages s)
  (num_free_pages s) (num_used_pages s) (page_lock s) v (cr3 s) (PML4 s) (klog s).
Definition put_cr3 v s := KState (lists s) (store s) (parray s) (numpages s)
  (num_free_pages s) (num_used_pages s) (page_lock s) (ram s) v (PML4 s) (klog s).
Definition put_PML4 v s := KState (lists s) (store s) (parray s) (numpages s)
  (num_free_pages s) (num_used_pages s) (page_lock s) (ram s) (cr3 s) v (klog s).
Definition put_klog v s := KState (lists s) (store s) (parray s) (numpages s)
  (num_free_pages s) (num_used_pages s) (page_lock s) (ram s) (cr3 s) (PML4 s) v.

(** The list operations, run on the heap of the kernel state. *)
Definition on_lists {A} (m : M heap A) : M kstate A := zoom lists put_lists m.

(** [kernel_log], [printf] and [assert]: an assertion that fails prints a
    message and execution goes on (include/assert.h). *)
Definition kernel_log (fmt : string) (args : list arg) : M kstate () :=
  modify (λ s : kstate, put_klog (KLog fmt args :: klog s) s).
Definition printf (fmt : string) (args : list arg) : M kstate () :=
  modify (λ s : kstate, put_klog (Print fmt args :: klog s) s).
Definition assert (e : bool) (expr : string) : M kstate () :=
  if e then skip else modify (λ s : kstate, put_klog (AssertFailed expr :: klog s) s).

(** The static spin lock of frame.c, on one processor: acquiring it while it
    is held never returns. *)
Definition lock_init : M kstate () := modify (put_lock false).
Definition lock_acquire : M kstate () :=
  l ← gets page_lock; if (l : bool) then throw Deadlock else modify (put_lock true).
Definition lock_release : M kstate () := modify (put_lock false).

(** Field accesses through a [struct page*]. *)
Definition load_page (p : Z) : M kstate page := λ s,
  if p =? 0 then Err NullDeref s else
  match store s !! p with
  | Some pg => Ok pg s
  | None => Err (BadPointer p) s
  end.
Definition store_page (p : Z) (f : page → page) : M kstate () :=
  pg ← load_page p; modify (λ s : kstate, put_store (<[p:=f pg]> (store s)) s).

Definition with_address v pg := Page v (flags pg) (data pg) (refs pg).
Definition with_flags v pg := Page (address pg) v (data pg) (refs pg).
Definition with_data v pg := Page (address pg) (flags pg) v (refs pg).

Lemma returns_load_page s p pg (Q : page → kstate → Prop) :
  p ≠ 0 → store s !! p = Some pg → Q pg s → returns (load_page p) s Q.
Proof.
  intros Hp Hs HQ. unfold load_page, returns.
  destruct (Z.eqb_spec p 0); [done|]. by rewrite Hs.
Qed.

Lemma returns_store_page s p f pg (Q : () → kstate → Prop) :
  p ≠ 0 → store s !! p = Some pg → Q () (put_store (<[p:=f pg]> (store s)) s) →
  returns (store_page p f) s Q.
Proof.
  intros Hp Hs HQ. unfold store_page. apply returns_bind.
  eapply returns_load_page; [done..|]. by apply returns_modify.
Qed.

Lemma returns_on_lists {A} (m : M heap A) s (Q : A → kstate → Prop) :
  returns m (lists s) (λ a h, Q a (put_lists h s)) → returns (on_lists m) s Q.
Proof. apply returns_zoom. Qed.

Lemma returns_assert e expr s (Q : () → kstate → Prop) :
  e = true → Q () s → returns (assert e expr) s Q.
Proof. by intros ->. Qed.

Lemma returns_lock_acquire s (Q : () → kstate → Prop) :
  page_lock s = false → Q () (put_lock true s) → returns lock_acquire s Q.
Proof.
  intros Hl HQ. unfold lock_acquire. apply returns_bind, returns_gets. by rewrite Hl.
Qed.

(** Straight-line steps on the kernel state. *)
Ltac k_step :=
  lazymatch goal with
  | |- returns (kernel_log _ _) _ _ => apply returns_modify
  | |- returns (printf _ _) _ _ => apply returns_modify
  | |- returns lock_release _ _ => apply returns_modify
  | |- returns lock_init _ _ => apply returns_modify
  | |- returns lock_acquire _ _ => apply returns_lock_acquire; [done|]
  | |- returns (on_lists _) _ _ => apply returns_on_lists; cbn [lists]
  | _ => ret_step
  end; cbv beta.
Ltac k_steps := repeat k_step.
