(* ===== verification/Paging.v ===== *)
(** Page-table entries, indices and the memory accesses the paging code makes
    ([include/arch/x86_64/mmu.h] and the first half of [src/mmu.c]):
    [mmu_recursive], [get_cr3] and [mmu_bootstrap].

    The processor's address translation is not code of the repository. It is
    the class [MMU]: a function from the tables in memory to the translation
    of an address, with the part of the documented four-level walk that the
    code relies on as its laws. [x86_walk] is an executable instance. *)

From S2P Require Import Prelude Kernel KList State.

Open Scope Z_scope.

(** ** mmu.h *)

Definition PRESENT : Z := Z.shiftl 1 0.
Definition RW : Z := Z.shiftl 1 1.
Definition USER : Z := Z.shiftl 1 2.
Definition PS : Z := Z.shiftl 1 7.

Definition PML4E (x : Z) : Z := Z.land (Z.shiftr x 39) 0x1FF.
Definition PDPTE (x : Z) : Z := Z.land (Z.shiftr x 30) 0x1FF.
Definition PDE (x : Z) : Z := Z.land (Z.shiftr x 21) 0x1FF.
Definition PTE (x : Z) : Z := Z.land (Z.shiftr x 12) 0x1FF.

(** Recursive page mapping slot. *)
Definition MMU_RE : Z := 0x180.

(** ** The processor *)

(** Addresses whose bits 63..48 copy bit 47. *)
Definition canonical (va : Z) : bool :=
  ((0 <=? va) && (va <? 2 ^ 47)) || ((2 ^ 64 - 2 ^ 47 <=? va) && (va <? 2 ^ 64)).

Definition present (e : Z) : bool := nz (Z.land e PRESENT).
Definition large (e : Z) : bool := nz (Z.land e PS).
(** Bits 51..12 of an entry: the frame it points to. *)
Definition entry_addr (e : Z) : Z := Z.land e 0x000FFFFFFFFFF000.

(** The physical address of the page-directory entry, and of the page-table
    entry, that the walk for [va] ends at when every level above is present
    and none of them maps a large page. *)
Definition dir_slot (ram : Z → Z) (cr3 va : Z) : option Z :=
  let e4 := ram (entry_addr cr3 + 8 * PML4E va) in
  if present e4 && negb (large e4) then
    let e3 := ram (entry_addr e4 + 8 * PDPTE va) in
    if present e3 && negb (large e3) then Some (entry_addr e3 + 8 * PDE va) else None
  else None.

Definition leaf_slot (ram : Z → Z) (cr3 va : Z) : option Z :=
  match dir_slot ram cr3 va with
  | Some a =>
      let e2 := ram a in
      if present e2 && negb (large e2) then Some (entry_addr e2 + 8 * PTE va) else None
  | None => None
  end.

(** What the code relies on of the processor's translation of supervisor
    accesses: four-kilobyte and two-megabyte mappings. *)
Class MMU := {
  translate : (Z → Z) → Z → Z → option Z;
  translate_4k ram cr3 va a :
    canonical va = true → leaf_slot ram cr3 va = Some a → present (ram a) = true →
    translate ram cr3 va = Some (entry_addr (ram a) + va mod 2 ^ 12);
  translate_2m ram cr3 va a :
    canonical va = true → dir_slot ram cr3 va = Some a → present (ram a) = true →
    large (ram a) = true →
    translate ram cr3 va = Some (Z.land (ram a) 0x000FFFFFFFE00000 + va mod 2 ^ 21);
}.

(** The executable walk. One-gigabyte pages and reserved bits fault here; the
    laws say nothing about them. *)
Definition walk (ram : Z → Z) (cr3 va : Z) : option Z :=
  if canonical va then
    match dir_slot ram cr3 va with
    | Some a =>
        let e2 := ram a in
        if present e2 then
          if large e2 then Some (Z.land e2 0x000FFFFFFFE00000 + va mod 2 ^ 21)
          else
            let e1 := ram (entry_addr e2 + 8 * PTE va) in
            if present e1 then Some (entry_addr e1 + va mod 2 ^ 12) else None
        else None
    | None => None
    end
  else None.

Definition x86_walk : MMU.
Proof.
  refine {| translate := walk |}.
  - intros ram cr3 va a Hc Hl Hp. unfold walk, leaf_slot in *. rewrite Hc.
    destruct (dir_slot ram cr3 va) as [d|]; [|done].
    destruct (present (ram d)), (large (ram d)); cbn in Hl; try done.
    injection Hl as <-. by rewrite Hp.
  - intros ram cr3 va a Hc Hl Hp Hs. unfold walk. by rewrite Hc, Hl, Hp, Hs.
Defined.

(** ** Memory accesses *)

(** Update one 64-bit word of physical memory. *)
Definition ram_set (ram : Z → Z) (pa v : Z) : Z → Z :=
  λ a, if a =? pa then v else ram a.

Lemma ram_set_eq ram pa v : ram_set ram pa v pa = v.
Proof. unfold ram_set. by rewrite Z.eqb_refl. Qed.
Lemma ram_set_ne ram pa v a : a ≠ pa → ram_set ram pa v a = ram a.
Proof. unfold ram_set. intros. by destruct (Z.eqb_spec a pa). Qed.

Section access.
Context `{MMU}.

(** [*va] and [*va = v] for a [size_t* va]. *)
Definition mem_read (va : Z) : M kstate Z := λ s,
  match translate (ram s) (cr3 s) va with
  | Some pa => Ok (ram s pa) s
  | None => Err (PageFault va) s
  end.
Definition mem_write (va v : Z) : M kstate () := λ s,
  match translate (ram s) (cr3 s) va with
  | Some pa => Ok () (put_ram (ram_set (ram s) pa v) s)
  | None => Err (PageFault va) s
  end.

(** [table[i]] and [table[i] = v] for a [size_t* table]. *)
Definition read_entry (table i : Z) : M kstate Z :=
  if table =? 0 then throw NullDeref else mem_read (u64 (table + 8 * i)).
Definition write_entry (table i v : Z) : M kstate () :=
  if table =? 0 then throw NullDeref else mem_write (u64 (table + 8 * i)) v.
End access.

(** ** mmu.c *)

Definition mmu_recursive (pml4 pdp pd pt : Z) : Z :=
  let ret := u64 (Z.shiftl pml4 39) in
  let ret := if nz (Z.land ret (Z.shiftl 1 47)) then Z.lor ret 0xFFFF000000000000 else ret in
  let ret := Z.lor ret (u64 (Z.shiftl pdp 30)) in
  let ret := Z.lor ret (u64 (Z.shiftl pd 21)) in
  Z.lor ret (u64 (Z.shiftl pt 12)).

Definition get_cr3 : M kstate Z := gets cr3.

(** [for (i = 0; i < physical; i += 0x200000)]: the number of rounds. *)
Definition bootstrap_rounds (physical : Z) : nat := Z.to_nat ((physical + 0x1FFFFF) / 0x200000).

Definition mmu_bootstrap `{MMU} (physical pml4 pdpt pd : Z) : M kstate () :=
  kernel_log "[mmu ] bootstrap %#x, pml4 %#x\n" [AInt physical; AInt pml4];;
  write_entry pml4 (PML4E KERNEL_VIRT) (Z.lor pdpt (Z.lor PRESENT RW));;
  write_entry pml4 MMU_RE (Z.lor pml4 (Z.lor PRESENT RW));;
  write_entry pdpt (PDPTE physical) (Z.lor pd (Z.lor PRESENT RW));;
  write_entry pdpt (PDPTE KERNEL_VIRT) (Z.lor pd (Z.lor PRESENT RW));;
  for_up (bootstrap_rounds physical) 0 0x00200000 (λ i,
    write_entry pd (PDE i) (Z.lor i (Z.lor PRESENT (Z.lor RW PS))));;
  modify (put_cr3 pml4).

(** ** Index arithmetic *)

Lemma PML4E_spec x : PML4E x = x / 2 ^ 39 mod 512.
Proof. unfold PML4E. change 0x1FF with (2 ^ 9 - 1). by rewrite field_spec. Qed.
Lemma PDPTE_spec x : PDPTE x = x / 2 ^ 30 mod 512.
Proof. unfold PDPTE. change 0x1FF with (2 ^ 9 - 1). by rewrite field_spec. Qed.
Lemma PDE_spec x : PDE x = x / 2 ^ 21 mod 512.
Proof. unfold PDE. change 0x1FF with (2 ^ 9 - 1). by rewrite field_spec. Qed.
Lemma PTE_spec x : PTE x = x / 2 ^ 12 mod 512.
Proof. unfold PTE. change 0x1FF with (2 ^ 9 - 1). by rewrite field_spec. Qed.

Lemma PML4E_bounds x : 0 <= PML4E x < 512.
Proof. rewrite PML4E_spec. dlia. Qed.
Lemma PDPTE_bounds x : 0 <= PDPTE x < 512.
Proof. rewrite PDPTE_spec. dlia. Qed.
Lemma PDE_bounds x : 0 <= PDE x < 512.
Proof. rewrite PDE_spec. dlia. Qed.
Lemma PTE_bounds x : 0 <= PTE x < 512.
Proof. rewrite PTE_spec. dlia. Qed.
#[export] Hint Resolve PML4E_bounds PDPTE_bounds PDE_bounds PTE_bounds : words.

(** The sign extension of bit 47. *)
Definition sign_ext (pml4 : Z) : Z := if pml4 <? 256 then 0 else 0xFFFF000000000000.

Lemma mmu_recursive_val a b c d :
  0 <= a < 512 → 0 <= b < 512 → 0 <= c < 512 → 0 <= d < 512 →
  mmu_recursive a b c d = sign_ext a + a * 2 ^ 39 + b * 2 ^ 30 + c * 2 ^ 21 + d * 2 ^ 12.
Proof.
  intros Ha Hb Hc Hd. unfold mmu_recursive. rewrite !Z.shiftl_mul_pow2 by lia.
  rewrite (wrap_small 64 (a * _)), (wrap_small 64 (b * _)), (wrap_small 64 (c * _)),
    (wrap_small 64 (d * _)) by lia.
  assert (Hbit : nz (Z.land (a * 2 ^ 39) (1 * 2 ^ 47)) = negb (a <? 256)).
  { rewrite Z.mul_1_l, land_pow2_testbit, Z.mul_pow2_bits by lia.
    change (47 - 39) with 8. rewrite Z.testbit_eqb by lia.
    destruct (Z.ltb_spec a 256); cbn; [apply Z.eqb_neq|apply Z.eqb_eq]; dlia. }
  rewrite Hbit.
  assert (Hs : (if negb (a <? 256) then Z.lor (a * 2 ^ 39) 0xFFFF000000000000 else a * 2 ^ 39)
               = a * 2 ^ 39 + sign_ext a).
  { unfold sign_ext. destruct (Z.ltb_spec a 256); cbn [negb]; [lia|].
    change 0xFFFF000000000000 with (0xFFFF * 2 ^ 48). rewrite lor_add; lia. }
  rewrite Hs. unfold sign_ext.
  assert (Hm : (if a <? 256 then 0 else 0xFFFF000000000000) mod 2 ^ 39 = 0) by by destruct (a <? 256).
  set (e := if a <? 256 then 0 else 0xFFFF000000000000) in *. clearbody e.
  rewrite (lor_add' 39 (b * 2 ^ 30)) by dlia.
  rewrite (lor_add' 30 (c * 2 ^ 21)) by dlia.
  rewrite (lor_add' 21 (d * 2 ^ 12)) by dlia. lia.
Qed.

Section recursive_fields.
Context (a b c d o : Z).
Hypotheses (Ha : 0 <= a < 512) (Hb : 0 <= b < 512) (Hc : 0 <= c < 512) (Hd : 0 <= d < 512).
Hypothesis (Ho : 0 <= o < 4096).

Lemma mmu_recursive_PML4E : PML4E (mmu_recursive a b c d + o) = a.
Proof.
  rewrite mmu_recursive_val, PML4E_spec by done. unfold sign_ext.
  destruct (Z.ltb_spec a 256); dlia.
Qed.
Lemma mmu_recursive_PDPTE : PDPTE (mmu_recursive a b c d + o) = b.
Proof.
  rewrite mmu_recursive_val, PDPTE_spec by done. unfold sign_ext.
  destruct (Z.ltb_spec a 256); dlia.
Qed.
Lemma mmu_recursive_PDE : PDE (mmu_recursive a b c d + o) = c.
Proof.
  rewrite mmu_recursive_val, PDE_spec by done. unfold sign_ext.
  destruct (Z.ltb_spec a 256); dlia.
Qed.
Lemma mmu_recursive_PTE : PTE (mmu_recursive a b c d + o) = d.
Proof.
  rewrite mmu_recursive_val, PTE_spec by done. unfold sign_ext.
  destruct (Z.ltb_spec a 256); dlia.
Qed.
Lemma mmu_recursive_offset : (mmu_recursive a b c d + o) mod 2 ^ 12 = o.
Proof.
  rewrite mmu_recursive_val by done. unfold sign_ext. destruct (Z.ltb_spec a 256); dlia.
Qed.
Lemma mmu_recursive_canonical : canonical (mmu_recursive a b c d + o) = true.
Proof.
  rewrite mmu_recursive_val by done. unfold sign_ext, canonical.
  destruct (Z.ltb_spec a 256); lia.
Qed.
Lemma mmu_recursive_u64 : u64 (mmu_recursive a b c d + o) = mmu_recursive a b c d + o.
Proof.
  apply wrap_small. rewrite mmu_recursive_val by done. unfold sign_ext.
  destruct (Z.ltb_spec a 256); lia.
Qed.
Lemma mmu_recursive_nonzero : 0 < a → mmu_recursive a b c d ≠ 0.
Proof.
  rewrite mmu_recursive_val by done. unfold sign_ext. destruct (Z.ltb_spec a 256); lia.
Qed.
End recursive_fields.

(** A canonical address is the recursive combination of its four indices and
    its page offset. *)
Lemma mmu_recursive_split va :
  canonical va = true →
  va = mmu_recursive (PML4E va) (PDPTE va) (PDE va) (PTE va) + va mod 2 ^ 12.
Proof.
  intros Hc. rewrite mmu_recursive_val by auto with words.
  rewrite PML4E_spec, PDPTE_spec, PDE_spec, PTE_spec. unfold sign_ext, canonical in *.
  destruct (Z.ltb_spec (va / 2 ^ 39 mod 512) 256); dlia.
Qed.

(** ** Entries *)

Lemma entry_addr_spec e : entry_addr e = e / 2 ^ 12 mod 2 ^ 40 * 2 ^ 12.
Proof.
  unfold entry_addr. change 0x000FFFFFFFFFF000 with ((2 ^ 40 - 1) * 2 ^ 12).
  by rewrite land_field_in_place.
Qed.

Lemma entry_addr_aligned e : entry_addr e mod 4096 = 0.
Proof. rewrite entry_addr_spec. dlia. Qed.

Lemma entry_addr_bounds e : 0 <= entry_addr e < 2 ^ 52.
Proof. rewrite entry_addr_spec. dlia. Qed.

Lemma entry_addr_id pa : pa mod 4096 = 0 → 0 <= pa < 2 ^ 52 → entry_addr pa = pa.
Proof. rewrite entry_addr_spec. dlia. Qed.

Lemma entry_addr_or pa f :
  pa mod 4096 = 0 → 0 <= pa < 2 ^ 52 → 0 <= f < 4096 → entry_addr (Z.lor pa f) = pa.
Proof. intros. rewrite (lor_add' 12) by (done || lia). rewrite entry_addr_spec. dlia. Qed.

Lemma present_testbit e : present e = Z.testbit e 0.
Proof. unfold present, PRESENT. by apply (land_pow2_testbit e 0). Qed.
Lemma large_testbit e : large e = Z.testbit e 7.
Proof. unfold large, PS. by apply (land_pow2_testbit e 7). Qed.

Lemma present_or pa f : pa mod 4096 = 0 → present (Z.lor pa f) = present f.
Proof. intros. rewrite !present_testbit. by apply (testbit_lor_low 12). Qed.
Lemma large_or pa f : pa mod 4096 = 0 → large (Z.lor pa f) = large f.
Proof. intros. rewrite !large_testbit. by apply (testbit_lor_low 12). Qed.

(** The entry [((size_t) p) | (PRESENT | RW)] that links a table. *)
Definition table_entry (pa : Z) : Z := Z.lor pa (Z.lor PRESENT RW).

Lemma table_entry_addr pa : pa mod 4096 = 0 → 0 <= pa < 2 ^ 52 → entry_addr (table_entry pa) = pa.
Proof. intros. by apply entry_addr_or. Qed.
Lemma table_entry_step pa : pa mod 4096 = 0 →
  present (table_entry pa) && negb (large (table_entry pa)) = true.
Proof. intros. unfold table_entry. by rewrite present_or, large_or. Qed.
Lemma table_entry_round pa : pa mod 4096 = 0 → ROUND_DOWN (table_entry pa) PAGE_SIZE = pa.
Proof. intros. by apply ROUND_DOWN_entry. Qed.

(** A frame of RAM that holds a table: page-aligned and below the part of
    memory whose [P2V] address is unique. *)
Definition frame_ok (pa : Z) : Prop := pa mod 4096 = 0 ∧ 0 <= pa < 2 ^ 31.

(** Entry slots of different frames, or different indices, do not overlap. *)
Lemma slot_inj f g i j :
  f mod 4096 = 0 → g mod 4096 = 0 → 0 <= i < 512 → 0 <= j < 512 →
  f + 8 * i = g + 8 * j → f = g ∧ i = j.
Proof. intros. assert (f = g) by dlia. lia. Qed.

(** ** The direct map that mmu_bootstrap builds *)

Section bootstrap.
Context `{MMU}.

Lemma returns_write_entry s table i v pa (Q : () → kstate → Prop) :
  table ≠ 0 → translate (ram s) (cr3 s) (u64 (table + 8 * i)) = Some pa →
  Q () (put_ram (ram_set (ram s) pa v) s) → returns (write_entry table i v) s Q.
Proof.
  intros Ht Htr HQ. unfold write_entry. destruct (Z.eqb_spec table 0); [done|].
  unfold returns, mem_write. by rewrite Htr.
Qed.

Lemma returns_read_entry s table i pa (Q : Z → kstate → Prop) :
  table ≠ 0 → translate (ram s) (cr3 s) (u64 (table + 8 * i)) = Some pa →
  Q (ram s pa) s → returns (read_entry table i) s Q.
Proof.
  intros Ht Htr HQ. unfold read_entry. destruct (Z.eqb_spec table 0); [done|].
  unfold returns, mem_read. by rewrite Htr.
Qed.

(** Memory [r] differs from [r0] only inside the frames [fs]. *)
Definition only_frames (fs : list Z) (r0 r : Z → Z) : Prop :=
  ∀ a, (∀ f i, f ∈ fs → 0 <= i < 512 → a ≠ f + 8 * i) → r a = r0 a.

Lemma only_frames_set fs r0 r f i v :
  only_frames fs r0 r → f ∈ fs → 0 <= i < 512 → only_frames fs r0 (ram_set r (f + 8 * i) v).
Proof.
  intros Ho Hf Hi a Ha. rewrite ram_set_ne by (by apply Ha). by apply Ho.
Qed.

(** The frames [fs] are reachable at their physical addresses, whatever is
    written into them: the identity mapping of low memory that the boot
    loader sets up, whose tables lie elsewhere. *)
Definition identity_mapped (r0 : Z → Z) (c : Z) (fs : list Z) : Prop :=
  ∀ r f i, only_frames fs r0 r → f ∈ fs → 0 <= i < 512 →
    translate r c (f + 8 * i) = Some (f + 8 * i).

(** After the first [n] rounds of the loop. *)
Definition boot_tables (r : Z → Z) (pml4 pdpt pd : Z) (n : Z) : Prop :=
  r (pml4 + 8 * 511) = table_entry pdpt ∧
  r (pml4 + 8 * MMU_RE) = table_entry pml4 ∧
  r (pdpt + 8 * 510) = table_entry pd ∧
  ∀ k, 0 <= k < n → r (pd + 8 * k) = Z.lor (k * 0x200000) (Z.lor PRESENT (Z.lor RW PS)).

(** The slots the bootstrap writes; the rest of memory [r] is as in [r0]. *)
Definition boot_slot (pml4 pdpt pd physical n a : Z) : Prop :=
  a = pml4 + 8 * 511 ∨ a = pml4 + 8 * MMU_RE ∨ a = pdpt + 8 * PDPTE physical ∨
  a = pdpt + 8 * 510 ∨ ∃ k, 0 <= k < n ∧ a = pd + 8 * k.
Definition boot_rest (r0 r : Z → Z) (pml4 pdpt pd physical n : Z) : Prop :=
  r (pdpt + 8 * PDPTE physical) = table_entry pd ∧
  ∀ a, ¬ boot_slot pml4 pdpt pd physical n a → r a = r0 a.

Lemma u64_slot f i : frame_ok f → 0 <= i < 512 → u64 (f + 8 * i) = f + 8 * i.
Proof. intros [_ ?] ?. apply wrap_small. lia. Qed.

(** Indices of the higher-half address of a low physical address. *)
Lemma P2V_indices a : 0 <= a < 2 ^ 30 →
  canonical (P2V a) = true ∧ PML4E (P2V a) = 511 ∧ PDPTE (P2V a) = 510 ∧
  PDE (P2V a) = a / 2 ^ 21 ∧ P2V a mod 2 ^ 21 = a mod 2 ^ 21.
Proof.
  intros Ha. rewrite P2V_add by lia. rewrite PML4E_spec, PDPTE_spec, PDE_spec.
  unfold canonical, KERNEL_VIRT. split_and!; dlia.
Qed.

(** The two-megabyte entry of round [k]. *)
Definition big_entry (k : Z) : Z := Z.lor (k * 0x200000) (Z.lor PRESENT (Z.lor RW PS)).

Lemma big_entry_spec k : 0 <= k < 512 →
  present (big_entry k) = true ∧ large (big_entry k) = true ∧
  Z.land (big_entry k) 0x000FFFFFFFE00000 = k * 2 ^ 21.
Proof.
  intros Hk. unfold big_entry. rewrite present_or, large_or by dlia. split_and!; [done..|].
  change 0x000FFFFFFFE00000 with ((2 ^ 31 - 1) * 2 ^ 21).
  rewrite land_field_in_place by lia. change (Z.lor PRESENT (Z.lor RW PS)) with 0x83.
  rewrite (lor_add' 21 0x83) by dlia. dlia.
Qed.

Lemma boot_tables_translate r pml4 pdpt pd n a :
  frame_ok pml4 → frame_ok pdpt → frame_ok pd → 0 <= n <= 512 →
  boot_tables r pml4 pdpt pd n → 0 <= a < n * 2 ^ 21 → translate r pml4 (P2V a) = Some a.
Proof.
  intros [A4 B4] [A3 B3] [A2 B2] Hn (H4 & _ & H3 & H2) Ha.
  destruct (P2V_indices a) as (Hc & I4 & I3 & I2 & Ho); [lia|].
  set (k := a / 2 ^ 21) in *. assert (Hk : 0 <= k < n) by dlia.
  destruct (big_entry_spec k) as (Hp & Hl & Haddr); [lia|].
  specialize (H2 k Hk). change (Z.lor (k * 0x200000) _) with (big_entry k) in H2.
  rewrite (translate_2m r pml4 (P2V a) (pd + 8 * k)).
  - rewrite H2, Haddr, Ho. f_equal. subst k. dlia.
  - done.
  - unfold dir_slot. rewrite (entry_addr_id pml4), I4, H4, table_entry_step by (done || lia).
    rewrite table_entry_addr, I3, H3, table_entry_step by (done || lia).
    by rewrite table_entry_addr, I2 by (done || lia).
  - by rewrite H2.
  - by rewrite H2.
Qed.

(** The allocator's part of the state is untouched. *)
Definition only_paging (s t : kstate) : Prop :=
  ∃ r c k, t = put_klog k (put_cr3 c (put_ram r s)).

(** State of the bootstrap after [n] rounds, started in [s]. *)
Definition boot_inv (s : kstate) (physical pml4 pdpt pd n : Z) (t : kstate) : Prop :=
  only_paging s t ∧ cr3 t = cr3 s ∧ boot_tables (ram t) pml4 pdpt pd n ∧
  only_frames [pml4; pdpt; pd] (ram s) (ram t) ∧
  boot_rest (ram s) (ram t) pml4 pdpt pd physical n.

Lemma boot_rest_round r0 r pml4 pdpt pd physical n :
  frame_ok pdpt → frame_ok pd → pdpt ≠ pd → 0 <= n < 512 →
  boot_rest r0 r pml4 pdpt pd physical n →
  boot_rest r0 (ram_set r (pd + 8 * n) (big_entry n)) pml4 pdpt pd physical (n + 1).
Proof.
  intros [A3 _] [A2 _] Hne Hn [Hp Hr]. pose proof (PDPTE_bounds physical). split.
  - rewrite ram_set_ne; [done|]. intros [? _]%slot_inj; done.
  - intros a Ha. rewrite ram_set_ne.
    + apply Hr. intros Hs. apply Ha. unfold boot_slot in *.
      destruct Hs as [?|[?|[?|[?|(k & ? & ?)]]]]; [tauto..|].
      right; right; right; right. exists k. split; [lia|done].
    + intros ->. apply Ha. right; right; right; right. exists n. split; [lia|done].
Qed.

Lemma returns_write_frame s r0 fs f i v (Q : () → kstate → Prop) :
  identity_mapped r0 (cr3 s) fs → only_frames fs r0 (ram s) → f ∈ fs →
  frame_ok f → f ≠ 0 → 0 <= i < 512 →
  (only_frames fs r0 (ram_set (ram s) (f + 8 * i) v) →
     Q () (put_ram (ram_set (ram s) (f + 8 * i) v) s)) →
  returns (write_entry f i v) s Q.
Proof.
  intros Hid Ho Hf Hok Hnz Hi HQ. eapply returns_write_entry; [done| |].
  - rewrite u64_slot by done. by apply Hid.
  - by apply HQ, only_frames_set.
Qed.

Lemma boot_tables_round r pml4 pdpt pd n :
  frame_ok pml4 → frame_ok pdpt → frame_ok pd → NoDup [pml4; pdpt; pd] → 0 <= n < 512 →
  boot_tables r pml4 pdpt pd n →
  boot_tables (ram_set r (pd + 8 * n) (big_entry n)) pml4 pdpt pd (n + 1).
Proof.
  intros [A4 _] [A3 _] [A2 _] Hnd Hn (H4 & Hre & H3 & H2).
  apply NoDup_cons in Hnd as [N4 Hnd]. apply NoDup_cons in Hnd as [N3 _].
  assert (pml4 ≠ pd) by set_solver. assert (pdpt ≠ pd) by set_solver.
  unfold boot_tables, MMU_RE in *. split_and!.
  - by rewrite ram_set_ne by dlia.
  - by rewrite ram_set_ne by dlia.
  - by rewrite ram_set_ne by dlia.
  - intros k Hk. destruct (decide (k = n)) as [->|]; [by rewrite ram_set_eq|].
    rewrite ram_set_ne by lia. apply H2. lia.
Qed.

Lemma returns_mmu_bootstrap s physical pml4 pdpt pd :
  identity_mapped (ram s) (cr3 s) [pml4; pdpt; pd] →
  frame_ok pml4 → frame_ok pdpt → frame_ok pd → NoDup [0; pml4; pdpt; pd] →
  0 <= physical <= 2 ^ 30 →
  returns (mmu_bootstrap physical pml4 pdpt pd) s (λ _ s',
    cr3 s' = pml4 ∧
    boot_tables (ram s') pml4 pdpt pd (Z.of_nat (bootstrap_rounds physical)) ∧
    boot_rest (ram s) (ram s') pml4 pdpt pd physical (Z.of_nat (bootstrap_rounds physical)) ∧
    only_frames [pml4; pdpt; pd] (ram s) (ram s') ∧ only_paging s s').
Proof.
  intros Hid F4 F3 F2 Hnd Hp. apply NoDup_cons in Hnd as [Hz Hnd].
  assert (HN : 0 <= Z.of_nat (bootstrap_rounds physical) <= 512)
    by (unfold bootstrap_rounds; dlia).
  unfold mmu_bootstrap. change (PML4E KERNEL_VIRT) with 511. change (PDPTE KERNEL_VIRT) with 510.
  pose proof (PDPTE_bounds physical).
  assert (Hne : pml4 ≠ pdpt ∧ pml4 ≠ pd ∧ pdpt ≠ pd).
  { apply NoDup_cons in Hnd as [N4 Hnd']. apply NoDup_cons in Hnd' as [N3 _]. set_solver. }
  destruct Hne as (Ne1 & Ne2 & Ne3).
  do 2 k_step.
  assert (Ho : only_frames [pml4; pdpt; pd] (ram s) (ram s)) by done.
  do 4 (apply returns_bind; cbv beta;
    eapply (returns_write_frame _ (ram s) [pml4; pdpt; pd]);
    [exact Hid|eassumption|set_solver|done|set_solver|done || (cbv [MMU_RE]; lia)|intros ?; cbv beta]).
  apply returns_bind.
  apply (returns_for_up (λ i t, boot_inv s physical pml4 pdpt pd (i / 0x200000) t)).
  - split; [by destruct s; eexists _, _, _|]. split; [done|]. cbn [ram put_ram]. unfold boot_tables, MMU_RE.
    destruct F4, F3. split; [|split; [done|]].
    { split_and!; [..|dlia].
      - rewrite !ram_set_ne by dlia. by rewrite ram_set_eq.
      - rewrite !ram_set_ne by dlia. by rewrite ram_set_eq.
      - by rewrite ram_set_eq. }
    split.
    + destruct (decide (PDPTE physical = 510)) as [->|]; [by rewrite ram_set_eq|].
      rewrite ram_set_ne by lia. by rewrite ram_set_eq.
    + intros a Ha. unfold boot_slot, MMU_RE in Ha. rewrite !ram_set_ne by tauto. done.
  - intros k t Hk ((r & c & l & ->) & Hc & Ht & Ho' & Hrs).
    replace ((0 + k * 0x200000) / 0x200000) with k in Ht, Hrs by dlia.
    replace (0 + k * 0x200000) with (k * 0x200000) by lia.
    replace (PDE (k * 0x200000)) with k by (rewrite PDE_spec; dlia).
    eapply (returns_write_frame _ (ram s) [pml4; pdpt; pd]);
      [by rewrite Hc|done|set_solver|done|set_solver|lia|]. intros ?.
    split; [by eexists _, _, _|]. split; [done|].
    replace ((0 + (k + 1) * 0x200000) / 0x200000) with (k + 1) by dlia.
    split_and!; [apply boot_tables_round; done || lia|done|].
    apply boot_rest_round; done || lia.
  - intros t ((r & c & l & ->) & Hc & Ht & Ho' & Hrs). apply returns_modify.
    rewrite Z.add_0_l, Z.div_mul in Ht, Hrs by lia.
    split_and!; [done|done|done|done|by eexists _, _, _].
Qed.
End bootstrap.
