(* ===== verification/Bytes.v ===== *)
(** Byte-wise accesses to memory through the page tables: loads and stores of
    bytes, little-endian loads of wider fields, and the string instructions
    behind [memcpy] and [memset] ([lib/memcpy.asm], [lib/memset.asm]), on the
    64-bit words of [State.ram]. *)

From S2P Require Import Prelude Kernel KList State Paging.

Open Scope Z_scope.

(** ** Bytes of words *)

Definition byte_of (w k : Z) : Z := w / 2 ^ (8 * k) mod 2 ^ 8.
Definition set_byte (w k v : Z) : Z := w + (u8 v - byte_of w k) * 2 ^ (8 * k).

(** The byte at a physical address, and an update of it. *)
Definition ram_byte (ram : Z → Z) (pa : Z) : Z := byte_of (ram (pa / 8 * 8)) (pa mod 8).
Definition ram_set_byte (ram : Z → Z) (pa v : Z) : Z → Z :=
  ram_set ram (pa / 8 * 8) (set_byte (ram (pa / 8 * 8)) (pa mod 8) v).

Section bytes.
Context `{MMU}.

(** A read and a write through a [uint8_t* va]. *)
Definition load8 (va : Z) : M kstate Z := λ s,
  match translate (ram s) (cr3 s) va with
  | Some pa => Ok (ram_byte (ram s) pa) s
  | None => Err (PageFault va) s
  end.
Definition store8 (va v : Z) : M kstate () := λ s,
  match translate (ram s) (cr3 s) va with
  | Some pa => Ok () (put_ram (ram_set_byte (ram s) pa v) s)
  | None => Err (PageFault va) s
  end.

(** A field of [n] bytes. *)
Fixpoint load_bytes (n : nat) (va : Z) : M kstate Z :=
  match n with
  | O => mret 0
  | S n => b ← load8 va; v ← load_bytes n (u64 (va + 1)); mret (b + 256 * v)
  end.
Definition load16 : Z → M kstate Z := load_bytes 2.
Definition load32 : Z → M kstate Z := load_bytes 4.
Definition load64 : Z → M kstate Z := load_bytes 8.

(** [rep movsb] and [rep stosb] on [n] bytes. *)
Definition memcpy (dst src n : Z) : M kstate () :=
  for_range 0 n (λ i, b ← load8 (u64 (src + i)); store8 (u64 (dst + i)) b).
Definition memset (dst c n : Z) : M kstate () :=
  for_range 0 n (λ i, store8 (u64 (dst + i)) c).
End bytes.

(** ** Lemmas *)

Lemma byte_of_bounds w k : 0 <= byte_of w k < 2 ^ 8.
Proof. apply Z.mod_pos_bound. lia. Qed.

Lemma set_byte_same w k v : 0 <= k → byte_of (set_byte w k v) k = u8 v.
Proof.
  intros Hk. unfold set_byte, byte_of, wrap. rewrite Z.div_add by lia.
  set (q := w / 2 ^ (8 * k)). dlia.
Qed.

(** Other bytes keep their value. *)
Lemma set_byte_other w k j v : 0 <= k → 0 <= j → j ≠ k → byte_of (set_byte w k v) j = byte_of w j.
Proof.
  intros Hk Hj Hne. unfold set_byte. set (d := u8 v - byte_of w k).
  destruct (Z.lt_ge_cases j k) as [Hlt|Hge].
  - unfold byte_of. replace (8 * k) with (8 * j + 8 + 8 * (k - j - 1)) by lia.
    rewrite !Z.pow_add_r by lia. rewrite <- Z.mul_assoc, (Z.mul_comm (2 ^ (8 * j))), Z.mul_assoc, Z.div_add by lia.
    rewrite (Z.mul_comm (2 ^ 8)), Z.mul_assoc. apply Z.mod_add. lia.
  - assert (Ej : ∀ x, byte_of x j = x / 2 ^ (8 * (k + 1)) / 2 ^ (8 * (j - k - 1)) mod 2 ^ 8).
    { intros x. unfold byte_of. rewrite Z.div_div by lia. rewrite <- Z.pow_add_r by lia.
      do 3 f_equal. lia. }
    rewrite !Ej. do 2 f_equal.
    replace (8 * (k + 1)) with (8 * k + 8) by lia. rewrite Z.pow_add_r by lia.
    set (p := 2 ^ (8 * k)) in *. assert (0 < p) by (subst p; lia).
    rewrite <- !Z.div_div by lia. rewrite Z.div_add by lia.
    subst d. unfold byte_of, wrap. fold p. set (q := w / p). dlia.
Qed.

Lemma ram_byte_set ram pa v : ram_byte (ram_set_byte ram pa v) pa = u8 v.
Proof.
  unfold ram_byte, ram_set_byte. rewrite ram_set_eq. apply set_byte_same. dlia.
Qed.

Lemma ram_byte_set_ne ram pa v q : q ≠ pa → ram_byte (ram_set_byte ram pa v) q = ram_byte ram q.
Proof.
  intros Hne. unfold ram_byte, ram_set_byte.
  destruct (Z.eq_dec (q / 8) (pa / 8)) as [E|E].
  - rewrite E, ram_set_eq. apply set_byte_other; dlia.
  - rewrite ram_set_ne; [done|]. dlia.
Qed.

Lemma ram_byte_bounds ram pa : 0 <= ram_byte ram pa < 2 ^ 8.
Proof. apply byte_of_bounds. Qed.

(** Memories that agree on a frame have the same bytes there. *)
Lemma ram_byte_frame r r' f pa : f = pa / 4096 * 4096 →
  (∀ i, 0 <= i < 512 → r' (f + 8 * i) = r (f + 8 * i)) → ram_byte r' pa = ram_byte r pa.
Proof.
  intros -> He. unfold ram_byte. f_equal.
  replace (pa / 8 * 8) with (pa / 4096 * 4096 + 8 * (pa mod 4096 / 8)) by dlia. apply He. dlia.
Qed.

(** ** What memset and memcpy write *)

Section fill.
Context `{MMU}.

(** Byte [i] of the destination lies at the physical address [place i], in
    every state that satisfies [Inv], which writing the destination keeps. *)
Context (n : Z) (place : Z → Z) (Inv : kstate → Prop).
Hypothesis place_inj : ∀ i j, 0 <= i < n → 0 <= j < n → place i = place j → i = j.
Hypothesis write_inv : ∀ u i v, Inv u → 0 <= i < n →
  Inv (put_ram (ram_set_byte (ram u) (place i) v) u).

(** From [s] to [u], the first [k] bytes of the destination are set to
    [val], and no other byte is changed. *)
Definition filled (k : Z) (val : Z → Z) (s u : kstate) : Prop :=
  Inv u ∧ (∀ i, 0 <= i < k → ram_byte (ram u) (place i) = u8 (val i)) ∧
  ∀ pa, (∀ i, 0 <= i < k → pa ≠ place i) → ram_byte (ram u) pa = ram_byte (ram s) pa.

Lemma filled_step k val s u : 0 <= k < n → filled k val s u →
  filled (k + 1) val s (put_ram (ram_set_byte (ram u) (place k) (val k)) u).
Proof.
  intros Hk (HI & Hv & Ho). split_and!; cbn [ram put_ram]; [by apply write_inv|..].
  - intros i Hi. destruct (decide (i = k)) as [->|Hne]; [apply ram_byte_set|].
    rewrite ram_byte_set_ne; [apply Hv; lia|]. intros Heq. apply Hne, place_inj; [lia..|done].
  - intros pa Hpa. rewrite ram_byte_set_ne by (apply Hpa; lia).
    apply Ho. intros i Hi. apply Hpa. lia.
Qed.

Lemma returns_fill (body : Z → M kstate ()) val s :
  0 <= n → Inv s →
  (∀ u i, 0 <= i < n → filled i val s u →
    returns (body i) u (λ _ u', u' = put_ram (ram_set_byte (ram u) (place i) (val i)) u)) →
  returns (for_range 0 n body) s (λ _ u, filled n val s u).
Proof.
  intros Hn Hs Hb. apply (returns_for_range (λ k u, filled k val s u)); [done|..|done].
  - split_and!; [done|intros i Hi; lia|done].
  - intros k u Hk Hu. eapply returns_mono; [by apply Hb|]. intros _ ? ->. by apply filled_step.
Qed.

Context (dst : Z).
Hypothesis dst_place : ∀ u i, Inv u → 0 <= i < n →
  translate (ram u) (cr3 u) (u64 (dst + i)) = Some (place i).

Lemma returns_memset c s : 0 <= n → Inv s →
  returns (memset dst c n) s (λ _ u, filled n (λ _, c) s u).
Proof.
  intros Hn Hs. apply returns_fill; [done..|]. intros u i Hi (HI & _).
  unfold returns, store8. by rewrite dst_place.
Qed.

(** The source does not overlap the destination. *)
Lemma returns_memcpy src from s : 0 <= n → Inv s →
  (∀ u i, Inv u → 0 <= i < n → translate (ram u) (cr3 u) (u64 (src + i)) = Some (from i)) →
  (∀ i j, 0 <= i < n → 0 <= j < n → from i ≠ place j) →
  returns (memcpy dst src n) s (λ _ u, filled n (λ i, ram_byte (ram s) (from i)) s u).
Proof.
  intros Hn Hs Hfrom Hne. apply returns_fill; [done..|]. intros u i Hi (HI & _ & Ho).
  apply returns_bind. unfold returns at 1, load8. rewrite Hfrom by done.
  unfold returns, store8. rewrite dst_place by done.
  rewrite Ho; [done|]. intros j Hj. apply Hne; lia.
Qed.
End fill.

Lemma u8_ram_byte r pa : u8 (ram_byte r pa) = ram_byte r pa.
Proof. apply wrap_small, ram_byte_bounds. Qed.
