(* ===== verification/Frame.v ===== *)
(** The physical page allocator of [src/frame.c]: its operations, written
    over the shared heap of list nodes, the page array and the counters of
    [State]. The specification it implements and the proof are in
    [FrameSpec]. *)

From S2P Require Import Prelude Kernel KList State Paging.

Open Scope Z_scope.

(** The addresses the linker gives the three static list heads [free], [used]
    and [lru]. *)
Class Layout := {
  l_free : Z;
  l_used : Z;
  l_lru : Z;
}.

(** [&p->lru], [&p->pages], and [list_entry(ptr, struct page, member)]. *)
Definition lru_of (p : Z) : Z := u64 (p + off_lru).
Definition pages_of (p : Z) : Z := u64 (p + off_pages).
Definition entry_lru (ptr : Z) : Z := u64 (ptr - off_lru).
Definition entry_pages (ptr : Z) : Z := u64 (ptr - off_pages).

(** [&parray[i]]. *)
Definition page_at (base i : Z) : Z := u64 (base + sizeof_page * i).

Section frame.
Context `{MMU, Layout}.

(** [list_first_entry(&free, struct page, pages)]. *)
Definition first_free : M kstate Z :=
  n ← on_lists (get_next l_free); mret (entry_pages n).

(** [p->flags = f(p->flags)] for [p = &parray[i]]. *)
Definition set_page_flags (i v : Z) : M kstate () :=
  base ← gets parray; store_page (page_at base i) (with_flags v).

Definition page_init (memory table : Z) : M kstate () :=
  assert (table <? memory) "memory > table";;
  let table := ROUND_UP table PAGE_SIZE in
  modify (put_numpages (ROUND_UP memory PAGE_SIZE / PAGE_SIZE));;
  np ← gets numpages;
  let r := ROUND_UP (u64 (np * sizeof_page)) PAGE_SIZE / PAGE_SIZE in
  assert (u64 (table + 3 * PAGE_SIZE) <? INITIAL_TOP)
    "(table + 3 * PAGE_SIZE) < INITIAL_TOP";;
  let end_ := u64 (r * PAGE_SIZE + table) in
  let big := V2P INITIAL_TOP <? end_ in
  let req := ROUND_UP end_ 0x200000 in
  let m0 := if big then table else 0 in
  let m1 := if big then u64 (table + PAGE_SIZE * 1) else 0 in
  let m2 := if big then u64 (table + PAGE_SIZE * 2) else 0 in
  let table := if big then u64 (table + PAGE_SIZE * 3) else table in
  (if big then mmu_bootstrap req m0 m1 m2 else skip);;
  kernel_log "[phys] set kernel heap start to %#x\n" [AInt (P2V (u64 (r * PAGE_SIZE + table)))];;
  modify (put_parray (P2V table));;
  base ← gets parray;
  for_range 0 np (λ i,
    let p := page_at base i in
    on_lists (list_init (lru_of p));;
    on_lists (list_init (pages_of p));;
    store_page p (with_address (u64 (i * PAGE_SIZE))));;
  for_range 0 3 (λ i,
    let m := if i =? 0 then m0 else if i =? 1 then m1 else m2 in
    if nz m then
      set_page_flags (ROUND_DOWN m PAGE_SIZE / PAGE_SIZE)
        (Z.lor P_IMMUTABLE (Z.lor P_VIRT P_KERNEL))
    else skip);;
  for_range 0 r (λ i,
    (* int j *)
    let j := s32 (i + ROUND_DOWN table PAGE_SIZE / PAGE_SIZE) in
    set_page_flags j (Z.lor P_IMMUTABLE (Z.lor P_PHYS P_KERNEL)));;
  lock_init;;
  kernel_log "[phys] %d pages in system, %#x highest address\n" [AInt np; AInt memory];;
  kernel_log "[phys] marked pages from %#x to %#x as %x\n"
    [AInt (ROUND_DOWN table PAGE_SIZE);
     AInt (u64 (ROUND_DOWN table PAGE_SIZE + r * PAGE_SIZE));
     AInt (Z.lor P_IMMUTABLE (Z.lor P_PHYS P_KERNEL))].

(** The body of the marking loop for page [s]. *)
Definition mark_one (fl s : Z) : M kstate () :=
  base ← gets parray;
  let p := page_at base s in
  pg ← load_page p;
  if nz (Z.land (flags pg) (Z.lor P_PHYS P_VIRT)) then skip
  else
    store_page p (with_flags (u64 fl));;
    if nz (Z.land fl P_USED) then
      on_lists (list_move_tail l_used (pages_of p));;
      on_lists (list_move_tail l_lru (lru_of p));;
      modify (λ t, put_num_used (u64 (num_used_pages t + 1)) t)
    else
      on_lists (list_move_tail l_free (pages_of p));;
      modify (λ t, put_num_free (u64 (num_free_pages t + 1)) t).

Definition page_mark_range (start end_ fl : Z) : M kstate Z :=
  if end_ <? start then mret (-1)
  else if Z.land fl (Z.lor P_USED P_FREE) =? Z.lor P_USED P_FREE then mret (-1)
  else if Z.land fl (Z.lor P_USED P_FREE) =? 0 then mret (-1)
  else
    let s := ROUND_DOWN start PAGE_SIZE / PAGE_SIZE in
    let e := ROUND_UP end_ PAGE_SIZE / PAGE_SIZE in
    np ← gets numpages;
    assert (e <=? np) "e <= numpages";;
    lock_acquire;;
    for_range s e (mark_one fl);;
    kernel_log "[phys] marked pages from %#x to %#x as %x\n" [AInt start; AInt end_; AInt fl];;
    lock_release;;
    mret 0.

(** The critical section of [page_alloc]. *)
Definition alloc_locked : M kstate Z :=
  p ← first_free;
  on_lists (list_add_tail l_lru (lru_of p));;
  on_lists (list_move l_used (pages_of p));;
  modify (λ t, put_num_used (u64 (num_used_pages t + 1)) t);;
  modify (λ t, put_num_free (u64 (num_free_pages t - 1)) t);;
  mret p.

Definition page_alloc : M kstate Z :=
  empty ← on_lists (list_empty l_free);
  if (empty : bool) then mret 0
  else
    lock_acquire;;
    p ← alloc_locked;
    lock_release;;
    mret p.

Definition free_locked (p : Z) : M kstate () :=
  on_lists (list_move_tail l_free (pages_of p));;
  on_lists (list_del (lru_of p));;
  modify (λ t, put_num_used (u64 (num_used_pages t - 1)) t);;
  modify (λ t, put_num_free (u64 (num_free_pages t + 1)) t).
Definition free_log (p : Z) : M kstate () :=
  pg ← load_page p;
  kernel_log "[phys] freeing page %#x\n" [AInt (address pg)].

Definition page_free (p : Z) : M kstate () :=
  lock_acquire;;
  free_locked p;;
  lock_release;;
  free_log p.

(** [NULL] is 0. *)
Definition page_request (addr : Z) : M kstate Z :=
  let index := ROUND_DOWN addr PAGE_SIZE / PAGE_SIZE in
  np ← gets numpages;
  if np <? index then mret 0
  else base ← gets parray; mret (page_at base index).

(** The loop of [page_lru] over the nodes the iterator visits. *)
Fixpoint print_lru (ns : list Z) : M kstate () :=
  match ns with
  | [] => skip
  | n :: ns =>
      pg ← load_page (entry_lru n);
      printf "lru %#x\n" [AInt (address pg)];;
      print_lru ns
  end.
Definition page_lru (fuel : nat) : M kstate () :=
  ns ← on_lists (list_for_each fuel l_lru); print_lru ns.

Definition page_stats : M kstate () :=
  nf ← gets num_free_pages;
  nu ← gets num_used_pages;
  np ← gets numpages;
  let total := u64 (nf + nu) in
  if total =? 0 then throw DivideError
  else
    let usage := u64 (100 * (nu / total)) in
    if np =? 0 then throw DivideError
    else
      let avail := u64 (100 * total) / np in
      printf "Memory available for use: %d%%, %d MB\n" [AInt avail; AInt (nf / 0x100)];;
      printf "Memory currently in use:  %d%%, %d MB\n" [AInt usage; AInt (nu / 0x100)].

Definition page_test : M kstate () :=
  printf "Testing physical memory allocator\n" [];;
  nf ← gets num_free_pages;
  nu ← gets num_used_pages;
  printf "Free pages: %d, Used pages %d\n" [AInt nf; AInt nu];;
  printf "Allocating 512 pages\n" [];;
  for_range 0 1024 (λ _, p ← page_alloc; assert (nz p) "p");;
  page_stats.
End frame.
