(* ===== verification/FrameSpec.v ===== *)
(** What the physical page allocator promises, and the proof that [Frame]
    keeps it.

    [pools] is the abstract state: the free pages in allocation order, the
    pages in use and the least-recently-used order. [repr s P] relates it to
    the circular lists threaded through the page array. Each operation of
    [frame.c] refines the operation of the same name on [pools]. *)

From S2P Require Import Prelude Kernel KList State Paging Frame.

Open Scope Z_scope.

(** ** The abstract allocator *)

Record pools := Pools { free_pool : list Z; used_pool : list Z; lru_pool : list Z }.

(** [l] without [p]. *)
Definition remove_page (p : Z) (l : list Z) : list Z := filter (λ x, x ≠ p) l.

Arguments remove_page : simpl never.

(** Take the first free page; it becomes the most recently used one. *)
Definition spec_alloc (P : pools) : option (Z * pools) :=
  match free_pool P with
  | [] => None
  | p :: F => Some (p, Pools F (p :: used_pool P) (lru_pool P ++ [p]))
  end.
Definition spec_free (p : Z) (P : pools) : pools :=
  Pools (free_pool P ++ [p]) (remove_page p (used_pool P)) (remove_page p (lru_pool P)).
Definition spec_mark_used (p : Z) (P : pools) : pools :=
  Pools (remove_page p (free_pool P)) (remove_page p (used_pool P) ++ [p])
    (remove_page p (lru_pool P) ++ [p]).
Definition spec_mark_free (p : Z) (P : pools) : pools :=
  Pools (remove_page p (free_pool P) ++ [p]) (remove_page p (used_pool P)) (lru_pool P).

(** No page is in two pools, and the LRU order lists the pages in use. *)
Definition pools_wf (P : pools) : Prop :=
  NoDup (free_pool P) ∧ NoDup (used_pool P) ∧ NoDup (lru_pool P) ∧
  (∀ p, p ∈ free_pool P → p ∉ used_pool P) ∧
  (∀ p, p ∈ lru_pool P ↔ p ∈ used_pool P).

(** ** Lists with one element removed *)

Lemma elem_of_remove_page p l x : x ∈ remove_page p l ↔ x ≠ p ∧ x ∈ l.
Proof. unfold remove_page. by rewrite list_elem_of_filter. Qed.

#[export] Instance set_unfold_remove_page p l x Q :
  SetUnfoldElemOf x l Q → SetUnfoldElemOf x (remove_page p l) (x ≠ p ∧ Q).
Proof. intros HQ. constructor. rewrite elem_of_remove_page. by rewrite (set_unfold_elem_of x l Q). Qed.

Lemma remove_page_notin p l : p ∉ l → remove_page p l = l.
Proof.
  induction l as [|x l IH]; intros Hp; [done|]. unfold remove_page in *.
  rewrite filter_cons_True by set_solver. by rewrite IH by set_solver.
Qed.

Lemma remove_page_split p xs ys :
  NoDup (xs ++ p :: ys) → remove_page p (xs ++ p :: ys) = xs ++ ys.
Proof.
  intros (Hx & Hd & [Hp Hy]%NoDup_cons)%NoDup_app. unfold remove_page.
  rewrite filter_app, filter_cons_False by auto.
  change (remove_page p xs ++ remove_page p ys = xs ++ ys).
  rewrite !remove_page_notin; [done|done|]. set_solver.
Qed.

Lemma remove_page_head p l : NoDup (p :: l) → remove_page p (p :: l) = l.
Proof. apply (remove_page_split p [] l). Qed.

Lemma remove_page_NoDup p l : NoDup l → NoDup (remove_page p l).
Proof. apply NoDup_filter. Qed.

Lemma NoDup_snoc (l : list Z) x : NoDup l → x ∉ l → NoDup (l ++ [x]).
Proof.
  intros. apply NoDup_app. split_and!; [done| |apply NoDup_singleton]. set_solver.
Qed.
#[export] Hint Resolve remove_page_NoDup NoDup_snoc : heap.

Lemma remove_page_length p l :
  NoDup l → p ∈ l → Z.of_nat (length (remove_page p l)) = Z.of_nat (length l) - 1.
Proof.
  intros Hnd (xs & ys & ->)%list_elem_of_split. rewrite remove_page_split by done.
  rewrite !length_app. cbn. lia.
Qed.

Lemma spec_alloc_wf P p P' : pools_wf P → spec_alloc P = Some (p, P') → pools_wf P'.
Proof.
  destruct P as [[|q F] U L]; [done|]. intros (HF & HU & HL & HFU & HLU) [= -> <-].
  cbn in *. apply NoDup_cons in HF as [? ?]. unfold pools_wf. cbn. split_and!; [done| | | |].
  - apply NoDup_cons. split; [|done]. set_solver.
  - apply NoDup_snoc; [done|]. set_solver.
  - set_solver.
  - set_solver.
Qed.

Lemma spec_free_wf P p : pools_wf P → p ∈ used_pool P → pools_wf (spec_free p P).
Proof.
  intros (HF & HU & HL & HFU & HLU) Hp. unfold pools_wf. cbn. split_and!.
  - apply NoDup_snoc; [done|]. set_solver.
  - auto with heap.
  - auto with heap.
  - intros q. rewrite elem_of_app, elem_of_remove_page. set_solver.
  - intros q. rewrite !elem_of_remove_page. set_solver.
Qed.

Lemma spec_mark_used_wf P p : pools_wf P → pools_wf (spec_mark_used p P).
Proof.
  intros (HF & HU & HL & HFU & HLU). unfold pools_wf. cbn. split_and!.
  - auto with heap.
  - apply NoDup_snoc; [auto with heap|]. rewrite elem_of_remove_page. set_solver.
  - apply NoDup_snoc; [auto with heap|]. rewrite elem_of_remove_page. set_solver.
  - intros q. rewrite elem_of_app, !elem_of_remove_page. set_solver.
  - intros q. rewrite !elem_of_app, !elem_of_remove_page. set_solver.
Qed.

Lemma spec_mark_free_wf P p :
  pools_wf P → p ∉ used_pool P → pools_wf (spec_mark_free p P).
Proof.
  intros (HF & HU & HL & HFU & HLU) Hp. unfold pools_wf. cbn.
  rewrite (remove_page_notin p (used_pool P)) by done. split_and!; try done.
  - apply NoDup_snoc; [auto with heap|]. rewrite elem_of_remove_page. set_solver.
  - intros q. rewrite elem_of_app, elem_of_remove_page. set_solver.
Qed.

(** ** The representation *)

(** [p] is the address of an element of the page array. *)
Definition is_page (base np p : Z) : Prop := ∃ i, 0 <= i < np ∧ p = base + sizeof_page * i.

Section layout.
Context `{MMU, Layout}.

(** The array lies in the address space, clear of the list heads. *)
Record layout_ok (base np : Z) : Prop := {
  lay_bounds : 0 < base ∧ 0 <= np ∧ base + sizeof_page * np <= 2 ^ 64;
  lay_distinct : l_free ≠ l_used ∧ l_free ≠ l_lru ∧ l_used ≠ l_lru;
  lay_outside : ∀ a, base <= a < base + sizeof_page * np →
    a ≠ l_free ∧ a ≠ l_used ∧ a ≠ l_lru;
}.

(** Every page has its two list nodes in the heap. *)
Definition nodes_ok (h : heap) (base np : Z) : Prop :=
  ∀ p, is_page base np p → is_Some (h !! lru_of p) ∧ is_Some (h !! pages_of p).

(** The three circular lists in [h] hold the three pools. *)
Record rep (h : heap) (base np : Z) (P : pools) : Prop := {
  rep_free : dll h l_free (pages_of <$> free_pool P);
  rep_used : dll h l_used (pages_of <$> used_pool P);
  rep_lru : dll h l_lru (lru_of <$> lru_pool P);
  rep_pages : ∀ p, p ∈ free_pool P ++ used_pool P ++ lru_pool P → is_page base np p;
  rep_nodes : nodes_ok h base np;
  rep_sep : ∀ p, p ∈ free_pool P → p ∉ used_pool P;
}.

Section nodes.
Context (base np : Z) (Hlay : layout_ok base np).

Lemma page_bounds p : is_page base np p → base <= p ∧ p + sizeof_page <= base + sizeof_page * np.
Proof. intros (i & ? & ->). unfold sizeof_page. lia. Qed.

Lemma lru_of_page p : is_page base np p → lru_of p = p + 32.
Proof.
  intros Hp. apply page_bounds in Hp. destruct (lay_bounds _ _ Hlay) as (? & ? & ?).
  apply wrap_small. unfold sizeof_page, off_lru in *. lia.
Qed.

Lemma pages_of_page p : is_page base np p → pages_of p = p + 48.
Proof.
  intros Hp. apply page_bounds in Hp. destruct (lay_bounds _ _ Hlay) as (? & ? & ?).
  apply wrap_small. unfold sizeof_page, off_pages in *. lia.
Qed.

Lemma entry_pages_of p : is_page base np p → entry_pages (pages_of p) = p.
Proof.
  intros Hp. rewrite pages_of_page by done. apply page_bounds in Hp.
  destruct (lay_bounds _ _ Hlay) as (? & ? & ?). unfold entry_pages.
  rewrite wrap_small; unfold sizeof_page, off_pages in *; lia.
Qed.

Lemma entry_lru_of p : is_page base np p → entry_lru (lru_of p) = p.
Proof.
  intros Hp. rewrite lru_of_page by done. apply page_bounds in Hp.
  destruct (lay_bounds _ _ Hlay) as (? & ? & ?). unfold entry_lru.
  rewrite wrap_small; unfold sizeof_page, off_lru in *; lia.
Qed.

Lemma page_nonzero p : is_page base np p → p ≠ 0.
Proof. intros Hp. apply page_bounds in Hp. destruct (lay_bounds _ _ Hlay). lia. Qed.

Lemma pages_of_inj p q :
  is_page base np p → is_page base np q → pages_of p = pages_of q → p = q.
Proof. intros Hp Hq. rewrite !pages_of_page by done. lia. Qed.

Lemma lru_of_inj p q :
  is_page base np p → is_page base np q → lru_of p = lru_of q → p = q.
Proof. intros Hp Hq. rewrite !lru_of_page by done. lia. Qed.

Lemma pages_lru_ne p q :
  is_page base np p → is_page base np q → pages_of p ≠ lru_of q.
Proof.
  intros Hp Hq. rewrite pages_of_page, lru_of_page by done.
  destruct Hp as (i & ? & ->), Hq as (j & ? & ->). unfold sizeof_page. lia.
Qed.

Lemma node_not_head p : is_page base np p →
  (pages_of p ≠ l_free ∧ pages_of p ≠ l_used ∧ pages_of p ≠ l_lru) ∧
  (lru_of p ≠ l_free ∧ lru_of p ≠ l_used ∧ lru_of p ≠ l_lru).
Proof.
  intros Hp. rewrite pages_of_page, lru_of_page by done. apply page_bounds in Hp.
  unfold sizeof_page in *.
  split; apply (lay_outside _ _ Hlay); unfold sizeof_page; lia.
Qed.

(** The nodes of two pools threaded through the same field. *)
Lemma pages_disjoint hd hd' X Y :
  (∀ p, p ∈ X ++ Y → is_page base np p) → (∀ p, p ∈ X → p ∉ Y) → hd ≠ hd' →
  hd ∈ [l_free; l_used; l_lru] → hd' ∈ [l_free; l_used; l_lru] →
  ∀ y, y ∈ hd :: (pages_of <$> X) → y ∉ hd' :: (pages_of <$> Y).
Proof.
  intros Hpg HXY Hne Hh Hh' y.
  rewrite !elem_of_cons, !list_elem_of_fmap, !elem_of_nil in *.
  intros [->|(p & -> & Hp)] [Hq|(q & Hq & Hq')]; [done|..].
  - destruct (node_not_head q); [set_solver|]. naive_solver.
  - destruct (node_not_head p); [set_solver|]. naive_solver.
  - apply pages_of_inj in Hq; [set_solver..].
Qed.

Lemma pages_lru_disjoint hd hd' X Y :
  (∀ p, p ∈ X ++ Y → is_page base np p) → hd ≠ hd' →
  hd ∈ [l_free; l_used; l_lru] → hd' ∈ [l_free; l_used; l_lru] →
  ∀ y, y ∈ hd :: (pages_of <$> X) → y ∉ hd' :: (lru_of <$> Y).
Proof.
  intros Hpg Hne Hh Hh' y.
  rewrite !elem_of_cons, !list_elem_of_fmap, !elem_of_nil in *.
  intros [->|(p & -> & Hp)] [Hq|(q & Hq & Hq')]; [done|..].
  - destruct (node_not_head q); [set_solver|]. naive_solver.
  - destruct (node_not_head p); [set_solver|]. naive_solver.
  - apply pages_lru_ne in Hq; set_solver.
Qed.

(** *** Moving one node between two lists threaded through a field

    [fld] is [pages_of] or [lru_of]; the node of [p] is in the target
    list, in the source list, or self-linked. *)
Section field.
Context (fld : Z → Z).
Implicit Types (X Y : list Z).
Hypothesis fld_inj : ∀ p q, is_page base np p → is_page base np q → fld p = fld q → p = q.

Lemma fmap_remove_page p X :
  is_page base np p → (∀ q, q ∈ X → is_page base np q) → NoDup X → p ∈ X →
  ∃ xs ys, X = xs ++ p :: ys ∧ remove_page p X = xs ++ ys.
Proof.
  intros Hp HX Hnd (xs & ys & ->)%list_elem_of_split.
  exists xs, ys. by rewrite remove_page_split.
Qed.

Lemma fld_notin p X :
  is_page base np p → (∀ q, q ∈ X → is_page base np q) → p ∉ X → fld p ∉ fld <$> X.
Proof.
  intros Hp HX Hn (q & Hq & Hin)%list_elem_of_fmap.
  apply fld_inj in Hq; [by subst|done|auto].
Qed.

Lemma dll_NoDup h hd X : dll h hd (fld <$> X) → NoDup X.
Proof. intros [[_ Hnd]%NoDup_cons _]. by eapply NoDup_fmap_1. Qed.

(** Unlinking the node of [p] from the list of [X] (or from itself)
    keeps a list of [Y] that shares no node with it. *)
Lemma unlinks_list h hd X hd' Y p :
  dll h hd (fld <$> X) → dll h hd' (fld <$> Y) →
  (∀ y, y ∈ hd' :: (fld <$> Y) → y ∉ hd :: (fld <$> X)) →
  is_page base np p → (∀ q, q ∈ X → is_page base np q) →
  (p ∈ X ∨ ((p ∉ X) ∧ self_linked h (fld p))) →
  ∃ D, (∀ y, y ∈ D → y ∈ hd :: (fld <$> X)) ∧
    unlinks h (fld p) D (λ h',
      dll h' hd (fld <$> remove_page p X) ∧ dll h' hd' (fld <$> Y)).
Proof.
  intros HX HY Hdis Hp HXp [Hin|[Hn Hs]].
  - pose proof (dll_NoDup _ _ _ HX) as Hnd.
    destruct (fmap_remove_page p X) as (xs & ys & -> & Hr); [done..|]. rewrite Hr.
    rewrite fmap_app, fmap_cons in HX.
    exists (hd :: (fld <$> xs) ++ (fld <$> ys)). split; [set_solver|].
    eapply unlinks_from; [exact HX|done|]. intros h' Hd Ho.
    rewrite fmap_app. split; [done|]. eapply dll_outside; [exact Ho| |exact HY].
    intros y Hy. specialize (Hdis y Hy). set_solver.
  - exists []. split; [set_solver|]. apply unlinks_self; [done|done|].
    by rewrite remove_page_notin.
Qed.

(** [list_move_tail hd (fld p)] when the node is in the same list. *)
Lemma returns_move_tail_same h hd X p :
  dll h hd (fld <$> X) → is_page base np p → (∀ q, q ∈ X → is_page base np q) →
  fld p ≠ hd → p ∈ X ∨ ((p ∉ X) ∧ self_linked h (fld p)) →
  returns (list_move_tail hd (fld p)) h (λ _ h',
    dll h' hd (fld <$> (remove_page p X ++ [p])) ∧
    same_outside (hd :: (fld <$> p :: X)) h h').
Proof.
  intros HX Hp HXp Hne Hc.
  assert (∃ D, (∀ y, y ∈ D → y ∈ hd :: (fld <$> X)) ∧
    unlinks h (fld p) D (λ h', dll h' hd (fld <$> remove_page p X))) as (D & HD & Hu).
  { destruct Hc as [Hin|[Hn Hs]].
    - pose proof (dll_NoDup _ _ _ HX) as Hnd.
      destruct (fmap_remove_page p X) as (xs & ys & -> & Hr); [done..|]. rewrite Hr.
      rewrite fmap_app, fmap_cons in HX.
      exists (hd :: (fld <$> xs) ++ (fld <$> ys)). split; [set_solver|].
      eapply unlinks_from; [exact HX|done|]. intros h' Hd Ho. by rewrite fmap_app.
    - exists []. split; [set_solver|]. apply unlinks_self; [done|done|].
      by rewrite remove_page_notin. }
  ret_use returns_list_move_tail; [exact Hu| |].
  - apply not_elem_of_cons. split; [done|].
    apply fld_notin; [done|set_solver|]. rewrite elem_of_remove_page. tauto.
  - intros _ h' (Hd & h1 & Ho1 & _ & Ho2). rewrite fmap_app. split; [done|].
    eapply same_outside_trans; eapply same_outside_weaken; [exact Ho1| |exact Ho2|].
    + set_solver.
    + intros y Hy. rewrite elem_of_cons, elem_of_app, list_elem_of_fmap in Hy.
      rewrite elem_of_cons, list_elem_of_fmap.
      destruct Hy as [->|[(q & -> & Hq)|Hq]]; [set_solver| |set_solver].
      rewrite elem_of_remove_page in Hq. set_solver.
Qed.

(** Moving the node from the list of [X] to the end, or to the front,
    of the list of [Y]. *)
Section cross.
Context (h : heap) (hd hd' : Z) (X Y : list Z) (p : Z).
Hypotheses (HX : dll h hd (fld <$> X)) (HY : dll h hd' (fld <$> Y)).
Hypothesis Hdis : ∀ y, y ∈ hd' :: (fld <$> Y) → y ∉ hd :: (fld <$> X).
Hypotheses (Hp : is_page base np p) (Hin : p ∈ X) (HnY : p ∉ Y).
Hypotheses (HXp : ∀ q, q ∈ X → is_page base np q) (HYp : ∀ q, q ∈ Y → is_page base np q).

Lemma cross_notin : fld p ∉ hd' :: (fld <$> Y).
Proof.
  apply not_elem_of_cons. split; [|by apply fld_notin]. intros He.
  apply (Hdis hd'); [set_solver|]. rewrite <- He. apply elem_of_cons. right.
  apply list_elem_of_fmap. eauto.
Qed.

Lemma cross_outside D h1 h' Y' :
  (∀ y, y ∈ D → y ∈ hd :: (fld <$> X)) → (∀ y, y ∈ Y' → y ∈ p :: Y) →
  same_outside D h h1 → dll h1 hd (fld <$> remove_page p X) →
  same_outside (hd' :: (fld <$> Y')) h1 h' →
  dll h' hd (fld <$> remove_page p X) ∧
  same_outside (hd :: hd' :: (fld <$> p :: X ++ Y)) h h'.
Proof.
  intros HD HY' Ho1 Hr Ho2. split.
  - eapply dll_outside; [exact Ho2| |exact Hr]. intros y Hy Hy'.
    rewrite elem_of_cons, list_elem_of_fmap in Hy, Hy'.
    assert (y ∈ hd :: (fld <$> X)).
    { rewrite elem_of_cons, list_elem_of_fmap.
      destruct Hy as [->|(q & -> & [_ ?]%elem_of_remove_page)]; eauto. }
    destruct Hy' as [->|(q & Hq & Hq')]; [apply (Hdis hd'); set_solver|].
    apply HY', elem_of_cons in Hq' as [->|Hq']; [|apply (Hdis y); set_solver].
    destruct Hy as [->|(q & -> & [? ?]%elem_of_remove_page)].
    + destruct HX as [[Hn _]%NoDup_cons _]. apply Hn, list_elem_of_fmap. eauto.
    + apply fld_inj in Hq; auto.
  - eapply same_outside_trans; eapply same_outside_weaken; [exact Ho1| |exact Ho2|].
    + set_solver.
    + set_solver.
Qed.

Lemma returns_move_tail_other :
  returns (list_move_tail hd' (fld p)) h (λ _ h',
    dll h' hd (fld <$> remove_page p X) ∧ dll h' hd' (fld <$> (Y ++ [p])) ∧
    same_outside (hd :: hd' :: (fld <$> p :: X ++ Y)) h h').
Proof.
  destruct (unlinks_list h hd X hd' Y p) as (D & HD & Hu); [auto..|].
  unfold list_move_tail. apply returns_bind.
  ret_use returns_list_del_any; [exact Hu|]. intros _ h1 [[HrX HrY] Ho1].
  apply unlinks_node in Hu as [Hs HeD].
  ret_use returns_list_add_tail; [exact HrY|apply cross_notin|by rewrite Ho1|].
  intros _ h' [Hd Ho2].
  destruct (cross_outside D h1 h' (Y ++ [p])) as [? ?]; [done|set_solver|done..| |].
  { by rewrite fmap_app. }
  by rewrite fmap_app.
Qed.

Lemma returns_move_front_other :
  returns (list_move hd' (fld p)) h (λ _ h',
    dll h' hd (fld <$> remove_page p X) ∧ dll h' hd' (fld <$> (p :: Y)) ∧
    same_outside (hd :: hd' :: (fld <$> p :: X ++ Y)) h h').
Proof.
  destruct (unlinks_list h hd X hd' Y p) as (D & HD & Hu); [auto..|].
  unfold list_move. apply returns_bind.
  ret_use returns_list_del_any; [exact Hu|]. intros _ h1 [[HrX HrY] Ho1].
  apply unlinks_node in Hu as [Hs HeD].
  ret_use returns_list_add; [exact HrY|apply cross_notin|by rewrite Ho1|].
  intros _ h' [Hd Ho2].
  destruct (cross_outside D h1 h' (p :: Y)) as [? ?]; [done|set_solver|done..|].
  done.
Qed.
End cross.
End field.

(** *** The allocator's list operations on the representation *)

(** The nodes an operation on page [p] may write: those of the free and
    used lists, or those of the LRU list. *)
Definition touched_pages (P : pools) (p : Z) : list Z :=
  l_free :: l_used :: (pages_of <$> p :: free_pool P ++ used_pool P).
Definition touched_lru (P : pools) (p : Z) : list Z :=
  l_lru :: (lru_of <$> p :: lru_pool P).

Definition rep_step (D : list Z) (h : heap) (P' : pools) (h' : heap) : Prop :=
  rep h' base np P' ∧ same_outside D h h'.

(** The nodes of other pages outside the pools are not written, nor the
    nodes of the other field. *)
Section untouched.
Context (P : pools) (p q : Z).
Hypothesis HP : ∀ r, r ∈ free_pool P ++ used_pool P ++ lru_pool P → is_page base np r.
Hypotheses (Hp : is_page base np p) (Hq : is_page base np q).

Lemma pages_untouched : q ≠ p → q ∉ free_pool P → q ∉ used_pool P →
  pages_of q ∉ touched_pages P p.
Proof.
  intros Hne HF HU. destruct (node_not_head q Hq) as [(? & ? & ?) _].
  unfold touched_pages. rewrite !elem_of_cons. intros [?|[?|Hin]]; [done..|].
  apply (fld_notin pages_of pages_of_inj q (p :: free_pool P ++ used_pool P)) in Hin;
    [done|done|set_solver|set_solver].
Qed.

Lemma lru_untouched : q ≠ p → q ∉ lru_pool P → lru_of q ∉ touched_lru P p.
Proof.
  intros Hne HL. destruct (node_not_head q Hq) as [_ (? & ? & ?)].
  unfold touched_lru. rewrite elem_of_cons. intros [?|Hin]; [done|].
  apply (fld_notin lru_of lru_of_inj q (p :: lru_pool P)) in Hin;
    [done|done|set_solver|set_solver].
Qed.

Lemma lru_untouched_pages : lru_of q ∉ touched_pages P p.
Proof.
  destruct (node_not_head q Hq) as [_ (? & ? & ?)].
  unfold touched_pages. rewrite !elem_of_cons.
  intros [?|[?|(r & Hr & Hin)%list_elem_of_fmap]]; [done..|].
  symmetry in Hr. apply pages_lru_ne in Hr; [done|set_solver|done].
Qed.

Lemma pages_untouched_lru : pages_of q ∉ touched_lru P p.
Proof.
  destruct (node_not_head q Hq) as [(? & ? & ?) _].
  unfold touched_lru. rewrite elem_of_cons.
  intros [?|(r & Hr & Hin)%list_elem_of_fmap]; [done|].
  apply pages_lru_ne in Hr; [done|done|set_solver].
Qed.
End untouched.

Section ops.
Context (h : heap) (F U L : list Z) (p : Z).
Hypotheses (R : rep h base np (Pools F U L)) (Hp : is_page base np p).

Lemma rep_disjoint :
  (∀ y, y ∈ l_free :: (pages_of <$> F) → y ∉ l_used :: (pages_of <$> U)) ∧
  (∀ y, y ∈ l_free :: (pages_of <$> p :: F) → y ∉ l_lru :: (lru_of <$> p :: L)) ∧
  (∀ y, y ∈ l_used :: (pages_of <$> p :: U) → y ∉ l_lru :: (lru_of <$> p :: L)).
Proof.
  destruct (lay_distinct _ _ Hlay) as (? & ? & ?).
  pose proof (rep_pages _ _ _ _ R) as Hpg. pose proof (rep_sep _ _ _ _ R) as Hs. cbn in Hpg, Hs.
  split_and!.
  - apply pages_disjoint; set_solver.
  - apply (pages_lru_disjoint l_free l_lru (p :: F) (p :: L)); set_solver.
  - apply (pages_lru_disjoint l_used l_lru (p :: U) (p :: L)); set_solver.
Qed.

(** An operation confined to the LRU list. *)
Lemma rep_lru_change h' L' :
  dll h' l_lru (lru_of <$> L') → (∀ q, q ∈ L' → q ∈ p :: L) →
  same_outside (l_lru :: (lru_of <$> p :: L)) h h' →
  (∀ y, is_Some (h !! y) → is_Some (h' !! y)) →
  rep_step (touched_lru (Pools F U L) p) h (Pools F U L') h'.
Proof.
  intros HL HL' Ho Hk. destruct rep_disjoint as (_ & D1 & D2). split; [|].
  - split; cbn.
    + eapply dll_outside; [exact Ho| |apply R]. intros y Hy. apply D1. set_solver.
    + eapply dll_outside; [exact Ho| |apply R]. intros y Hy. apply D2. set_solver.
    + done.
    + pose proof (rep_pages _ _ _ _ R). set_solver.
    + intros q Hq. apply (rep_nodes _ _ _ _ R) in Hq as [? ?]. auto.
    + apply R.
  - done.
Qed.

Lemma rep_lru_add : p ∉ L →
  returns (list_add_tail l_lru (lru_of p)) h (λ _ h',
    rep_step (touched_lru (Pools F U L) p) h (Pools F U (L ++ [p])) h').
Proof.
  intros HpL. pose proof (rep_pages _ _ _ _ R) as Hpg. cbn in Hpg.
  destruct (rep_nodes _ _ _ _ R p Hp) as [? _].
  ret_use keeps_list_add_tail.
  - eapply returns_list_add_tail; [apply R| |done]. apply not_elem_of_cons. split.
    + by apply node_not_head.
    + cbn. eapply fld_notin; [apply lru_of_inj|done|set_solver|done].
  - cbn. intros _ h' [[HL Ho] Hk]. apply rep_lru_change.
    + by rewrite fmap_app.
    + set_solver.
    + eapply same_outside_weaken; [exact Ho|]. set_solver.
    + done.
Qed.

Lemma rep_lru_del : p ∈ L →
  returns (list_del (lru_of p)) h (λ _ h',
    rep_step (touched_lru (Pools F U L) p) h (Pools F U (remove_page p L)) h').
Proof.
  intros HpL. pose proof (rep_pages _ _ _ _ R) as Hpg. cbn in Hpg.
  pose proof (rep_lru _ _ _ _ R) as HL. cbn in HL.
  assert (NoDup L) as Hnd.
  { eapply dll_NoDup; exact HL. }
  destruct (fmap_remove_page p L) as (xs & ys & E & Hr); [set_solver..|].
  rewrite E, fmap_app, fmap_cons in HL.
  ret_use keeps_list_del; [by eapply returns_list_del|].
  cbn. intros _ h' [[Hd Ho] Hk]. rewrite Hr. apply rep_lru_change.
  - by rewrite fmap_app.
  - set_solver.
  - eapply same_outside_weaken; [exact Ho|]. rewrite E. set_solver.
  - done.
Qed.

Lemma rep_lru_move :
  p ∈ L ∨ ((p ∉ L) ∧ self_linked h (lru_of p)) →
  returns (list_move_tail l_lru (lru_of p)) h (λ _ h',
    rep_step (touched_lru (Pools F U L) p) h (Pools F U (remove_page p L ++ [p])) h').
Proof.
  intros Hc. pose proof (rep_pages _ _ _ _ R) as Hpg. cbn in Hpg.
  ret_use keeps_list_move_tail.
  - eapply returns_move_tail_same;
      [apply lru_of_inj|apply R|done|set_solver| |exact Hc].
    by apply node_not_head.
  - cbn. intros _ h' [[HL Ho] Hk]. apply rep_lru_change; [done|set_solver|done..].
Qed.

(** An operation confined to the free and used lists. *)
Lemma rep_pages_change h' F' U' :
  dll h' l_free (pages_of <$> F') → dll h' l_used (pages_of <$> U') →
  (∀ q, q ∈ F' → q ∈ p :: F ++ U) → (∀ q, q ∈ U' → q ∈ p :: F ++ U) →
  (∀ q, q ∈ F' → q ∉ U') →
  same_outside (l_free :: l_used :: (pages_of <$> p :: F ++ U)) h h' →
  (∀ y, is_Some (h !! y) → is_Some (h' !! y)) →
  rep_step (touched_pages (Pools F U L) p) h (Pools F' U' L) h'.
Proof.
  intros HF HU HF' HU' Hs Ho Hk. pose proof (rep_pages _ _ _ _ R) as Hpg. cbn in Hpg.
  destruct (lay_distinct _ _ Hlay) as (? & ? & ?).
  assert (Hd1 : ∀ y, y ∈ l_free :: (pages_of <$> p :: F ++ U) → y ∉ l_lru :: (lru_of <$> L)).
  { apply (pages_lru_disjoint l_free l_lru (p :: F ++ U) L); set_solver. }
  assert (Hd2 : ∀ y, y ∈ l_used :: (pages_of <$> p :: F ++ U) → y ∉ l_lru :: (lru_of <$> L)).
  { apply (pages_lru_disjoint l_used l_lru (p :: F ++ U) L); set_solver. }
  split.
  - split; cbn; [done|done| | | |done].
    + eapply dll_outside; [exact Ho| |apply R]. intros y Hy Hy'.
      apply elem_of_cons in Hy' as [->|Hy']; [apply (Hd1 l_free); set_solver|].
      apply (Hd2 y); set_solver.
    + set_solver.
    + intros q Hq. apply (rep_nodes _ _ _ _ R) in Hq as [? ?]. auto.
  - done.
Qed.

Lemma rep_heads_pages :
  pages_of p ≠ l_free ∧ pages_of p ≠ l_used.
Proof. destruct (node_not_head p Hp) as [(? & ? & ?) _]. done. Qed.

(** The node of a free page moves to the front of the used list. *)
Lemma rep_take : p ∈ F →
  returns (list_move l_used (pages_of p)) h (λ _ h',
    rep_step (touched_pages (Pools F U L) p) h (Pools (remove_page p F) (p :: U) L) h').
Proof.
  intros Hin. pose proof (rep_pages _ _ _ _ R) as Hpg. cbn in Hpg.
  pose proof (rep_sep _ _ _ _ R) as Hs. cbn in Hs.
  destruct rep_disjoint as (D & _ & _).
  ret_use keeps_list_move.
  - eapply (returns_move_front_other pages_of pages_of_inj h l_free l_used F U);
      [apply R|apply R|by intros y Hy Hy'; apply (D y)|done|done|auto|set_solver..].
  - cbn. intros _ h' [(HF & HU & Ho) Hk].
    apply rep_pages_change; [done|done|set_solver|set_solver| |done..]. set_solver.
Qed.

(** The node of [p] moves to the end of the free list. *)
Lemma rep_to_free :
  p ∈ F ∨ p ∈ U ∨ ((p ∉ F) ∧ (p ∉ U) ∧ self_linked h (pages_of p)) →
  returns (list_move_tail l_free (pages_of p)) h (λ _ h',
    rep_step (touched_pages (Pools F U L) p) h (Pools (remove_page p F ++ [p]) (remove_page p U) L) h').
Proof.
  intros Hc. pose proof (rep_pages _ _ _ _ R) as Hpg. cbn in Hpg.
  pose proof (rep_sep _ _ _ _ R) as Hs. cbn in Hs.
  destruct rep_disjoint as (D & _ & _). destruct rep_heads_pages as [Hh1 Hh2].
  destruct (decide (p ∈ U)) as [HU|HU].
  - assert (p ∉ F) as HF by set_solver. rewrite (remove_page_notin p F) by done.
    ret_use keeps_list_move_tail.
    + eapply (returns_move_tail_other pages_of pages_of_inj h l_used l_free U F);
        [apply R|apply R|exact D|done|done|done|set_solver..].
    + cbn. intros _ h' [(HU' & HF' & Ho) Hk].
      apply rep_pages_change; [done|done|set_solver|set_solver|set_solver| |done].
      eapply same_outside_weaken; [exact Ho|]. set_solver.
  - rewrite (remove_page_notin p U) by done.
    assert (Hc' : p ∈ F ∨ ((p ∉ F) ∧ self_linked h (pages_of p))) by tauto. clear Hc.
    ret_use keeps_list_move_tail.
    + eapply (returns_move_tail_same pages_of pages_of_inj);
        [apply R|done|set_solver|done|exact Hc'].
    + cbn. intros _ h' [[HF' Ho] Hk].
      apply rep_pages_change; [done| |set_solver|set_solver|set_solver| |done].
      * eapply dll_outside; [exact Ho| |apply R]. intros y Hy Hy'.
        change (y ∈ [l_free] ++ (pages_of <$> [p]) ++ (pages_of <$> F)) in Hy'.
        rewrite !elem_of_app, list_elem_of_singleton in Hy'.
        destruct Hy' as [->|[Hy'|Hy']]; [apply (D l_free); set_solver| |].
        -- assert (y = pages_of p) as -> by set_solver.
           apply elem_of_cons in Hy as [?|Hy]; [done|].
           eapply (fld_notin pages_of pages_of_inj p U); [done|set_solver|done|exact Hy].
        -- apply (D y); set_solver.
      * eapply same_outside_weaken; [exact Ho|]. set_solver.
Qed.

(** The nodes of a page are unlinked from the list they are in, if any. *)
Lemma rep_pages_unlink :
  p ∈ F ∨ p ∈ U ∨ ((p ∉ F) ∧ (p ∉ U) ∧ self_linked h (pages_of p)) →
  returns (list_del (pages_of p)) h (λ _ h',
    rep_step (touched_pages (Pools F U L) p) h (Pools (remove_page p F) (remove_page p U) L) h').
Proof.
  intros Hc. pose proof (rep_pages _ _ _ _ R) as Hpg. cbn in Hpg.
  pose proof (rep_sep _ _ _ _ R) as Hs. cbn in Hs.
  destruct rep_disjoint as (D & _ & _). destruct (decide (p ∈ F)) as [HF|HF].
  - assert (HU : p ∉ U) by set_solver. rewrite (remove_page_notin p U) by done.
    destruct (unlinks_list pages_of pages_of_inj h l_free F l_used U p) as (E & HE & Hu);
      [apply R|apply R|intros y Hy Hy'; by apply (D y)|done|set_solver|tauto|].
    ret_use keeps_list_del; [by apply returns_list_del_any|].
    cbn. intros _ h' [[[HF' HU'] Ho] Hk].
    apply rep_pages_change; [done|done|set_solver|set_solver|set_solver| |done].
    eapply same_outside_weaken; [exact Ho|]. set_solver.
  - rewrite (remove_page_notin p F) by done.
    destruct (unlinks_list pages_of pages_of_inj h l_used U l_free F p) as (E & HE & Hu);
      [apply R|apply R|exact D|done|set_solver|tauto|].
    ret_use keeps_list_del; [by apply returns_list_del_any|].
    cbn. intros _ h' [[[HU' HF'] Ho] Hk].
    apply rep_pages_change; [done|done|set_solver|set_solver|set_solver| |done].
    eapply same_outside_weaken; [exact Ho|]. set_solver.
Qed.

Lemma rep_lru_unlink :
  p ∈ L ∨ ((p ∉ L) ∧ self_linked h (lru_of p)) →
  returns (list_del (lru_of p)) h (λ _ h',
    rep_step (touched_lru (Pools F U L) p) h (Pools F U (remove_page p L)) h').
Proof.
  intros [Hin|[Hn Hs]]; [by apply rep_lru_del|]. rewrite remove_page_notin by done.
  ret_use returns_list_del_self; [exact Hs|]. intros _ h' ->. by split.
Qed.

(** The node of [p] moves to the end of the used list. *)
Lemma rep_to_used :
  p ∈ F ∨ p ∈ U ∨ ((p ∉ F) ∧ (p ∉ U) ∧ self_linked h (pages_of p)) →
  returns (list_move_tail l_used (pages_of p)) h (λ _ h',
    rep_step (touched_pages (Pools F U L) p) h (Pools (remove_page p F) (remove_page p U ++ [p]) L) h').
Proof.
  intros Hc. pose proof (rep_pages _ _ _ _ R) as Hpg. cbn in Hpg.
  pose proof (rep_sep _ _ _ _ R) as Hs. cbn in Hs.
  destruct rep_disjoint as (D & _ & _). destruct rep_heads_pages as [Hh1 Hh2].
  destruct (decide (p ∈ F)) as [HF|HF].
  - assert (p ∉ U) as HU by set_solver. rewrite (remove_page_notin p U) by done.
    ret_use keeps_list_move_tail.
    + eapply (returns_move_tail_other pages_of pages_of_inj h l_free l_used F U);
        [apply R|apply R|by intros y Hy Hy'; apply (D y)|done|done|done|set_solver..].
    + cbn. intros _ h' [(HU' & HF' & Ho) Hk].
      apply rep_pages_change; [done|done|set_solver|set_solver|set_solver|done|done].
  - rewrite (remove_page_notin p F) by done.
    assert (Hc' : p ∈ U ∨ ((p ∉ U) ∧ self_linked h (pages_of p))) by tauto. clear Hc.
    ret_use keeps_list_move_tail.
    + eapply (returns_move_tail_same pages_of pages_of_inj);
        [apply R|done|set_solver|done|exact Hc'].
    + cbn. intros _ h' [[HF' Ho] Hk].
      apply rep_pages_change; [|done|set_solver|set_solver|set_solver| |done].
      * eapply dll_outside; [exact Ho| |apply R]. intros y Hy Hy'.
        change (y ∈ [l_used] ++ (pages_of <$> [p]) ++ (pages_of <$> U)) in Hy'.
        rewrite !elem_of_app, list_elem_of_singleton in Hy'.
        destruct Hy' as [->|[Hy'|Hy']]; [apply (D l_used); set_solver| |].
        -- assert (y = pages_of p) as -> by set_solver.
           apply elem_of_cons in Hy as [?|Hy]; [done|].
           eapply (fld_notin pages_of pages_of_inj p F); [done|set_solver|done|exact Hy].
        -- apply (D y); set_solver.
      * eapply same_outside_weaken; [exact Ho|]. set_solver.
Qed.
End ops.
End nodes.
End layout.
