(* ===== verification/FrameRefine.v ===== *)
(** The refinement theorems of the physical page allocator: each operation of
    [frame.c] on the kernel state implements the operation of the same name on
    the abstract pools of [FrameSpec]. *)

From S2P Require Import Prelude Kernel KList State Paging Frame FrameSpec.

Open Scope Z_scope.

(** ** The kernel state *)

Section state.
Context `{MMU, Layout}.

(** [repr s P]: the allocator's state represents the pools [P]. *)
Record repr (s : kstate) (P : pools) : Prop := {
  repr_layout : layout_ok (parray s) (numpages s);
  repr_rep : rep (lists s) (parray s) (numpages s) P;
  repr_wf : pools_wf P;
  repr_store : ∀ p, is_page (parray s) (numpages s) p → is_Some (store s !! p);
  repr_size_t : u64 (num_free_pages s) = num_free_pages s ∧
    u64 (num_used_pages s) = num_used_pages s;
}.

(** The two counters agree with the pools. *)
Definition counted (s : kstate) (P : pools) : Prop :=
  num_free_pages s = u64 (Z.of_nat (length (free_pool P))) ∧
  num_used_pages s = u64 (Z.of_nat (length (used_pool P))).

(** Everything the allocator leaves alone: the page array's location and
    contents, memory and the translation root. *)
Definition same_rest (s s' : kstate) : Prop :=
  store s' = store s ∧ parray s' = parray s ∧ numpages s' = numpages s ∧
  ram s' = ram s ∧ cr3 s' = cr3 s ∧ PML4 s' = PML4 s.

Lemma counted_incr_decr s s' P P' df du :
  counted s P →
  num_free_pages s' = u64 (num_free_pages s + df) →
  num_used_pages s' = u64 (num_used_pages s + du) →
  Z.of_nat (length (free_pool P')) = Z.of_nat (length (free_pool P)) + df →
  Z.of_nat (length (used_pool P')) = Z.of_nat (length (used_pool P)) + du →
  counted s' P'.
Proof.
  intros [Hf Hu] Ef Eu Lf Lu. unfold counted. rewrite Ef, Eu, Hf, Hu, Lf, Lu.
  unfold wrap. split; apply Zplus_mod_idemp_l.
Qed.

Lemma repr_empty s P :
  repr s P → returns (on_lists (list_empty l_free)) s
    (λ b s', s' = s ∧ b = bool_decide (free_pool P = [])).
Proof.
  intros R. apply returns_on_lists.
  ret_use returns_list_empty; [apply (repr_rep _ _ R)|]. cbn.
  intros b h [-> ->]. split; [by destruct s|].
  apply bool_decide_ext. split; [|by intros ->]. by intros ?%fmap_nil_inv.
Qed.

Lemma repr_first_free s P p F :
  repr s P → free_pool P = p :: F →
  returns first_free s (λ q s', s' = s ∧ q = p).
Proof.
  intros R E. unfold first_free. k_steps.
  pose proof (repr_rep _ _ R) as Rp.
  destruct (rep_free _ _ _ _ Rp) as [_ Hs]. rewrite E in Hs. cbn in Hs.
  destruct Hs as [[L _] _]. eapply returns_get_next; [exact L|].
  apply returns_ret. split; [by destruct s|].
  eapply entry_pages_of; [apply (repr_layout _ _ R)|].
  apply (rep_pages _ _ _ _ Rp). rewrite E. set_solver.
Qed.

(** *** page_alloc *)

(** The critical section, on a free list that is not empty. *)
Lemma returns_alloc_locked s p F U L :
  repr s (Pools (p :: F) U L) →
  returns alloc_locked s (λ q s',
    q = p ∧ p ≠ 0 ∧ repr s' (Pools F (p :: U) (L ++ [p])) ∧
    page_lock s' = page_lock s ∧ same_rest s s' ∧
    (counted s (Pools (p :: F) U L) → counted s' (Pools F (p :: U) (L ++ [p])))).
Proof.
  intros R. pose proof (repr_layout _ _ R) as Hlay. pose proof (repr_rep _ _ R) as Rp.
  pose proof (repr_wf _ _ R) as Hwf.
  assert (Hp : is_page (parray s) (numpages s) p).
  { apply (rep_pages _ _ _ _ Rp). set_solver. }
  destruct Hwf as (HF & HU & HL & HFU & HLU). cbn in HF, HU, HL, HFU, HLU.
  unfold alloc_locked.
  k_step. ret_use (repr_first_free _ (Pools (p :: F) U L)); [by destruct R|done|].
  intros q s0 [-> ->]. k_steps.
  ret_use (rep_lru_add _ _ Hlay _ _ _ _ _ Rp Hp); [set_solver|].
  intros _ h1 [R1 _]. k_steps.
  ret_use (rep_take _ _ Hlay _ _ _ _ _ R1 Hp); [set_solver|].
  intros _ h2 [R2 _].
  rewrite remove_page_head in R2 by done. k_steps.
  pose proof (spec_alloc_wf _ _ _ (repr_wf _ _ R) eq_refl) as Hwf'.
  split_and!; [done|by eapply page_nonzero| |done|done|].
  - split; [done|done|done|apply (repr_store _ _ R)|]. cbn. by rewrite !wrap_wrap.
  - intros Hc. eapply (counted_incr_decr s _ _ _ (-1) 1); [done|done|done|cbn; lia..].
Qed.

Lemma repr_lock s P b : repr s P → repr (put_lock b s) P.
Proof. intros []. by split. Qed.

Lemma returns_page_alloc s P :
  repr s P → page_lock s = false →
  returns page_alloc s (λ p s',
    match spec_alloc P with
    | None => p = 0 ∧ s' = s
    | Some (q, P') =>
        p = q ∧ p ≠ 0 ∧ repr s' P' ∧ page_lock s' = false ∧ same_rest s s' ∧
        (counted s P → counted s' P')
    end).
Proof.
  intros R Hlock. unfold page_alloc. apply returns_bind.
  ret_use repr_empty; [exact R|]. intros b s0 [-> ->].
  destruct P as [F U L]. cbn. destruct F as [|p F].
  { rewrite bool_decide_true by done. by apply returns_ret. }
  rewrite bool_decide_false by done. do 3 k_step.
  ret_use returns_alloc_locked; [by apply repr_lock|].
  intros q s1 (-> & Hnz & R1 & _ & Hsr & Hc). k_steps.
  split_and!; [done|done|by apply repr_lock|done|done|done].
Qed.

(** C1: [page_alloc] takes the first page of the free list, puts it at the
    front of the used list and at the end of the LRU list, keeps the
    counters in step with the lists and touches nothing else; on an empty
    free list it returns NULL and changes nothing. *)
Theorem page_alloc_refines s P :
  repr s P → page_lock s = false →
  returns page_alloc s (λ p s',
    match spec_alloc P with
    | None => p = 0 ∧ s' = s
    | Some (q, P') =>
        p = q ∧ p ≠ 0 ∧ repr s' P' ∧ page_lock s' = false ∧ same_rest s s' ∧
        (counted s P → counted s' P')
    end).
Proof. exact (returns_page_alloc s P). Qed.

(** *** page_free *)

(** The critical section. *)
Lemma returns_free_locked s P p :
  repr s P → p ∈ used_pool P →
  returns (free_locked p) s (λ _ s',
    repr s' (spec_free p P) ∧ page_lock s' = page_lock s ∧ same_rest s s' ∧
    (counted s P → counted s' (spec_free p P))).
Proof.
  intros R Hp. unfold free_locked.
  pose proof (repr_layout _ _ R) as Hlay. pose proof (repr_rep _ _ R) as Rp.
  pose proof (repr_wf _ _ R) as Hwf. pose proof (spec_free_wf _ _ Hwf Hp) as Hwf'.
  destruct P as [F U L]. destruct Hwf as (HF & HU & HL & HFU & HLU).
  cbn in Hp, HF, HU, HL, HFU, HLU.
  assert (Hpg : is_page (parray s) (numpages s) p).
  { apply (rep_pages _ _ _ _ Rp). set_solver. }
  assert (HpF : p ∉ F) by set_solver.
  k_steps. ret_use (rep_to_free _ _ Hlay _ _ _ _ _ Rp Hpg); [by auto|].
  intros _ h1 [R1 _]. rewrite (remove_page_notin p F) in R1 by done. k_steps.
  ret_use (rep_lru_del _ _ Hlay _ _ _ _ _ R1 Hpg); [set_solver|].
  intros _ h2 [R2 _]. k_steps.
  split_and!; [|done|done|].
  - split; [done|done|done|apply (repr_store _ _ R)|]. cbn. by rewrite !wrap_wrap.
  - intros Hc. eapply (counted_incr_decr s _ _ _ 1 (-1)); [done|done|done| |].
    + cbn. rewrite length_app. cbn. lia.
    + cbn. rewrite remove_page_length by done. lia.
Qed.

(** The message, after the lock is released. *)
Lemma returns_free_log s P p :
  repr s P → is_page (parray s) (numpages s) p →
  returns (free_log p) s (λ _ s',
    repr s' P ∧ page_lock s' = page_lock s ∧ same_rest s s' ∧ (counted s P → counted s' P)).
Proof.
  intros R Hp. destruct (repr_store _ _ R p Hp) as [pg Hpg]. unfold free_log. k_steps.
  eapply returns_load_page; [|exact Hpg|].
  { eapply page_nonzero; [apply (repr_layout _ _ R)|exact Hp]. }
  k_steps. split_and!; [|done|done|done]. destruct R. by split.
Qed.

Lemma returns_page_free s P p :
  repr s P → page_lock s = false → p ∈ used_pool P →
  returns (page_free p) s (λ _ s',
    repr s' (spec_free p P) ∧ page_lock s' = false ∧ same_rest s s' ∧
    (counted s P → counted s' (spec_free p P))).
Proof.
  intros R Hlock Hp. unfold page_free. do 2 k_step. apply returns_bind.
  assert (Hpg : is_page (parray s) (numpages s) p) by (apply (rep_pages _ _ _ _ (repr_rep _ _ R)); set_solver).
  ret_use returns_free_locked; [by apply repr_lock|done|]. intros _ s1 (R1 & _ & Hs1 & Hc1). do 2 k_step.
  destruct Hs1 as (Ea & Eb & Ec & Ed & Ee & Ef).
  ret_use returns_free_log; [by apply repr_lock|cbn [parray numpages put_lock]; by rewrite Eb, Ec|].
  intros _ s2 (R2 & Hl2 & (Fa & Fb & Fc & Fd & Fe & Ff) & Hc2). split_and!; [done|done| |auto].
  unfold same_rest. rewrite Fa, Fb, Fc, Fd, Fe, Ff. done.
Qed.

(** C4: [page_free] on a page in use appends it to the free list, takes it
    out of the used and LRU lists, keeps the counters in step and touches
    nothing else. *)
Theorem page_free_refines s P p :
  repr s P → page_lock s = false → p ∈ used_pool P →
  returns (page_free p) s (λ _ s',
    repr s' (spec_free p P) ∧ page_lock s' = false ∧ same_rest s s' ∧
    (counted s P → counted s' (spec_free p P))).
Proof. exact (returns_page_free s P p). Qed.
End state.
