(* ===== verification/FrameMark.v ===== *)
(** Marking ranges of pages, [page_mark_range] of [frame.c]: the operation on
    the pools, on states where the LRU list need not be the pages in use, and
    the refinement theorem. *)

From S2P Require Import Prelude Kernel KList State Paging Frame FrameSpec FrameRefine.

Open Scope Z_scope.

Section state.
Context `{MMU, Layout}.

(** Pages the marking loop skips: page tables and the page array itself. *)
Definition immutable (pg : page) : bool := nz (Z.land (flags pg) (Z.lor P_PHYS P_VIRT)).
Definition skipped (s : kstate) (i : Z) : bool :=
  match store s !! page_at (parray s) i with Some pg => immutable pg | None => true end.

Definition spec_mark (fl p : Z) (P : pools) : pools :=
  if nz (Z.land fl P_USED) then spec_mark_used p P else spec_mark_free p P.
Definition spec_mark_page (fl : Z) (s : kstate) (P : pools) (i : Z) : pools :=
  if skipped s i then P else spec_mark fl (page_at (parray s) i) P.
Definition spec_mark_range (fl : Z) (s : kstate) (P : pools) (a b : Z) : pools :=
  foldl (spec_mark_page fl s) P (seqZ a (b - a)).

(** [tracks s P]: the three lists hold the three pools, without the claim that
    the LRU list holds exactly the pages in use: marking keeps it when the
    boot code marks a page as used and then as free. *)
Record tracks (s : kstate) (P : pools) : Prop := {
  tr_layout : layout_ok (parray s) (numpages s);
  tr_rep : rep (lists s) (parray s) (numpages s) P;
  tr_store : ∀ p, is_page (parray s) (numpages s) p → is_Some (store s !! p);
  tr_size_t : u64 (num_free_pages s) = num_free_pages s ∧
    u64 (num_used_pages s) = num_used_pages s;
}.

Lemma repr_tracks s P : repr s P → tracks s P.
Proof. intros []. by split. Qed.
Lemma tracks_repr s P : tracks s P → pools_wf P → repr s P.
Proof. intros [] ?. by split. Qed.

(** The node of page [p] is where a list move may find it: in a pool, or
    self-linked; with [b], its [lru] node too. *)
Definition linkable (b : bool) (h : heap) (P : pools) (p : Z) : Prop :=
  (p ∈ free_pool P ∨ p ∈ used_pool P ∨
    ((p ∉ free_pool P) ∧ (p ∉ used_pool P) ∧ self_linked h (pages_of p))) ∧
  (b = true → p ∈ lru_pool P ∨ ((p ∉ lru_pool P) ∧ self_linked h (lru_of p))).

(** Where marking keeps the pools well formed: a page that [page_free]
    released has a stale [lru] node and is not markable as used; a page in use
    is not markable as free. *)
Definition markable (fl : Z) (h : heap) (P : pools) (p : Z) : Prop :=
  (p ∈ free_pool P ∨ p ∈ used_pool P ∨
    ((p ∉ free_pool P) ∧ (p ∉ used_pool P) ∧ self_linked h (pages_of p))) ∧
  (if nz (Z.land fl P_USED)
   then p ∈ lru_pool P ∨ ((p ∉ lru_pool P) ∧ self_linked h (lru_of p))
   else p ∉ used_pool P).

Lemma page_at_page s i :
  layout_ok (parray s) (numpages s) → 0 <= i < numpages s →
  page_at (parray s) i = parray s + sizeof_page * i ∧
  is_page (parray s) (numpages s) (page_at (parray s) i).
Proof.
  intros [(? & ? & ?) _ _] Hi. unfold page_at. rewrite wrap_small.
  - split; [done|]. by exists i.
  - unfold sizeof_page in *. nia.
Qed.

Lemma markable_linkable fl h P p : markable fl h P p → linkable (nz (Z.land fl P_USED)) h P p.
Proof. intros [? Hc]. split; [done|]. intros E. by rewrite E in Hc. Qed.

Lemma spec_mark_page_wf fl s P i :
  pools_wf P → (nz (Z.land fl P_USED) = false → skipped s i = false →
    page_at (parray s) i ∉ used_pool P) →
  pools_wf (spec_mark_page fl s P i).
Proof.
  intros Hwf Hn. unfold spec_mark_page, spec_mark. destruct (skipped s i) eqn:Es; [done|].
  destruct (nz (Z.land fl P_USED)); [by apply spec_mark_used_wf|].
  apply spec_mark_free_wf; [done|]. by apply Hn.
Qed.

(** The list nodes that marking page [i] may write. *)
Definition mark_touches (fl : Z) (t : kstate) (P : pools) (i : Z) : list Z :=
  if skipped t i then [] else
  touched_pages P (page_at (parray t) i) ++
  (if nz (Z.land fl P_USED) then touched_lru P (page_at (parray t) i) else []).

(** What marking page [i] does to the state. *)
Record marked (fl : Z) (t : kstate) (P : pools) (i : Z) (t' : kstate) : Prop := {
  mk_tracks : tracks t' (spec_mark_page fl t P i);
  mk_lists : same_outside (mark_touches fl t P i) (lists t) (lists t');
  mk_store : store t' =
    if skipped t i then store t
    else alter (with_flags (u64 fl)) (page_at (parray t) i) (store t);
  mk_rest : parray t' = parray t ∧ numpages t' = numpages t ∧ page_lock t' = page_lock t ∧
    ram t' = ram t ∧ cr3 t' = cr3 t ∧ PML4 t' = PML4 t;
  mk_free : num_free_pages t' =
    if skipped t i || nz (Z.land fl P_USED) then num_free_pages t
    else u64 (num_free_pages t + 1);
  mk_used : num_used_pages t' =
    if skipped t i || negb (nz (Z.land fl P_USED)) then num_used_pages t
    else u64 (num_used_pages t + 1);
}.

Lemma tracks_mark (t t' : kstate) P P' p pg v :
  tracks t P →
  u64 (num_free_pages t') = num_free_pages t' → u64 (num_used_pages t') = num_used_pages t' →
  store t !! p = Some pg → rep (lists t') (parray t) (numpages t) P' →
  store t' = <[p:=with_flags v pg]> (store t) →
  parray t' = parray t → numpages t' = numpages t → tracks t' P'.
Proof.
  intros R Hnf Hnu Hs Hr Es Ep En. split; rewrite ?Ep, ?En; [apply R|done| |done].
  intros q Hq. rewrite Es, lookup_insert. case_decide; [by eauto|]. by apply R.
Qed.

Lemma alter_as_insert (f : page → page) p pg (m : gmap Z page) :
  m !! p = Some pg → alter f p m = <[p:=f pg]> m.
Proof.
  intros E. apply map_eq. intros i. rewrite lookup_alter, lookup_insert.
  repeat case_decide; subst; [|done..]. by rewrite E.
Qed.

(** The pages of [[a, b)] that the loop marks. *)
Definition to_mark (s : kstate) (a b : Z) : Z :=
  Z.of_nat (length (filter (λ i, skipped s i = false) (seqZ a (b - a)))).

Lemma to_mark_S s a k : a <= k →
  to_mark s a (k + 1) = to_mark s a k + (if skipped s k then 0 else 1).
Proof.
  intros. unfold to_mark. rewrite seqZ_snoc, filter_app, length_app by lia.
  destruct (skipped s k) eqn:E.
  - rewrite filter_cons_False by congruence. cbn. lia.
  - rewrite filter_cons_True by done. cbn. lia.
Qed.

Lemma page_at_inj s i j :
  layout_ok (parray s) (numpages s) → 0 <= i < numpages s → 0 <= j < numpages s →
  page_at (parray s) i = page_at (parray s) j → i = j.
Proof.
  intros Hlay Hi Hj. destruct (page_at_page s i Hlay Hi) as [-> _].
  destruct (page_at_page s j Hlay Hj) as [-> _]. unfold sizeof_page. lia.
Qed.

Lemma u64_add_l x y : u64 (u64 x + y) = u64 (x + y).
Proof. apply Zplus_mod_idemp_l. Qed.

Section mark.
Context (fl : Z) (b : bool) (Hb : nz (Z.land fl P_USED) = true → b = true).

Lemma returns_mark_one t P i :
  tracks t P → 0 <= i < numpages t →
  (skipped t i = false → linkable b (lists t) P (page_at (parray t) i)) →
  returns (mark_one fl i) t (λ _ t', marked fl t P i t').
Proof.
  intros R Hi Hm. pose proof (tr_layout _ _ R) as Hlay. pose proof (tr_rep _ _ R) as Rp.
  destruct (page_at_page t i Hlay Hi) as [_ Hp]. set (p := page_at (parray t) i) in *.
  destruct (tr_store _ _ R p Hp) as [pg Hpg].
  assert (Hsk : skipped t i = immutable pg) by (unfold skipped; fold p; by rewrite Hpg).
  assert (Hnz : p ≠ 0) by (by eapply page_nonzero).
  unfold mark_one. k_steps. fold p. eapply returns_load_page; [done|exact Hpg|].
  change (nz (Z.land (flags pg) (Z.lor P_PHYS P_VIRT))) with (immutable pg).
  destruct (immutable pg) eqn:Himm.
  { apply returns_ret. split; unfold spec_mark_page, mark_touches; rewrite ?Hsk; cbn; done. }
  specialize (Hm Hsk) as [Hm1 Hm2]. destruct P as [F U L].
  k_steps. eapply returns_store_page; [done|exact Hpg|].
  destruct (nz (Z.land fl P_USED)) eqn:Hu; k_steps.
  - specialize (Hm2 (Hb eq_refl)).
    ret_use (rep_to_used _ _ Hlay _ _ _ _ _ Rp Hp); [done|]. intros _ h1 [R1 Ho1]. k_steps.
    ret_use (rep_lru_move _ _ Hlay _ _ _ _ _ R1 Hp).
    { destruct Hm2 as [?|[? Hself]]; [by left|right]. split; [done|].
      unfold self_linked in *. rewrite Ho1; [done|].
      eapply lru_untouched_pages; [done|apply (rep_pages _ _ _ _ Rp)|done..]. }
    intros _ h2 [R2 Ho2]. k_steps.
    split; unfold spec_mark_page, spec_mark, mark_touches; rewrite ?Hsk, ?Hu; cbn [orb negb]; [|..|done|done|done].
    + destruct (tr_size_t _ _ R). by eapply (tracks_mark t); [|cbn; rewrite ?wrap_wrap..|exact Hpg| | | |].
    + intros y Hy. rewrite elem_of_app in Hy. rewrite Ho2, Ho1; [done|tauto..].
    + by erewrite alter_as_insert.
  - ret_use (rep_to_free _ _ Hlay _ _ _ _ _ Rp Hp); [done|]. intros _ h1 [R1 Ho1]. k_steps.
    split; unfold spec_mark_page, spec_mark, mark_touches; rewrite ?Hsk, ?Hu; cbn [orb negb]; [|..|done|done|done].
    + destruct (tr_size_t _ _ R). by eapply (tracks_mark t); [|cbn; rewrite ?wrap_wrap..|exact Hpg| | | |].
    + intros y Hy. rewrite elem_of_app in Hy. rewrite Ho1; [done|tauto].
    + by erewrite alter_as_insert.
Qed.

(** Marking one page leaves every page that can be moved so. *)
Lemma linkable_mark t P i t' q :
  tracks t P → marked fl t P i t' → 0 <= i < numpages t →
  is_page (parray t) (numpages t) q →
  linkable b (lists t) P q → linkable b (lists t') (spec_mark_page fl t P i) q.
Proof.
  intros R Hmk Hi Hq [H1 H2]. pose proof (tr_layout _ _ R) as Hlay.
  pose proof (rep_pages _ _ _ _ (tr_rep _ _ R)) as HP.
  destruct (page_at_page t i Hlay Hi) as [_ Hp].
  pose proof (mk_lists _ _ _ _ _ Hmk) as Ho.
  set (p := page_at (parray t) i) in *.
  assert (Hlru : (nz (Z.land fl P_USED) = false ∨ skipped t i = true ∨ q ≠ p) → q ∉ lru_pool P →
    lists t' !! lru_of q = lists t !! lru_of q).
  { intros Hc ?. apply Ho. unfold mark_touches. fold p. destruct (skipped t i); [set_solver|].
    rewrite elem_of_app. intros [?|Hin].
    - eapply (lru_untouched_pages _ _ Hlay P p q HP Hp Hq); done.
    - destruct (nz (Z.land fl P_USED)); [|set_solver].
      destruct Hc as [?|[?|?]]; [done..|]. eapply (lru_untouched _ _ Hlay P p q HP Hp Hq); done. }
  assert (Hpages : (skipped t i = true ∨ q ≠ p) → q ∉ free_pool P → q ∉ used_pool P →
    lists t' !! pages_of q = lists t !! pages_of q).
  { intros Hc ??. apply Ho. unfold mark_touches. fold p. destruct (skipped t i); [set_solver|].
    destruct Hc as [?|?]; [done|]. rewrite elem_of_app. intros [?|Hin].
    - eapply (pages_untouched _ _ Hlay P p q HP Hp Hq); done.
    - destruct (nz (Z.land fl P_USED)); [|set_solver].
      eapply (pages_untouched_lru _ _ Hlay P p q HP Hp Hq); done. }
  clear Ho. unfold linkable, self_linked, spec_mark_page, spec_mark in *. fold p.
  destruct (skipped t i).
  { split; [destruct H1 as [?|[?|(? & ? & ?)]]; [by auto..|]; rewrite Hpages by auto; auto|].
    intros Eb. destruct (H2 Eb) as [?|[? ?]]; [by auto|]. rewrite Hlru by auto. auto. }
  destruct (nz (Z.land fl P_USED)); cbn; destruct (decide (q = p)) as [->|Hne].
  - split; set_solver.
  - split.
    + destruct H1 as [?|[?|(? & ? & ?)]]; [set_solver..|]. rewrite Hpages by auto. set_solver.
    + intros Eb. destruct (H2 Eb) as [?|[? ?]]; [set_solver|]. rewrite Hlru by auto. set_solver.
  - split; [set_solver|]. intros Eb. destruct (H2 Eb) as [?|[? ?]]; [by auto|].
    rewrite Hlru by auto. auto.
  - split.
    + destruct H1 as [?|[?|(? & ? & ?)]]; [set_solver..|]. rewrite Hpages by auto. set_solver.
    + intros Eb. destruct (H2 Eb) as [?|[? ?]]; [set_solver|]. rewrite Hlru by auto. set_solver.
Qed.

Lemma spec_mark_range_S s P a k : a <= k →
  spec_mark_range fl s P a (k + 1) = spec_mark_page fl s (spec_mark_range fl s P a k) k.
Proof.
  intros. unfold spec_mark_range. by rewrite seqZ_snoc, foldl_app by lia.
Qed.

(** Induction over the pages of a range. *)
Lemma spec_mark_range_ind s P a e (Φ : Z → pools → Prop) :
  a <= e → Φ a P →
  (∀ k Q, a <= k < e → Φ k Q → Φ (k + 1) (spec_mark_page fl s Q k)) →
  Φ e (spec_mark_range fl s P a e).
Proof.
  intros Hae H0' Hs. replace e with (a + Z.of_nat (Z.to_nat (e - a))) by lia.
  assert (Hn : (Z.to_nat (e - a) <= Z.to_nat (e - a))%nat) by lia. revert Hn.
  generalize (Z.to_nat (e - a)) at 1 3 4 as n. induction n as [|n IH]; intros Hn.
  - unfold spec_mark_range. by rewrite Z.add_0_r, Z.sub_diag.
  - rewrite Nat2Z.inj_succ, <- Z.add_1_r, Z.add_assoc, spec_mark_range_S by lia.
    apply Hs; [lia|]. apply IH. lia.
Qed.

Lemma spec_mark_range_ext s s' P a e :
  a <= e → parray s = parray s' → (∀ i, a <= i < e → skipped s i = skipped s' i) →
  spec_mark_range fl s P a e = spec_mark_range fl s' P a e.
Proof.
  intros Hae Ep Hs. apply (spec_mark_range_ind s P a e
    (λ k Q, Q = spec_mark_range fl s' P a k)); [done| |].
  - unfold spec_mark_range. by rewrite Z.sub_diag.
  - intros k Q Hk ->. rewrite spec_mark_range_S by lia. unfold spec_mark_page. by rewrite Hs, Ep.
Qed.

(** After marking the pages of [[a, k)]. *)
Record range_marked (s : kstate) (P : pools) (a k : Z) (t : kstate) : Prop := {
  rm_tracks : tracks t (spec_mark_range fl s P a k);
  rm_rest : parray t = parray s ∧ numpages t = numpages s ∧
    ram t = ram s ∧ cr3 t = cr3 s ∧ PML4 t = PML4 s;
  rm_store : ∀ i, 0 <= i < numpages s →
    store t !! page_at (parray s) i =
      (if bool_decide (a <= i < k ∧ skipped s i = false) then with_flags (u64 fl) else id)
        <$> store s !! page_at (parray s) i;
  rm_linkable : ∀ q, is_page (parray s) (numpages s) q → linkable b (lists s) P q →
    linkable b (lists t) (spec_mark_range fl s P a k) q;
  rm_free : num_free_pages t =
    if nz (Z.land fl P_USED) then num_free_pages s else u64 (num_free_pages s + to_mark s a k);
  rm_used : num_used_pages t =
    if nz (Z.land fl P_USED) then u64 (num_used_pages s + to_mark s a k) else num_used_pages s;
}.

Lemma range_marked_start s P a : tracks s P → range_marked s P a a s.
Proof.
  intros R. assert (Ea : spec_mark_range fl s P a a = P) by (unfold spec_mark_range; by rewrite Z.sub_diag).
  assert (Ec : to_mark s a a = 0) by (unfold to_mark; by rewrite Z.sub_diag).
  split; rewrite ?Ea, ?Ec, ?Z.add_0_r; [done|done| |done|..].
  - intros i Hi. rewrite bool_decide_false by lia. by rewrite option_fmap_id.
  - destruct (nz (Z.land fl P_USED)); [done|]. symmetry. apply R.
  - destruct (nz (Z.land fl P_USED)); [|done]. symmetry. apply R.
Qed.

Lemma range_marked_step s P a k t :
  layout_ok (parray s) (numpages s) → 0 <= a <= k → k < numpages s →
  (skipped s k = false → linkable b (lists s) P (page_at (parray s) k)) →
  range_marked s P a k t →
  returns (mark_one fl k) t (λ _ t', range_marked s P a (k + 1) t' ∧ page_lock t' = page_lock t).
Proof.
  intros Hlay Ha Hk Hl [Hr (Ep & En & Er & Ec & Em) Hs Hm Hf Hu].
  assert (Hsk : skipped t k = skipped s k).
  { unfold skipped. rewrite Ep, Hs by lia. rewrite bool_decide_false by lia.
    by rewrite option_fmap_id. }
  destruct (page_at_page s k Hlay) as [_ Hpk]; [lia|].
  ret_use returns_mark_one; [exact Hr|lia|rewrite Hsk, Ep; auto|].
  intros _ t' Hmk.
  assert (Espec : spec_mark_range fl s P a (k + 1) =
    spec_mark_page fl t (spec_mark_range fl s P a k) k).
  { rewrite spec_mark_range_S by lia. unfold spec_mark_page. by rewrite Hsk, Ep. }
  pose proof (mk_rest _ _ _ _ _ Hmk) as (? & ? & ? & ? & ? & ?). split; [|done]. split.
  - rewrite Espec. by apply mk_tracks in Hmk.
  - split_and!; congruence.
  - intros i Hi. rewrite (mk_store _ _ _ _ _ Hmk), Hsk, Ep. destruct (decide (i = k)) as [->|Hne].
    + destruct (skipped s k) eqn:E.
      * rewrite Hs, !bool_decide_false by (lia || naive_solver). done.
      * rewrite lookup_alter, decide_True, Hs by (done || lia).
        rewrite bool_decide_false, bool_decide_true by (lia || naive_solver lia).
        by destruct (store s !! _).
    + replace (bool_decide (a <= i < k + 1 ∧ skipped s i = false))
        with (bool_decide (a <= i < k ∧ skipped s i = false))
        by (apply bool_decide_ext; intuition lia).
      destruct (skipped s k) eqn:E; [by apply Hs|].
      rewrite lookup_alter_ne; [by apply Hs|]. intros Heq.
      apply page_at_inj in Heq; done || lia.
  - intros q Hq Hlq. rewrite Espec. eapply linkable_mark; [exact Hr|exact Hmk|lia| |auto].
    by rewrite En, Ep.
  - rewrite (mk_free _ _ _ _ _ Hmk), Hsk, Hf, to_mark_S by lia.
    destruct (skipped s k), (nz (Z.land fl P_USED)); cbn [orb]; rewrite ?u64_add_l; try done;
      f_equal; lia.
  - rewrite (mk_used _ _ _ _ _ Hmk), Hsk, Hu, to_mark_S by lia.
    destruct (skipped s k), (nz (Z.land fl P_USED)); cbn [orb negb]; rewrite ?u64_add_l; try done;
      f_equal; lia.
Qed.

(** Exactly one of [P_FREE] and [P_USED] is asked for. *)
Definition one_pool (fl : Z) : Prop :=
  Z.land fl (Z.lor P_USED P_FREE) ≠ Z.lor P_USED P_FREE ∧
  Z.land fl (Z.lor P_USED P_FREE) ≠ 0.

Lemma returns_page_mark_range s P start end_ :
  tracks s P → page_lock s = false →
  0 <= start <= end_ → end_ < 2 ^ 64 - 4096 → end_ / 4096 < numpages s → one_pool fl →
  (∀ i, start / 4096 <= i <= end_ / 4096 → skipped s i = false →
     linkable b (lists s) P (page_at (parray s) i)) →
  returns (page_mark_range start end_ fl) s (λ r s',
    r = 0 ∧ page_lock s' = false ∧ range_marked s P (start / 4096) (end_ / 4096 + 1) s').
Proof.
  intros R Hlock Hse Hend Hnp [Hf1 Hf2] Hm. unfold page_mark_range.
  rewrite ROUND_DOWN_index, ROUND_UP_index by lia.
  destruct (Z.ltb_spec end_ start); [lia|].
  rewrite (proj2 (Z.eqb_neq _ _) Hf1), (proj2 (Z.eqb_neq _ _) Hf2).
  assert (0 <= start / 4096 <= end_ / 4096) by dlia.
  k_steps. apply returns_assert; [by apply Z.leb_le; lia|]. k_steps.
  set (a := start / 4096) in *. set (e := end_ / 4096 + 1) in *.
  apply (returns_for_range (λ k t, range_marked s P a k t ∧ page_lock t = true)); [lia| | |].
  - split; [|done]. apply (range_marked_start s P a) in R as [[] ? ? ? ? ?]. by split.
  - intros k t Hk [HI Hl]. ret_use (range_marked_step s P a k t); [apply R|lia|lia|intros; apply Hm; done || lia|exact HI|].
    cbn. intros _ t' [? El]. by rewrite El.
  - intros t [HI Hl]. k_steps. split_and!; [done|done|]. destruct HI as [[] ? ? ? ? ?]. by split.
Qed.
End mark.

Lemma spec_mark_range_wf fl s P a e :
  pools_wf P → a <= e → (nz (Z.land fl P_USED) = false →
    ∀ i, a <= i < e → skipped s i = false → page_at (parray s) i ∉ used_pool P) →
  pools_wf (spec_mark_range fl s P a e).
Proof.
  intros Hwf Hae Hn.
  assert (G : ∀ n, (n <= Z.to_nat (e - a))%nat →
    let Q := spec_mark_range fl s P a (a + Z.of_nat n) in
    pools_wf Q ∧ (nz (Z.land fl P_USED) = false → ∀ q, q ∈ used_pool Q → q ∈ used_pool P)).
  { induction n as [|n IH]; intros Hle.
    - unfold spec_mark_range. by rewrite Nat2Z.inj_0, Z.add_0_r, Z.sub_diag.
    - destruct IH as [W S]; [lia|]. cbv zeta. rewrite Nat2Z.inj_succ, <- Z.add_1_r, Z.add_assoc.
      rewrite spec_mark_range_S by lia. split.
      + apply spec_mark_page_wf; [done|]. intros Eu Es Hin. apply (Hn Eu (a + Z.of_nat n)); [lia|done|auto].
      + intros Eu q. unfold spec_mark_page, spec_mark. rewrite Eu.
        destruct (skipped s _); [by apply S|]. cbn. rewrite elem_of_remove_page. intros [_ ?]. by apply S. }
  specialize (G (Z.to_nat (e - a)) ltac:(lia)). rewrite Z2Nat.id, Z.add_comm, Z.sub_add in G by lia.
  apply G.
Qed.

(** C5: [page_mark_range start end flags] with exactly one of [P_FREE] and
    [P_USED] returns 0 and marks the pages [start/4096 .. end/4096] one by
    one, in address order: every page that holds no page table and no part
    of the page array gets the new flags and moves to the end of its pool
    (and of the LRU order when it is marked as used); the others keep flags
    and place. The counter of the target pool grows by the number of pages
    marked. *)
Theorem page_mark_range_refines s P start end_ fl :
  repr s P → page_lock s = false →
  0 <= start <= end_ → end_ < 2 ^ 64 - 4096 → end_ / 4096 < numpages s → one_pool fl →
  (∀ i, start / 4096 <= i <= end_ / 4096 → skipped s i = false →
     markable fl (lists s) P (page_at (parray s) i)) →
  returns (page_mark_range start end_ fl) s (λ r s',
    r = 0 ∧ page_lock s' = false ∧
    repr s' (spec_mark_range fl s P (start / 4096) (end_ / 4096 + 1)) ∧
    (∀ i, 0 <= i < numpages s → store s' !! page_at (parray s) i =
      (if bool_decide (start / 4096 <= i <= end_ / 4096 ∧ skipped s i = false)
       then with_flags (u64 fl) else id) <$> store s !! page_at (parray s) i) ∧
    num_free_pages s' =
      (if nz (Z.land fl P_USED) then num_free_pages s
       else u64 (num_free_pages s + to_mark s (start / 4096) (end_ / 4096 + 1))) ∧
    num_used_pages s' =
      (if nz (Z.land fl P_USED)
       then u64 (num_used_pages s + to_mark s (start / 4096) (end_ / 4096 + 1))
       else num_used_pages s)).
Proof.
  intros R Hlock Hse Hend Hnp Hf Hm.
  ret_use (returns_page_mark_range fl _ (λ H, H) s P start end_);
    [by apply repr_tracks|done..| |].
  { intros i Hi Hs. by apply markable_linkable, Hm. }
  cbn. intros r s' (-> & Hl & HI).
  assert (E : ∀ i, start / 4096 <= i <= end_ / 4096 ↔ start / 4096 <= i < end_ / 4096 + 1) by lia.
  split_and!; [done|done| | | |].
  - apply tracks_repr; [apply HI|]. apply spec_mark_range_wf; [apply R|dlia|].
    intros Eu i Hi Hs. destruct (Hm i) as [_ Hu]; [lia|done|]. by rewrite Eu in Hu.
  - intros i Hi. rewrite (rm_store _ _ _ _ _ _ _ HI i Hi). f_equal.
    by rewrite (bool_decide_ext _ _ (and_iff_compat_r _ (E i))).
  - apply HI.
  - apply HI.
Qed.
End state.
