(* ===== verification/Demo.v ===== *)
(** Concrete states for the witnesses: a small machine with a few pages, and
    decision procedures for the shape predicates, so that a witness is checked
    by evaluation. *)

From S2P Require Import Prelude Kernel KList State Paging Frame FrameSpec FrameRefine FrameMark.

Open Scope Z_scope.

(** ** Deciding the shape of a heap *)

#[export] Instance link_dec h a b : Decision (link h a b).
Proof. unfold link. apply _. Defined.
#[export] Instance seg_dec h a xs b : Decision (seg h a xs b).
Proof. revert a. induction xs as [|x xs IH]; intros a; cbn; apply _. Defined.
#[export] Instance dll_dec h hd xs : Decision (dll h hd xs).
Proof. unfold dll. apply _. Defined.
#[export] Instance self_linked_dec h e : Decision (self_linked h e).
Proof. unfold self_linked. apply _. Defined.

(** The addresses of the elements of an array. *)
Definition page_addrs (base np : Z) : list Z := (λ i, base + sizeof_page * i) <$> seqZ 0 np.

Lemma elem_of_page_addrs base np p : p ∈ page_addrs base np ↔ is_page base np p.
Proof.
  unfold page_addrs, is_page. rewrite list_elem_of_fmap. split.
  - intros (i & -> & Hi%elem_of_seqZ). exists i. split; [lia|done].
  - intros (i & Hi & ->). exists i. split; [done|]. apply elem_of_seqZ. lia.
Qed.

Lemma is_page_all base np (Q : Z → Prop) :
  Forall Q (page_addrs base np) → ∀ p, is_page base np p → Q p.
Proof. intros HQ p Hp%elem_of_page_addrs. by eapply Forall_forall in HQ. Qed.

#[export] Instance is_page_dec base np p : Decision (is_page base np p).
Proof.
  refine (cast_if (decide (p ∈ page_addrs base np))); by rewrite <- elem_of_page_addrs.
Defined.

(** ** A small machine *)

(** List heads below the page array, which starts at 4096. *)
Definition demo_layout : Layout := {| l_free := 0x100; l_used := 0x200; l_lru := 0x300 |}.
#[export] Existing Instance demo_layout | 100.
#[export] Existing Instance x86_walk | 100.

Definition demo_base : Z := 0x1000.

Definition demo_heap (np : Z) : heap :=
  list_to_map ((λ a, (a, Node a a)) <$>
    [l_free; l_used; l_lru] ++ (page_addrs demo_base np ≫= λ p, [lru_of p; pages_of p])).
Definition demo_store (np : Z) : gmap Z page :=
  list_to_map ((λ i, (page_at demo_base i, Page (i * 4096) 0 0 0)) <$> seqZ 0 np).

(** [np] pages, none of them in a pool. *)
Definition demo_state (np : Z) : kstate :=
  KState (demo_heap np) (demo_store np) demo_base np 0 0 false (λ _, 0) 0 0 [].

(** The state a computation ends in. *)
Definition final {A} (r : res kstate A) : kstate := match r with Ok _ s | Err _ s => s end.

(** A run that returns [v], by evaluation. *)
Definition run_check {A} `{EqDecision A} (r : res kstate A) (v : A) : bool :=
  match r with Ok a _ => bool_decide (a = v) | Err _ _ => false end.

Lemma returns_final {A} `{EqDecision A} (m : M kstate A) s v (Q : A → kstate → Prop) :
  run_check (m s) v = true → Q v (final (m s)) → returns m s Q.
Proof.
  unfold run_check, returns, final. destruct (m s) as [a s'|]; [|done].
  intros Hv%bool_decide_eq_true. by subst.
Qed.

Lemma demo_layout_ok np : 0 <= np <= 2 ^ 20 → layout_ok demo_base np.
Proof.
  intros Hnp. split; cbn; unfold demo_base, sizeof_page; [lia|lia|]. intros a Ha. lia.
Qed.

(** [rep] and [repr] by evaluation. *)
Definition rep_check (h : heap) (base np : Z) (P : pools) : bool :=
  bool_decide (dll h l_free (pages_of <$> free_pool P)) &&
  bool_decide (dll h l_used (pages_of <$> used_pool P)) &&
  bool_decide (dll h l_lru (lru_of <$> lru_pool P)) &&
  bool_decide (Forall (is_page base np) (free_pool P ++ used_pool P ++ lru_pool P)) &&
  bool_decide (Forall (λ p, is_Some (h !! lru_of p) ∧ is_Some (h !! pages_of p))
    (page_addrs base np)) &&
  bool_decide (Forall (λ p, p ∉ used_pool P) (free_pool P)) &&
  bool_decide (NoDup (free_pool P)) && bool_decide (NoDup (used_pool P)) &&
  bool_decide (NoDup (lru_pool P)) &&
  bool_decide (Forall (λ p, p ∈ used_pool P) (lru_pool P)) &&
  bool_decide (Forall (λ p, p ∈ lru_pool P) (used_pool P)).

Lemma rep_check_sound h base np P :
  rep_check h base np P = true → rep h base np P ∧ pools_wf P.
Proof.
  unfold rep_check. rewrite !andb_true_iff, !bool_decide_eq_true.
  intros ((((((((((H1 & H2) & H3) & H4) & H5) & H6) & H7) & H8) & H9) & H10) & H11).
  rewrite Forall_forall in H4, H6, H10, H11.
  split; [split; [done|done|done|done|exact (is_page_all base np _ H5)|done]|].
  unfold pools_wf. split_and!; [done..|]. intros p. split; auto.
Qed.

Definition repr_check (s : kstate) (P : pools) : bool :=
  rep_check (lists s) (parray s) (numpages s) P &&
  bool_decide (Forall (λ p, is_Some (store s !! p)) (page_addrs (parray s) (numpages s))) &&
  bool_decide (u64 (num_free_pages s) = num_free_pages s) &&
  bool_decide (u64 (num_used_pages s) = num_used_pages s).

Lemma repr_check_sound s P :
  layout_ok (parray s) (numpages s) → repr_check s P = true → repr s P.
Proof.
  unfold repr_check. rewrite !andb_true_iff, !bool_decide_eq_true.
  intros Hl (((Hr & Hs) & Hf) & Hu). apply rep_check_sound in Hr as [? ?].
  split; [done..| |done]. exact (is_page_all _ _ _ Hs).
Qed.

(** Prove [repr] of a concrete state. *)
Ltac demo_repr :=
  apply repr_check_sound;
  [ vm_compute parray; vm_compute numpages; apply demo_layout_ok; split; vm_compute; congruence
  | vm_compute; reflexivity ].

(** Pages 0, 1 and 2 free; then page 0 allocated. *)
Definition demo_free : kstate := final (page_mark_range 0 (2 * 4096) P_FREE (demo_state 4)).
Definition demo_used : kstate := final (page_alloc demo_free).

Lemma demo_state_repr : repr (demo_state 4) (Pools [] [] []).
Proof. demo_repr. Qed.
Lemma demo_free_repr : repr demo_free (Pools [0x1000; 0x1040; 0x1080] [] []).
Proof. demo_repr. Qed.
Lemma demo_used_repr : repr demo_used (Pools [0x1040; 0x1080] [0x1000] [0x1000]).
Proof. demo_repr. Qed.
