(* ===== verification/FrameInit.v ===== *)
(** [page_init] of [frame.c]: the page array it builds, and the reference
    functions [page_request], [page_lru] and [page_stats]. *)

From S2P Require Import Prelude Kernel KList State Paging Frame FrameSpec FrameRefine FrameMark.

Open Scope Z_scope.

(** ** What page_init computes *)

(** Pages in the system, pages the array takes, first byte of the array. *)
Definition init_numpages (memory : Z) : Z := memory / 4096 + 1.
Definition init_pages (memory : Z) : Z := init_numpages memory * 64 / 4096 + 1.
Definition init_round (table : Z) : Z := (table / 4096 + 1) * 4096.
Definition init_end (memory table : Z) : Z := init_pages memory * 4096 + init_round table.
(** The array does not fit in the 4 MB that the boot loader maps. *)
Definition init_big (memory table : Z) : bool := 0x400000 <? init_end memory table.
Definition init_table (memory table : Z) : Z :=
  if init_big memory table then init_round table + 3 * 4096 else init_round table.

(** What the direct map of [mmu_bootstrap] then covers. *)
Definition init_top (memory table : Z) : Z := (init_end memory table / 2 ^ 21 + 1) * 2 ^ 21.

Lemma V2P_INITIAL_TOP : V2P INITIAL_TOP = 0x400000.
Proof. reflexivity. Qed.

Section init.
Context `{MMU, Layout}.
Context (memory table : Z).
Let np := init_numpages memory.
Let T := init_table memory table.
Let base := P2V T.

(** Memory as [page_init] finds it: the array's memory is there (and, when it
    needs new page tables, below the end of what they map), with whatever it
    holds, and the list heads are as their static initialisers
    leave them. *)
Record init_ready (s : kstate) : Prop := {
  ir_order : 0 <= table < memory;
  ir_fits : T / 4096 + init_pages memory <= np;
  ir_memory : memory < 2 ^ 31 - 2 ^ 22;
  ir_layout : layout_ok base np;
  ir_nodes : nodes_ok (lists s) base np;
  ir_store : ∀ p, is_page base np p → is_Some (store s !! p);
  ir_heads : self_linked (lists s) l_free ∧ self_linked (lists s) l_used ∧
    self_linked (lists s) l_lru;
  ir_counts : u64 (num_free_pages s) = num_free_pages s ∧
    u64 (num_used_pages s) = num_used_pages s;
  ir_boot : init_big memory table = true →
    identity_mapped (ram s) (cr3 s)
      [init_round table; init_round table + 4096; init_round table + 8192] ∧
    init_end memory table < 2 ^ 30 - 0x200000 ∧
    init_end memory table + 3 * 4096 <= init_top memory table;
}.

(** The state after the first loop has initialised pages [0 .. k). *)
Record init_inv (s : kstate) (k : Z) (t : kstate) : Prop := {
  ii_parray : parray t = base ∧ numpages t = np;
  ii_counts : num_free_pages t = num_free_pages s ∧ num_used_pages t = num_used_pages s;
  ii_nodes : nodes_ok (lists t) base np;
  ii_heads : self_linked (lists t) l_free ∧ self_linked (lists t) l_used ∧
    self_linked (lists t) l_lru;
  ii_linked : ∀ i, 0 <= i < k → self_linked (lists t) (lru_of (page_at base i)) ∧
    self_linked (lists t) (pages_of (page_at base i));
  ii_store : ∀ i, 0 <= i < np → store t !! page_at base i =
    (if i <? k then with_address (i * 4096) else id) <$> store s !! page_at base i;
  ii_outside : ∀ q, ¬ is_page base np q → store t !! q = store s !! q;
}.

Lemma returns_init_node (h : heap) l Q :
  is_Some (h !! l) →
  (∀ h', self_linked h' l → same_outside [l] h h' →
     (∀ y, is_Some (h !! y) → is_Some (h' !! y)) → Q () h') →
  returns (list_init l) h Q.
Proof.
  intros Hl HQ. ret_use returns_list_init; [done|]. intros [] h' [Hs Ho].
  apply HQ; [done|done|]. intros y Hy. destruct (decide (y = l)) as [->|].
  - by rewrite Hs.
  - rewrite Ho; [done|]. set_solver.
Qed.

Lemma self_linked_other h h' l y :
  same_outside [l] h h' → y ≠ l → self_linked h y → self_linked h' y.
Proof. intros Ho Hne Hs. unfold self_linked. rewrite Ho; [done|]. set_solver. Qed.

Lemma init_page_at i : layout_ok base np → 0 <= i < np →
  page_at base i = base + 64 * i ∧ is_page base np (page_at base i).
Proof.
  intros Hlay Hi.
  apply (page_at_page (KState ∅ ∅ base np 0 0 false (λ _, 0) 0 0 []) i Hlay Hi).
Qed.

Lemma init_loop_step s k t :
  init_ready s → 0 <= k < np → init_inv s k t →
  returns (let p := page_at base k in
    on_lists (list_init (lru_of p));;
    on_lists (list_init (pages_of p));;
    store_page p (with_address (u64 (k * PAGE_SIZE)))) t (λ _ t', init_inv s (k + 1) t').
Proof.
  intros Hr Hk HI. pose proof (ir_layout _ Hr) as Hlay. destruct HI as [Ip Ic In Ih Il Is Io].
  destruct (init_page_at k Hlay Hk) as [Ek Hp]. set (p := page_at base k) in *.
  destruct (node_not_head _ _ Hlay p Hp) as [(? & ? & ?) (? & ? & ?)].
  destruct (In p Hp) as [Hn1 Hn2]. destruct Ih as (Ih1 & Ih2 & Ih3).
  pose proof (Is k Hk) as Isk. replace (k <? k) with false in Isk by lia. fold p in Isk.
  rewrite option_fmap_id in Isk.
  cbv zeta. k_steps. apply returns_init_node; [done|]. intros h1 S1 O1 K1.
  k_steps. apply returns_init_node; [auto|]. intros h2 S2 O2 K2.
  assert (Hother : ∀ y, y ≠ lru_of p → y ≠ pages_of p → h2 !! y = lists t !! y).
  { intros y ??. rewrite O2, O1 by set_solver. done. }
  destruct (store t !! p) as [pg|] eqn:Epg.
  2:{ destruct (ir_store _ Hr p Hp) as [? E]. congruence. }
  eapply returns_store_page; [by eapply page_nonzero|exact Epg|]. split.
  - done.
  - done.
  - intros q Hq. apply In in Hq as [? ?]. cbn. auto.
  - cbn. unfold self_linked in *. rewrite !Hother by done. done.
  - intros i Hi. cbn. destruct (decide (i = k)) as [->|Hne].
    + fold p. split; [|done]. eapply self_linked_other; [exact O2| |done].
      apply not_eq_sym. by apply (pages_lru_ne _ _ Hlay).
    + destruct (Il i) as [Hl1 Hl2]; [lia|].
      destruct (init_page_at i Hlay) as [Ei Hpi]; [lia|].
      unfold self_linked in *. rewrite !Hother; [done|..]; intros Heq.
      * apply (pages_lru_ne _ _ Hlay) in Heq; done.
      * apply (pages_of_inj _ _ Hlay) in Heq; [|done..]. lia.
      * apply (lru_of_inj _ _ Hlay) in Heq; [|done..]. lia.
      * symmetry in Heq. apply (pages_lru_ne _ _ Hlay) in Heq; done.
  - intros i Hi. cbn. destruct (init_page_at i Hlay Hi) as [Ei Hpi]. rewrite lookup_insert.
    destruct (decide (p = page_at base i)) as [Heq|Hne].
    + assert (i = k) as -> by lia.
      fold p. replace (k <? k + 1) with true by lia. rewrite <- Isk. cbn. do 2 f_equal.
      apply wrap_small. destruct (lay_bounds _ _ Hlay). pose proof (ir_memory _ Hr).
      unfold PAGE_SIZE, np, init_numpages in *. dlia.
    + rewrite Is by done. f_equal.
      replace (i <? k + 1) with (i <? k); [done|]. assert (i ≠ k) by (intros ->; done). lia.
  - intros q Hq. cbn. rewrite lookup_insert_ne; [by apply Io|]. by intros ->.
Qed.

(** Pages whose flags [page_init] sets: the new page tables and the array. *)
Definition init_reserved (i : Z) : Prop :=
  init_round table / 4096 <= i < T / 4096 + init_pages memory.

(** The state once the pages satisfying [R] have their flags. *)
Record init_done (s : kstate) (R : Z → Prop) (t : kstate) : Prop := {
  id_parray : parray t = base ∧ numpages t = np;
  id_counts : num_free_pages t = num_free_pages s ∧ num_used_pages t = num_used_pages s;
  id_nodes : nodes_ok (lists t) base np;
  id_heads : self_linked (lists t) l_free ∧ self_linked (lists t) l_used ∧
    self_linked (lists t) l_lru;
  id_linked : ∀ i, 0 <= i < np → self_linked (lists t) (lru_of (page_at base i)) ∧
    self_linked (lists t) (pages_of (page_at base i));
  id_pages : ∀ i, 0 <= i < np → ∃ pg0 pg,
    store s !! page_at base i = Some pg0 ∧ store t !! page_at base i = Some pg ∧
    address pg = i * 4096 ∧ (R i → immutable pg = true) ∧
    (¬ R i → flags pg = flags pg0);
}.

Lemma init_done_iff s R R' t :
  (∀ i, 0 <= i < np → R i ↔ R' i) → init_done s R t → init_done s R' t.
Proof.
  intros HR [? ? ? ? ? Hp]. split; [done..|]. intros i Hi.
  destruct (Hp i Hi) as (pg0 & pg & ? & ? & ? & ? & ?). exists pg0, pg.
  pose proof (HR i Hi). split_and!; tauto.
Qed.

Lemma init_inv_done s t : init_ready s → init_inv s np t → init_done s (λ _, False) t.
Proof.
  intros Hr [? ? ? ? Hl Hs ?]. split; [done..|]. intros i Hi.
  destruct (init_page_at i (ir_layout _ Hr) Hi) as [_ Hp].
  destruct (ir_store _ Hr _ Hp) as [pg0 E]. exists pg0, (with_address (i * 4096) pg0).
  rewrite Hs, E by done. replace (i <? np) with true by lia. done.
Qed.

Lemma returns_set_page_flags s R t j v (Q : () → kstate → Prop) :
  init_ready s → init_done s R t → 0 <= j < np →
  nz (Z.land v (Z.lor P_PHYS P_VIRT)) = true →
  (∀ t', page_lock t' = page_lock t → init_done s (λ i, R i ∨ i = j) t' → Q () t') →
  returns (set_page_flags j v) t Q.
Proof.
  intros Hr [Ip Ic In Ih Il Hp] Hj Hv HQ. pose proof (ir_layout _ Hr) as Hlay.
  destruct (init_page_at j Hlay Hj) as [Ej Hpj].
  destruct (Hp j Hj) as (pg0 & pg & E0 & E & Ha & _).
  unfold set_page_flags. k_steps. rewrite (proj1 Ip).
  eapply returns_store_page; [by eapply page_nonzero|exact E|]. apply HQ; [done|].
  split; [done..|]. intros i Hi. cbn [store put_store].
  destruct (init_page_at i Hlay Hi) as [Ei _]. rewrite lookup_insert. case_decide as Hd.
  - assert (i = j) as -> by lia. exists pg0, (with_flags v pg). split_and!; [done..|].
    intros []. by right.
  - destruct (Hp i Hi) as (qg0 & qg & ? & ? & ? & ? & ?). exists qg0, qg.
    assert (i ≠ j) by (intros ->; done). split_and!; [done|done|done| |]; naive_solver.
Qed.

Lemma init_arith s : init_ready s →
  ROUND_UP table PAGE_SIZE = init_round table ∧
  ROUND_UP memory PAGE_SIZE / PAGE_SIZE = np ∧
  ROUND_UP (u64 (np * sizeof_page)) PAGE_SIZE / PAGE_SIZE = init_pages memory ∧
  u64 (init_pages memory * PAGE_SIZE + init_round table) = init_end memory table ∧
  0 < init_round table <= T ∧ T < 2 ^ 31 ∧ T mod 4096 = 0 ∧ np < 2 ^ 19.
Proof.
  intros [? Hf ? _ _ _ _ _ _]. unfold np, T, init_table, init_end in *.
  rewrite ROUND_UP_page, ROUND_UP_index by lia.
  assert (Hnp : 0 < init_numpages memory < 2 ^ 19) by (unfold init_numpages; dlia).
  unfold sizeof_page. rewrite (wrap_small 64 (_ * 64)), ROUND_UP_index by lia.
  change (init_numpages memory * 64 / 4096 + 1) with (init_pages memory).
  assert (Hip : 0 < init_pages memory < 2 ^ 19) by (unfold init_pages; dlia).
  change ((table / 4096 + 1) * 4096) with (init_round table).
  assert (0 < init_round table < 2 ^ 31 - 2 ^ 21 ∧ init_round table mod 4096 = 0)
    by (unfold init_round; dlia).
  split_and!; try done; try (destruct (init_big memory table); dlia).
  rewrite wrap_small; unfold PAGE_SIZE; lia.
Qed.

(** The page table for the array, when it needs one. *)
Lemma returns_init_bootstrap s :
  init_ready s →
  let big := init_big memory table in
  let T0 := init_round table in
  returns (if big then mmu_bootstrap (ROUND_UP (init_end memory table) 0x200000)
             (if big then T0 else 0) (if big then u64 (T0 + PAGE_SIZE * 1) else 0)
             (if big then u64 (T0 + PAGE_SIZE * 2) else 0)
           else skip) s (λ _ s', only_paging s s').
Proof.
  intros Hr big T0. destruct (init_arith s Hr) as (_ & _ & _ & _ & ? & ? & ? & _).
  subst big T0. destruct (init_big memory table) eqn:Hb.
  - destruct (ir_boot _ Hr Hb) as (Hid & Hend & _). unfold T, init_table in *. rewrite Hb in *.
    assert (init_round table mod 4096 = 0) by dlia.
    assert (0 <= init_end memory table)
      by (unfold init_end, init_pages, init_numpages; pose proof (ir_order _ Hr); dlia).
    unfold PAGE_SIZE. rewrite !wrap_small by lia.
    ret_use returns_mmu_bootstrap.
    + exact Hid.
    + split; [dlia|lia].
    + split; [dlia|lia].
    + split; [dlia|lia].
    + repeat (apply NoDup_cons; split; [rewrite ?elem_of_cons, elem_of_nil; lia|]). constructor.
    + unfold ROUND_UP. rewrite (wrap_small 64) by lia.
      rewrite (land_lnot_low 21) by lia. dlia.
    + cbn. intros _ s' (_ & _ & _ & _ & ?). done.
  - apply returns_ret. destruct s. by eexists _, _, _.
Qed.

Lemma init_done_repr s R t : init_ready s → init_done s R t → repr t (Pools [] [] []).
Proof.
  intros Hr [[Ep En] Ic In (Ih1 & Ih2 & Ih3) Il Hp]. pose proof (ir_layout _ Hr) as Hlay.
  split; rewrite ?Ep, ?En.
  - done.
  - split; cbn; [by apply self_linked_dll..|set_solver|done|set_solver].
  - split_and!; cbn; [constructor..|set_solver|set_solver].
  - intros p (i & Hi & ->). destruct (init_page_at i Hlay Hi) as [E _].
    change sizeof_page with 64. rewrite <- E.
    destruct (Hp i Hi) as (? & ? & _ & ? & _). eauto.
  - destruct Ic as [-> ->]. apply Hr.
Qed.

(** The second loop: the frames of the new page tables. *)
Definition init_tables (k i : Z) : Prop :=
  init_big memory table = true ∧ init_round table / 4096 <= i < init_round table / 4096 + k.

Lemma init_tables_step s t k :
  init_ready s → 0 <= k < 3 → init_done s (init_tables k) t →
  let T0 := init_round table in
  let big := init_big memory table in
  let m := if k =? 0 then if big then T0 else 0
           else if k =? 1 then if big then u64 (T0 + PAGE_SIZE * 1) else 0
           else if big then u64 (T0 + PAGE_SIZE * 2) else 0 in
  returns (if nz m then set_page_flags (ROUND_DOWN m PAGE_SIZE / PAGE_SIZE)
      (Z.lor P_IMMUTABLE (Z.lor P_VIRT P_KERNEL)) else skip) t
    (λ _ t', init_done s (init_tables (k + 1)) t').
Proof.
  intros Hr Hk Ht T0 big m. destruct (init_arith s Hr) as (_ & _ & _ & _ & HT0 & HT & HTa & Hnp).
  pose proof (ir_fits _ Hr) as Hfits.
  destruct (init_big memory table) eqn:Hb.
  - assert (ET : T = T0 + 3 * 4096) by (unfold T, init_table; by rewrite Hb).
    assert (Em : m = T0 + 4096 * k).
    { subst m big. destruct (Z.eqb_spec k 0), (Z.eqb_spec k 1);
        unfold PAGE_SIZE; rewrite ?wrap_small by lia; lia. }
    rewrite Em. unfold nz. destruct (Z.eqb_spec (T0 + 4096 * k) 0); [lia|]. cbn [negb].
    assert (0 < init_pages memory) by (unfold init_pages, init_numpages; pose proof (ir_order _ Hr); dlia).
    eapply returns_set_page_flags; [done|exact Ht| |done|].
    + rewrite ROUND_DOWN_index. dlia.
    + intros t' _. apply init_done_iff. intros i Hi. unfold init_tables. rewrite ROUND_DOWN_index.
      fold T0. assert ((T0 + 4096 * k) / 4096 = T0 / 4096 + k) as -> by dlia.  rewrite Hb. lia.
  - assert (m = 0) as -> by (subst m big; by destruct (k =? 0), (k =? 1)).
    apply returns_ret. revert Ht. apply init_done_iff. intros i Hi. unfold init_tables.
    rewrite Hb. lia.
Qed.

(** The third loop: the frames of the array. *)
Definition init_array (k i : Z) : Prop :=
  init_tables 3 i ∨ T / 4096 <= i < T / 4096 + k.

Lemma init_array_step s t k :
  init_ready s → 0 <= k < init_pages memory → init_done s (init_array k) t →
  returns (let j := s32 (k + ROUND_DOWN T PAGE_SIZE / PAGE_SIZE) in
    set_page_flags j (Z.lor P_IMMUTABLE (Z.lor P_PHYS P_KERNEL))) t
    (λ _ t', init_done s (init_array (k + 1)) t').
Proof.
  intros Hr Hk Ht. destruct (init_arith s Hr) as (_ & _ & _ & _ & HT0 & HT & HTa & Hnp).
  pose proof (ir_fits _ Hr) as Hfits. cbv zeta. rewrite ROUND_DOWN_index, sgn_small by dlia.
  eapply returns_set_page_flags; [done|exact Ht|dlia|done|].
  intros t' _. apply init_done_iff. intros i Hi. unfold init_array.
  destruct (Z.eq_dec i (k + T / 4096)); intuition lia.
Qed.

(** C8: [page_init] places the page array after the kernel (after three new
    page-table frames when the array does not fit in the mapped 4 MB), gives
    page [i] the address [4096 * i], links both list nodes of every page to
    themselves, and marks exactly the frames that hold the new page tables
    and the array as unavailable; every other page keeps the flags its
    memory held. No page is in a pool afterwards. *)
Theorem page_init_spec s :
  init_ready s →
  returns (page_init memory table) s (λ _ s',
    page_lock s' = false ∧ init_done s init_reserved s' ∧ repr s' (Pools [] [] [])).
Proof.
  intros Hr. pose proof (ir_layout _ Hr) as Hlay.
  destruct (init_arith s Hr) as (E1 & E2 & E3 & E4 & HT0 & HT & HTa & Hnp).
  pose proof (ir_order _ Hr). pose proof (ir_fits _ Hr) as Hfits.
  assert (Hcount : 0 < np ∧ 0 < init_pages memory)
    by (unfold np, init_pages, init_numpages; dlia).
  unfold page_init. rewrite E1, E2. k_steps.
  apply returns_assert; [lia|]. k_steps. cbn [numpages put_numpages].
  rewrite E3, E4, V2P_INITIAL_TOP. change (0x400000 <? init_end memory table)
    with (init_big memory table). apply returns_assert.
  { unfold INITIAL_TOP. rewrite wrap_small; unfold PAGE_SIZE; lia. }
  k_step.
  replace (if init_big memory table then u64 (init_round table + PAGE_SIZE * 3)
           else init_round table) with T.
  2:{ unfold T, init_table in HT |- *. destruct (init_big memory table); [|done].
      rewrite wrap_small; unfold PAGE_SIZE; lia. }
  ret_use returns_init_bootstrap.
  { destruct Hr. split; done. }
  intros _ s1 (r & c & l & ->). k_steps. fold base.
  apply (returns_for_range (init_inv s)); [lia| | |].
  { destruct Hr as [? ? ? ? Hn Hs Hh Hc _]. split; try done.
    - intros i Hi. lia.
    - intros i Hi. replace (i <? 0) with false by lia. cbn. by rewrite option_fmap_id. }
  { intros k t Hk. by apply init_loop_step. }
  intros t1 Ht1. k_steps. apply init_inv_done in Ht1; [|done].
  apply (returns_for_range (λ k, init_done s (init_tables k))); [lia| | |].
  { revert Ht1. apply init_done_iff. unfold init_tables. lia. }
  { intros k t Hk. by apply init_tables_step. }
  intros t2 Ht2. k_steps.
  apply (returns_for_range (λ k, init_done s (init_array k))); [lia| | |].
  { revert Ht2. apply init_done_iff. unfold init_array. intuition lia. }
  { intros k t Hk. by apply init_array_step. }
  intros t3 Ht3. k_steps. split; [done|].
  assert (Hd : init_done s init_reserved t3).
  { revert Ht3. apply init_done_iff. intros i Hi. unfold init_array, init_tables, init_reserved.
    unfold T, init_table. destruct (init_big memory table); [|lia].
    assert ((init_round table + 3 * 4096) / 4096 = init_round table / 4096 + 3) as -> by dlia.
    lia. }
  pose proof (init_done_repr _ _ _ Hr Hd) as [? ? ? ? ?]. destruct Hd.
  split; [by split|by split].
Qed.
End init.
