(* ===== verification/PmmInit.v ===== *)
(** The physical memory manager's start-up, [pmm_init] of [src/kernel.c]: the
    boot loader's memory map and the pools it leaves, page by page. *)

From S2P Require Import Prelude Kernel KList State Paging Frame FrameSpec FrameRefine FrameMark.
From S2P Require Import FrameInit.

Open Scope Z_scope.

(** What the linker script defines: the end of the kernel image, and the image
    of the entry code of the other processors. *)
Class Image := {
  kernel_end : Z;
  ap_entry_start : Z;
  ap_entry_end : Z;
}.

(** [struct memory_map] of kernel.c. *)
Record memory_map := MemoryMap { mm_base : Z; mm_len : Z; mm_type : Z }.
Definition sizeof_memory_map : Z := 24.

(** [(mmap->type & 0xF) == 1] and [mmap->base+mmap->len]. *)
Definition usable (e : memory_map) : bool := Z.land (mm_type e) 0xF =? 1.
Definition mm_end (e : memory_map) : Z := u64 (mm_base e + mm_len e).

Section pmm.
Context `{MMU, Layout, Image}.

Definition KERNEL_END : Z := kernel_end.

Definition load_map (mmap : Z) : M kstate memory_map :=
  base ← mem_read mmap;
  len ← mem_read (u64 (mmap + 8));
  type ← mem_read (u64 (mmap + 16));
  mret (MemoryMap base len type).

(** The rounds of a loop [while (mmap < mmax) { ...; mmap++; }]. *)
Definition map_rounds (mmap mmax : Z) : nat :=
  Z.to_nat ((mmax - mmap + (sizeof_memory_map - 1)) / sizeof_memory_map).

(** The first loop; the result is [highest_addr]. *)
Fixpoint scan_map (n : nat) (mmap highest_addr : Z) : M kstate Z :=
  match n with
  | O => mret highest_addr
  | S n =>
      e ← load_map mmap;
      kernel_log "[init] %8s memory detected %#x - %#x\n"
        [AStr (if usable e then "Usable" else "Reserved"); AInt (mm_base e); AInt (mm_end e)];;
      scan_map n (u64 (mmap + sizeof_memory_map)) (if usable e then mm_end e else highest_addr)
  end.

(** The second loop. *)
Fixpoint mark_map (n : nat) (mmap highest_addr : Z) : M kstate () :=
  match n with
  | O => skip
  | S n =>
      e ← load_map mmap;
      (if mm_end e <=? highest_addr then
         page_mark_range (mm_base e) (mm_end e) (if usable e then P_FREE else P_USED);; skip
       else skip);;
      mark_map n (u64 (mmap + sizeof_memory_map)) highest_addr
  end.

Definition pmm_init (mem_map_location mem_map_length : Z) : M kstate () :=
  kernel_log "[init] parsing memory map\n" [];;
  let mmax := u64 (mem_map_location + sizeof_memory_map * mem_map_length) in
  highest_addr ← scan_map (map_rounds mem_map_location mmax) mem_map_location 0;
  page_init highest_addr (V2P KERNEL_END);;
  mark_map (map_rounds (P2V 0x7000) mmax) (P2V 0x7000) highest_addr;;
  page_mark_range 0 (V2P KERNEL_END) (Z.lor P_KERNEL (Z.lor P_IMMUTABLE P_USED));;
  skip.

(** ** The map in memory *)

(** [es] lies at physical address [a], which the kernel reads at [P2V a]. *)
Definition reads (s : kstate) (a v : Z) : Prop :=
  translate (ram s) (cr3 s) (P2V a) = Some a ∧ ram s a = v.
Fixpoint map_at (s : kstate) (a : Z) (es : list memory_map) : Prop :=
  match es with
  | [] => True
  | e :: es =>
      reads s a (mm_base e) ∧ reads s (a + 8) (mm_len e) ∧ reads s (a + 16) (mm_type e) ∧
      map_at s (a + 24) es
  end.

Lemma map_at_mono s s' a es :
  map_at s a es → (∀ b v, a <= b < a + 24 * Z.of_nat (length es) → reads s b v → reads s' b v) →
  map_at s' a es.
Proof.
  revert a. induction es as [|e es IH]; intros a Hm Hr; [done|].
  cbn [length] in Hr. destruct Hm as (R1 & R2 & R3 & Hm). split_and!; [apply Hr; done || lia..|].
  apply IH; [done|]. intros b v Hb. apply Hr. lia.
Qed.

Lemma returns_load_map s a e es :
  0 <= a → a + 24 < 2 ^ 31 → map_at s a (e :: es) →
  returns (load_map (P2V a)) s (λ e' s', e' = e ∧ s' = s).
Proof.
  intros Ha Hb ([T1 R1] & [T2 R2] & [T3 R3] & _). unfold load_map.
  assert (E : ∀ d, 0 <= d <= 16 → u64 (P2V a + d) = P2V (a + d)).
  { intros d Hd. rewrite !P2V_add by lia. unfold KERNEL_VIRT. rewrite wrap_small by lia. lia. }
  rewrite !E by lia. unfold returns, mbind, M_bind, mem_read. rewrite T1, T2, T3, R1, R2, R3.
  by destruct e.
Qed.

Lemma P2V_next a : 0 <= a → a + 24 < 2 ^ 31 → u64 (P2V a + sizeof_memory_map) = P2V (a + 24).
Proof.
  intros. rewrite !P2V_add by lia. unfold KERNEL_VIRT, sizeof_memory_map. rewrite wrap_small; lia.
Qed.

(** The end of the last usable region. *)
Definition highest_from (h : Z) (es : list memory_map) : Z :=
  foldl (λ h e, if usable e then mm_end e else h) h es.
Definition highest (es : list memory_map) : Z := highest_from 0 es.

Definition log_only (s s' : kstate) : Prop := ∃ l, s' = put_klog l s.

Lemma returns_scan_map es s a h :
  0 <= a → a + 24 * Z.of_nat (length es) < 2 ^ 31 → map_at s a es →
  returns (scan_map (length es) (P2V a) h) s (λ r s', r = highest_from h es ∧ log_only s s').
Proof.
  revert s a h. induction es as [|e es IH]; intros s a h Ha Hb Hm; cbn [scan_map length] in *.
  { k_steps. split; [done|]. exists (klog s). by destruct s. }
  k_step. ret_use returns_load_map; [lia|lia|exact Hm|]. intros e' s' [-> ->]. k_steps.
  rewrite P2V_next by lia. ret_use IH; [lia|lia| |].
  - destruct Hm as (_ & _ & _ & Hm). eapply map_at_mono; [exact Hm|]. done.
  - cbn. intros r s' [-> [l ->]]. split; [done|]. by exists l.
Qed.

(** ** page_init leaves the map readable *)

Definition same_memory (s s' : kstate) : Prop := ram s' = ram s ∧ cr3 s' = cr3 s.

#[local] Instance same_memory_preorder : PreOrder same_memory.
Proof. split; [done|]. intros s1 s2 s3 [A B] [C D]. split; congruence. Qed.

Lemma same_memory_lists {A} (c : M heap A) : keeps same_memory (on_lists c).
Proof. eapply keeps_zoom; [apply keeps_any|done]. Qed.
Lemma same_memory_log fmt args : keeps same_memory (kernel_log fmt args).
Proof. done. Qed.
Lemma same_memory_store p f : keeps same_memory (store_page p f).
Proof.
  unfold store_page. keeps_step; [|by intros ?]. intros s. unfold load_page.
  destruct (p =? 0); [done|]. by destruct (store s !! p).
Qed.
#[local] Hint Resolve same_memory_lists same_memory_log same_memory_store : keeps.

Lemma same_memory_page_flags i v : keeps same_memory (set_page_flags i v).
Proof. unfold set_page_flags. keeps_steps. Qed.
#[local] Hint Resolve same_memory_page_flags : keeps.

(** The memory that [page_init] leaves: with an array that does not fit in
    what the boot loader maps, the tables of [mmu_bootstrap] in the three
    frames after the kernel; otherwise nothing is written. *)
Definition init_frames (table : Z) : list Z :=
  [init_round table; init_round table + 4096; init_round table + 8192].
Definition init_memory (memory table : Z) (s s' : kstate) : Prop :=
  if init_big memory table then
    let T0 := init_round table in
    let n := init_top memory table / 2 ^ 21 in
    cr3 s' = T0 ∧ boot_tables (ram s') T0 (T0 + 4096) (T0 + 8192) n ∧
    boot_rest (ram s) (ram s') T0 (T0 + 4096) (T0 + 8192) (init_top memory table) n ∧
    only_frames (init_frames table) (ram s) (ram s')
  else same_memory s s'.

Lemma init_memory_same memory table s0 s s' s'' :
  same_memory s0 s → init_memory memory table s s' → same_memory s' s'' → init_memory memory table s0 s''.
Proof.
  unfold init_memory, same_memory. intros [E1 E2] Hm [E3 E4]. rewrite E3, E4, <- E1, <- E2. exact Hm.
Qed.

Lemma init_frames_ok memory table s :
  init_ready memory table s → init_big memory table = true →
  Forall (λ f, frame_ok f ∧ 0 < f ∧ f + 4096 <= init_top memory table) (init_frames table) ∧
  NoDup (0 :: init_frames table) ∧ 0 < init_top memory table / 2 ^ 21 <= 512 ∧
  init_top memory table = init_top memory table / 2 ^ 21 * 2 ^ 21.
Proof.
  intros Hr Hb. destruct (init_arith _ _ s Hr) as (_ & _ & _ & _ & ? & ? & ? & _).
  destruct (ir_boot _ _ _ Hr Hb) as (_ & Hend & Htop). unfold init_table in *. rewrite Hb in *.
  assert (init_round table mod 4096 = 0) by dlia.
  assert (init_round table + 4096 <= init_end memory table)
    by (unfold init_end, init_pages, init_numpages; pose proof (ir_order _ _ _ Hr); dlia).
  unfold init_big in Hb. apply Z.ltb_lt in Hb. unfold init_frames, init_top in *. split; [|split; [|dlia]].
  - repeat constructor; try lia; dlia.
  - repeat (apply NoDup_cons; split; [rewrite ?elem_of_cons, elem_of_nil; lia|]). constructor.
Qed.

Lemma returns_init_memory s s1 memory table :
  init_ready memory table s → init_big memory table = true → same_memory s s1 →
  let T0 := init_round table in
  returns (mmu_bootstrap (ROUND_UP (init_end memory table) 0x200000) T0
    (u64 (T0 + PAGE_SIZE * 1)) (u64 (T0 + PAGE_SIZE * 2))) s1 (λ _ s', init_memory memory table s s').
Proof.
  intros Hr Hb [Sr Sc] T0. destruct (init_arith _ _ s Hr) as (_ & _ & _ & _ & ? & ? & ? & _).
  destruct (ir_boot _ _ _ Hr Hb) as (Hid & Hend & _).
  destruct (init_frames_ok _ _ _ Hr Hb) as (Hf & Hnd & Hn & Etop).
  unfold init_frames in Hf, Hnd. fold T0 in Hf, Hnd, Hid.
  apply Forall_cons in Hf as [(F4 & ? & ?) Hf]. apply Forall_cons in Hf as [(F3 & ? & ?) Hf].
  apply Forall_cons in Hf as [(F2 & ? & ?) _].
  assert (Erd : ROUND_UP (init_end memory table) 0x200000 = init_top memory table).
  { unfold ROUND_UP, init_top in *. rewrite (wrap_small 64) by dlia. rewrite (land_lnot_low 21) by dlia. dlia. }
  rewrite Erd. unfold PAGE_SIZE. destruct F4, F3, F2. rewrite !wrap_small by lia.
  assert (Etop' : Z.of_nat (bootstrap_rounds (init_top memory table)) = init_top memory table / 2 ^ 21)
    by (unfold bootstrap_rounds; dlia).
  ret_use returns_mmu_bootstrap; [rewrite Sr, Sc; exact Hid|done|done|done|exact Hnd|dlia|].
  cbn. intros _ s' (Hc & Ht & Hrest & Ho & _). rewrite Etop' in *. unfold init_memory. rewrite Hb.
  split; [exact Hc|]. split; [exact Ht|]. unfold init_frames. fold T0. rewrite <- Sr. by split.
Qed.

Lemma page_init_memory s memory table :
  init_ready memory table s →
  ends (page_init memory table) s (λ _ s', init_memory memory table s s').
Proof.
  intros Hr. destruct (init_arith _ _ s Hr) as (E1 & E2 & E3 & E4 & HT0 & HT & HTa & Hnp).
  unfold page_init. rewrite E1, E2.
  eapply ends_run; [rewrite (proj2 (Z.ltb_lt _ _)) by apply Hr; reflexivity|].
  do 2 (eapply ends_run; [reflexivity|]). cbn [numpages put_numpages]. rewrite E3, E4.
  apply (ends_keeps same_memory); [by apply keeps_if|]. intros _ s1 S1.
  rewrite V2P_INITIAL_TOP. change (0x400000 <? init_end memory table) with (init_big memory table).
  apply ends_bind. eapply (ends_mono _ _ (λ _ s', init_memory memory table s s')).
  { destruct (init_big memory table) eqn:Hb.
    - apply returns_ends. by eapply returns_init_memory.
    - apply returns_ends, returns_ret. unfold init_memory. by rewrite Hb. }
  intros _ s2 H2s. eapply (ends_mono _ _ (λ _ s', same_memory s2 s')).
  { apply keeps_ends. keeps_steps; by intros ?. }
  intros _ s' S2. exact (init_memory_same _ _ _ _ _ _ (reflexivity s) H2s S2).
Qed.

(** The memory below the tables stays readable. *)
Lemma init_memory_reads memory table s s' a v :
  init_ready memory table s → init_memory memory table s s' → 0 <= a < init_round table →
  reads s a v → reads s' a v.
Proof.
  intros Hr Hm Ha [Ht Hv]. unfold init_memory in Hm. destruct (init_big memory table) eqn:Hb.
  2:{ destruct Hm as [Er Ec]. unfold reads. by rewrite Er, Ec. }
  destruct Hm as (Hc & Hbt & _ & Ho). destruct (init_frames_ok _ _ _ Hr Hb) as (Hf & Hnd & Hn & Etop).
  unfold init_frames in *. apply Forall_cons in Hf as [(F4 & ? & ?) Hf].
  apply Forall_cons in Hf as [(F3 & ? & ?) Hf]. apply Forall_cons in Hf as [(F2 & ? & ?) _]. split.
  - rewrite Hc. eapply boot_tables_translate; [exact F4|exact F3|exact F2| |exact Hbt|]; lia.
  - rewrite Ho; [done|]. intros f i Hf Hi. rewrite !elem_of_cons, elem_of_nil in Hf. lia.
Qed.

(** ** Which pool a page ends in *)

(** [Some true]: in use; [Some false]: free; [None]: in no pool. *)
Definition in_pools (P : pools) (q : Z) (v : option bool) : Prop :=
  match v with
  | None => (q ∉ free_pool P) ∧ q ∉ used_pool P
  | Some true => q ∈ used_pool P ∧ (q ∉ free_pool P) ∧ q ∈ lru_pool P
  | Some false => q ∈ free_pool P ∧ q ∉ used_pool P
  end.

Lemma in_pools_mark fl p P q v :
  in_pools P q v → in_pools (spec_mark fl p P) q (if decide (q = p) then Some (nz (Z.land fl P_USED)) else v).
Proof.
  intros Hv. unfold spec_mark. destruct (decide (q = p)) as [->|Hne].
  - destruct (nz (Z.land fl P_USED)); cbn; set_solver.
  - destruct v as [[]|], (nz (Z.land fl P_USED)); cbn in *; set_solver.
Qed.

Lemma in_pools_mark_range fl s P a e i v :
  layout_ok (parray s) (numpages s) → 0 <= a <= e → e <= numpages s → 0 <= i < numpages s →
  in_pools P (page_at (parray s) i) v →
  in_pools (spec_mark_range fl s P a e) (page_at (parray s) i)
    (if (a <=? i) && (i <? e) && negb (skipped s i) then Some (nz (Z.land fl P_USED)) else v).
Proof.
  intros Hlay Hae He Hi Hv. set (g := λ k, if (a <=? i) && (i <? k) && negb (skipped s i)
    then Some (nz (Z.land fl P_USED)) else v).
  apply (spec_mark_range_ind fl s P a e (λ k Q, in_pools Q (page_at (parray s) i) (g k))); [lia| |].
  - unfold g. by replace ((a <=? i) && (i <? a)) with false by lia.
  - intros k Q Hk IH. unfold spec_mark_page. destruct (skipped s k) eqn:Ek.
    + replace (g (k + 1)) with (g k); [done|]. unfold g. destruct (Z.eq_dec i k) as [->|].
      * by rewrite Ek, !andb_false_r.
      * by replace (i <? k + 1) with (i <? k) by lia.
    + apply (in_pools_mark fl (page_at (parray s) k)) in IH. destruct (decide _) as [Eq|Hne].
      * apply page_at_inj in Eq as ->; [|done|done|lia]. unfold g. rewrite Ek.
        by replace ((a <=? k) && (k <? k + 1)) with true by lia.
      * replace (g (k + 1)) with (g k); [done|]. unfold g.
        assert (i ≠ k) by (by intros ->). by replace (i <? k + 1) with (i <? k) by lia.
Qed.

(** The state while the map is being marked: the lists hold the pools [P],
    and everything but them and the pages' flags is as in [s1]. *)
Record booting (s1 : kstate) (P : pools) (t : kstate) : Prop := {
  bo_tracks : tracks t P;
  bo_linkable : ∀ q, is_page (parray s1) (numpages s1) q → linkable true (lists t) P q;
  bo_lock : page_lock t = false;
  bo_same : parray t = parray s1 ∧ numpages t = numpages s1 ∧ same_memory s1 t;
  bo_skipped : ∀ i, 0 <= i < numpages s1 → skipped t i = skipped s1 i;
  bo_address : ∀ i, 0 <= i < numpages s1 →
    address <$> store t !! page_at (parray s1) i = address <$> store s1 !! page_at (parray s1) i;
}.

Lemma booting_mark s1 P t start end_ fl :
  booting s1 P t → 0 <= start <= end_ → end_ < 2 ^ 64 - 4096 → end_ / 4096 < numpages s1 →
  one_pool fl → Z.land (u64 fl) (Z.lor P_PHYS P_VIRT) = 0 →
  returns (page_mark_range start end_ fl) t (λ r t', r = 0 ∧
    booting s1 (spec_mark_range fl s1 P (start / 4096) (end_ / 4096 + 1)) t').
Proof.
  intros [R Hl Hlk (Ep & En & Em) Hsk Had] Hse He Hn H1p Hfl.
  pose proof (tr_layout _ _ R) as Hlay. assert (0 <= start / 4096 <= end_ / 4096) by dlia.
  ret_use (returns_page_mark_range fl true (λ _, eq_refl) t P start end_);
    [done|done|done|done|by rewrite En|done| |].
  { intros i Hi _. apply Hl. rewrite <- En, <- Ep. apply page_at_page; [done|lia]. }
  intros r t' (-> & Hlk' & HI). split; [done|].
  assert (Ex : spec_mark_range fl t P (start / 4096) (end_ / 4096 + 1) =
    spec_mark_range fl s1 P (start / 4096) (end_ / 4096 + 1)).
  { apply spec_mark_range_ext; [lia|done|]. intros. apply Hsk. lia. }
  destruct (rm_rest _ _ _ _ _ _ _ HI) as (Ep' & En' & Er & Ec & _). split.
  - rewrite <- Ex. apply HI.
  - intros q Hq. rewrite <- Ex. apply (rm_linkable _ _ _ _ _ _ _ HI); [by rewrite Ep, En|by apply Hl].
  - done.
  - destruct Em. split_and!; [congruence..|split; congruence].
  - intros i Hi. rewrite <- Hsk by done. unfold skipped. rewrite Ep'.
    rewrite (rm_store _ _ _ _ _ _ _ HI i) by lia. destruct (store t !! _) as [pg|] eqn:Epg; [|done].
    case_bool_decide as Hc; [|done]. destruct Hc as [_ Hc]. unfold skipped in Hc. rewrite Epg in Hc.
    cbn. rewrite Hc. unfold immutable. cbn. by rewrite Hfl.
  - intros i Hi. rewrite <- Had by done. rewrite <- !Ep. rewrite (rm_store _ _ _ _ _ _ _ HI i) by lia.
    destruct (store t !! _); [|done]. by case_bool_decide.
Qed.

(** *** The pools *)

(** The flags an entry's pages are marked with, what marking an entry makes of
    the pools (entries that end above [h] are ignored), the map, and the
    kernel's own pages, which are in use whatever the map says. *)
Definition entry_flags (e : memory_map) : Z := if usable e then P_FREE else P_USED.
Definition kernel_flags : Z := Z.lor P_KERNEL (Z.lor P_IMMUTABLE P_USED).
Definition entry_pools (s1 : kstate) (h : Z) (P : pools) (e : memory_map) : pools :=
  if mm_end e <=? h then
    spec_mark_range (entry_flags e) s1 P (mm_base e / 4096) (mm_end e / 4096 + 1)
  else P.
Definition map_pools (s1 : kstate) (h : Z) : pools → list memory_map → pools := foldl (entry_pools s1 h).
Definition boot_pools (s1 : kstate) (es : list memory_map) : pools :=
  spec_mark_range kernel_flags s1 (map_pools s1 (highest es) (Pools [] [] []) es)
    0 (V2P KERNEL_END / 4096 + 1).

(** *** What becomes of a page *)

Definition in_range (start end_ i : Z) : bool := (start / 4096 <=? i) && (i <=? end_ / 4096).

(** What an entry of the map says about page [i]: entries that end above [h]
    are ignored, later entries win. *)
Definition entry_verdict (h : Z) (v : Z → option bool) (e : memory_map) (i : Z) : option bool :=
  if (mm_end e <=? h) && in_range (mm_base e) (mm_end e) i then Some (negb (usable e)) else v i.
Definition map_verdict (h : Z) (es : list memory_map) : Z → option bool :=
  foldl (entry_verdict h) (λ _, None) es.
(** The kernel's own pages are in use, whatever the map says. *)
Definition boot_verdict (es : list memory_map) (i : Z) : option bool :=
  if in_range 0 (V2P KERNEL_END) i then Some true else map_verdict (highest es) es i.

(** The entry does not wrap around the address space. *)
Definition entry_ok (e : memory_map) : Prop :=
  0 <= mm_base e ∧ 0 <= mm_len e ∧ mm_base e + mm_len e < 2 ^ 64 - 4096.

Lemma mm_end_ok e : entry_ok e → mm_end e = mm_base e + mm_len e ∧ 0 <= mm_base e <= mm_end e ∧
  mm_end e < 2 ^ 64 - 4096.
Proof. intros (? & ? & ?). unfold mm_end. rewrite wrap_small; lia. Qed.

(** The pools [P] put every page where [v] says, unless it holds a page table
    or a part of the page array. *)
Definition placed (s1 : kstate) (P : pools) (v : Z → option bool) : Prop :=
  ∀ i, 0 <= i < numpages s1 → in_pools P (page_at (parray s1) i) (if skipped s1 i then None else v i).

Lemma placed_mark s1 P v start end_ fl :
  layout_ok (parray s1) (numpages s1) → 0 <= start <= end_ → end_ / 4096 < numpages s1 →
  placed s1 P v →
  placed s1 (spec_mark_range fl s1 P (start / 4096) (end_ / 4096 + 1))
    (λ i, if in_range start end_ i then Some (nz (Z.land fl P_USED)) else v i).
Proof.
  intros Hlay Hse Hn Hv i Hi. specialize (Hv i Hi). assert (0 <= start / 4096 <= end_ / 4096) by dlia.
  eapply (in_pools_mark_range fl s1 P (start / 4096) (end_ / 4096 + 1)) in Hv; [|done|lia|lia|done].
  unfold in_range. replace (i <=? end_ / 4096) with (i <? end_ / 4096 + 1) by lia.
  destruct (skipped s1 i); rewrite ?andb_false_r, ?andb_true_r in Hv; done.
Qed.

Lemma placed_ext s1 P v v' : (∀ i, v i = v' i) → placed s1 P v → placed s1 P v'.
Proof. intros E Hv i Hi. rewrite <- E. auto. Qed.

Lemma placed_map s1 h es P v :
  layout_ok (parray s1) (numpages s1) → Forall entry_ok es → h / 4096 < numpages s1 →
  placed s1 P v → placed s1 (map_pools s1 h P es) (foldl (entry_verdict h) v es).
Proof.
  intros Hlay Hes Hh. revert P v. induction Hes as [|e es He Hes IH]; intros P v Hv; [done|]. cbn [foldl map_pools].
  apply IH. destruct (mm_end_ok e He) as (_ & Hbe & Hee). unfold entry_pools.
  destruct (Z.leb_spec (mm_end e) h) as [Hle|Hle].
  - eapply placed_ext; [|eapply (placed_mark s1 P v (mm_base e) (mm_end e)); [done|done|dlia|exact Hv]].
    intros i. cbn. unfold entry_verdict, entry_flags. rewrite (proj2 (Z.leb_le _ _) Hle). cbn [andb].
    by destruct (in_range _ _ _), (usable e).
  - eapply placed_ext; [|exact Hv]. intros i. unfold entry_verdict. by rewrite (proj2 (Z.leb_gt _ _) Hle).
Qed.

Lemma placed_boot s1 es :
  layout_ok (parray s1) (numpages s1) → Forall entry_ok es → highest es / 4096 < numpages s1 →
  0 <= V2P KERNEL_END → V2P KERNEL_END / 4096 < numpages s1 →
  placed s1 (boot_pools s1 es) (boot_verdict es).
Proof.
  intros Hlay Hes Hh Hk Hk'.
  eapply placed_ext; [|apply (placed_mark s1 _ (map_verdict (highest es) es) 0 (V2P KERNEL_END));
    [done|lia|done|]].
  - intros i. unfold boot_verdict. by destruct (in_range _ _ _).
  - apply placed_map; [done..|]. intros i Hi. destruct (skipped s1 i); cbn; set_solver.
Qed.

Lemma returns_mark_map es s1 P t a h :
  0 <= a → a + 24 * Z.of_nat (length es) < 2 ^ 31 → Forall entry_ok es →
  h / 4096 < numpages s1 → map_at s1 a es → booting s1 P t →
  returns (mark_map (length es) (P2V a) h) t (λ _ t', booting s1 (map_pools s1 h P es) t').
Proof.
  revert P t a. induction es as [|e es IH]; intros P t a Ha Hb Hes Hh Hm B; cbn [mark_map length map_pools foldl] in *.
  { by k_steps. }
  apply Forall_cons in Hes as [He Hes]. destruct (mm_end_ok e He) as (_ & Hbe & Hee).
  assert (Hmt : map_at t a (e :: es)).
  { eapply map_at_mono; [exact Hm|]. destruct (bo_same _ _ _ B) as (_ & _ & Er & Ec).
    intros b w _. unfold reads. by rewrite Er, Ec. }
  k_step. ret_use returns_load_map; [lia|lia|exact Hmt|]. intros e' s' [-> ->].
  rewrite P2V_next by lia. k_step.
  assert (Hstep : ∀ t', booting s1 (entry_pools s1 h P e) t' →
    returns (mark_map (length es) (P2V (a + 24)) h) t'
      (λ _ t'', booting s1 (map_pools s1 h (entry_pools s1 h P e) es) t'')).
  { intros t' B'. apply IH; [lia|lia|done|done|apply Hm|done]. }
  unfold entry_pools at 1 in Hstep.
  destruct (Z.leb_spec (mm_end e) h) as [Hle|Hle].
  - k_step. ret_use (booting_mark s1 P t (mm_base e) (mm_end e) (entry_flags e)); [done|done|done|dlia| | |].
    { unfold entry_flags. destruct (usable e); split; vm_compute; discriminate. }
    { unfold entry_flags. by destruct (usable e). }
    intros r t' [_ B']. k_steps. by apply Hstep.
  - k_steps. by apply Hstep.
Qed.

Lemma map_rounds_length a n : 0 <= a → 0 <= n → a + 24 * n < 2 ^ 31 →
  map_rounds (P2V a) (u64 (P2V a + sizeof_memory_map * n)) = Z.to_nat n.
Proof.
  intros. unfold map_rounds, sizeof_memory_map. rewrite P2V_add by lia. unfold KERNEL_VIRT.
  rewrite wrap_small by lia. f_equal. dlia.
Qed.

(** The state [page_init] leaves: every page in no pool, all its nodes linked
    to themselves. *)
Lemma booting_start memory table s s1 :
  init_ready memory table s → init_done memory table s (init_reserved memory table) s1 →
  repr s1 (Pools [] [] []) → page_lock s1 = false → booting s1 (Pools [] [] []) s1.
Proof.
  intros Hr D R Hl. pose proof (ir_layout _ _ _ Hr) as Hlay.
  destruct (id_parray _ _ _ _ _ D) as [Ep En]. split; [by apply repr_tracks| |done|done|done|done].
  rewrite Ep, En. intros q (i & Hi & ->). destruct (id_linked _ _ _ _ _ D i Hi) as [L1 L2].
  destruct (init_page_at memory table i Hlay Hi) as [E _]. rewrite E in L1, L2.
  split; [right; right|intros _; right]; cbn; set_solver.
Qed.

Lemma init_ready_log memory table s s' :
  log_only s s' → init_ready memory table s → init_ready memory table s'.
Proof. intros [l ->] []. by split. Qed.

(** [pmm_init] builds the page array and puts its pages in the pools of the
    memory map; [s1] is the state [page_init] leaves. *)
Lemma returns_pmm_init s es :
  let memory := highest es in
  let table := V2P KERNEL_END in
  map_at s 0x7000 es → (length es <= 255)%nat → Forall entry_ok es →
  0x9000 <= table → init_ready memory table s →
  returns (pmm_init (P2V 0x7000) (Z.of_nat (length es))) s (λ _ s', ∃ s1,
    init_done memory table s (init_reserved memory table) s1 ∧ init_memory memory table s s1 ∧
    booting s1 (boot_pools s1 es) s').
Proof.
  intros memory table Hm Hlen Hes Htab Hr. unfold pmm_init. k_steps.
  rewrite map_rounds_length, Nat2Z.id by lia.
  ret_use returns_scan_map; [lia|lia|eapply map_at_mono; [exact Hm|done]|].
  intros h s0 [-> [l Es0]]. change (highest_from 0 es) with memory. fold table. k_steps.
  assert (Hr0 : init_ready memory table s0) by (eapply init_ready_log; [|exact Hr]; by exists l; rewrite Es0).
  ret_use returns_and_ends; [by apply page_init_spec|by apply page_init_memory|].
  intros _ s1 [(Hl1 & D & R1) Hmem]. pose proof (booting_start _ _ _ _ Hr0 D R1 Hl1) as B1.
  destruct (id_parray _ _ _ _ _ D) as [Ep En].
  assert (Htab' : 0 <= table < memory) by apply Hr.
  assert (Hmem31 : memory < 2 ^ 31) by (pose proof (ir_memory _ _ _ Hr); lia).
  k_step. ret_use (returns_mark_map es s1 (Pools [] [] [])); [lia|lia|done| | |exact B1|].
  { rewrite En. unfold init_numpages. lia. }
  { eapply map_at_mono; [exact Hm|]. intros b v Hb Hv.
    eapply init_memory_reads; [exact Hr0|exact Hmem| |].
    - unfold init_round. dlia.
    - by rewrite Es0. }
  intros _ s2 B2. k_step. ret_use (booting_mark s1); [exact B2|lia|lia| | |done|].
  { rewrite En. unfold init_numpages. dlia. }
  { split; vm_compute; discriminate. }
  intros r s3 [_ B3]. k_steps. exists s1. split; [|split; [|exact B3]].
  - destruct D as [? ? ? ? ? Hp]. split; [done|by subst s0|done..|]. by subst s0.
  - by subst s0.
Qed.

(** C7: [pmm_init], from the boot loader's memory map to the page lists. The
    system gets the pages up to the end of the last usable region of the map
    (not the highest one). A page that holds a page table or a part of the
    page array is in no list; every other page, unless the memory of its
    descriptor held one of the flags that marking respects, is where the last
    entry of the map that covers it puts it, among the entries that end
    within the system: free if the entry is usable, in use (and in the LRU
    order) otherwise, and in no list if there is no such entry; the pages up
    to the end of the kernel are in use whatever the map says. An entry
    covers its end address too. *)
Theorem pmm_init_marks s es :
  let memory := highest es in
  let table := V2P KERNEL_END in
  let base := P2V (init_table memory table) in
  map_at s 0x7000 es → (length es <= 255)%nat → Forall entry_ok es →
  0x9000 <= table → init_ready memory table s →
  returns (pmm_init (P2V 0x7000) (Z.of_nat (length es))) s (λ _ s',
    page_lock s' = false ∧ parray s' = base ∧ numpages s' = init_numpages memory ∧
    ∃ P, tracks s' P ∧ ∀ i pg0,
      0 <= i < init_numpages memory → store s !! page_at base i = Some pg0 →
      (init_reserved memory table i → in_pools P (page_at base i) None) ∧
      (¬ init_reserved memory table i →
         in_pools P (page_at base i) (if immutable pg0 then None else boot_verdict es i)) ∧
      address <$> store s' !! page_at base i = Some (4096 * i)).
Proof.
  intros memory table base Hm Hlen Hes Htab Hr.
  ret_use returns_pmm_init; [done..|]. fold memory table. intros _ s3 (s1 & D & _ & B3).
  destruct (bo_same _ _ _ B3) as (Ep3 & En3 & _). destruct (id_parray _ _ _ _ _ D) as [Ep En].
  pose proof (ir_order _ _ _ Hr) as Hord. pose proof (ir_layout _ _ _ Hr) as Hlay. rewrite <- Ep, <- En in Hlay.
  assert (Hv : placed s1 (boot_pools s1 es) (boot_verdict es)).
  { apply placed_boot; [done|done|..]; fold memory table; rewrite ?En; unfold init_numpages; dlia. }
  split_and!; [apply B3|by rewrite Ep3, Ep|by rewrite En3, En|].
  exists (boot_pools s1 es). split; [apply B3|]. unfold placed in Hv.
  rewrite Ep, En in Hv. intros i pg0 Hi Hpg0. specialize (Hv i Hi).
  pose proof (bo_address _ _ _ B3 i ltac:(by rewrite En)) as Had. rewrite Ep in Had.
  change (P2V (init_table memory table)) with base in Hv, Had. rewrite Had.
  destruct (id_pages _ _ _ _ _ D i Hi) as (pg0' & pg & E0 & E1 & Ha & Hres & Hnres).
  change (P2V (init_table memory table)) with base in E0, E1.
  assert (pg0' = pg0) as -> by congruence.
  unfold skipped in Hv. rewrite Ep in Hv. change (P2V (init_table memory table)) with base in Hv.
  rewrite E1 in Hv |- *. split_and!.
  - intros Hi'. by rewrite (Hres Hi') in Hv.
  - intros Hi'. unfold immutable in *. rewrite (Hnres Hi') in Hv. exact Hv.
  - cbn. f_equal. lia.
Qed.
End pmm.
