(* ===== verification/FrameEdge.v ===== *)
(** The allocator's reference functions ([page_request], [page_lru],
    [page_stats]) and its behaviour at the edges: the page just past the
    array, counters that drift from the lists, and the stale LRU node that
    [page_free] leaves behind. *)

From S2P Require Import Prelude Kernel KList State Paging Frame FrameSpec FrameRefine FrameMark Demo.

Open Scope Z_scope.

Section edge.
Context `{MMU, Layout}.

(** [page_request] returns the array element of the page that contains
    the address; one page past the end it still returns a pointer, to the
    first byte after the array, and NULL only beyond that. *)
Theorem page_request_spec s a :
  layout_ok (parray s) (numpages s) → 0 <= a → parray s + sizeof_page * numpages s < 2 ^ 64 →
  returns (page_request a) s (λ p s', s' = s ∧
    (a / 4096 < numpages s →
       p = parray s + sizeof_page * (a / 4096) ∧ is_page (parray s) (numpages s) p) ∧
    (a / 4096 = numpages s →
       p = parray s + sizeof_page * numpages s ∧ ¬ is_page (parray s) (numpages s) p) ∧
    (numpages s < a / 4096 → p = 0)).
Proof.
  intros Hlay Ha Hfit. unfold page_request. rewrite ROUND_DOWN_index. k_steps.
  assert (0 <= a / 4096) by dlia. destruct Hlay as [(? & ? & ?) Hd Ho].
  assert (Hlay : layout_ok (parray s) (numpages s)) by (split; done).
  destruct (Z.ltb_spec (numpages s) (a / 4096)).
  - apply returns_ret. split_and!; [done|lia|lia|done].
  - k_steps. split_and!; [done| | |lia].
    + intros. apply page_at_page; [done|lia].
    + intros ->. unfold page_at, sizeof_page in *. rewrite wrap_small by lia. split; [done|].
      intros (i & Hi & E). unfold sizeof_page in E. lia.
Qed.

(** The log entries [page_lru] prints for the pages [ps]. *)
Definition lru_lines (s : kstate) (ps : list Z) : list log_entry :=
  (λ p, Print "lru %#x\n" [AInt (default 0 (address <$> store s !! p))]) <$> ps.

Lemma returns_print_lru s ps :
  layout_ok (parray s) (numpages s) →
  (∀ p, p ∈ ps → is_page (parray s) (numpages s) p ∧ is_Some (store s !! p)) →
  returns (print_lru (lru_of <$> ps)) s (λ _ s',
    s' = put_klog (reverse (lru_lines s ps) ++ klog s) s).
Proof.
  intros Hlay. revert s Hlay. induction ps as [|p ps IH]; intros s Hlay Hps.
  { by destruct s. }
  rewrite fmap_cons. cbn [print_lru].
  destruct (Hps p) as [Hp [pg Epg]]; [set_solver|].
  rewrite (entry_lru_of _ _ Hlay) by done. k_step.
  eapply returns_load_page; [by eapply page_nonzero|exact Epg|]. k_steps.
  ret_use IH; [done|set_solver|]. intros _ s' ->. unfold lru_lines. cbn [klog put_klog store].
  rewrite fmap_cons, reverse_cons, Epg, <- app_assoc. done.
Qed.

(** C37: [page_lru] terminates on a well-formed LRU list (one round per page
    is enough fuel) and prints the addresses of the pages in use from the
    least to the most recently used one, changing nothing but the log. *)
Theorem page_lru_spec s P fuel :
  repr s P → (length (lru_pool P) <= fuel)%nat →
  returns (page_lru fuel) s (λ _ s',
    s' = put_klog (reverse (lru_lines s (lru_pool P)) ++ klog s) s).
Proof.
  intros R Hf. pose proof (repr_rep _ _ R) as Rp. unfold page_lru. k_steps.
  ret_use returns_list_for_each; [apply (rep_lru _ _ _ _ Rp)|by rewrite length_fmap|].
  intros ns h [-> ->].
  replace (put_lists (lists s) s) with s by (by destruct s).
  apply returns_print_lru; [apply R|]. intros p Hp.
  assert (is_page (parray s) (numpages s) p) as Hpg.
  { apply (rep_pages _ _ _ _ Rp). rewrite !elem_of_app. tauto. }
  split; [done|]. by apply R.
Qed.

(** [page_stats] divides by the number of pages before it multiplies by
    one hundred: the usage it prints is 0 unless every page is in use, and
    then 100; with no page marked at all it divides by zero. *)
Theorem page_stats_spec s :
  0 <= num_free_pages s → 0 <= num_used_pages s →
  num_free_pages s + num_used_pages s < 2 ^ 64 → 0 < numpages s →
  (num_free_pages s + num_used_pages s = 0 → faults page_stats s DivideError) ∧
  (0 < num_free_pages s + num_used_pages s →
   returns page_stats s (λ _ s',
     ∃ avail usage, s' = put_klog
       (Print "Memory currently in use:  %d%%, %d MB\n"
          [AInt usage; AInt (num_used_pages s / 0x100)] ::
        Print "Memory available for use: %d%%, %d MB\n"
          [AInt avail; AInt (num_free_pages s / 0x100)] :: klog s) s ∧
       usage = if num_free_pages s =? 0 then 100 else 0)).
Proof.
  intros Hf Hu Hsum Hn. unfold page_stats.
  assert (Ew : u64 (num_free_pages s + num_used_pages s) = num_free_pages s + num_used_pages s)
    by (apply wrap_small; lia).
  split; intros Ht.
  - repeat (apply faults_bind_r, returns_gets). rewrite Ew, Ht. by exists s.
  - k_steps. rewrite Ew. destruct (Z.eqb_spec (num_free_pages s + num_used_pages s) 0); [lia|].
    destruct (Z.eqb_spec (numpages s) 0); [lia|]. k_steps. eexists _, _. split; [done|].
    destruct (Z.eqb_spec (num_free_pages s) 0) as [E|].
    + rewrite E, Z.add_0_l, Z.div_same by lia. done.
    + rewrite Z.div_small by lia. done.
Qed.
End edge.

(** ** Runs of the allocator that leave its invariant *)

(** [n] steps along a circular list. *)
Fixpoint walk (h : heap) (n : nat) (a : Z) : option Z :=
  match n with
  | O => Some a
  | S n => match nx h a with Some b => walk h n b | None => None end
  end.

(** Every node of a circular list points forward to a node of the list, which
    points back at it. *)
Lemma seg_next h a xs b x : seg h a xs b → x ∈ a :: xs →
  ∃ y, y ∈ xs ++ [b] ∧ link h x y.
Proof.
  revert a. induction xs as [|c xs IH]; intros a Hs Hx; cbn in Hs.
  - exists b. split; [set_solver|]. by apply list_elem_of_singleton in Hx as ->.
  - destruct Hs as [Hl Hs]. apply elem_of_cons in Hx as [->|Hx].
    + exists c. split; [set_solver|done].
    + destruct (IH c Hs Hx) as (y & Hy & Hl'). exists y. split; [set_solver|done].
Qed.

Lemma dll_walk h hd xs n x y :
  dll h hd xs → walk h n hd = Some x → nx h x = Some y → pv h y = Some x.
Proof.
  intros [_ Hs]. assert (Hin : hd ∈ hd :: xs) by set_solver. revert Hin. generalize hd at 1 3 as a.
  induction n as [|n IH]; intros a Ha Hw Hy; cbn in Hw.
  - injection Hw as ->. destruct (seg_next _ _ _ _ _ Hs Ha) as (z & _ & Hn & Hp). congruence.
  - destruct (seg_next _ _ _ _ _ Hs Ha) as (z & Hz & Hn & _). rewrite Hn in Hw.
    apply (IH z); [set_solver|done|done].
Qed.

(** Pages 0, 1 and 2 allocated in this order; then 1 and 0 freed. *)
Definition demo_freed : kstate :=
  let s := final (page_alloc (final (page_alloc demo_used))) in
  final (page_free 0x1000 (final (page_free 0x1040 s))).

(** [page_free] leaves the page's [lru] node pointing at its old
    neighbours, and [page_mark_range] unlinks it again: marking a freed page
    as used, from a state where every list is well formed, returns 0 and
    leaves an LRU list that is not a circular list any more. *)
Theorem mark_used_after_free_corrupts :
  repr demo_freed (Pools [0x1040; 0x1000] [0x1080] [0x1080]) ∧
  returns (page_mark_range 4096 4096 P_USED) demo_freed (λ r s',
    r = 0 ∧ ∀ xs, ¬ dll (lists s') l_lru xs).
Proof.
  split; [demo_repr|]. apply (returns_final _ _ 0); [vm_compute; reflexivity|]. split; [done|]. intros xs Hd.
  eapply (dll_walk _ _ _ 0) in Hd; [|reflexivity|vm_compute; reflexivity].
  revert Hd. vm_compute. discriminate.
Qed.

(** Marking a free page as used takes it out of the free list but leaves
    the counter of free pages as it was, so the counters stop agreeing with
    the lists. *)
Theorem mark_used_drifts_counter :
  repr demo_free (Pools [0x1000; 0x1040; 0x1080] [] []) ∧
  counted demo_free (Pools [0x1000; 0x1040; 0x1080] [] []) ∧
  returns (page_mark_range 0 0 P_USED) demo_free (λ r s',
    r = 0 ∧ repr s' (Pools [0x1040; 0x1080] [0x1000] [0x1000]) ∧
    num_free_pages s' = 3 ∧ num_used_pages s' = 1).
Proof.
  split; [demo_repr|]. split; [done|]. apply (returns_final _ _ 0); [vm_compute; reflexivity|]. split; [done|]. split; [demo_repr|done].
Qed.
