(* ===== verification/PagingWf.v ===== *)
(** Well-formed page tables: every table frame has one level, entries lead
    one level down, and the root maps itself through the recursive slot. The
    lemmas say which translations a write to a table can change. *)

From S2P Require Import Prelude Kernel KList State Paging.

Open Scope Z_scope.

(** An entry that leads to a next-level table. *)
Definition steps (e : Z) : bool := present e && negb (large e).

Lemma steps_true e : steps e = true → present e = true ∧ large e = false.
Proof. unfold steps. rewrite andb_true_iff, negb_true_iff. done. Qed.

(** [lv f]: the level of the table in frame [f] (4 for the root down to 1),
    0 for a frame that holds no table. *)
Record pt_wf (r : Z → Z) (root : Z) (lv : Z → Z) : Prop := {
  wf_root : ∀ f, lv f = 4 ↔ f = root;
  wf_frame : ∀ f, lv f ≠ 0 → frame_ok f ∧ f ≠ 0 ∧ 1 <= lv f <= 4;
  wf_recursive : steps (r (root + 8 * MMU_RE)) = true ∧
    entry_addr (r (root + 8 * MMU_RE)) = root;
  wf_entry : ∀ f i, 2 <= lv f → 0 <= i < 512 → (lv f = 4 → i ≠ MMU_RE) →
    present (r (f + 8 * i)) = true →
    (lv f = 2 ∧ large (r (f + 8 * i)) = true) ∨
    (large (r (f + 8 * i)) = false ∧
     lv (entry_addr (r (f + 8 * i))) = lv f - 1 ∧
     ROUND_DOWN (r (f + 8 * i)) PAGE_SIZE = entry_addr (r (f + 8 * i)));
}.

(** [va] translates to [pa] through a small or a two-megabyte page. *)
Definition mapped (r : Z → Z) (root va pa : Z) : Prop :=
  canonical va = true ∧
  ((∃ a, dir_slot r root va = Some a ∧ present (r a) = true ∧ large (r a) = true ∧
     pa = Z.land (r a) 0x000FFFFFFFE00000 + va mod 2 ^ 21) ∨
   (∃ a, leaf_slot r root va = Some a ∧ present (r a) = true ∧
     pa = entry_addr (r a) + va mod 2 ^ 12)).

Lemma mapped_translate `{MMU} r root va pa :
  mapped r root va pa → translate r root va = Some pa.
Proof.
  intros [Hc [(a & Hd & Hp & Hl & ->)|(a & Hd & Hp & ->)]].
  - by apply translate_2m.
  - by apply translate_4k.
Qed.

Section wf.
Context (r : Z → Z) (root : Z) (lv : Z → Z).
Hypothesis W : pt_wf r root lv.

Lemma root_level : lv root = 4.
Proof. by apply (wf_root _ _ _ W). Qed.

Lemma root_frame : frame_ok root ∧ root ≠ 0.
Proof. destruct (wf_frame _ _ _ W root); [rewrite root_level; lia|tauto]. Qed.

Lemma entry_addr_root : entry_addr root = root.
Proof. destruct root_frame as [[? ?] _]. apply entry_addr_id; [done|lia]. Qed.

Lemma level_aligned f : lv f ≠ 0 → f mod 4096 = 0.
Proof. intros Hf. destruct (wf_frame _ _ _ W f Hf) as [[? _] _]. done. Qed.

(** Slots of tables of different levels are different. *)
Lemma slot_level f g i j :
  lv f ≠ 0 → lv g ≠ 0 → lv f ≠ lv g → 0 <= i < 512 → 0 <= j < 512 → f + 8 * i ≠ g + 8 * j.
Proof.
  intros Hf Hg Hne Hi Hj Heq. apply slot_inj in Heq as [-> _]; [done|..];
    try lia; by apply level_aligned.
Qed.

(** The walk, level by level, for an address outside the recursive slot. *)
Section walk.
Context (va : Z) (Hva : PML4E va ≠ MMU_RE).

Definition slot4 : Z := root + 8 * PML4E va.
Definition frame3 : Z := entry_addr (r slot4).
Definition slot3 : Z := frame3 + 8 * PDPTE va.
Definition frame2 : Z := entry_addr (r slot3).
Definition slot2 : Z := frame2 + 8 * PDE va.
Definition frame1 : Z := entry_addr (r slot2).
Definition slot1 : Z := frame1 + 8 * PTE va.

Lemma dir_slot_unfold :
  dir_slot r root va = if steps (r slot4) && steps (r slot3) then Some slot2 else None.
Proof.
  unfold dir_slot. rewrite entry_addr_root. fold slot4. unfold steps.
  destruct (present (r slot4) && negb (large (r slot4))); [|done]. cbn [andb].
  fold frame3. fold slot3. fold frame2. by fold slot2.
Qed.

Lemma leaf_slot_unfold :
  leaf_slot r root va =
    if steps (r slot4) && steps (r slot3) && steps (r slot2) then Some slot1 else None.
Proof.
  unfold leaf_slot. rewrite dir_slot_unfold.
  destruct (steps (r slot4) && steps (r slot3)); [|done]. cbn [andb].
  unfold steps. fold frame1. by fold slot1.
Qed.

Lemma frame3_level : present (r slot4) = true →
  lv frame3 = 3 ∧ large (r slot4) = false ∧ ROUND_DOWN (r slot4) PAGE_SIZE = frame3.
Proof.
  intros Hp. pose proof (wf_entry _ _ _ W root (PML4E va)) as Hw. rewrite root_level in Hw.
  destruct Hw as [[? _]|(? & ? & ?)]; [lia|auto with words|done|exact Hp|lia|done].
Qed.

Lemma frame2_level : lv frame3 = 3 → present (r slot3) = true →
  lv frame2 = 2 ∧ large (r slot3) = false ∧ ROUND_DOWN (r slot3) PAGE_SIZE = frame2.
Proof.
  intros H3 Hp. pose proof (wf_entry _ _ _ W frame3 (PDPTE va)) as Hw. rewrite H3 in Hw.
  destruct Hw as [[? _]|(? & ? & ?)]; [lia|auto with words|lia|exact Hp|lia|done].
Qed.

Lemma frame1_level : lv frame2 = 2 → present (r slot2) = true → large (r slot2) = false →
  lv frame1 = 1 ∧ ROUND_DOWN (r slot2) PAGE_SIZE = frame1.
Proof.
  intros H2 Hp Hl. pose proof (wf_entry _ _ _ W frame2 (PDE va)) as Hw. rewrite H2 in Hw.
  destruct Hw as [[_ Hl']|(? & ? & ?)]; [lia|auto with words|lia|exact Hp| |done].
  unfold slot2 in Hl. congruence.
Qed.

(** Frames on a successful walk have their levels. *)
Lemma dir_levels a : dir_slot r root va = Some a →
  lv frame3 = 3 ∧ lv frame2 = 2 ∧ steps (r slot4) = true ∧ steps (r slot3) = true ∧ a = slot2.
Proof.
  rewrite dir_slot_unfold. destruct (steps (r slot4)) eqn:E4; [|done].
  destruct (steps (r slot3)) eqn:E3; [|done]. intros [= <-].
  apply steps_true in E4 as [P4 _]. apply steps_true in E3 as [P3 _].
  destruct (frame3_level P4) as (L3 & _). destruct (frame2_level L3 P3) as (L2 & _). done.
Qed.

Lemma leaf_levels a : leaf_slot r root va = Some a →
  dir_slot r root va = Some slot2 ∧ steps (r slot2) = true ∧ lv frame1 = 1 ∧ a = slot1.
Proof.
  unfold leaf_slot. destruct (dir_slot r root va) as [d|] eqn:Ed; [|done].
  destruct (dir_levels _ Ed) as (L3 & L2 & _ & _ & ->). fold frame1. fold slot1.
  change (present (r slot2) && negb (large (r slot2))) with (steps (r slot2)).
  destruct (steps (r slot2)) eqn:E2; [|done]. intros [= <-].
  pose proof (steps_true _ E2) as [P2 N2]. by destruct (frame1_level L2 P2 N2).
Qed.
End walk.
End wf.

(** ** Writes that only fill entries that were not present *)

Definition extends (r r' : Z → Z) : Prop := ∀ a, present (r a) = true → r' a = r a.

#[export] Instance extends_preorder : PreOrder extends.
Proof.
  split; [done|]. intros r1 r2 r3 H1 H2 a Ha. rewrite H2; [by apply H1|]. by rewrite H1.
Qed.

Lemma extends_set r a v : present (r a) = false → extends r (ram_set r a v).
Proof. intros Ha b Hb. apply ram_set_ne. intros ->. congruence. Qed.

Lemma extends_steps r r' a : extends r r' → steps (r a) = true → r' a = r a.
Proof. intros He [Hp _]%steps_true. by apply He. Qed.

Lemma dir_slot_eq r root va :
  dir_slot r root va =
    let e4 := r (entry_addr root + 8 * PML4E va) in
    let e3 := r (entry_addr e4 + 8 * PDPTE va) in
    if steps e4 then if steps e3 then Some (entry_addr e3 + 8 * PDE va) else None else None.
Proof. reflexivity. Qed.

Lemma leaf_slot_eq r root va :
  leaf_slot r root va =
    match dir_slot r root va with
    | Some a => if steps (r a) then Some (entry_addr (r a) + 8 * PTE va) else None
    | None => None
    end.
Proof. reflexivity. Qed.

Lemma dir_slot_extends r r' root va a :
  extends r r' → dir_slot r root va = Some a → dir_slot r' root va = Some a.
Proof.
  intros He. rewrite !dir_slot_eq. cbv zeta.
  destruct (steps (r (entry_addr root + 8 * PML4E va))) eqn:E4; [|done].
  rewrite (extends_steps _ _ _ He E4), E4.
  destruct (steps (r (entry_addr (r (entry_addr root + 8 * PML4E va)) + 8 * PDPTE va))) eqn:E3; [|done].
  by rewrite (extends_steps _ _ _ He E3), E3.
Qed.

Lemma leaf_slot_extends r r' root va a :
  extends r r' → leaf_slot r root va = Some a → leaf_slot r' root va = Some a.
Proof.
  intros He. rewrite !leaf_slot_eq. destruct (dir_slot r root va) as [d|] eqn:Ed; [|done].
  rewrite (dir_slot_extends _ _ _ _ _ He Ed).
  destruct (steps (r d)) eqn:E; [|done]. by rewrite (extends_steps _ _ _ He E), E.
Qed.

Lemma mapped_extends r r' root va pa : extends r r' → mapped r root va pa → mapped r' root va pa.
Proof.
  intros He [Hc Hm]. split; [done|]. destruct Hm as [(a & Hd & Hp & Hl & ->)|(a & Hd & Hp & ->)].
  - left. exists a. rewrite (He _ Hp). split_and!; [by eapply dir_slot_extends|done..].
  - right. exists a. rewrite (He _ Hp). split_and!; [by eapply leaf_slot_extends|done..].
Qed.

(** Linking the empty frame [q] as the next-level table behind a free entry
    of the table [g]. *)
Definition set_level (lv : Z → Z) (q k : Z) : Z → Z := λ f, if f =? q then k else lv f.

Lemma set_level_eq lv q k : set_level lv q k q = k.
Proof. unfold set_level. by rewrite Z.eqb_refl. Qed.
Lemma set_level_ne lv q k f : f ≠ q → set_level lv q k f = lv f.
Proof. unfold set_level. intros. by destruct (Z.eqb_spec f q). Qed.

Lemma pt_wf_link r root lv g j q :
  pt_wf r root lv → 2 <= lv g → 0 <= j < 512 → present (r (g + 8 * j)) = false →
  frame_ok q → q ≠ 0 → lv q = 0 → (∀ i, 0 <= i < 512 → present (r (q + 8 * i)) = false) →
  pt_wf (ram_set r (g + 8 * j) (table_entry q)) root (set_level lv q (lv g - 1)).
Proof.
  intros W Hg Hj Hnp Hq Hqz Hlq Hzero.
  assert (He : extends r (ram_set r (g + 8 * j) (table_entry q))) by by apply extends_set.
  assert (Hqg : q ≠ g) by (intros ->; lia).
  assert (Hqr : q ≠ root) by (intros ->; rewrite (root_level _ _ _ W) in Hlq; lia).
  destruct (wf_frame _ _ _ W g) as (Hgf & _ & Hg4); [lia|].
  split.
  - intros f. destruct (decide (f = q)) as [->|].
    + rewrite set_level_eq. split; [lia|done].
    + rewrite set_level_ne by done. apply W.
  - intros f Hf. destruct (decide (f = q)) as [->|].
    + rewrite set_level_eq. split_and!; done || lia.
    + rewrite set_level_ne in * by done. by apply W.
  - destruct (wf_recursive _ _ _ W) as [Hs Ha]. by rewrite (extends_steps _ _ _ He Hs).
  - intros f i Hf Hi Hre Hp. destruct (decide (f = q)) as [->|Hfq].
    { rewrite ram_set_ne in Hp; [by rewrite Hzero in Hp|].
      intros Heq. apply slot_inj in Heq as [? _]; [done|apply Hq|apply Hgf|done|done]. }
    rewrite set_level_ne in * by done.
    destruct (decide (f = g ∧ i = j)) as [[-> ->]|Hne].
    + right. rewrite ram_set_eq. destruct Hq as [Hqa Hqb].
      pose proof (steps_true _ (table_entry_step q Hqa)) as [_ Hl].
      rewrite table_entry_addr, table_entry_round, set_level_eq by (done || lia).
      rewrite Hl. split_and!; done || lia.
    + destruct (wf_frame _ _ _ W f) as (Hff & _ & _); [lia|].
      rewrite ram_set_ne in *.
      2,3: intros Heq; apply slot_inj in Heq as [-> ->]; [by apply Hne|apply Hff|apply Hgf|done|done].
      destruct (wf_entry _ _ _ W f i) as [?|(Hl & Hlv & Hr)]; [done..|by left|right].
      split_and!; [done| |done]. rewrite set_level_ne; [done|]. intros Heq. rewrite Heq in Hlv. lia.
Qed.

(** ** Writes to a last-level table *)

Section leaf_write.
Context (r : Z → Z) (root : Z) (lv : Z → Z) (f j v : Z).
Hypotheses (W : pt_wf r root lv) (Hf : lv f = 1) (Hj : 0 <= j < 512).
Let r' := ram_set r (f + 8 * j) v.

Lemma leaf_write_upper g i : 2 <= lv g → 0 <= i < 512 → r' (g + 8 * i) = r (g + 8 * i).
Proof. intros Hg Hi. apply ram_set_ne. apply (slot_level _ _ _ W); lia. Qed.

Lemma pt_wf_leaf : pt_wf r' root lv.
Proof.
  split; [apply W|apply W| |].
  - rewrite leaf_write_upper; [apply W|rewrite (root_level _ _ _ W); lia|done].
  - intros g i Hg Hi. rewrite leaf_write_upper by done. by apply W.
Qed.

Lemma leaf_write_slot4 va : r' (slot4 root va) = r (slot4 root va).
Proof. apply leaf_write_upper; [rewrite (root_level _ _ _ W); lia|auto with words]. Qed.

Lemma leaf_write_dir va : PML4E va ≠ MMU_RE → dir_slot r' root va = dir_slot r root va.
Proof.
  intros Hva. rewrite (dir_slot_unfold _ _ _ pt_wf_leaf), (dir_slot_unfold _ _ _ W).
  unfold slot2, frame2, slot3, frame3. rewrite leaf_write_slot4.
  destruct (steps (r (slot4 root va))) eqn:E4; [|done]. cbn [andb].
  apply steps_true in E4 as [P4 _].
  destruct (frame3_level _ _ _ W va Hva P4) as (L3 & _). unfold frame3 in L3.
  by rewrite leaf_write_upper by (lia || auto with words).
Qed.

Lemma leaf_write_leaf va : PML4E va ≠ MMU_RE → leaf_slot r' root va = leaf_slot r root va.
Proof.
  intros Hva. unfold leaf_slot. rewrite leaf_write_dir by done.
  destruct (dir_slot r root va) as [d|] eqn:Ed; [|done].
  destruct (dir_levels _ _ _ W va Hva _ Ed) as (L3 & L2 & _ & _ & ->).
  unfold slot2. by rewrite leaf_write_upper by (lia || auto with words).
Qed.

Lemma mapped_leaf va pa :
  PML4E va ≠ MMU_RE → leaf_slot r root va ≠ Some (f + 8 * j) →
  mapped r root va pa → mapped r' root va pa.
Proof.
  intros Hva Hne [Hc Hm]. split; [done|].
  rewrite leaf_write_dir, leaf_write_leaf by done.
  destruct Hm as [(a & Hd & Hp & Hl & ->)|(a & Hd & Hp & ->)].
  - left. exists a. destruct (dir_levels _ _ _ W va Hva _ Hd) as (L3 & L2 & _ & _ & ->).
    unfold slot2. by rewrite leaf_write_upper by (lia || auto with words).
  - right. exists a. unfold r'. rewrite ram_set_ne by congruence. done.
Qed.
End leaf_write.

(** A walk that exists after linking the empty table [q] either existed
    before or ends in [q]; no large page appears. *)
Section link_walk.
Context (r : Z → Z) (root : Z) (lv : Z → Z) (g j q va : Z).
Hypotheses (W : pt_wf r root lv) (Hg : 2 <= lv g) (Hj : 0 <= j < 512).
Hypotheses (Hq : frame_ok q) (Hqg : q ≠ g).
Hypothesis Hzero : ∀ i, 0 <= i < 512 → present (r (q + 8 * i)) = false.
Let r' := ram_set r (g + 8 * j) (table_entry q).

Lemma link_new_entry i : 0 <= i < 512 → present (r' (q + 8 * i)) = false.
Proof.
  intros Hi. unfold r'. rewrite ram_set_ne; [by apply Hzero|].
  intros Heq. apply slot_inj in Heq as [? _]; [done|apply Hq| |done|done].
  apply (level_aligned _ _ _ W). lia.
Qed.

Lemma link_new_steps i : 0 <= i < 512 → steps (r' (q + 8 * i)) = false.
Proof. intros Hi. unfold steps. by rewrite link_new_entry. Qed.

Lemma link_entry b : (b = g + 8 * j ∧ entry_addr (r' b) = q ∧ large (r' b) = false) ∨ r' b = r b.
Proof.
  destruct Hq as [Hqa Hqb]. unfold r'. destruct (decide (b = g + 8 * j)) as [->|]; [left|right].
  - rewrite ram_set_eq. rewrite table_entry_addr by (done || lia).
    by pose proof (steps_true _ (table_entry_step q Hqa)) as [_ ?].
  - by rewrite ram_set_ne.
Qed.

Lemma dir_slot_link a : dir_slot r' root va = Some a →
  dir_slot r root va = Some a ∨ a = q + 8 * PDE va.
Proof.
  rewrite !dir_slot_eq. cbv zeta. set (s4 := entry_addr root + 8 * PML4E va).
  destruct (link_entry s4) as [(_ & E4 & _)|E4].
  { rewrite E4, link_new_steps by auto with words. by destruct (steps (r' s4)). }
  rewrite E4. destruct (steps (r s4)); [|done].
  set (s3 := entry_addr (r s4) + 8 * PDPTE va).
  destruct (link_entry s3) as [(_ & E3 & _)|E3]; [|rewrite E3; by left].
  rewrite E3. destruct (steps (r' s3)); [|done]. intros [= <-]. by right.
Qed.

Lemma leaf_slot_link a : leaf_slot r' root va = Some a →
  leaf_slot r root va = Some a ∨ a = q + 8 * PTE va.
Proof.
  rewrite !leaf_slot_eq. destruct (dir_slot r' root va) as [d|] eqn:Ed; [|done].
  destruct (dir_slot_link _ Ed) as [Hd|Hd].
  - rewrite Hd. destruct (link_entry d) as [(_ & E2 & _)|E2]; [|rewrite E2; by left].
    rewrite E2. destruct (steps (r' d)); [|done]. intros [= <-]. by right.
  - subst. by rewrite link_new_steps by auto with words.
Qed.

Lemma large_link a : dir_slot r' root va = Some a → present (r' a) = true → large (r' a) = true →
  dir_slot r root va = Some a ∧ r' a = r a.
Proof.
  intros Hd Hp Hl. destruct (dir_slot_link _ Hd) as [Hd'| ->].
  - split; [done|]. destruct (link_entry a) as [(_ & _ & ?)|?]; [congruence|done].
  - by rewrite link_new_entry in Hp by auto with words.
Qed.
End link_walk.

(** The window of the recursive slot: with indices [a], [b], [c] behind the
    slot, the last-level walk ends at the frame that entry [c] of the table
    reached through [a] and [b] points to. *)
Section recursive.
Context (r : Z → Z) (root : Z) (lv : Z → Z).
Hypothesis W : pt_wf r root lv.
Context (a b c i : Z).
Hypotheses (Ha : 0 <= a < 512) (Hb : 0 <= b < 512) (Hc : 0 <= c < 512) (Hi : 0 <= i < 512).

Let e3 := r (root + 8 * a).
Let e2 := r (entry_addr e3 + 8 * b).
Let e1 := r (entry_addr e2 + 8 * c).

Lemma recursive_window :
  steps e3 = true → steps e2 = true → present e1 = true →
  mapped r root (u64 (mmu_recursive MMU_RE a b c + 8 * i)) (entry_addr e1 + 8 * i).
Proof.
  intros S3 S2 P1. assert (HRE : 0 <= MMU_RE < 512) by (cbv; intuition congruence).
  rewrite mmu_recursive_u64 by (done || lia).
  split; [apply mmu_recursive_canonical; done || lia|]. right.
  destruct (wf_recursive _ _ _ W) as [SR ER].
  assert (Hd : dir_slot r root (mmu_recursive MMU_RE a b c + 8 * i) = Some (entry_addr e3 + 8 * b)).
  { rewrite dir_slot_eq, mmu_recursive_PML4E, mmu_recursive_PDPTE, mmu_recursive_PDE by (done || lia).
    cbv zeta. rewrite (entry_addr_root _ _ _ W), SR, ER. fold e3. by rewrite S3. }
  exists (entry_addr e2 + 8 * c). split; [|split].
  - rewrite leaf_slot_eq, Hd. fold e2. by rewrite S2, mmu_recursive_PTE by (done || lia).
  - done.
  - fold e1. by rewrite mmu_recursive_offset by (done || lia).
Qed.
End recursive.

(** [w] is the address of a view of the table in frame [f]. *)
Definition window (r : Z → Z) (root w f : Z) : Prop :=
  w ≠ 0 ∧ ∀ i, 0 <= i < 512 → mapped r root (u64 (w + 8 * i)) (f + 8 * i).

Lemma window_extends r r' root w f : extends r r' → window r root w f → window r' root w f.
Proof. intros He [? Hw]. split; [done|]. intros i Hi. eapply mapped_extends; [done|auto]. Qed.

Lemma recursive_is_window r root lv a b c :
  pt_wf r root lv → 0 <= a < 512 → 0 <= b < 512 → 0 <= c < 512 →
  steps (r (root + 8 * a)) = true →
  steps (r (entry_addr (r (root + 8 * a)) + 8 * b)) = true →
  present (r (entry_addr (r (entry_addr (r (root + 8 * a)) + 8 * b)) + 8 * c)) = true →
  window r root (mmu_recursive MMU_RE a b c)
    (entry_addr (r (entry_addr (r (entry_addr (r (root + 8 * a)) + 8 * b)) + 8 * c))).
Proof.
  intros W Ha Hb Hc S3 S2 P1. split.
  - apply mmu_recursive_nonzero; done || (cbv; intuition congruence).
  - intros i Hi. by eapply recursive_window.
Qed.
