(* ===== verification/PagingTree.v ===== *)
(** The lower half of the address space as a tree: no table below the first
    256 entries of the root is reached through two entries, so different
    pages of the lower half have different last-level entries. And the frames
    that hold no table: writing them changes no translation. *)

From S2P Require Import Prelude Kernel KList State Paging PagingWf.

Open Scope Z_scope.

(** Entry [i] of the table in [f] leads to the table in [t]. *)
Definition edge (r : Z → Z) (lv : Z → Z) (f i t : Z) : Prop :=
  2 <= lv f ∧ 0 <= i < 512 ∧ steps (r (f + 8 * i)) = true ∧ entry_addr (r (f + 8 * i)) = t.

(** The tables of the lower half. *)
Inductive below (r : Z → Z) (root : Z) (lv : Z → Z) : Z → Prop :=
  | below_root i t : 0 <= i < 256 → edge r lv root i t → below r root lv t
  | below_edge f i t : below r root lv f → edge r lv f i t → below r root lv t.

Definition unshared (r : Z → Z) (root : Z) (lv : Z → Z) : Prop :=
  ∀ t f i g j, below r root lv t → edge r lv f i t → edge r lv g j t → f = g ∧ i = j.

Lemma edge_level r root lv f i t : pt_wf r root lv → edge r lv f i t →
  (f = root ∧ i = MMU_RE ∧ t = root) ∨ (lv t = lv f - 1 ∧ (lv f = 4 → i ≠ MMU_RE)).
Proof.
  intros W (Hf & Hi & Hs & <-). destruct (decide (f = root ∧ i = MMU_RE)) as [[-> ->]|Hne].
  - left. split_and!; [done..|]. apply (wf_recursive _ _ _ W).
  - assert (Hre : lv f = 4 → i ≠ MMU_RE) by (intros ?%(wf_root _ _ _ W) ->; by apply Hne).
    right. split; [|done]. apply steps_true in Hs as [Hp Hl].
    destruct (wf_entry _ _ _ W f i) as [[_ ?]|(_ & ? & _)]; [done..|congruence|done].
Qed.

(** Two edges to one table start on the same level. *)
Lemma edge_nonzero r root lv f i t : pt_wf r root lv → edge r lv f i t → lv t ≠ 0.
Proof.
  intros W E. destruct (edge_level _ _ _ _ _ _ W E) as [(_ & _ & ->)|[-> _]].
  - rewrite (root_level _ _ _ W). lia.
  - destruct E. lia.
Qed.

(** *** Linking an empty table *)

Section link.
Context (r : Z → Z) (root : Z) (lv : Z → Z) (g j q : Z).
Hypotheses (W : pt_wf r root lv) (Hg : 2 <= lv g) (Hj : 0 <= j < 512).
Hypotheses (Hnp : present (r (g + 8 * j)) = false) (Hq : frame_ok q) (Hlq : lv q = 0).
Hypothesis Hzero : ∀ i, 0 <= i < 512 → present (r (q + 8 * i)) = false.
Let r' := ram_set r (g + 8 * j) (table_entry q).
Let lv' := set_level lv q (lv g - 1).

Lemma edge_link f i t : edge r' lv' f i t → edge r lv f i t ∨ (f = g ∧ i = j ∧ t = q).
Proof.
  intros (Hf & Hi & Hs & Ht). destruct (decide (f = q)) as [->|Hfq].
  { assert (q ≠ g) by (intros ->; lia).
    pose proof (link_new_steps r root lv g j q W Hg Hj Hq ltac:(done) Hzero i Hi) as E.
    fold r' in E. congruence. }
  unfold lv' in Hf. rewrite set_level_ne in Hf by done.
  destruct (decide (f = g ∧ i = j)) as [[-> ->]|Hne].
  - right. split_and!; [done..|]. rewrite <- Ht. unfold r'. rewrite ram_set_eq.
    destruct Hq. apply table_entry_addr; done || lia.
  - left. assert (E : r' (f + 8 * i) = r (f + 8 * i)).
    { apply ram_set_ne. intros [-> ->]%slot_inj; [by apply Hne|..|done|done];
        apply (level_aligned _ _ _ W); lia. }
    rewrite E in *. done.
Qed.

Lemma below_link t : below r' root lv' t → below r root lv t ∨ t = q.
Proof.
  induction 1 as [i t Hi E|f i t _ IH E];
    (destruct (edge_link _ _ _ E) as [E'|(_ & _ & ->)]; [left|by right]).
  - by eapply below_root.
  - destruct IH as [IH| ->]; [by eapply below_edge|]. destruct E' as [? _]. lia.
Qed.

Lemma unshared_link : unshared r root lv → unshared r' root lv'.
Proof.
  intros U t f i f' i' Hb E E'.
  assert (Hold : ∀ f i, edge r lv f i q → False).
  { intros ? ? ?%(edge_nonzero _ _ _ _ _ _ W). done. }
  destruct (edge_link _ _ _ E) as [O|(-> & -> & Et)],
    (edge_link _ _ _ E') as [O'|(-> & -> & Et')]; [| | |done].
  - destruct (below_link _ Hb) as [Hb'| ->]; [by eapply U|]. by destruct (Hold _ _ O).
  - subst t. by destruct (Hold _ _ O).
  - subst t. by destruct (Hold _ _ O').
Qed.
End link.

(** *** Writes that leave the upper tables alone *)

Lemma unshared_upper r r' root lv :
  (∀ f i, 2 <= lv f → 0 <= i < 512 → r' (f + 8 * i) = r (f + 8 * i)) →
  unshared r root lv → unshared r' root lv.
Proof.
  intros He U. assert (Ee : ∀ f i t, edge r' lv f i t → edge r lv f i t).
  { intros f i t (Hf & Hi & E). unfold edge. by rewrite <- He. }
  intros t f i g j Hb E E'. apply (U t); [|by apply Ee..].
  clear -Hb Ee. induction Hb; [eapply below_root|eapply below_edge]; eauto.
Qed.

(** *** The paths of the lower half *)

Section paths.
Context (r : Z → Z) (root : Z) (lv : Z → Z).
Hypotheses (W : pt_wf r root lv) (U : unshared r root lv).

(** The three edges of a walk that reaches a last-level entry. *)
Lemma leaf_edges va a : PML4E va ≠ MMU_RE → leaf_slot r root va = Some a →
  edge r lv root (PML4E va) (frame3 r root va) ∧
  edge r lv (frame3 r root va) (PDPTE va) (frame2 r root va) ∧
  edge r lv (frame2 r root va) (PDE va) (frame1 r root va) ∧
  lv (frame1 r root va) = 1 ∧ a = frame1 r root va + 8 * PTE va.
Proof.
  intros Hva Hl. destruct (leaf_levels _ _ _ W va Hva _ Hl) as (Hd & S2 & L1 & ->).
  destruct (dir_levels _ _ _ W va Hva _ Hd) as (L3 & L2 & S4 & S3 & _).
  unfold edge. rewrite L3, L2, (root_level _ _ _ W).
  pose proof (PML4E_bounds va). pose proof (PDPTE_bounds va). pose proof (PDE_bounds va).
  split_and!; done || lia.
Qed.

Lemma leaf_slot_path va va' a :
  PML4E va < 256 → PML4E va' ≠ MMU_RE →
  leaf_slot r root va = Some a → leaf_slot r root va' = Some a →
  PML4E va = PML4E va' ∧ PDPTE va = PDPTE va' ∧ PDE va = PDE va' ∧ PTE va = PTE va'.
Proof.
  intros Hlow Hre' Hl Hl'.
  assert (Hre : PML4E va ≠ MMU_RE) by (unfold MMU_RE; lia).
  destruct (leaf_edges _ _ Hre Hl) as (E4 & E3 & E2 & L1 & ->).
  destruct (leaf_edges _ _ Hre' Hl') as (E4' & E3' & E2' & L1' & Es).
  apply slot_inj in Es as [Ef Ei]; [|apply (level_aligned _ _ _ W); lia..|auto with words|auto with words].
  assert (B3 : below r root lv (frame3 r root va)) by (eapply below_root; [|done]; destruct E4; lia).
  assert (B2 : below r root lv (frame2 r root va)) by by eapply below_edge.
  assert (B1 : below r root lv (frame1 r root va)) by by eapply below_edge.
  rewrite <- Ef in E2'. destruct (U _ _ _ _ _ B1 E2 E2') as [F2 I2]. rewrite <- F2 in E3'.
  destruct (U _ _ _ _ _ B2 E3 E3') as [F3 I3]. rewrite <- F3 in E4'.
  destruct (U _ _ _ _ _ B3 E4 E4') as [_ I4]. done.
Qed.
End paths.

(** The page of an address, from its indices. *)
Lemma page_indices va va' : 0 <= va < 2 ^ 47 → canonical va' = true → 0 <= va' →
  PML4E va = PML4E va' → PDPTE va = PDPTE va' → PDE va = PDE va' → PTE va = PTE va' →
  va / 4096 = va' / 4096.
Proof.
  intros Hva Hc Hp. rewrite !PML4E_spec, !PDPTE_spec, !PDE_spec, !PTE_spec. intros.
  unfold canonical in Hc. rewrite orb_true_iff, !andb_true_iff, !Z.leb_le, !Z.ltb_lt in Hc.
  assert (va' < 2 ^ 47) by dlia. dlia.
Qed.

Lemma low_index va : 0 <= va < 2 ^ 47 → PML4E va < 256.
Proof. intros. rewrite PML4E_spec. dlia. Qed.

(** Different pages, one of them in the lower half, have different last-level
    entries. *)
Lemma leaf_slot_page r root lv va va' a :
  pt_wf r root lv → unshared r root lv → 0 <= va < 2 ^ 47 →
  canonical va' = true → PML4E va' ≠ MMU_RE →
  leaf_slot r root va = Some a → leaf_slot r root va' = Some a → va / 4096 = va' / 4096.
Proof.
  intros W U Hva Hc Hre Hl Hl'.
  destruct (leaf_slot_path _ _ _ W U va va' a) as (? & ? & ? & ?); [by apply low_index|done..|].
  apply page_indices; try done. unfold canonical in Hc.
  rewrite orb_true_iff, !andb_true_iff, !Z.leb_le, !Z.ltb_lt in Hc. lia.
Qed.

(** *** Writes outside the tables *)

(** [r'] agrees with [r] on every table. *)
Definition same_tables (lv : Z → Z) (r r' : Z → Z) : Prop :=
  ∀ f i, lv f ≠ 0 → 0 <= i < 512 → r' (f + 8 * i) = r (f + 8 * i).

Section outside.
Context (r r' : Z → Z) (root : Z) (lv : Z → Z).
Hypotheses (W : pt_wf r root lv) (S : same_tables lv r r').

Lemma pt_wf_outside : pt_wf r' root lv.
Proof.
  split; [apply W|apply W| |].
  - rewrite S; [apply W| |by cbv]. rewrite (root_level _ _ _ W). lia.
  - intros g i Hg Hi. rewrite S by (done || lia). by apply W.
Qed.

Lemma unshared_outside : unshared r root lv → unshared r' root lv.
Proof. apply unshared_upper. intros f i Hf Hi. apply S; [lia|done]. Qed.

Lemma dir_slot_outside va : PML4E va ≠ MMU_RE → dir_slot r' root va = dir_slot r root va.
Proof.
  intros Hva. rewrite (dir_slot_unfold _ _ _ pt_wf_outside), (dir_slot_unfold _ _ _ W).
  unfold slot2, frame2, slot3, frame3, slot4.
  rewrite S; [|rewrite (root_level _ _ _ W); lia|auto with words]. fold (slot4 root va).
  destruct (steps (r (slot4 root va))) eqn:E4; [|done]. cbn [andb].
  apply steps_true in E4 as [P4 _].
  destruct (frame3_level _ _ _ W va Hva P4) as (L3 & _). unfold frame3 in L3.
  by rewrite S by (lia || auto with words).
Qed.

Lemma leaf_slot_outside va : PML4E va ≠ MMU_RE → leaf_slot r' root va = leaf_slot r root va.
Proof.
  intros Hva. unfold leaf_slot. rewrite dir_slot_outside by done.
  destruct (dir_slot r root va) as [d|] eqn:Ed; [|done].
  destruct (dir_levels _ _ _ W va Hva _ Ed) as (L3 & L2 & _ & _ & ->).
  unfold slot2. by rewrite S by (lia || auto with words).
Qed.

Lemma mapped_outside va pa :
  PML4E va ≠ MMU_RE → mapped r root va pa → mapped r' root va pa.
Proof.
  intros Hva [Hc Hm]. split; [done|]. rewrite dir_slot_outside, leaf_slot_outside by done.
  destruct Hm as [(a & Hd & Hp & Hl & ->)|(a & Hd & Hp & ->)].
  - left. exists a. destruct (dir_levels _ _ _ W va Hva _ Hd) as (L3 & L2 & _ & _ & ->).
    unfold slot2. by rewrite S by (lia || auto with words).
  - right. exists a. destruct (leaf_levels _ _ _ W va Hva _ Hd) as (_ & _ & L1 & ->).
    unfold slot1. by rewrite S by (lia || auto with words).
Qed.
End outside.

(** A byte written into a frame that holds no table. *)
Lemma same_tables_set root lv r f o v :
  pt_wf r root lv → f mod 4096 = 0 → lv f = 0 → 0 <= o < 4096 →
  same_tables lv r (ram_set r ((f + o) / 8 * 8) v).
Proof.
  intros W Hf Hlf Ho g i Hg Hi. apply ram_set_ne.
  replace ((f + o) / 8 * 8) with (f + 8 * (o / 8)) by dlia.
  intros [-> _]%slot_inj; [done|by apply (level_aligned _ _ _ W)|done|done|dlia].
Qed.
