(* ===== verification/Mmu.v ===== *)
(** The second half of [src/mmu.c]: [mmu_init], [mmu_map_page],
    [mmu_virt_to_phys] and [mmu_req_page]. *)

From S2P Require Import Prelude Kernel KList State Paging Frame.

Open Scope Z_scope.

Section mmu.
Context `{MMU, Layout}.

(** The root table seen through the recursive slot. *)
Definition pml4_window : Z := mmu_recursive MMU_RE MMU_RE MMU_RE MMU_RE.

Definition mmu_init : M kstate () :=
  root ← get_cr3;
  p ← page_request root;
  modify (put_PML4 p);;
  assert (nz p) "PML4";;
  store_page p (with_data pml4_window);;
  store_page p (with_flags (Z.lor P_USED (Z.lor P_IMMUTABLE (Z.lor P_KERNEL P_VIRT))));;
  on_lists (list_del (pages_of p));;
  on_lists (list_del (lru_of p));;
  let pml4 := P2V root in
  write_entry pml4 MMU_RE (Z.lor root (Z.lor PRESENT RW)).

(** A new table from the page allocator, linked into entry [i] of [table];
    [fmt] is the message logged for it. *)
Definition new_table (table i : Z) (fmt : string) : M kstate Z :=
  p ← page_alloc;
  assert (nz p) "p";;
  store_page p (λ pg, with_flags (Z.lor (flags pg) P_VIRT) pg);;
  pg ← load_page p;
  write_entry table i (Z.lor (address pg) (Z.lor PRESENT RW));;
  kernel_log fmt [AInt (address pg)];;
  mret (P2V (address pg)).

(** One level of the walk of [mmu_map_page]: the table behind entry [i] of
    [table], or a new one. *)
Definition next_table (table i : Z) (fmt : string) : M kstate Z :=
  e ← read_entry table i;
  if nz (Z.land e PRESENT) then
    e ← read_entry table i;
    mret (P2V (ROUND_DOWN e PAGE_SIZE))
  else new_table table i fmt.

(** The end of [mmu_map_page]: the page table behind the directory [pd], and
    the entry for the page. *)
Definition map_in_directory (pd frame addr fl : Z) : M kstate () :=
  pt ← next_table pd (PDE addr) "[mmu ] allocating page %#x for new PT\n";
  assert (nz pt) "pt";;
  fp ← load_page frame;
  write_entry pt (PTE addr) (Z.lor (address fp) (u64 fl));;
  store_page frame (with_data addr).

Definition mmu_map_page (frame addr fl : Z) : M kstate () :=
  root ← gets PML4;
  rp ← load_page root;
  let pml4 := data rp in
  assert (nz frame) "frame";;
  assert (nz pml4) "pml4";;
  fp ← load_page frame;
  kernel_log "[mmu ] mapping requested: phys %#x -> virt %#x (%x)\n"
    [AInt (address fp); AInt addr; AInt fl];;
  pdpt ← next_table pml4 (PML4E addr) "[mmu ] allocating page %#x for new PDPT\n";
  assert (nz pdpt) "pdpt";;
  (* a 1 GB page (PS set in the entry) is not treated specially *)
  pd ← next_table pdpt (PDPTE addr) "[mmu ] allocating page %#x for new PD\n";
  assert (nz pd) "pd";;
  e ← read_entry pd (PDE addr);
  if nz (Z.land e PRESENT) && nz (Z.land e PS) then
    store_page frame (with_data 0)
  else map_in_directory pd frame addr fl.

(** The result and the value left in [*err]. *)
Definition mmu_virt_to_phys (virt : Z) : M kstate (Z * Z) :=
  let pml4 := mmu_recursive MMU_RE MMU_RE MMU_RE MMU_RE in
  e4 ← read_entry pml4 (PML4E virt);
  if negb (nz (Z.land e4 PRESENT)) then mret (0, 4)
  else
    let pml3 := mmu_recursive MMU_RE MMU_RE MMU_RE (PML4E virt) in
    e3 ← read_entry pml3 (PDPTE virt);
    if negb (nz (Z.land e3 PRESENT)) then mret (0, 3)
    else if nz (Z.land e3 PS) then mret (e3, 0)
    else
      let pml2 := mmu_recursive MMU_RE MMU_RE (PML4E virt) (PDPTE virt) in
      e2 ← read_entry pml2 (PDE virt);
      if negb (nz (Z.land e2 PRESENT)) then mret (0, 2)
      else if nz (Z.land e2 PS) then mret (e2, 0)
      else
        let pml1 := mmu_recursive MMU_RE (PML4E virt) (PDPTE virt) (PDE virt) in
        e1 ← read_entry pml1 (PTE virt);
        mret (e1, 0).

Definition mmu_req_page (addr fl : Z) : M kstate Z :=
  p ← page_alloc;
  let addr := ROUND_DOWN addr PAGE_SIZE in
  mmu_map_page p addr fl;;
  pg ← load_page p;
  if negb (data pg =? addr) then mret 0 else mret p.
End mmu.
