(* ===== verification/MmuWalk.v ===== *)
(** [mmu_virt_to_phys] walks the page tables through the recursive slot. Its
    specification reads the tables in physical memory. *)

From S2P Require Import Prelude Kernel KList State Paging Frame PagingWf Mmu.

Open Scope Z_scope.

(** The entry that the walk for [va] ends at, with the error code
    [mmu_virt_to_phys] stores: the level whose entry is not present. *)
Definition walk_entry (r : Z → Z) (root va : Z) : Z * Z :=
  let e4 := r (root + 8 * PML4E va) in
  if negb (present e4) then (0, 4) else
  let e3 := r (entry_addr e4 + 8 * PDPTE va) in
  if negb (present e3) then (0, 3) else
  let e2 := r (entry_addr e3 + 8 * PDE va) in
  if negb (present e2) then (0, 2) else
  if large e2 then (e2, 0) else (r (entry_addr e2 + 8 * PTE va), 0).

Section walk.
Context `{MMU, Layout}.

Lemma returns_read_window s w f i (Q : Z → kstate → Prop) :
  window (ram s) (cr3 s) w f → 0 <= i < 512 → Q (ram s (f + 8 * i)) s →
  returns (read_entry w i) s Q.
Proof.
  intros [Hw Hm] Hi HQ. eapply returns_read_entry; [done| |exact HQ].
  by apply mapped_translate, Hm.
Qed.

Lemma returns_write_window s w f i v (Q : () → kstate → Prop) :
  window (ram s) (cr3 s) w f → 0 <= i < 512 →
  Q () (put_ram (ram_set (ram s) (f + 8 * i) v) s) →
  returns (write_entry w i v) s Q.
Proof.
  intros [Hw Hm] Hi HQ. eapply returns_write_entry; [done| |exact HQ].
  by apply mapped_translate, Hm.
Qed.

(** The four windows of [mmu_virt_to_phys], as far as the levels above are
    present. *)
Section windows.
Context (s : kstate) (lv : Z → Z) (va : Z).
Hypotheses (W : pt_wf (ram s) (cr3 s) lv) (Hva : PML4E va ≠ MMU_RE).
Abbreviation r := (ram s).
Abbreviation root := (cr3 s).

Lemma RE_bounds : 0 <= MMU_RE < 512.
Proof. cbv. intuition congruence. Qed.

Lemma window4 : window r root pml4_window root.
Proof.
  pose proof RE_bounds. destruct (wf_recursive _ _ _ W) as [SR ER].
  pose proof (recursive_is_window r root lv MMU_RE MMU_RE MMU_RE W) as Hw.
  rewrite !ER in Hw. apply Hw; try done. by apply steps_true in SR as [? _].
Qed.

Lemma window3 : present (r (slot4 root va)) = true →
  window r root (mmu_recursive MMU_RE MMU_RE MMU_RE (PML4E va)) (frame3 r root va).
Proof.
  intros P4. pose proof RE_bounds. destruct (wf_recursive _ _ _ W) as [SR ER].
  pose proof (recursive_is_window r root lv MMU_RE MMU_RE (PML4E va) W) as Hw.
  rewrite !ER in Hw. apply Hw; auto with words.
Qed.

Lemma window2 : present (r (slot4 root va)) = true → present (r (slot3 r root va)) = true →
  window r root (mmu_recursive MMU_RE MMU_RE (PML4E va) (PDPTE va)) (frame2 r root va).
Proof.
  intros P4 P3. pose proof RE_bounds. destruct (wf_recursive _ _ _ W) as [SR ER].
  destruct (frame3_level _ _ _ W va Hva P4) as (_ & N4 & _).
  pose proof (recursive_is_window r root lv MMU_RE (PML4E va) (PDPTE va) W) as Hw.
  rewrite !ER in Hw. apply Hw; auto with words.
  unfold steps. unfold slot4 in P4, N4. by rewrite P4, N4.
Qed.

Lemma window1 : present (r (slot4 root va)) = true → present (r (slot3 r root va)) = true →
  present (r (slot2 r root va)) = true →
  window r root (mmu_recursive MMU_RE (PML4E va) (PDPTE va) (PDE va)) (frame1 r root va).
Proof.
  intros P4 P3 P2. pose proof RE_bounds.
  destruct (frame3_level _ _ _ W va Hva P4) as (L3 & N4 & _).
  destruct (frame2_level _ _ _ W va L3 P3) as (_ & N3 & _).
  apply (recursive_is_window r root lv (PML4E va) (PDPTE va) (PDE va) W); auto with words.
  - unfold steps. unfold slot4 in P4, N4.  by rewrite P4, N4.
  - unfold steps. unfold slot3, frame3, slot4 in P3, N3. by rewrite P3, N3.
Qed.
End windows.

Lemma returns_mmu_virt_to_phys s lv va :
  pt_wf (ram s) (cr3 s) lv → PML4E va ≠ MMU_RE →
  returns (mmu_virt_to_phys va) s (λ ve s', s' = s ∧ ve = walk_entry (ram s) (cr3 s) va).
Proof.
  intros W Hva. unfold mmu_virt_to_phys, walk_entry.
  k_step. eapply returns_read_window; [by eapply window4|auto with words|].
  change (nz (Z.land ?e PRESENT)) with (present e). fold (slot4 (cr3 s) va).
  destruct (present (ram s (slot4 (cr3 s) va))) eqn:P4; [|by k_steps]. cbn [negb].
  k_step. eapply returns_read_window; [by eapply window3|auto with words|].
  change (nz (Z.land ?e PRESENT)) with (present e). change (nz (Z.land ?e PS)) with (large e).
  fold (frame3 (ram s) (cr3 s) va). fold (slot3 (ram s) (cr3 s) va).
  destruct (present (ram s (slot3 (ram s) (cr3 s) va))) eqn:P3; [|by k_steps]. cbn [negb].
  destruct (frame3_level _ _ _ W va Hva P4) as (L3 & _).
  destruct (frame2_level _ _ _ W va L3 P3) as (_ & N3 & _). rewrite N3.
  k_step. eapply returns_read_window; [by eapply window2|auto with words|].
  change (nz (Z.land ?e PRESENT)) with (present e). change (nz (Z.land ?e PS)) with (large e).
  fold (frame2 (ram s) (cr3 s) va). fold (slot2 (ram s) (cr3 s) va).
  destruct (present (ram s (slot2 (ram s) (cr3 s) va))) eqn:P2; [|by k_steps]. cbn [negb].
  destruct (large (ram s (slot2 (ram s) (cr3 s) va))) eqn:N2; [by k_steps|].
  k_step. eapply returns_read_window; [by eapply window1|auto with words|].
  by k_steps.
Qed.

(** An address with a last-level entry: the walk ends there. *)
Lemma walk_entry_leaf r root lv va a :
  pt_wf r root lv → PML4E va ≠ MMU_RE → leaf_slot r root va = Some a →
  walk_entry r root va = (r a, 0).
Proof.
  intros W Hva Hl. destruct (leaf_levels _ _ _ W va Hva _ Hl) as (Hd & S2 & _ & ->).
  destruct (dir_levels _ _ _ W va Hva _ Hd) as (_ & _ & S4 & S3 & _).
  apply steps_true in S2 as [P2 N2], S3 as [P3 _], S4 as [P4 _].
  unfold walk_entry. fold (slot4 root va). rewrite P4. fold (frame3 r root va).
  fold (slot3 r root va). rewrite P3. fold (frame2 r root va). fold (slot2 r root va).
  rewrite P2, N2. done.
Qed.

(** C9: [mmu_virt_to_phys], for an address outside the recursive slot of
    well-formed page tables, terminates without a page fault, changes
    nothing, and returns the entry that the processor's walk for the address
    ends at; when a level is missing it returns 0 with the number of that
    level (4, 3 or 2) as the error. *)
Theorem mmu_virt_to_phys_spec s lv va :
  pt_wf (ram s) (cr3 s) lv → PML4E va ≠ MMU_RE →
  returns (mmu_virt_to_phys va) s (λ ve s', s' = s ∧ ve = walk_entry (ram s) (cr3 s) va).
Proof. apply returns_mmu_virt_to_phys. Qed.

(** When [mmu_virt_to_phys] reports no error and the entry [e] it
    returns is present, the address is mapped: to bits 51..12 of [e] when
    the walk ends in a page table, to bits 51..21 of [e] when it ends at a
    two-megabyte page. The offset in the page and the attribute bits of the
    entry are the caller's to add and to strip. *)
Theorem mmu_virt_to_phys_mapped s lv va e :
  pt_wf (ram s) (cr3 s) lv → PML4E va ≠ MMU_RE → canonical va = true → present e = true →
  returns (mmu_virt_to_phys va) s (λ ve _, ve = (e, 0)) →
  translate (ram s) (cr3 s) va = Some (entry_addr e + va mod 2 ^ 12) ∨
  (large e = true ∧
   translate (ram s) (cr3 s) va = Some (Z.land e 0x000FFFFFFFE00000 + va mod 2 ^ 21)).
Proof.
  intros W Hva Hc He Hr. apply returns_run in Hr as (ve & s' & E & ->).
  pose proof (returns_mmu_virt_to_phys s lv va W Hva) as Hs.
  unfold returns in Hs. rewrite E in Hs. destruct Hs as [-> Hw].
  unfold walk_entry in Hw. fold (slot4 (cr3 s) va) in Hw.
  fold (frame3 (ram s) (cr3 s) va) in Hw. fold (slot3 (ram s) (cr3 s) va) in Hw.
  fold (frame2 (ram s) (cr3 s) va) in Hw. fold (slot2 (ram s) (cr3 s) va) in Hw.
  fold (frame1 (ram s) (cr3 s) va) in Hw. fold (slot1 (ram s) (cr3 s) va) in Hw.
  destruct (present (ram s (slot4 _ _))) eqn:P4; [|by injection Hw as ->].
  destruct (present (ram s (slot3 _ _ _))) eqn:P3; [|by injection Hw as ->].
  destruct (present (ram s (slot2 _ _ _))) eqn:P2; [|by injection Hw as ->]. cbn [negb] in Hw.
  destruct (frame3_level _ _ _ W va Hva P4) as (L3 & N4 & _).
  destruct (frame2_level _ _ _ W va L3 P3) as (L2 & N3 & _).
  assert (Hd : dir_slot (ram s) (cr3 s) va = Some (slot2 (ram s) (cr3 s) va)).
  { rewrite (dir_slot_unfold _ _ _ W). unfold steps. by rewrite P4, P3, N4, N3. }
  destruct (large (ram s (slot2 _ _ _))) eqn:N2; injection Hw as ->.
  - right. split; [done|]. by apply (translate_2m _ _ _ _ Hc Hd).
  - left. apply translate_4k; [done| |done].
    rewrite (leaf_slot_unfold _ _ _ W). unfold steps. by rewrite P4, P3, P2, N4, N3, N2.
Qed.
End walk.
