(* ===== verification/MmuSpec.v ===== *)
(** The invariant of the virtual memory manager: the allocator's
    representation invariant, well-formed page tables, and the direct map
    through which the code reaches tables and free frames. The lemmas take
    [mmu_map_page] one level at a time. *)

From S2P Require Import Prelude Kernel KList State Paging Frame FrameSpec FrameRefine FrameMark.
From S2P Require Import PagingWf PagingTree Mmu MmuWalk.

Open Scope Z_scope.

(** The frame of a [struct page] in the store. *)
Definition frame_of (s : kstate) (p : Z) : Z := default 0 (address <$> store s !! p).

Section spec.
Context `{MMU, Layout}.

(** The frames the kernel reaches at their [P2V] address. *)
Context (D : Z → Prop).

(** [a] can become a page table: an aligned frame that holds none yet, has
    no entry marked present, and is reachable. *)
Definition blank (r : Z → Z) (lv : Z → Z) (a : Z) : Prop :=
  frame_ok a ∧ a ≠ 0 ∧ lv a = 0 ∧ (∀ i, 0 <= i < 512 → present (r (a + 8 * i)) = false) ∧ D a.

(** The invariant of the memory manager, with [n] pages ready: the first [n]
    free pages can become page tables. *)
Record paged (s : kstate) (P : pools) (lv : Z → Z) (n : nat) : Prop := {
  pg_repr : repr s P;
  pg_unlocked : page_lock s = false;
  pg_wf : pt_wf (ram s) (cr3 s) lv;
  pg_root : PML4 s ≠ 0 ∧ (PML4 s ∉ free_pool P) ∧
    ∃ pg, store s !! PML4 s = Some pg ∧ data pg = pml4_window;
  pg_tables : ∀ f, lv f ≠ 0 → f ≠ cr3 s → D f;
  pg_direct : ∀ f, D f → frame_ok f ∧ window (ram s) (cr3 s) (P2V f) f;
  pg_ready : (n <= length (free_pool P))%nat;
  pg_free : ∀ p, p ∈ take n (free_pool P) → blank (ram s) lv (frame_of s p);
  pg_distinct : ∀ p q, p ∈ free_pool P → q ∈ free_pool P → frame_of s p = frame_of s q → p = q;
}.

(** No directly mapped frame is reached through the page-table entry of
    [va]: writing that entry moves none of the kernel's own views. *)
Definition guarded (s : kstate) (va : Z) : Prop :=
  ∀ f i a, D f → 0 <= i < 512 → leaf_slot (ram s) (cr3 s) va = Some a →
    leaf_slot (ram s) (cr3 s) (u64 (P2V f + 8 * i)) ≠ Some a.

(** What building page tables may change: absent entries become present,
    frames become tables, pages change flags. *)
Record grown (s : kstate) (lv : Z → Z) (s' : kstate) (lv' : Z → Z) : Prop := {
  gr_ram : extends (ram s) (ram s');
  gr_cr3 : cr3 s' = cr3 s;
  gr_PML4 : PML4 s' = PML4 s;
  gr_lv : ∀ f, lv f ≠ 0 → lv' f = lv f;
  gr_store : ∀ p pg, store s !! p = Some pg → ∃ fl, store s' !! p = Some (with_flags fl pg);
  gr_guard : ∀ va, PML4E va ≠ MMU_RE → guarded s va → guarded s' va;
  gr_large : ∀ va d, dir_slot (ram s') (cr3 s') va = Some d →
    present (ram s' d) = true → large (ram s' d) = true →
    dir_slot (ram s) (cr3 s) va = Some d ∧ ram s' d = ram s d;
}.

Lemma grown_refl s lv s' : ram s' = ram s → cr3 s' = cr3 s → PML4 s' = PML4 s →
  store s' = store s → grown s lv s' lv.
Proof.
  intros Er Ec Em Es. split; [by rewrite Er|done|done|done| | |].
  - intros p pg Hp. exists (flags pg). rewrite Es, Hp. by destruct pg.
  - intros va _ G. unfold guarded. by rewrite Er, Ec.
  - intros va d. by rewrite Er, Ec.
Qed.

Lemma grown_trans s1 lv1 s2 lv2 s3 lv3 :
  grown s1 lv1 s2 lv2 → grown s2 lv2 s3 lv3 → grown s1 lv1 s3 lv3.
Proof.
  intros G1 G2. split.
  - etrans; [apply G1|apply G2].
  - rewrite (gr_cr3 _ _ _ _ G2). apply G1.
  - rewrite (gr_PML4 _ _ _ _ G2). apply G1.
  - intros f Hf. pose proof (gr_lv _ _ _ _ G1 f Hf). rewrite (gr_lv _ _ _ _ G2 f); congruence.
  - intros p pg Hp. destruct (gr_store _ _ _ _ G1 p pg Hp) as [f1 H1].
    destruct (gr_store _ _ _ _ G2 p _ H1) as [f2 H2]. by exists f2.
  - intros va Hva G. apply G2; [done|]. by apply G1.
  - intros va d Hd Hp Hl. destruct (gr_large _ _ _ _ G2 va d Hd Hp Hl) as [Hd2 E2].
    rewrite E2 in *. by apply (gr_large _ _ _ _ G1).
Qed.

(** No two-megabyte page covers [va]. *)
Definition small (s : kstate) (va : Z) : Prop :=
  ∀ d, dir_slot (ram s) (cr3 s) va = Some d → present (ram s d) = true → large (ram s d) = false.

(** What happens to frames: some pages leave the free pool, some of their
    frames become tables, and nothing but tables and the frames [fs] is
    written; the lower half stays a tree, and no large page appears. *)
Record taken (s : kstate) (P : pools) (lv : Z → Z) (fs : list Z) (s' : kstate) (P' : pools)
    (lv' : Z → Z) : Prop := {
  tk_cr3 : cr3 s' = cr3 s;
  tk_free : free_pool P' ⊆ free_pool P;
  tk_frame : ∀ p, frame_of s' p = frame_of s p;
  tk_lv : ∀ f, lv' f = lv f ∨
    (lv f = 0 ∧ ∃ p, p ∈ free_pool P ∧ (p ∉ free_pool P') ∧ f = frame_of s p);
  tk_ram : ∀ f i, f mod 4096 = 0 → 0 <= i < 512 → lv' f = 0 → (f ∉ fs) →
    ram s' (f + 8 * i) = ram s (f + 8 * i);
  tk_tree : unshared (ram s) (cr3 s) lv → unshared (ram s') (cr3 s') lv';
  tk_small : ∀ va, PML4E va ≠ MMU_RE → small s va → small s' va;
}.

Lemma taken_refl s P lv s' : ram s' = ram s → cr3 s' = cr3 s →
  (∀ p, frame_of s' p = frame_of s p) → taken s P lv [] s' P lv.
Proof.
  intros Er Ec Ef. split; try done; unfold small; rewrite ?Er, ?Ec; try done. by left.
Qed.

Lemma taken_trans s1 P1 lv1 fs1 s2 P2 lv2 fs2 s3 P3 lv3 :
  taken s1 P1 lv1 fs1 s2 P2 lv2 → taken s2 P2 lv2 fs2 s3 P3 lv3 →
  taken s1 P1 lv1 (fs1 ++ fs2) s3 P3 lv3.
Proof.
  intros T1 T2. split.
  - rewrite (tk_cr3 _ _ _ _ _ _ _ T2). apply T1.
  - etrans; [apply T2|apply T1].
  - intros p. rewrite (tk_frame _ _ _ _ _ _ _ T2). apply T1.
  - intros f. destruct (tk_lv _ _ _ _ _ _ _ T1 f) as [E1|(Z1 & p & Hp & Hp' & ->)].
    + destruct (tk_lv _ _ _ _ _ _ _ T2 f) as [E2|(Z2 & p & Hp & Hp' & ->)].
      * left. congruence.
      * right. split; [congruence|]. exists p. split_and!; [by apply (tk_free _ _ _ _ _ _ _ T1)|done|].
        apply T1.
    + right. split; [done|]. exists p. split_and!; [done| |done].
      intros Hin. by apply Hp', (tk_free _ _ _ _ _ _ _ T2).
  - intros f i Hf Hi Hl Hfs. rewrite not_elem_of_app in Hfs. destruct Hfs as [N1 N2].
    rewrite (tk_ram _ _ _ _ _ _ _ T2) by done. apply T1; [done..| |done].
    destruct (tk_lv _ _ _ _ _ _ _ T2 f) as [E|[? _]]; congruence.
  - intros U. by apply T2, T1.
  - intros va Hva S. apply T2; [done|]. by apply T1.
Qed.

(** A directly mapped address is outside the recursive slot. *)
Lemma direct_index f i : frame_ok f → 0 <= i < 512 → PML4E (u64 (P2V f + 8 * i)) ≠ MMU_RE.
Proof.
  intros [Hf Hb] Hi. rewrite P2V_add by lia. unfold KERNEL_VIRT, MMU_RE.
  rewrite wrap_small by dlia. rewrite PML4E_spec. dlia.
Qed.

(** A mapped address keeps its last-level slot, or keeps having none. *)
Lemma mapped_leaf_stable r r' root va pa :
  extends r r' → mapped r root va pa → leaf_slot r' root va = leaf_slot r root va.
Proof.
  intros He [_ [(a & Hd & Hp & Hl & _)|(a & Hd & _)]].
  - rewrite !leaf_slot_eq, Hd, (dir_slot_extends _ _ _ _ _ He Hd), (He _ Hp).
    unfold steps. by rewrite Hl, andb_false_r.
  - rewrite Hd. by eapply leaf_slot_extends.
Qed.

(** Fewer pages. *)
Lemma paged_le s P lv n m : (m <= n)%nat → paged s P lv n → paged s P lv m.
Proof.
  intros Hm []. split; try done; [lia|]. intros p (i & Hi & Hlt)%elem_of_take.
  apply pg_free0, elem_of_take. exists i. split; [done|lia].
Qed.

(** Allocation keeps the invariant and the tables. *)
Lemma paged_alloc s P lv n p P' s' :
  paged s P lv (S n) → spec_alloc P = Some (p, P') → repr s' P' → page_lock s' = false →
  same_rest s s' →
  paged s' P' lv n ∧ grown s lv s' lv ∧ p ∈ free_pool P ∧ (p ∉ free_pool P') ∧
  blank (ram s') lv (frame_of s' p) ∧
  (∀ q, q ∈ free_pool P' → frame_of s' q ≠ frame_of s' p).
Proof.
  intros G Ha R' Hl (Es & Ep & En & Er & Ec & Em).
  pose proof (repr_wf _ _ (pg_repr _ _ _ _ G)) as Hwf.
  destruct P as [[|p0 F] U L]; [done|]. injection Ha as -> <-.
  assert (HpF : p ∉ F) by (destruct Hwf as (HF & _); cbn in HF; by apply NoDup_cons in HF as [? _]).
  assert (Hsub : ∀ q, q ∈ F → q ∈ free_pool (Pools (p :: F) U L)) by (cbn; set_solver).
  assert (Efr : ∀ q, frame_of s' q = frame_of s q) by (intros; unfold frame_of; by rewrite Es).
  assert (Hp : p ∈ free_pool (Pools (p :: F) U L)) by (cbn; set_solver).
  destruct G as [_ _ Hw (Hr1 & Hr2 & Hr3) Ht Hd Hn Hf Hdist]. cbn in Hn, Hf.
  split_and!; [|by apply grown_refl|done|done|rewrite Efr, Er; apply Hf; set_solver|].
  - split; rewrite ?Er, ?Ec, ?Em, ?Es; [done..| |done|done|cbn; lia| |].
    + split_and!; [done| |done]. cbn. cbn in Hr2. set_solver.
    + intros q Hq. rewrite Efr. apply Hf. cbn in Hq. set_solver.
    + intros q q' Hq Hq'. rewrite !Efr. apply Hdist; by apply Hsub.
  - intros q Hq. rewrite !Efr. intros Heq. apply Hdist in Heq; [|by apply Hsub|done]. by subst.
Qed.

(** Setting the flags of a page, and appending to the log. *)
Lemma paged_flags s P lv n p fl pg l :
  paged s P lv n → store s !! p = Some pg →
  let s' := put_klog l (put_store (<[p:=with_flags fl pg]> (store s)) s) in
  paged s' P lv n ∧ grown s lv s' lv ∧ ∀ q, frame_of s' q = frame_of s q.
Proof.
  intros G Hp s'.
  assert (Efr : ∀ q, frame_of s' q = frame_of s q).
  { intros q. unfold frame_of, s'. cbn [store put_store put_klog]. rewrite lookup_insert.
    case_decide; [|done]. subst. by rewrite Hp. }
  destruct G as [R Hl Hw (Hr1 & Hr2 & Hr3) Ht Hd Hn Hf Hdist].
  split_and!; [|split|done]; cbn; try done.
  - split; cbn [ram cr3 PML4 store page_lock put_store put_klog s']; [|done|done| |done|done|done| |].
    + destruct R as [R1 R2 R3 R4 R5]. split; cbn; try done. intros q Hq.
      rewrite lookup_insert. case_decide; [by eauto|]. by apply R4.
    + split_and!; [done|done|]. destruct Hr3 as (pg0 & Hpg0 & Hdata).
      rewrite lookup_insert. case_decide; [|by eauto]. subst.
      exists (with_flags fl pg). split; [done|]. simplify_eq. by destruct pg0.
    + intros q Hq. rewrite Efr. by apply Hf.
    + intros q q'. rewrite !Efr. apply Hdist.
  - intros q pgq Hq. cbn. rewrite lookup_insert. case_decide; [subst|].
    + simplify_eq. by exists fl.
    + exists (flags pgq). rewrite Hq. by destruct pgq.
Qed.

(** Linking the blank frame [q] behind the absent entry [j] of table [g]. *)
Section link.
Context (s : kstate) (P : pools) (lv : Z → Z) (n : nat) (g j q : Z) (l : list log_entry).
Hypotheses (G : paged s P lv n) (Hg : 2 <= lv g) (Hj : 0 <= j < 512).
Hypotheses (Hnp : present (ram s (g + 8 * j)) = false) (Hq : blank (ram s) lv q).
Hypothesis Hfree : ∀ p, p ∈ free_pool P → frame_of s p ≠ q.
Let s' := put_klog l (put_ram (ram_set (ram s) (g + 8 * j) (table_entry q)) s).
Let lv' := set_level lv q (lv g - 1).

Lemma link_wf : pt_wf (ram s') (cr3 s') lv'.
Proof.
  destruct Hq as (? & ? & ? & ? & _). apply pt_wf_link; [exact (pg_wf _ _ _ _ G)|done..].
Qed.

Lemma link_extends : extends (ram s) (ram s').
Proof. by apply extends_set. Qed.

Lemma link_blank a : blank (ram s) lv a → a ≠ q → blank (ram s') lv' a.
Proof.
  intros (Ha & Haz & Hl & Hz & Hd) Hne. split_and!; [done..| | |done].
  - unfold lv'. by rewrite set_level_ne.
  - intros i Hi. cbn. rewrite ram_set_ne; [by apply Hz|]. intros Heq.
    apply slot_inj in Heq as [-> _]; [lia|apply Ha| |done|done].
    apply (level_aligned _ _ _ (pg_wf _ _ _ _ G)). lia.
Qed.

Lemma link_guarded va : PML4E va ≠ MMU_RE → guarded s va → guarded s' va.
Proof.
  intros Hva Hgd f i a Hf Hi Ha Hb.
  destruct (pg_direct _ _ _ _ G f Hf) as [Hfo [_ Hw]]. specialize (Hw i Hi).
  change (cr3 s') with (cr3 s) in *.
  pose proof (direct_index f i Hfo Hi) as Hre.
  rewrite (mapped_leaf_stable _ _ _ _ _ link_extends Hw) in Hb.
  destruct Hq as (Hqf & _ & Hql & Hqz & _). assert (Hqg : q ≠ g) by (intros ->; lia).
  destruct (leaf_slot_link _ _ _ _ _ _ _ (pg_wf _ _ _ _ G) Hg Hj Hqf Hqg Hqz _ Ha) as [Ha'|Ha'].
  - by eapply Hgd.
  - destruct (leaf_levels _ _ _ (pg_wf _ _ _ _ G) _ Hre _ Hb) as (_ & _ & L1 & ->).
    apply slot_inj in Ha' as [<- _]; [lia|..|auto with words|auto with words].
    + apply (level_aligned _ _ _ (pg_wf _ _ _ _ G)). lia.
    + apply Hqf.
Qed.

Lemma paged_link : paged s' P lv' n ∧ grown s lv s' lv'.
Proof.
  pose proof link_extends as He. pose proof Hq as (Hqf & Hqz & Hql & Hqb & HqD).
  split; split.
  - destruct (pg_repr _ _ _ _ G). by split.
  - apply G.
  - apply link_wf.
  - apply G.
  - intros f Hf Hfr. destruct (decide (f = q)) as [->|Hne]; [done|].
    unfold lv' in Hf. rewrite set_level_ne in Hf by done. by apply (pg_tables _ _ _ _ G).
  - intros f Hf. destruct (pg_direct _ _ _ _ G f Hf) as [? Hw]. split; [done|].
    by eapply window_extends.
  - apply G.
  - intros p Hp. change (frame_of s' p) with (frame_of s p).
    apply link_blank; [by apply G|]. apply Hfree. apply elem_of_take in Hp as (i & Hi & _).
    by eapply list_elem_of_lookup_2.
  - apply (pg_distinct _ _ _ _ G).
  - done.
  - done.
  - done.
  - intros f Hf. unfold lv'. rewrite set_level_ne; [done|]. intros ->. lia.
  - intros p pg Hp. exists (flags pg). cbn. rewrite Hp. by destruct pg.
  - intros va. apply link_guarded.
  - intros va d. apply (large_link _ _ lv); [apply G|done|done|done| |done]. intros ->. lia.
Qed.

Lemma taken_link P0 p : free_pool P ⊆ free_pool P0 → p ∈ free_pool P0 → p ∉ free_pool P →
  frame_of s p = q → taken s P0 lv [] s' P lv'.
Proof.
  intros Hsub Hp Hp' Eq. destruct Hq as (Hqf & Hqz & Hql & Hqb & _). split; try done.
  - intros f. unfold lv'. destruct (decide (f = q)) as [->|Hne].
    + right. split; [done|]. by exists p.
    + left. by rewrite set_level_ne.
  - intros f i Hf Hi Hl _. cbn. apply ram_set_ne.
    assert (Hgq : g ≠ q) by (intros ->; lia).
    intros [-> _]%slot_inj; [|done|apply (level_aligned _ _ _ (pg_wf _ _ _ _ G)); lia|done|done].
    unfold lv' in Hl. rewrite set_level_ne in Hl by done. lia.
  - by apply unshared_link; [apply G|..].
  - intros va Hva Hs d Hd Hpr. apply not_true_is_false. intros Hla.
    destruct (large_link _ _ lv g j q va (pg_wf _ _ _ _ G) Hg Hj Hqf ltac:(intros ->; lia) Hqb
      d Hd Hpr Hla) as [Hd0 E].
    cbn in Hpr, Hla. rewrite E in *. rewrite (Hs _ Hd0 Hpr) in Hla. done.
Qed.
End link.

(** *** One level of the walk *)

(** The table [f] of level [k], seen at address [w]. *)
Definition view (s : kstate) (lv : Z → Z) (k w f : Z) : Prop :=
  window (ram s) (cr3 s) w f ∧ lv f = k.

Lemma view_grown s lv s' lv' k w f :
  grown s lv s' lv' → k ≠ 0 → view s lv k w f → view s' lv' k w f.
Proof.
  intros G Hk [Hw Hl]. split.
  - rewrite (gr_cr3 _ _ _ _ G). eapply window_extends; [apply G|done].
  - rewrite (gr_lv _ _ _ _ G); [done|lia].
Qed.

Lemma view_root s P lv n : paged s P lv n → view s lv 4 pml4_window (cr3 s).
Proof.
  intros G. split; [by eapply window4, G|]. eapply root_level, G.
Qed.

Lemma view_table s P lv n f k : paged s P lv n → lv f = k → 1 <= k <= 3 → view s lv k (P2V f) f.
Proof.
  intros G Hl Hk. split; [|done]. apply (pg_direct _ _ _ _ G). apply (pg_tables _ _ _ _ G); [lia|].
  intros ->. rewrite (root_level _ _ _ (pg_wf _ _ _ _ G)) in Hl. lia.
Qed.

(** The table behind an entry, before or after one was linked. *)
Definition behind (s : kstate) (k f i t : Z) (P' : pools) (lv : Z → Z) (s' : kstate)
    (lv' : Z → Z) (n : nat) (f' : Z) : Prop :=
  paged s' P' lv' n ∧ grown s lv s' lv' ∧ t = P2V f' ∧ view s' lv' (k - 1) t f' ∧
  steps (ram s' (f + 8 * i)) = true ∧ entry_addr (ram s' (f + 8 * i)) = f'.

Lemma returns_new_table s P lv k w f i fmt n :
  paged s P lv (S n) → view s lv k w f → 2 <= k <= 4 → 0 <= i < 512 →
  present (ram s (f + 8 * i)) = false →
  returns (new_table w i fmt) s (λ t s', ∃ P' lv' f',
    behind s k f i t P' lv s' lv' n f' ∧ taken s P lv [] s' P' lv').
Proof.
  intros G [Hw Hl] Hk Hi Hp. unfold new_table. pose proof (pg_ready _ _ _ _ G) as Hn.
  k_step. ret_use returns_page_alloc; [apply G|apply G|]. intros p s1.
  destruct (spec_alloc P) as [[q P']|] eqn:Ea; [|destruct P as [[|? ?] ? ?]; cbn in *; lia || done].
  intros (-> & Hqz & R1 & Hl1 & Hsr & _).
  destruct (paged_alloc _ _ _ _ _ _ _ G Ea R1 Hl1 Hsr) as (G1 & W1 & Hin & Hout & Hb & Hdist).
  pose proof (pg_repr _ _ _ _ G1) as Rr.
  assert (Hsome : is_Some (store s1 !! q)).
  { destruct (store s !! q) as [pg|] eqn:E.
    - by destruct (gr_store _ _ _ _ W1 q pg E) as [? ->].
    - exfalso. destruct (repr_store _ _ (pg_repr _ _ _ _ G) q) as [? ?]; [|congruence].
      apply (rep_pages _ _ _ _ (repr_rep _ _ (pg_repr _ _ _ _ G))). set_solver. }
  destruct Hsome as [pg Hpg].
  k_step. apply returns_assert; [unfold nz; by rewrite (proj2 (Z.eqb_neq _ _) Hqz)|].
  k_step. eapply returns_store_page; [done|exact Hpg|].
  destruct (paged_flags _ _ _ _ _ (Z.lor (flags pg) P_VIRT) _ (klog s1) G1 Hpg) as (G2 & W2 & E2).
  set (s2 := put_store (<[q:=with_flags (Z.lor (flags pg) P_VIRT) pg]> (store s1)) s1) in *.
  replace (put_klog (klog s1) s2) with s2 in * by (by destruct s1).
  k_step. eapply returns_load_page; [done|by apply lookup_insert_eq|]. cbn [address with_flags].
  assert (Efr : frame_of s1 q = address pg) by (unfold frame_of; by rewrite Hpg).
  rewrite Efr in *.
  k_step. eapply returns_write_window; [|done|].
  { rewrite (gr_cr3 _ _ _ _ W2), (gr_cr3 _ _ _ _ W1).
    eapply window_extends; [|exact Hw]. etrans; [apply W1|apply W2]. }
  change (Z.lor (address pg) (Z.lor PRESENT RW)) with (table_entry (address pg)).
  k_steps.
  assert (Hp2 : present (ram s2 (f + 8 * i)) = false).
  { change (ram s2) with (ram s1). destruct Hsr as (_ & _ & _ & -> & _). done. }
  destruct (paged_link s2 P' lv n f i (address pg) (KLog fmt [AInt (address pg)] :: klog s2))
    as [G3 W3]; [done|lia|done|done|exact Hb| |].
  { intros q' Hq'. rewrite E2. by apply Hdist. }
  eexists P', _, (address pg). split.
  + split_and!; [exact G3| |done| | |].
    * eapply grown_trans; [exact W1|]. eapply grown_trans; [exact W2|exact W3].
    * eapply view_table; [exact G3| |lia]. rewrite set_level_eq. lia.
    * cbn. rewrite ram_set_eq. apply table_entry_step. apply Hb.
    * cbn. rewrite ram_set_eq. destruct Hb as [[? ?] _]. by apply table_entry_addr; [|lia].
  + assert (Hsub : free_pool P' ⊆ free_pool P).
    { destruct P as [[|? ?] ? ?]; [done|]. injection Ea as <- <-. cbn. set_solver. }
    destruct Hsr as (Es & _ & _ & Er & Ec & _).
    assert (Ef : ∀ p, frame_of s2 p = frame_of s p) by (intros p; rewrite E2; unfold frame_of; by rewrite Es).
    eapply (taken_trans _ _ _ [] s2 P lv []); [by apply taken_refl|].
    apply (taken_link s2 P' lv n f i (address pg)) with (p := q); try done || lia.
    * intros q' Hq'. rewrite E2. by apply Hdist.
    * by rewrite E2.
Qed.

Lemma returns_next_table s P lv k w f i fmt n :
  paged s P lv (S n) → view s lv k w f → 2 <= k <= 4 → 0 <= i < 512 → (k = 4 → i ≠ MMU_RE) →
  (k = 2 → present (ram s (f + 8 * i)) = true → large (ram s (f + 8 * i)) = false) →
  returns (next_table w i fmt) s (λ t s', ∃ P' lv' f',
    behind s k f i t P' lv s' lv' n f' ∧ taken s P lv [] s' P' lv').
Proof.
  intros G V Hk Hi Hre Hlg. pose proof V as [Hw Hl]. unfold next_table.
  k_step. eapply returns_read_window; [exact Hw|done|].
  change (nz (Z.land ?e PRESENT)) with (present e).
  destruct (present (ram s (f + 8 * i))) eqn:Hp.
  - k_step. eapply returns_read_window; [exact Hw|done|]. k_step.
    destruct (wf_entry _ _ _ (pg_wf _ _ _ _ G) f i) as [[? Hx]|(Hx & Hlv & Hr)];
      [lia|done|by rewrite Hl|done| |].
    { rewrite Hlg in Hx; [done|lia|done]. }
    exists P, lv, (entry_addr (ram s (f + 8 * i))). rewrite Hr. split; [|by apply taken_refl]. split_and!.
    + eapply paged_le; [|exact G]. lia.
    + by apply grown_refl.
    + done.
    + eapply view_table; [done|lia..].
    + unfold steps. by rewrite Hp, Hx.
    + done.
  - by eapply returns_new_table.
Qed.
End spec.
