(* ===== verification/MmuMap.v ===== *)
(** [mmu_map_page] and [mmu_req_page]: what they map, what they keep, and
    when they refuse. *)

From S2P Require Import Prelude Kernel KList State Paging Frame FrameSpec FrameRefine FrameMark.
From S2P Require Import PagingWf PagingTree Mmu MmuWalk MmuSpec.

Open Scope Z_scope.

(** ** Addresses of one page *)

Section page_offset.
Context (va o : Z).
Hypotheses (Ha : va mod 4096 = 0) (Ho : 0 <= o < 4096).

Lemma offset_PML4E : PML4E (va + o) = PML4E va.
Proof. rewrite !PML4E_spec. dlia. Qed.
Lemma offset_PDPTE : PDPTE (va + o) = PDPTE va.
Proof. rewrite !PDPTE_spec. dlia. Qed.
Lemma offset_PDE : PDE (va + o) = PDE va.
Proof. rewrite !PDE_spec. dlia. Qed.
Lemma offset_PTE : PTE (va + o) = PTE va.
Proof. rewrite !PTE_spec. dlia. Qed.

Lemma offset_canonical : canonical va = true → canonical (va + o) = true.
Proof.
  unfold canonical. rewrite !orb_true_iff, !andb_true_iff, !Z.leb_le, !Z.ltb_lt.
  intros [?|?]; [left; dlia|right]. dlia.
Qed.

Lemma leaf_slot_offset r root : leaf_slot r root (va + o) = leaf_slot r root va.
Proof.
  by rewrite !leaf_slot_eq, !dir_slot_eq, offset_PML4E, offset_PDPTE, offset_PDE, offset_PTE.
Qed.
End page_offset.

Section map.
Context `{MMU, Layout}.
Context (D : Z → Prop).

(** ** The last writes *)

Lemma paged_leaf s P lv n f j v :
  paged D s P lv n → lv f = 1 → 0 <= j < 512 →
  (∀ g i, D g → 0 <= i < 512 →
     leaf_slot (ram s) (cr3 s) (u64 (P2V g + 8 * i)) ≠ Some (f + 8 * j)) →
  paged D (put_ram (ram_set (ram s) (f + 8 * j) v) s) P lv n.
Proof.
  intros G Hf Hj Hg. pose proof (pg_wf _ _ _ _ _ G) as W.
  split.
  - destruct (pg_repr _ _ _ _ _ G). by split.
  - apply G.
  - by apply pt_wf_leaf.
  - apply G.
  - apply G.
  - intros g Hgd. destruct (pg_direct _ _ _ _ _ G g Hgd) as [Hok [Hz Hw]].
    split; [done|]. split; [done|]. intros i Hi. apply (mapped_leaf _ _ lv); [done..| | |by apply Hw].
    + by apply direct_index.
    + by apply Hg.
  - apply G.
  - intros p Hp. destruct (pg_free _ _ _ _ _ G p Hp) as (Hb & ? & Hl & Hz & ?).
    split_and!; [apply Hb..|done|done| |done].
    intros i Hi. cbn. rewrite ram_set_ne; [by apply Hz|]. intros Heq.
    apply slot_inj in Heq as [E _]; [|apply Hb|apply (level_aligned _ _ _ W); lia|done|done].
    change (frame_of s p = f) in E. subst f. lia.
  - apply (pg_distinct _ _ _ _ _ G).
Qed.

Lemma frame_of_insert s p pg q f : store s !! p = Some pg →
  frame_of (put_store (<[p := with_data f pg]> (store s)) s) q = frame_of s q.
Proof.
  intros Hp. unfold frame_of. cbn [store put_store]. rewrite lookup_insert.
  case_decide; [|done]. subst. by rewrite Hp.
Qed.

Lemma paged_data s P lv n p v pg :
  paged D s P lv n → store s !! p = Some pg → p ≠ PML4 s →
  paged D (put_store (<[p:=with_data v pg]> (store s)) s) P lv n.
Proof.
  intros G Hp Hne. set (s' := put_store _ s).
  assert (Efr : ∀ q, frame_of s' q = frame_of s q) by (intros q; by apply frame_of_insert).
  destruct G as [R Hl Hw (Hr1 & Hr2 & Hr3) Ht Hd Hn Hf Hdist].
  split; cbn [ram cr3 PML4 store page_lock put_store s']; [|done|done| |done|done|done| |].
  - destruct R as [R1 R2 R3 R4 R5]. split; cbn; try done. intros q Hq.
    rewrite lookup_insert. case_decide; [by eauto|]. by apply R4.
  - split_and!; [done|done|]. by rewrite lookup_insert_ne.
  - intros q Hq. rewrite Efr. by apply Hf.
  - intros q q'. rewrite !Efr. apply Hdist.
Qed.

(** The two writes take nothing. *)
Lemma taken_leaf s P lv n f j v :
  paged D s P lv n → lv f = 1 → 0 <= j < 512 →
  taken s P lv [] (put_ram (ram_set (ram s) (f + 8 * j) v) s) P lv.
Proof.
  intros G Hf Hj. pose proof (pg_wf _ _ _ _ _ G) as W. split; try done.
  - by left.
  - intros g i Hg Hi Hl _. apply ram_set_ne. intros [-> _]%slot_inj; try done; [lia|].
    apply (level_aligned _ _ _ W). lia.
  - apply unshared_upper. intros g i Hg Hi. by apply (leaf_write_upper _ (cr3 s) lv).
  - intros va Hva Hs d. unfold small in Hs. cbn. rewrite (leaf_write_dir _ _ lv) by done. intros Hd.
    destruct (dir_levels _ _ _ W va Hva _ Hd) as (_ & L2 & _ & _ & E).
    assert (Er : ram_set (ram s) (f + 8 * j) v d = ram s d).
    { rewrite E. unfold slot2. apply (leaf_write_upper _ (cr3 s) lv); [done..|lia|auto with words]. }
    rewrite Er. by apply Hs.
Qed.

Lemma taken_data s P lv p v pg : store s !! p = Some pg →
  taken s P lv [] (put_store (<[p := with_data v pg]> (store s)) s) P lv.
Proof. intros Hp. apply taken_refl; [done..|]. intros q. by apply frame_of_insert. Qed.

Lemma paged_log s P lv n l : paged D s P lv n → paged D (put_klog l s) P lv n.
Proof. intros [R ? ? ? ? ? ? ? ?]. split; try done. by destruct R; split. Qed.

Lemma view_nonzero s lv k w f : view s lv k w f → nz w = true.
Proof. intros [[Hw _] _]. unfold nz. by rewrite (proj2 (Z.eqb_neq _ _) Hw). Qed.

(** ** The walk down to the page directory *)

(** After the first two levels: [pd] shows the directory in frame [f2]. *)
Definition at_directory (s : kstate) (lv : Z → Z) (addr pd : Z) (P' : pools) (s' : kstate)
    (lv' : Z → Z) (n : nat) (f2 : Z) : Prop :=
  paged D s' P' lv' n ∧ grown D s lv s' lv' ∧ view s' lv' 2 pd f2 ∧
  dir_slot (ram s') (cr3 s') addr = Some (f2 + 8 * PDE addr).

Lemma behind_dir n m s1 lv1 f3 t1 s2 P2 lv2 f2 t2 s0 P1 lv0 addr :
  view s0 lv0 4 pml4_window (cr3 s0) →
  behind D s0 4 (cr3 s0) (PML4E addr) t1 P1 lv0 s1 lv1 m f3 →
  behind D s1 3 f3 (PDPTE addr) t2 P2 lv1 s2 lv2 n f2 →
  at_directory s0 lv0 addr t2 P2 s2 lv2 n f2.
Proof.
  intros V (G1 & W1 & T1 & V1 & S1 & E1) (G2 & W2 & T2 & V2 & S2 & E2).
  split_and!; [done|by eapply grown_trans|done|].
  rewrite dir_slot_eq. cbv zeta.
  pose proof (steps_true _ S1) as [Pr1 _]. pose proof (gr_ram _ _ _ _ _ W2 _ Pr1) as Ex.
  rewrite (entry_addr_root _ _ _ (pg_wf _ _ _ _ _ G2)).
  rewrite (gr_cr3 _ _ _ _ _ W2), (gr_cr3 _ _ _ _ _ W1), Ex, S1, E1, S2, E2. done.
Qed.

Lemma guarded_at s lv s' lv' addr f j :
  grown D s lv s' lv' → PML4E addr ≠ MMU_RE → guarded D s addr →
  leaf_slot (ram s') (cr3 s') addr = Some (f + 8 * j) →
  ∀ g i, D g → 0 <= i < 512 →
    leaf_slot (ram s') (cr3 s') (u64 (P2V g + 8 * i)) ≠ Some (f + 8 * j).
Proof.
  intros W Hre Hg Hl g i Hd Hi. eapply (gr_guard _ _ _ _ _ W); [exact Hre|done..].
Qed.

(** What mapping one small page does. *)
Record page_mapped (s : kstate) (frame addr fl : Z) (fp : page) (s' : kstate) (a : Z) : Prop := {
  pm_root : cr3 s' = cr3 s ∧ PML4 s' = PML4 s;
  pm_slot : leaf_slot (ram s') (cr3 s') addr = Some a;
  pm_entry : ram s' a = Z.lor (address fp) (u64 fl);
  pm_data : ∃ flg, store s' !! frame = Some (with_data addr (with_flags flg fp));
  pm_kept : ∀ va pa, PML4E va ≠ MMU_RE → mapped (ram s) (cr3 s) va pa →
    leaf_slot (ram s') (cr3 s') va ≠ Some a → mapped (ram s') (cr3 s') va pa;
}.

Lemma returns_map_in_directory n s0 P0 lv0 s P lv frame addr fl fp pd f2 :
  at_directory s0 lv0 addr pd P s lv (S n) f2 → taken s0 P0 lv0 [] s P lv → PML4E addr ≠ MMU_RE → guarded D s0 addr →
  frame ≠ 0 → frame ≠ PML4 s0 → store s0 !! frame = Some fp →
  (present (ram s (f2 + 8 * PDE addr)) = true → large (ram s (f2 + 8 * PDE addr)) = false) →
  returns (map_in_directory pd frame addr fl) s (λ _ s', ∃ P' lv' a,
    paged D s' P' lv' n ∧ page_mapped s0 frame addr fl fp s' a ∧ taken s0 P0 lv0 [] s' P' lv').
Proof.
  intros (G2 & W2 & V2 & Hd2) T2 Hre Hgd Hf Hfne Hfp Hsmall. unfold map_in_directory. k_step.
  ret_use (returns_next_table D _ _ _ _ _ _ _ _ n); [exact G2|exact V2|lia|auto with words|lia|auto|].
  intros pt s3 (P3 & lv3 & f1 & (G3 & W3 & Et & V3 & S3 & E3) & T3). change (2 - 1) with 1 in V3.
  pose proof (grown_trans _ _ _ _ _ _ _ W2 W3) as W03.
  k_step. apply returns_assert; [by eapply view_nonzero|]. k_step.
  destruct (gr_store _ _ _ _ _ W03 _ _ Hfp) as [flg Hfp3].
  eapply returns_load_page; [done|exact Hfp3|]. cbn [address with_flags].
  k_step. eapply returns_write_window; [apply V3|auto with words|].
  eapply returns_store_page; [done|exact Hfp3|].
  assert (Hslot : leaf_slot (ram s3) (cr3 s3) addr = Some (f1 + 8 * PTE addr)).
  { rewrite leaf_slot_eq. rewrite (gr_cr3 _ _ _ _ _ W3).
    rewrite (dir_slot_extends _ _ _ _ _ (gr_ram _ _ _ _ _ W3) Hd2). by rewrite S3, E3. }
  pose proof (pg_wf _ _ _ _ _ G3) as Wf3. destruct V3 as [_ L1].
  exists P3, lv3, (f1 + 8 * PTE addr). split_and!.
  - apply (paged_data (put_ram _ s3)); [|done|].
    + apply paged_leaf; [done..|auto with words|]. by eapply guarded_at.
    + cbn. by rewrite (gr_PML4 _ _ _ _ _ W03).
  - split; cbn [ram cr3 PML4 store put_store put_ram].
    + split; apply W03.
    + rewrite (leaf_write_leaf _ _ lv3) by (done || auto with words). done.
    + apply ram_set_eq.
    + exists flg. by rewrite lookup_insert_eq.
    + intros va pa Hva Hm Hne. rewrite (leaf_write_leaf _ _ lv3) in Hne by (done || auto with words).
      apply (mapped_leaf _ _ lv3); [done|done|auto with words|done|done|].
      rewrite (gr_cr3 _ _ _ _ _ W03). eapply mapped_extends; [apply W03|done].
  - eapply (taken_trans _ _ _ [] _ _ _ []); [exact T2|].
    eapply (taken_trans _ _ _ [] _ _ _ []); [exact T3|].
    eapply (taken_trans _ _ _ [] _ _ _ []); [|by apply (taken_data (put_ram _ s3))].
    eapply taken_leaf; eauto with words.
Qed.

(** The whole of [mmu_map_page] up to the decision at the page directory. *)
Lemma returns_mmu_map_page n s P lv frame fp addr fl (Q : () → kstate → Prop) :
  paged D s P lv (3 + n) → PML4E addr ≠ MMU_RE →
  frame ≠ 0 → store s !! frame = Some fp →
  (∀ pd P' s' lv' f2, at_directory s lv addr pd P' s' lv' (S n) f2 →
     taken s P lv [] s' P' lv' →
     let e := ram s' (f2 + 8 * PDE addr) in
     returns (if present e && large e then store_page frame (with_data 0)
              else map_in_directory pd frame addr fl) s' Q) →
  returns (mmu_map_page frame addr fl) s Q.
Proof.
  intros G Hre Hf Hfp HQ. unfold mmu_map_page.
  destruct (pg_root _ _ _ _ _ G) as (Hr1 & _ & rp & Hrp & Hdata).
  do 2 k_step. k_step. eapply returns_load_page; [done|exact Hrp|]. rewrite Hdata.
  k_step. apply returns_assert; [unfold nz; by rewrite (proj2 (Z.eqb_neq _ _) Hf)|].
  k_step. apply returns_assert; [by vm_compute|].
  k_step. eapply returns_load_page; [done|exact Hfp|]. do 2 k_step.
  set (s0 := put_klog _ s).
  assert (G0 : paged D s0 P lv (3 + n)) by by apply paged_log.
  assert (W0 : grown D s lv s0 lv) by by apply grown_refl.
  pose proof (view_root _ _ _ _ _ G0) as V0.
  k_step. ret_use (returns_next_table D _ _ _ _ _ _ _ _ (2 + n));
    [exact G0|exact V0|lia|auto with words|done|lia|].
  intros t1 s1 (P1 & lv1 & f3 & B1 & T1'). pose proof B1 as (G1 & W1 & T1 & V1 & _).
  change (4 - 1) with 3 in V1.
  k_step. apply returns_assert; [by eapply view_nonzero|].
  k_step. ret_use (returns_next_table D _ _ _ _ _ _ _ _ (1 + n));
    [exact G1|exact V1|lia|auto with words|lia|lia|].
  intros t2 s2 (P2 & lv2 & f2 & B2 & T2'). pose proof B2 as (_ & _ & _ & V2 & _).
  change (3 - 1) with 2 in V2.
  k_step. apply returns_assert; [by eapply view_nonzero|].
  k_step. eapply returns_read_window; [apply V2|auto with words|].
  destruct (behind_dir _ _ _ _ _ _ _ _ _ _ _ _ _ _ _ V0 B1 B2) as (G2 & W2 & V2' & Hd2).
  apply (HQ _ P2 _ lv2 _). { split_and!; [done|by eapply grown_trans|done|done]. }
  eapply (taken_trans _ _ _ [] s0 P lv []); [by apply taken_refl|]. by eapply (taken_trans _ _ _ [] _ _ _ []).
Qed.

Lemma returns_map_small n s P lv frame fp addr fl :
  paged D s P lv (3 + n) → PML4E addr ≠ MMU_RE → guarded D s addr → small s addr →
  frame ≠ 0 → frame ≠ PML4 s → store s !! frame = Some fp →
  returns (mmu_map_page frame addr fl) s (λ _ s', ∃ P' lv' a,
    paged D s' P' lv' n ∧ page_mapped s frame addr fl fp s' a ∧ taken s P lv [] s' P' lv').
Proof.
  intros G Hre Hgd Hsm Hf Hfne Hfp. eapply (returns_mmu_map_page n); [done..|].
  intros pd P' s' lv' f2 A T. cbv zeta. pose proof A as (_ & W & _ & Hd).
  assert (Hs : present (ram s' (f2 + 8 * PDE addr)) = true →
               large (ram s' (f2 + 8 * PDE addr)) = false).
  { intros Hp. apply not_true_is_false. intros Hl.
    destruct (gr_large _ _ _ _ _ W addr _ Hd Hp Hl) as [Hd0 E].
    rewrite E in *. specialize (Hsm _ Hd0 Hp). congruence. }
  assert (Hc : present (ram s' (f2 + 8 * PDE addr)) && large (ram s' (f2 + 8 * PDE addr)) = false).
  { destruct (present _); [by rewrite Hs|done]. }
  rewrite Hc. by eapply returns_map_in_directory.
Qed.

Lemma page_mapped_mapped s frame addr fl fp s' a o :
  page_mapped s frame addr fl fp s' a →
  canonical addr = true → addr mod 4096 = 0 → 0 <= o < 4096 →
  address fp mod 4096 = 0 → 0 <= address fp < 2 ^ 52 → 0 <= fl < 4096 → present fl = true →
  mapped (ram s') (cr3 s') (addr + o) (address fp + o).
Proof.
  intros PM Hc Ha Ho Hfa Hfb Hfl Hp. split; [by apply offset_canonical|right]. exists a.
  rewrite (pm_entry _ _ _ _ _ _ _ PM), wrap_small by lia.
  rewrite leaf_slot_offset, present_or, entry_addr_or by done.
  split_and!; [apply PM|done|]. f_equal. dlia.
Qed.

Lemma page_mapped_translate s frame addr fl fp s' a o :
  page_mapped s frame addr fl fp s' a →
  canonical addr = true → addr mod 4096 = 0 → 0 <= o < 4096 →
  address fp mod 4096 = 0 → 0 <= address fp < 2 ^ 52 → 0 <= fl < 4096 → present fl = true →
  translate (ram s') (cr3 s') (addr + o) = Some (address fp + o).
Proof. intros. by eapply mapped_translate, page_mapped_mapped. Qed.

(** C2: [mmu_map_page frame address flags] terminates, allocating at most
    three page tables, and maps the page: the last-level entry of [address]
    holds the frame's address and the flags, every byte of the page
    translates to the frame, and [frame->data] is [address]; every other
    translation that does not go through that entry is kept, and so is the
    invariant of the memory manager. *)
Theorem mmu_map_page_maps n s P lv frame fp addr fl :
  paged D s P lv (3 + n) → PML4E addr ≠ MMU_RE → guarded D s addr → small s addr →
  frame ≠ 0 → frame ≠ PML4 s → store s !! frame = Some fp →
  canonical addr = true → addr mod 4096 = 0 →
  address fp mod 4096 = 0 → 0 <= address fp < 2 ^ 52 → 0 <= fl < 4096 → present fl = true →
  returns (mmu_map_page frame addr fl) s (λ _ s', ∃ P' lv' a,
    paged D s' P' lv' n ∧ page_mapped s frame addr fl fp s' a ∧
    ∀ o, 0 <= o < 4096 → translate (ram s') (cr3 s') (addr + o) = Some (address fp + o)).
Proof.
  intros G Hre Hgd Hsm Hf Hfne Hfp Hc Ha Hfa Hfb Hfl Hp.
  ret_use (returns_map_small n); [exact G|done..|]. intros _ s' (P' & lv' & a & G' & PM & _).
  exists P', lv', a. split_and!; [done..|]. intros o Ho. by eapply page_mapped_translate.
Qed.

Lemma returns_map_large n s P lv frame fp addr fl d :
  paged D s P lv (3 + n) → PML4E addr ≠ MMU_RE →
  frame ≠ 0 → frame ≠ PML4 s → store s !! frame = Some fp →
  dir_slot (ram s) (cr3 s) addr = Some d → present (ram s d) = true → large (ram s d) = true →
  returns (mmu_map_page frame addr fl) s (λ _ s', ∃ P' lv',
    paged D s' P' lv' n ∧ free_pool P' ⊆ free_pool P ∧
    (data <$> store s' !! frame) = Some 0 ∧
    ∀ va pa, mapped (ram s) (cr3 s) va pa → mapped (ram s') (cr3 s') va pa).
Proof.
  intros G Hre Hf Hfne Hfp Hd Hp Hl. eapply (returns_mmu_map_page n); [done..|].
  intros pd P' s' lv' f2 (G2 & W2 & V2 & Hd2) T. pose proof (tk_free _ _ _ _ _ _ _ T) as Hsub. cbv zeta.
  pose proof (gr_ram _ _ _ _ _ W2) as He.
  assert (Es : d = f2 + 8 * PDE addr).
  { apply (dir_slot_extends _ _ _ _ _ He) in Hd. rewrite (gr_cr3 _ _ _ _ _ W2) in Hd2. congruence. }
  rewrite <- Es, (He _ Hp), Hp, Hl. cbn [andb].
  destruct (gr_store _ _ _ _ _ W2 _ _ Hfp) as [flg Hfp2].
  eapply returns_store_page; [done|exact Hfp2|]. exists P', lv'. split_and!.
  - apply paged_data; [eapply paged_le; [|exact G2]; lia|done|]. by rewrite (gr_PML4 _ _ _ _ _ W2).
  - done.
  - cbn [store put_store]. by rewrite lookup_insert_eq.
  - intros va pa Hm. cbn [ram cr3 put_store]. rewrite (gr_cr3 _ _ _ _ _ W2).
    by eapply mapped_extends.
Qed.

(** When a two-megabyte page already covers the address,
    [mmu_map_page] refuses: it sets [frame->data] to NULL and keeps every
    translation. *)
Theorem mmu_map_page_large n s P lv frame fp addr fl d :
  paged D s P lv (3 + n) → PML4E addr ≠ MMU_RE →
  frame ≠ 0 → frame ≠ PML4 s → store s !! frame = Some fp →
  dir_slot (ram s) (cr3 s) addr = Some d → present (ram s d) = true → large (ram s d) = true →
  returns (mmu_map_page frame addr fl) s (λ _ s', ∃ P' lv',
    paged D s' P' lv' n ∧ free_pool P' ⊆ free_pool P ∧
    (data <$> store s' !! frame) = Some 0 ∧
    ∀ va pa, mapped (ram s) (cr3 s) va pa → mapped (ram s') (cr3 s') va pa).
Proof. apply returns_map_large. Qed.

(** ** mmu_req_page *)

Lemma ROUND_DOWN_fields va : 0 <= va < 2 ^ 64 → canonical va = true →
  let pg := ROUND_DOWN va PAGE_SIZE in
  va = pg + va mod 4096 ∧ pg mod 4096 = 0 ∧ canonical pg = true.
Proof.
  intros Hb Hc. rewrite ROUND_DOWN_page by lia. cbv zeta. split_and!; [dlia|dlia|].
  revert Hc. unfold canonical. rewrite !orb_true_iff, !andb_true_iff, !Z.leb_le, !Z.ltb_lt.
  intros [?|?]; [left; dlia|right; dlia].
Qed.

(** [mmu_req_page] takes the first free page and maps it. *)
Lemma returns_mmu_req_page n s P lv p P' va fl :
  let pg := ROUND_DOWN va PAGE_SIZE in
  paged D s P lv (4 + n) → PML4E pg ≠ MMU_RE → guarded D s pg → small s pg →
  spec_alloc P = Some (p, P') →
  returns (mmu_req_page va fl) s (λ q s', ∃ fp P'' lv' a,
    q = p ∧ frame_of s p = address fp ∧ frame_ok (address fp) ∧ page_mapped s p pg fl fp s' a ∧
    paged D s' P'' lv' n ∧ taken s P lv [] s' P'' lv' ∧
    p ≠ 0 ∧ p ∈ free_pool P ∧ (p ∉ free_pool P'') ∧ lv' (address fp) = 0).
Proof.
  intros pg G Hre Hgd Hsm Ha. unfold mmu_req_page. k_step.
  ret_use returns_page_alloc; [apply G|apply G|].
  intros q s1. rewrite Ha. intros (-> & Hqz & R1 & Hl1 & Hsr & _).
  destruct (paged_alloc _ _ _ _ _ _ _ _ G Ha R1 Hl1 Hsr) as (G1 & W1 & Hin & Hout & Hbl & Hdist).
  destruct Hsr as (Est & _ & _ & Er & Ec & Em).
  assert (Hsome : is_Some (store s1 !! p)).
  { rewrite Est. apply (pg_repr _ _ _ _ _ G). apply (rep_pages _ _ _ _ (repr_rep _ _ (pg_repr _ _ _ _ _ G))).
    set_solver. }
  destruct Hsome as [fp Hfp].
  assert (Efr : ∀ q, frame_of s1 q = frame_of s q) by (intros; unfold frame_of; by rewrite Est).
  assert (Efp : frame_of s1 p = address fp) by (unfold frame_of; by rewrite Hfp).
  assert (Hsub : free_pool P' ⊆ free_pool P) by (destruct P as [[|? ?] ? ?]; [done|]; injection Ha as <- <-; set_solver).
  fold pg. k_step.
  ret_use (returns_map_small n); [exact G1|done|by apply W1| |done| |exact Hfp|].
  { intros d. rewrite Er, Ec. apply Hsm. }
  { rewrite Em. intros ->. by apply (pg_root _ _ _ _ _ G) in Hin. }
  intros _ s2 (P2 & lv2 & a & G2 & PM & T).
  destruct (pm_data _ _ _ _ _ _ _ PM) as [flg Hfp2].
  k_step. eapply returns_load_page; [done|exact Hfp2|]. cbn [data with_data].
  rewrite Z.eqb_refl. apply returns_ret. exists fp, P2, lv2, a. rewrite <- Efr, Efp in *.
  split_and!; [done|done|apply Hbl| |done| |done|done| |].
  - destruct PM as [[? ?] ? ? ? Hk]. split; [|done..|]; rewrite <- ?Er, <- ?Ec, <- ?Em; done.
  - eapply (taken_trans _ _ _ [] s1 P' lv []); [|exact T].
    split; [done|done|done|by left|by rewrite Er|by rewrite Er, Ec|].
    intros v _. unfold small. by rewrite Er, Ec.
  - intros Hp. by apply Hout, (tk_free _ _ _ _ _ _ _ T).
  - destruct (tk_lv _ _ _ _ _ _ _ T (address fp)) as [->|(_ & p2 & Hp2 & _ & E)]; [apply Hbl|].
    exfalso. apply (Hdist p2 Hp2). congruence.
Qed.

(** C21: [mmu_req_page address flags] takes the first free page, maps the
    page of [address] to it and returns it; the address then translates to
    the frame of that page at the same offset, and [mmu_virt_to_phys] finds
    the frame and the flags. *)
Theorem mmu_req_page_maps n s P lv p P' va fl :
  let pg := ROUND_DOWN va PAGE_SIZE in
  paged D s P lv (4 + n) → PML4E pg ≠ MMU_RE → guarded D s pg → small s pg →
  spec_alloc P = Some (p, P') →
  0 <= va < 2 ^ 64 → canonical va = true → 0 <= fl < 4096 → present fl = true →
  returns (mmu_req_page va fl) s (λ q s', ∃ P'' lv',
    q = p ∧ paged D s' P'' lv' n ∧ (data <$> store s' !! p) = Some pg ∧
    translate (ram s') (cr3 s') va = Some (frame_of s p + va mod 4096) ∧
    returns (mmu_virt_to_phys va) s' (λ ve _, ve = (Z.lor (frame_of s p) fl, 0))).
Proof.
  intros pg G Hre Hgd Hsm Ha Hb Hc Hfl Hp.
  destruct (ROUND_DOWN_fields va Hb Hc) as (Eva & Hpa & Hpc). fold pg in Eva, Hpa, Hpc.
  ret_use (returns_mmu_req_page n); [exact G|done..|]. fold pg.
  intros q s2 (fp & P2 & lv2 & a & -> & Efr & [Hfa Hfb] & PM & G2 & _).
  pose proof (page_mapped_translate _ _ _ _ _ _ _ (va mod 4096) PM Hpc Hpa) as Htr.
  destruct (pm_data _ _ _ _ _ _ _ PM) as [flg Hfp2].
  exists P2, lv2. rewrite Efr. split_and!; [done|done| | |].
  - by rewrite Hfp2.
  - rewrite Eva at 1. apply Htr; done || dlia.
  - ret_use returns_mmu_virt_to_phys; [apply G2| |].
    + rewrite Eva. rewrite offset_PML4E; [done|done|dlia].
    + intros ve s3 [-> ->]. rewrite Eva. unfold walk_entry.
      rewrite offset_PML4E, offset_PDPTE, offset_PDE, offset_PTE by (done || dlia).
      fold (walk_entry (ram s2) (cr3 s2) pg).
      rewrite (walk_entry_leaf _ _ lv2 _ a); [|apply G2|done|apply PM].
      by rewrite (pm_entry _ _ _ _ _ _ _ PM), (wrap_small 64 fl) by lia.
Qed.

(** [mmu_req_page] does not check that [page_alloc] found a page: with
    an empty free list it goes on to map the NULL page, which
    [mmu_map_page] dereferences. *)
Theorem mmu_req_page_out_of_memory n s P lv va fl :
  paged D s P lv n → spec_alloc P = None → faults (mmu_req_page va fl) s NullDeref.
Proof.
  intros G Ha. unfold mmu_req_page. apply faults_bind_r.
  ret_use returns_page_alloc; [apply G|apply G|]. rewrite Ha. intros p s1 [-> ->].
  apply faults_bind_l. unfold mmu_map_page.
  destruct (pg_root _ _ _ _ _ G) as (Hr1 & _ & rp & Hrp & Hdata).
  apply faults_bind_r, returns_gets, faults_bind_r.
  eapply returns_load_page; [done|exact Hrp|]. rewrite Hdata.
  apply faults_bind_r. apply returns_modify.
  apply faults_bind_r. apply returns_assert; [by vm_compute|].
  apply faults_bind_l. eexists. reflexivity.
Qed.

(** [mmu_req_page] on an address covered by a two-megabyte page returns
    NULL and loses the page it allocated: the page stays out of the free
    list. *)
Theorem mmu_req_page_leaks n s P lv p P' va fl d :
  let pg := ROUND_DOWN va PAGE_SIZE in
  paged D s P lv (4 + n) → PML4E pg ≠ MMU_RE → pg ≠ 0 →
  spec_alloc P = Some (p, P') →
  dir_slot (ram s) (cr3 s) pg = Some d → present (ram s d) = true → large (ram s d) = true →
  returns (mmu_req_page va fl) s (λ q s', ∃ P'' lv',
    q = 0 ∧ paged D s' P'' lv' n ∧ (p ∉ free_pool P'') ∧ (data <$> store s' !! p) = Some 0).
Proof.
  intros pg G Hre Hz Ha Hd Hp Hl.
  unfold mmu_req_page. k_step. ret_use returns_page_alloc; [apply G|apply G|].
  intros q s1. rewrite Ha. intros (-> & Hqz & R1 & Hl1 & Hsr & _).
  destruct (paged_alloc _ _ _ _ _ _ _ _ G Ha R1 Hl1 Hsr) as (G1 & W1 & Hin & Hout & Hbl & _).
  destruct Hsr as (Est & _ & _ & Er & Ec & Em).
  assert (Hsome : is_Some (store s1 !! p)).
  { rewrite Est. apply (pg_repr _ _ _ _ _ G). apply (rep_pages _ _ _ _ (repr_rep _ _ (pg_repr _ _ _ _ _ G))).
    set_solver. }
  destruct Hsome as [fp Hfp].
  fold pg. k_step. ret_use returns_map_large; [exact G1|done|done| |exact Hfp|by rewrite Er, Ec|by rewrite Er|by rewrite Er|].
  { rewrite Em. intros ->. by apply (pg_root _ _ _ _ _ G) in Hin. }
  intros _ s2 (P2 & lv2 & G2 & Hsub & Hdata & _).
  destruct (store s2 !! p) as [fp2|] eqn:E2; [|done]. injection Hdata as Hdata.
  k_step. eapply returns_load_page; [done|exact E2|]. rewrite Hdata.
  rewrite (proj2 (Z.eqb_neq 0 _)) by done. apply returns_ret.
  exists P2, lv2. rewrite E2. cbn. rewrite Hdata. split_and!; [done|done|set_solver|done].
Qed.
End map.
