(* ===== verification/MmuBoot.v ===== *)
(** The tables that [mmu_bootstrap] leaves: the direct map of low memory at
    [KERNEL_VIRT], the recursive slot, and the invariant of [PagingWf]. *)

From S2P Require Import Prelude Kernel KList State Paging Frame FrameSpec FrameRefine FrameMark.
From S2P Require Import PagingWf Mmu MmuWalk MmuSpec.

Open Scope Z_scope.

(** The frames of the bootstrap and their levels. *)
Definition boot_level (pml4 pdpt pd : Z) : Z → Z := λ f,
  if f =? pml4 then 4 else if f =? pdpt then 3 else if f =? pd then 2 else 0.

Section tables.
Context (r : Z → Z) (pml4 pdpt pd physical n : Z).
Hypotheses (F4 : frame_ok pml4) (F3 : frame_ok pdpt) (F2 : frame_ok pd).
Hypothesis Hnd : NoDup [0; pml4; pdpt; pd].
Hypothesis Hn : 0 <= n <= 512.
Hypothesis Ht : boot_tables r pml4 pdpt pd n.
Hypothesis Hp : r (pdpt + 8 * PDPTE physical) = table_entry pd.
(** Every other entry is absent. *)
Hypothesis Hrest : ∀ f i, f ∈ [pml4; pdpt; pd] → 0 <= i < 512 →
  ¬ boot_slot pml4 pdpt pd physical n (f + 8 * i) → present (r (f + 8 * i)) = false.

Lemma boot_distinct :
  pml4 ≠ 0 ∧ pdpt ≠ 0 ∧ pd ≠ 0 ∧ pml4 ≠ pdpt ∧ pml4 ≠ pd ∧ pdpt ≠ pd.
Proof.
  apply NoDup_cons in Hnd as [N0 Hnd1]. apply NoDup_cons in Hnd1 as [N1 Hnd2].
  apply NoDup_cons in Hnd2 as [N2 _]. set_solver.
Qed.

Lemma boot_level_pml4 : boot_level pml4 pdpt pd pml4 = 4.
Proof. unfold boot_level. by rewrite Z.eqb_refl. Qed.
Lemma boot_level_pdpt : boot_level pml4 pdpt pd pdpt = 3.
Proof.
  destruct boot_distinct as (_ & _ & _ & ? & _). unfold boot_level.
  by rewrite (proj2 (Z.eqb_neq _ _)), Z.eqb_refl.
Qed.
Lemma boot_level_pd : boot_level pml4 pdpt pd pd = 2.
Proof.
  destruct boot_distinct as (_ & _ & _ & ? & ? & ?). unfold boot_level.
  rewrite !(proj2 (Z.eqb_neq pd _)) by congruence. by rewrite Z.eqb_refl.
Qed.
Lemma boot_level_inv f : boot_level pml4 pdpt pd f ≠ 0 →
  (f = pml4 ∧ boot_level pml4 pdpt pd f = 4) ∨ (f = pdpt ∧ boot_level pml4 pdpt pd f = 3) ∨
  (f = pd ∧ boot_level pml4 pdpt pd f = 2).
Proof.
  unfold boot_level. destruct (Z.eqb_spec f pml4), (Z.eqb_spec f pdpt), (Z.eqb_spec f pd); auto.
  done.
Qed.

(** A present entry is one of those the bootstrap wrote. *)
Lemma boot_present f i : f ∈ [pml4; pdpt; pd] → 0 <= i < 512 → present (r (f + 8 * i)) = true →
  (f = pml4 ∧ (i = 511 ∨ i = MMU_RE)) ∨ (f = pdpt ∧ (i = PDPTE physical ∨ i = 510)) ∨
  (f = pd ∧ 0 <= i < n).
Proof.
  intros Hf Hi Hpr. pose proof RE_bounds. pose proof (PDPTE_bounds physical).
  assert (Hfa : f mod 4096 = 0).
  { rewrite !elem_of_cons, elem_of_nil in Hf. destruct F4, F3, F2.
    destruct Hf as [->|[->|[->|[]]]]; done. }
  destruct F4, F3, F2.
  assert (Hs : boot_slot pml4 pdpt pd physical n (f + 8 * i) ∨ ¬ boot_slot pml4 pdpt pd physical n (f + 8 * i)).
  { unfold boot_slot.
    destruct (decide (f = pd ∧ 0 <= i < n)) as [[-> ?]|Hpd]; [left; eauto 10|].
    destruct (Z.eq_dec (f + 8 * i) (pml4 + 8 * 511)); [tauto|].
    destruct (Z.eq_dec (f + 8 * i) (pml4 + 8 * MMU_RE)); [tauto|].
    destruct (Z.eq_dec (f + 8 * i) (pdpt + 8 * PDPTE physical)); [tauto|].
    destruct (Z.eq_dec (f + 8 * i) (pdpt + 8 * 510)); [tauto|].
    right. intros [?|[?|[?|[?|(k & ? & E)]]]]; [done..|].
    apply slot_inj in E as [-> ->]; [by apply Hpd|done|done|done|lia]. }
  destruct Hs as [[E|[E|[E|[E|(k & ? & E)]]]]|Hs]; [..|by rewrite Hrest in Hpr];
    apply slot_inj in E as [-> ->]; try done; try lia; auto 10.
Qed.

Lemma boot_wf : pt_wf r pml4 (boot_level pml4 pdpt pd).
Proof.
  destruct boot_distinct as (? & ? & ? & ? & ? & ?).
  destruct Ht as (T4 & TR & T3 & T2). pose proof F4 as [A4 B4]. pose proof F3 as [A3 B3].
  pose proof F2 as [A2 B2]. split.
  - intros f. split; [|intros ->; apply boot_level_pml4].
    intros Hf. destruct (boot_level_inv f) as [[? ?]|[[? ?]|[? ?]]]; [lia|done|lia..].
  - intros f Hf. destruct (boot_level_inv f Hf) as [[-> ->]|[[-> ->]|[-> ->]]]; split_and!; done || lia.
  - rewrite TR. split; [by apply table_entry_step|]. by apply table_entry_addr; [|lia].
  - intros f i Hf Hi Hre Hpr. destruct (boot_level_inv f) as [[-> L]|[[-> L]|[-> L]]]; [lia|..];
      (apply boot_present in Hpr; [|set_solver|done]); rewrite L in *.
    + right. assert (i = 511) as -> by naive_solver. rewrite T4.
      rewrite table_entry_addr, table_entry_round, boot_level_pdpt by (done || lia).
      pose proof (steps_true _ (table_entry_step _ A3)) as [_ ?]. done.
    + right. assert (Hi' : i = PDPTE physical ∨ i = 510) by naive_solver.
      assert (E : r (pdpt + 8 * i) = table_entry pd) by (destruct Hi' as [-> | ->]; done). rewrite E.
      rewrite table_entry_addr, table_entry_round, boot_level_pd by (done || lia).
      pose proof (steps_true _ (table_entry_step _ A2)) as [_ ?]. done.
    + left. split; [done|]. assert (Hi' : 0 <= i < n) by naive_solver.
      rewrite T2 by done. fold (big_entry i). by apply big_entry_spec.
Qed.

Lemma boot_mapped a : 0 <= a < n * 2 ^ 21 → mapped r pml4 (P2V a) a.
Proof.
  intros Ha. destruct (P2V_indices a) as (Hc & I4 & I3 & I2 & Ho); [lia|].
  destruct Ht as (H4 & _ & H3 & H2). destruct F4 as [A4 B4], F3 as [A3 B3], F2 as [A2 B2].
  split; [done|]. left. set (k := a / 2 ^ 21) in *. assert (Hk : 0 <= k < n) by dlia.
  destruct (big_entry_spec k) as (Hpk & Hl & Haddr); [lia|].
  specialize (H2 k Hk). change (Z.lor (k * 0x200000) _) with (big_entry k) in H2.
  exists (pd + 8 * k). rewrite H2, Haddr, Ho. split_and!; [|done|done|subst k; dlia].
  unfold dir_slot. rewrite (entry_addr_id pml4), I4, H4, table_entry_step by (done || lia).
  rewrite table_entry_addr, I3, H3, table_entry_step by (done || lia).
  by rewrite table_entry_addr, I2 by (done || lia).
Qed.

Lemma boot_window f : frame_ok f → f + 4096 <= n * 2 ^ 21 → window r pml4 (P2V f) f.
Proof.
  intros [Hfa Hfb] Hf. split.
  - rewrite P2V_add by lia. unfold KERNEL_VIRT. lia.
  - intros i Hi. replace (u64 (P2V f + 8 * i)) with (P2V (f + 8 * i)); [apply boot_mapped; lia|].
    rewrite !P2V_add by lia. rewrite wrap_small; unfold KERNEL_VIRT; lia.
Qed.
End tables.

Section boot.
Context `{MMU}.

(** [mmu_bootstrap], given three distinct frames that are reachable at
    their physical addresses, loads a root under which every address below
    the size asked for is mapped at its [P2V] address, and the root itself
    at the recursive window. When the three frames were clear, the tables
    are well formed. *)
Theorem mmu_bootstrap_direct_map s physical pml4 pdpt pd :
  identity_mapped (ram s) (cr3 s) [pml4; pdpt; pd] →
  frame_ok pml4 → frame_ok pdpt → frame_ok pd → NoDup [0; pml4; pdpt; pd] →
  0 <= physical <= 2 ^ 30 →
  returns (mmu_bootstrap physical pml4 pdpt pd) s (λ _ s',
    cr3 s' = pml4 ∧
    (∀ a, 0 <= a < physical → translate (ram s') (cr3 s') (P2V a) = Some a) ∧
    ((∀ f i, f ∈ [pml4; pdpt; pd] → 0 <= i < 512 → present (ram s (f + 8 * i)) = false) →
     pt_wf (ram s') (cr3 s') (boot_level pml4 pdpt pd) ∧
     ∀ i, 0 <= i < 512 →
       translate (ram s') (cr3 s') (pml4_window + 8 * i) = Some (pml4 + 8 * i))).
Proof.
  intros Hid F4 F3 F2 Hnd Hp. ret_use returns_mmu_bootstrap; [done..|].
  intros _ s' (Hc & Ht & [Hr3 Hrest] & _ & _). rewrite Hc.
  set (n := Z.of_nat (bootstrap_rounds physical)) in *.
  assert (Hn : 0 <= n <= 512 ∧ physical <= n * 2 ^ 21) by (unfold n, bootstrap_rounds; dlia).
  split; [done|]. split.
  - intros a Ha. eapply mapped_translate, boot_mapped; [exact F4|exact F3|exact F2|..|exact Ht|];
      [|lia]. lia.
  - intros Hclear. assert (W : pt_wf (ram s') pml4 (boot_level pml4 pdpt pd)).
    { eapply (boot_wf _ _ _ _ physical n); [done..|lia|done|done|].
      intros f i Hf Hi Hs. rewrite Hrest by done. by apply Hclear. }
    split; [done|]. intros i Hi. apply mapped_translate.
    rewrite <- Hc in W at 1. pose proof (window4 (put_cr3 pml4 s')) as Hw.
    destruct (Hw _ ltac:(rewrite Hc in W; exact W)) as [_ Hm]. specialize (Hm i Hi).
    unfold pml4_window in *. rewrite mmu_recursive_u64 in Hm; [exact Hm|apply RE_bounds..|lia].
Qed.
End boot.
