(* ===== verification/MmuInit.v ===== *)
(** [mmu_init] of [src/mmu.c]: it takes the root table out of the page lists,
    gives it the recursive slot, and establishes the invariant under which
    [mmu_map_page] and its callers are proved. *)

From S2P Require Import Prelude Kernel KList State Paging Frame FrameSpec FrameRefine FrameMark.
From S2P Require Import FrameEdge PagingWf PagingTree Mmu MmuWalk MmuSpec.

Open Scope Z_scope.

Section init.
Context `{MMU, Layout}.
Context (D : Z → Prop).

(** The [struct page] of the root table, and the tables with the entry that
    [mmu_init] writes. *)
Definition root_page (s : kstate) : Z := page_at (parray s) (cr3 s / 4096).
Definition recursive_slot (s : kstate) : Z := cr3 s + 8 * MMU_RE.
Definition with_recursion (s : kstate) : Z → Z :=
  ram_set (ram s) (recursive_slot s) (table_entry (cr3 s)).

Definition root_flags : Z := Z.lor P_USED (Z.lor P_IMMUTABLE (Z.lor P_KERNEL P_VIRT)).

(** The pools without [p]. *)
Definition spec_unlink (p : Z) (P : pools) : pools :=
  Pools (remove_page p (free_pool P)) (remove_page p (used_pool P)) (remove_page p (lru_pool P)).

Lemma spec_unlink_wf p P : pools_wf P → pools_wf (spec_unlink p P).
Proof.
  intros (HF & HU & HL & HFU & HLU). unfold pools_wf. cbn.
  split; [auto with heap|]. split; [auto with heap|]. split; [auto with heap|]. split.
  - intros q. rewrite !elem_of_remove_page. intros [_ Hq] [_ Hu]. by eapply HFU.
  - intros q. rewrite !elem_of_remove_page, HLU. done.
Qed.

Lemma take_remove_page (n : nat) p l : (n <= length l)%nat → p ∉ take n l →
  take n (remove_page p l) = take n l ∧ (n <= length (remove_page p l))%nat.
Proof.
  intros Hn Hp. assert (Hl : length (take n l) = n) by (rewrite length_take; lia).
  assert (E : remove_page p l = take n l ++ remove_page p (drop n l)).
  { rewrite <- (take_drop n l) at 1. unfold remove_page. rewrite filter_app. f_equal.
    fold (remove_page p (take n l)). by apply remove_page_notin. }
  rewrite E, length_app, Hl. split; [|lia]. by rewrite take_app_length'.
Qed.

(** What [mmu_init] finds, with [n] pages that can become page tables: an
    allocator in which the root's page is anywhere but among those, and page
    tables that lack at most the recursive slot and reach the frames [D] at their [P2V]
    addresses. *)
Record startable (s : kstate) (P : pools) (lv : Z → Z) (n : nat) : Prop := {
  st_repr : repr s P;
  st_unlocked : page_lock s = false;
  st_fits : parray s + sizeof_page * numpages s < 2 ^ 64 ∧ cr3 s / 4096 < numpages s;
  st_root : linkable true (lists s) P (root_page s);
  st_wf : pt_wf (with_recursion s) (cr3 s) lv;
  st_slot : present (ram s (recursive_slot s)) = true →
    ram s (recursive_slot s) = table_entry (cr3 s);
  st_tables : ∀ f, lv f ≠ 0 → D f;
  st_direct : ∀ f, D f → frame_ok f ∧ window (ram s) (cr3 s) (P2V f) f;
  st_ready : (n <= length (free_pool P))%nat;
  st_free : ∀ p, p ∈ take n (free_pool P) → p ≠ root_page s ∧ blank D (ram s) lv (frame_of s p);
  st_distinct : ∀ p q, p ∈ free_pool P → q ∈ free_pool P → frame_of s p = frame_of s q → p = q;
}.

Lemma with_recursion_extends s :
  (present (ram s (recursive_slot s)) = true → ram s (recursive_slot s) = table_entry (cr3 s)) →
  extends (ram s) (with_recursion s).
Proof.
  intros Hs a Ha. unfold with_recursion. destruct (Z.eq_dec a (recursive_slot s)) as [->|].
  - rewrite ram_set_eq. by rewrite Hs.
  - by rewrite ram_set_ne.
Qed.

Lemma blank_recursion s lv f : pt_wf (with_recursion s) (cr3 s) lv → blank D (ram s) lv f →
  blank D (with_recursion s) lv f.
Proof.
  intros W (Ha & Hz & Hl & Hb & Hd). split; [done|]. split; [done|]. split; [done|]. split; [|done].
  intros i Hi. unfold with_recursion. rewrite ram_set_ne; [by apply Hb|].
  unfold recursive_slot. intros Heq. pose proof RE_bounds as Hre.
  destruct (root_frame _ _ _ W) as [[Hr _] _]. apply slot_inj in Heq as [-> _]; [|apply Ha|done|done|done].
  by rewrite (root_level _ _ _ W) in Hl.
Qed.

(** The list nodes of the root's page are unlinked. *)
Lemma returns_unlink s P p (k : M kstate ()) (Q : () → kstate → Prop) :
  repr s P → is_page (parray s) (numpages s) p → linkable true (lists s) P p →
  (∀ h, repr (put_lists h s) (spec_unlink p P) → returns k (put_lists h s) Q) →
  returns (on_lists (list_del (pages_of p));; on_lists (list_del (lru_of p));; k) s Q.
Proof.
  intros R Hp [Hc Hl] HQ. pose proof (spec_unlink_wf p _ (repr_wf _ _ R)) as Hwf.
  pose proof (repr_rep _ _ R) as Rr. pose proof (repr_layout _ _ R) as Hlay.
  destruct P as [F U L]. unfold spec_unlink in *. cbn in Hc, Hl, HQ, Hwf |- *.
  k_step. apply returns_on_lists. ret_use (rep_pages_unlink _ _ Hlay); [exact Rr|exact Hp|exact Hc|].
  intros _ h1 [R1 Ho1]. k_step. apply returns_on_lists. ret_use (rep_lru_unlink _ _ Hlay); [exact R1|exact Hp| |].
  - destruct (Hl eq_refl) as [?|[? Hs]]; [by left|right; split; [done|]].
    unfold self_linked. cbn. rewrite Ho1; [exact Hs|].
    apply (lru_untouched_pages _ _ Hlay); [apply (rep_pages _ _ _ _ Rr)|done..].
  - cbn. intros _ h2 [R2 _]. apply (HQ h2).
    split; [exact Hlay|exact R2|exact Hwf|apply (repr_store _ _ R)|apply (repr_size_t _ _ R)].
Qed.

(** [mmu_init] keeps the free pages and the frames, and establishes the
    invariant of the memory manager. *)
Lemma returns_mmu_init s P lv n :
  startable s P lv n →
  returns mmu_init s (λ _ s',
    let P' := spec_unlink (root_page s) P in
    paged D s' P' lv n ∧ PML4 s' = root_page s ∧ cr3 s' = cr3 s ∧ ram s' = with_recursion s ∧
    parray s' = parray s ∧ numpages s' = numpages s ∧ (∀ p, frame_of s' p = frame_of s p) ∧
    (∀ p pg, p ≠ root_page s → store s !! p = Some pg → store s' !! p = Some pg)).
Proof.
  intros S. pose proof (st_wf _ _ _ _ S) as W. pose proof (st_repr _ _ _ _ S) as R.
  destruct (st_fits _ _ _ _ S) as [Hfit Hc]. destruct (root_frame _ _ _ W) as [[Ha Hb] Hz].
  pose proof (repr_layout _ _ R) as Hlay.
  assert (Hi : 0 <= cr3 s / 4096 < numpages s) by dlia.
  destruct (page_at_page s _ Hlay Hi) as [Ep Hp]. fold (root_page s) in Ep, Hp.
  pose proof (st_root _ _ _ _ S) as Hlink.
  destruct (repr_store _ _ R _ Hp) as [pg Hpg].
  assert (Hpz : root_page s ≠ 0) by by eapply page_nonzero.
  unfold mmu_init, get_cr3. k_steps. unfold page_request. rewrite ROUND_DOWN_index. k_steps.
  rewrite (proj2 (Z.ltb_ge _ _)) by lia. k_steps. fold (root_page s).
  apply returns_assert; [unfold nz; by rewrite (proj2 (Z.eqb_neq _ _) Hpz)|]. k_steps.
  eapply returns_store_page; [done|exact Hpg|]. k_steps.
  eapply returns_store_page; [done|by apply lookup_insert_eq|].
  set (s1 := put_store _ _).
  assert (E1 : store s1 = <[root_page s:=with_flags root_flags (with_data pml4_window pg)]> (store s))
    by (cbn; by rewrite insert_insert_eq).
  assert (R1 : repr s1 P).
  { destruct R as [? ? ? Rs ?]. split; [done..| |done]. intros q Hq. rewrite E1, lookup_insert.
    case_decide; [by eauto|by apply Rs]. }
  apply (returns_unlink s1 P (root_page s)); [done..|]. intros h R2. set (s2 := put_lists h s1) in *.
  assert (Hroot : D (cr3 s)) by (apply (st_tables _ _ _ _ S); by rewrite (root_level _ _ _ W)).
  eapply returns_write_window; [apply (st_direct _ _ _ _ S _ Hroot)|apply RE_bounds|].
  change (ram_set _ _ _) with (with_recursion s).
  pose proof (with_recursion_extends s (st_slot _ _ _ _ S)) as He.
  assert (Est : store s2 = store s1) by done.
  assert (Efr : ∀ p, frame_of (put_ram (with_recursion s) s2) p = frame_of s p).
  { intros p. unfold frame_of. cbn [store put_ram]. rewrite Est, E1, lookup_insert.
    case_decide; [subst; by rewrite Hpg|done]. }
  assert (Htk := take_remove_page n (root_page s) (free_pool P) (st_ready _ _ _ _ S)
    ltac:(intros Hin; by destruct (st_free _ _ _ _ S _ Hin))).
  split; [|split; [done|]; split; [done|]; split; [done|]; split; [done|]; split; [done|]; split; [exact Efr|]].
  - split.
    + destruct R2. by split.
    + exact (st_unlocked _ _ _ _ S).
    + exact W.
    + split; [done|]. split; [cbn; set_solver|].
      exists (with_flags root_flags (with_data pml4_window pg)). split; [|by destruct pg].
      cbn [store put_ram PML4]. rewrite Est, E1. apply lookup_insert_eq.
    + intros f Hf _. by apply (st_tables _ _ _ _ S).
    + intros f Hf. destruct (st_direct _ _ _ _ S f Hf) as [? Hw]. split; [done|].
      by eapply window_extends.
    + apply Htk.
    + intros p Hin. rewrite Efr. apply blank_recursion; [exact W|].
      apply (st_free _ _ _ _ S). by rewrite <- (proj1 Htk).
    + intros p q [_ Hin]%elem_of_remove_page [_ Hin']%elem_of_remove_page. rewrite !Efr.
      by apply (st_distinct _ _ _ _ S).
  - intros p pg' Hne Hp'. cbn [store put_ram]. rewrite Est, E1. by rewrite lookup_insert_ne by done.
Qed.
End init.
