(* ===== verification/Start.v ===== *)
(** From the boot loader to a memory manager in working order: what
    [pmm_init] and [mmu_init], run one after the other as [main] does, leave
    behind. The file first says which pages the LRU list holds and in which
    order the free pages come. *)

From Stdlib Require Import Sorting.Sorted.
From S2P Require Import Prelude Kernel KList State Paging Frame FrameSpec FrameRefine FrameMark.
From S2P Require Import FrameInit PmmInit PagingWf Mmu MmuWalk MmuSpec MmuBoot MmuInit.

Open Scope Z_scope.

Section start.
Context `{MMU, Layout, Image}.

(** ** The LRU list holds every page that was ever marked as used *)

Definition entry_used (h : Z) (w : Z → bool) (e : memory_map) (i : Z) : bool :=
  if (mm_end e <=? h) && in_range (mm_base e) (mm_end e) i then negb (usable e) || w i else w i.
Definition map_used (h : Z) (es : list memory_map) : Z → bool :=
  foldl (entry_used h) (λ _, false) es.
Definition ever_used (es : list memory_map) (i : Z) : bool :=
  in_range 0 (V2P KERNEL_END) i || map_used (highest es) es i.

(** The map never calls a page usable that it called reserved before, but
    for the kernel's pages. *)
Definition settled (es : list memory_map) : Prop :=
  ∀ i, 0 <= i < init_numpages (highest es) → ever_used es i = true → boot_verdict es i = Some true.

Definition in_lru (s1 : kstate) (P : pools) (w : Z → bool) : Prop :=
  ∀ i, 0 <= i < numpages s1 →
    page_at (parray s1) i ∈ lru_pool P ↔ skipped s1 i = false ∧ w i = true.

Lemma in_lru_mark s1 P w start end_ fl :
  layout_ok (parray s1) (numpages s1) → 0 <= start <= end_ → end_ / 4096 < numpages s1 →
  in_lru s1 P w →
  in_lru s1 (spec_mark_range fl s1 P (start / 4096) (end_ / 4096 + 1))
    (λ i, if in_range start end_ i then nz (Z.land fl P_USED) || w i else w i).
Proof.
  intros Hlay Hse Hn Hw i Hi. assert (0 <= start / 4096 <= end_ / 4096) by dlia.
  set (g := λ k, if (start / 4096 <=? i) && (i <? k) then nz (Z.land fl P_USED) || w i else w i).
  unfold in_range. replace (i <=? end_ / 4096) with (i <? end_ / 4096 + 1) by lia.
  apply (spec_mark_range_ind fl s1 P _ _ (λ k Q,
    page_at (parray s1) i ∈ lru_pool Q ↔ skipped s1 i = false ∧ g k = true)); [lia| |].
  - unfold g. replace ((start / 4096 <=? i) && (i <? start / 4096)) with false by lia. by apply Hw.
  - intros k Q Hk IH. unfold spec_mark_page, g in *. destruct (Z.eq_dec i k) as [->|Hne].
    + replace ((start / 4096 <=? k) && (k <? k)) with false in IH by lia.
      replace ((start / 4096 <=? k) && (k <? k + 1)) with true by lia.
      destruct (skipped s1 k); [rewrite IH; intuition discriminate|].
      unfold spec_mark, spec_mark_used, spec_mark_free.
      destruct (nz (Z.land fl P_USED)); cbn [lru_pool orb]; [|done]. set_solver.
    + replace (i <? k + 1) with (i <? k) by lia. rewrite <- IH.
      destruct (skipped s1 k); [done|].
      assert (page_at (parray s1) i ≠ page_at (parray s1) k).
      { intros Heq. apply page_at_inj in Heq; done || lia. }
      unfold spec_mark, spec_mark_used, spec_mark_free.
      destruct (nz (Z.land fl P_USED)); cbn [lru_pool]; [|done].
      rewrite elem_of_app, elem_of_remove_page. set_solver.
Qed.

Lemma in_lru_ext s1 P w w' : (∀ i, w i = w' i) → in_lru s1 P w → in_lru s1 P w'.
Proof. intros E Hw i Hi. rewrite <- E. auto. Qed.

Lemma in_lru_map s1 h es P w :
  layout_ok (parray s1) (numpages s1) → Forall entry_ok es → h / 4096 < numpages s1 →
  in_lru s1 P w → in_lru s1 (map_pools s1 h P es) (foldl (entry_used h) w es).
Proof.
  intros Hlay Hes Hh. revert P w. induction Hes as [|e es He Hes IH]; intros P w Hw; [done|].
  cbn [foldl map_pools]. apply IH. destruct (mm_end_ok e He) as (_ & Hbe & Hee). unfold entry_pools.
  destruct (Z.leb_spec (mm_end e) h) as [Hle|Hle].
  - eapply in_lru_ext; [|eapply (in_lru_mark s1 P w (mm_base e) (mm_end e)); [done|done|dlia|exact Hw]].
    intros i. cbn. unfold entry_used, entry_flags. rewrite (proj2 (Z.leb_le _ _) Hle). cbn [andb].
    by destruct (in_range _ _ _), (usable e).
  - eapply in_lru_ext; [|exact Hw]. intros i. unfold entry_used. by rewrite (proj2 (Z.leb_gt _ _) Hle).
Qed.

Lemma in_lru_boot s1 es :
  layout_ok (parray s1) (numpages s1) → Forall entry_ok es → highest es / 4096 < numpages s1 →
  0 <= V2P KERNEL_END → V2P KERNEL_END / 4096 < numpages s1 →
  in_lru s1 (boot_pools s1 es) (ever_used es).
Proof.
  intros Hlay Hes Hh Hk Hk'.
  eapply in_lru_ext; [|apply (in_lru_mark s1 _ (map_used (highest es) es) 0 (V2P KERNEL_END));
    [done|lia|done|]].
  - intros i. unfold ever_used. by destruct (in_range _ _ _).
  - apply in_lru_map; [done..|]. intros i Hi. cbn. rewrite elem_of_nil. intuition discriminate.
Qed.

(** With a settled map the LRU list holds the pages in use. *)
Lemma boot_pools_wf s1 t es :
  booting s1 (boot_pools s1 es) t → Forall entry_ok es → settled es →
  numpages s1 = init_numpages (highest es) →
  0 <= V2P KERNEL_END < highest es → pools_wf (boot_pools s1 es).
Proof.
  intros B Hes Hset En Hk. pose proof (bo_tracks _ _ _ B) as R.
  destruct (bo_same _ _ _ B) as (Ep & Ent & _).
  pose proof (tr_layout _ _ R) as Hlay. pose proof (tr_rep _ _ R) as Rp. rewrite Ep, Ent in *.
  assert (highest es / 4096 < numpages s1 ∧ V2P KERNEL_END / 4096 < numpages s1) as [Hh Hk']
    by (rewrite En; unfold init_numpages; dlia).
  pose proof (placed_boot s1 es Hlay Hes Hh (proj1 Hk) Hk') as Hv.
  pose proof (in_lru_boot s1 es Hlay Hes Hh (proj1 Hk) Hk') as Hw.
  pose proof (rep_pages _ _ _ _ Rp) as Hpg. set (P := boot_pools s1 es) in *.
  assert (Hiff : ∀ p, is_page (parray s1) (numpages s1) p → p ∈ lru_pool P ↔ p ∈ used_pool P).
  { intros p (i & Hi & ->). destruct (page_at_page s1 i Hlay Hi) as [<- _].
    specialize (Hv i Hi). specialize (Hw i Hi). rewrite Hw. destruct (skipped s1 i).
    - destruct Hv as [_ Hu]. split; [intros [? _]; discriminate|done].
    - split.
      + intros [_ Hu]. rewrite Hset in Hv by (done || lia). apply Hv.
      + intros Hu. destruct (boot_verdict es i) as [[]|] eqn:E.
        * destruct Hv as (_ & _ & Hl). by apply Hw.
        * by destruct Hv.
        * by destruct Hv. }
  split; [eapply (dll_NoDup pages_of), Rp|]. split; [eapply (dll_NoDup pages_of), Rp|].
  split; [eapply (dll_NoDup lru_of), Rp|]. split; [apply Rp|].
  intros p. split; intros Hin; apply Hiff; try done; apply Hpg; set_solver.
Qed.

(** ** The free pages come in the order of their addresses *)

(** The free pages are those with the indices [js]. *)
Definition listed (s1 : kstate) (P : pools) (js : list Z) : Prop :=
  free_pool P = page_at (parray s1) <$> js ∧ StronglySorted Z.lt js ∧
  Forall (λ j, 0 <= j < numpages s1) js.

(** The map's entries are in the order of their addresses. *)
Fixpoint ascending (lo : Z) (es : list memory_map) : Prop :=
  match es with
  | [] => True
  | e :: es => lo <= mm_base e ∧ ascending (mm_end e) es
  end.

Lemma StronglySorted_filter (Φ : Z → Prop) `{∀ x, Decision (Φ x)} (l : list Z) :
  StronglySorted Z.lt l → StronglySorted Z.lt (filter Φ l).
Proof.
  induction 1 as [|x l Hl IH Hx]; [constructor|]. rewrite filter_cons. case_decide; [|done].
  constructor; [done|]. rewrite Forall_forall in *. intros y Hy. apply Hx.
  by apply list_elem_of_filter in Hy as [_ ?].
Qed.

Lemma Forall_filter_self (Q Φ : Z → Prop) `{∀ x, Decision (Φ x)} (l : list Z) :
  Forall Q l → Forall Q (filter Φ l).
Proof. rewrite !Forall_forall. intros Hl x [_ Hx]%list_elem_of_filter. by apply Hl. Qed.

Lemma StronglySorted_snoc (l : list Z) x :
  StronglySorted Z.lt l → Forall (λ j, j < x) l → StronglySorted Z.lt (l ++ [x]).
Proof.
  induction 1 as [|y l Hl IH Hy]; intros Hx; cbn; [repeat constructor|].
  apply Forall_cons in Hx as [? ?]. constructor; [auto|]. apply Forall_app. auto.
Qed.

Lemma remove_listed s1 js k :
  layout_ok (parray s1) (numpages s1) → 0 <= k < numpages s1 → Forall (λ j, 0 <= j < numpages s1) js →
  remove_page (page_at (parray s1) k) (page_at (parray s1) <$> js) =
    page_at (parray s1) <$> filter (λ j, j ≠ k) js.
Proof.
  intros Hlay Hk. induction 1 as [|j js Hj Hjs IH]; [done|]. unfold remove_page in *.
  rewrite fmap_cons, !filter_cons. destruct (decide (j ≠ k)) as [Hne|Heq].
  - rewrite decide_True, IH; [done|]. intros E. apply Hne. eapply page_at_inj; done.
  - rewrite decide_False, IH; [done|]. apply dec_stable in Heq as ->. naive_solver.
Qed.

(** Marking page [k], for free only above every free page. *)
Lemma listed_mark fl s1 P k js b :
  layout_ok (parray s1) (numpages s1) → 0 <= k < numpages s1 → listed s1 P js →
  Forall (λ j, j < b) js → (nz (Z.land fl P_USED) = false → b <= k + 1) →
  ∃ js', listed s1 (spec_mark_page fl s1 P k) js' ∧ Forall (λ j, j < Z.max b (k + 1)) js'.
Proof.
  intros Hlay Hk (E & Hs & Hp) Hb Hfl. unfold spec_mark_page.
  destruct (skipped s1 k).
  { exists js. split; [done|]. eapply Forall_impl; [exact Hb|]. cbn. lia. }
  assert (Hp' : Forall (λ j, 0 <= j < numpages s1) (filter (λ j, j ≠ k) js)) by by apply Forall_filter_self.
  assert (Hb' : Forall (λ j, j < b) (filter (λ j, j ≠ k) js)) by by apply Forall_filter_self.
  unfold spec_mark, spec_mark_used, spec_mark_free. destruct (nz (Z.land fl P_USED)); cbn.
  - exists (filter (λ j, j ≠ k) js). split.
    + split; [|by split; [apply StronglySorted_filter|]]. cbn. rewrite E. by apply remove_listed.
    + eapply Forall_impl; [exact Hb'|]. cbn. lia.
  - exists (filter (λ j, j ≠ k) js ++ [k]). split; [split; [|split]|].
    + cbn. rewrite E, remove_listed by done. by rewrite fmap_app.
    + apply StronglySorted_snoc; [by apply StronglySorted_filter|]. rewrite Forall_forall in *.
      intros j Hj. specialize (Hb' j Hj). apply list_elem_of_filter in Hj as [? _].
      specialize (Hfl eq_refl). lia.
    + apply Forall_app. split; [done|by apply Forall_singleton].
    + apply Forall_app. split; [|apply Forall_singleton; lia]. eapply Forall_impl; [exact Hb'|]. cbn. lia.
Qed.

Lemma listed_range fl s1 P start end_ js b :
  layout_ok (parray s1) (numpages s1) → 0 <= start <= end_ → end_ / 4096 < numpages s1 →
  listed s1 P js → Forall (λ j, j < b) js → (nz (Z.land fl P_USED) = false → b <= start / 4096 + 1) →
  ∃ js', listed s1 (spec_mark_range fl s1 P (start / 4096) (end_ / 4096 + 1)) js' ∧
    Forall (λ j, j < Z.max b (end_ / 4096 + 1)) js'.
Proof.
  intros Hlay Hse Hn HL Hb Hfl. assert (0 <= start / 4096 <= end_ / 4096) by dlia.
  apply (spec_mark_range_ind fl s1 P _ _ (λ k Q, ∃ js', listed s1 Q js' ∧ Forall (λ j, j < Z.max b k) js'));
    [lia| |].
  - exists js. split; [done|]. eapply Forall_impl; [exact Hb|]. cbn. lia.
  - intros k Q Hk (js' & HL' & Hb').
    destruct (listed_mark fl s1 Q k js' (Z.max b k)) as (js2 & HL2 & Hb2);
      [done|lia|done|done|intros Hf; specialize (Hfl Hf); lia|].
    exists js2. split; [done|]. eapply Forall_impl; [exact Hb2|]. cbn. lia.
Qed.

Lemma listed_map s1 h es P lo js :
  layout_ok (parray s1) (numpages s1) → Forall entry_ok es → h / 4096 < numpages s1 →
  ascending lo es → 0 <= lo → listed s1 P js → Forall (λ j, j < lo / 4096 + 1) js →
  ∃ js', listed s1 (map_pools s1 h P es) js'.
Proof.
  intros Hlay Hes Hh. revert P lo js.
  induction Hes as [|e es He Hes IH]; intros P lo js Ha Hlo HL Hb; [by exists js|].
  cbn [foldl map_pools] in *. destruct Ha as [Hl Ha]. destruct (mm_end_ok e He) as (_ & Hbe & Hee).
  unfold entry_pools at 1. fold (map_pools s1 h). destruct (Z.leb_spec (mm_end e) h) as [Hle|Hle].
  - destruct (listed_range (entry_flags e) s1 P (mm_base e) (mm_end e) js (lo / 4096 + 1))
      as (js' & HL' & Hb'); [done|lia|dlia|done|done|dlia|].
    eapply IH; [exact Ha|lia|exact HL'|]. eapply Forall_impl; [exact Hb'|]. cbn. dlia.
  - eapply IH; [exact Ha|lia|exact HL|]. eapply Forall_impl; [exact Hb|]. cbn. dlia.
Qed.

Lemma listed_boot s1 es :
  layout_ok (parray s1) (numpages s1) → Forall entry_ok es → highest es / 4096 < numpages s1 →
  ascending 0 es → 0 <= V2P KERNEL_END → V2P KERNEL_END / 4096 < numpages s1 →
  ∃ js, listed s1 (boot_pools s1 es) js.
Proof.
  intros Hlay Hes Hh Ha Hk Hk'.
  destruct (listed_map s1 (highest es) es (Pools [] [] []) 0 []) as (js & HL); [done..| | |].
  { split; [done|]. split; constructor. }
  { constructor. }
  destruct (listed_range kernel_flags s1 (map_pools s1 (highest es) (Pools [] [] []) es) 0 (V2P KERNEL_END)
    js (numpages s1)) as (js' & HL' & _); [done|lia|done|done| |done|by exists js'].
  destruct HL as (_ & _ & Hp). eapply Forall_impl; [exact Hp|]. cbn. lia.
Qed.

(** The first elements of a sorted list that starts with consecutive numbers. *)
Lemma take_sorted (n : nat) js a :
  StronglySorted Z.lt js → (∀ j, j ∈ js → a <= j) → (∀ j, a <= j < a + Z.of_nat n → j ∈ js) →
  take n js = seqZ a (Z.of_nat n) ∧ (n <= length js)%nat.
Proof.
  revert js a. induction n as [|n IH]; intros js a Hs Hlo Hin.
  { split; [by rewrite seqZ_nil by lia|lia]. }
  destruct js as [|j js]; [destruct (elem_of_nil a) as [? _]; exfalso; eapply not_elem_of_nil, (Hin a); lia|].
  apply StronglySorted_inv in Hs as [Hs Hj]. rewrite Forall_forall in Hj.
  assert (j = a) as ->.
  { assert (a <= j) by (apply Hlo; set_solver).
    destruct (proj1 (elem_of_cons _ _ _) (Hin a ltac:(lia))) as [|Ha]; [done|].
    specialize (Hj a Ha). lia. }
  destruct (IH js (a + 1) Hs) as [E El].
  - intros k Hk. specialize (Hj k Hk). lia.
  - intros k Hk. destruct (proj1 (elem_of_cons _ _ _) (Hin k ltac:(lia))) as [->|?]; [lia|done].
  - cbn [take length]. rewrite E, (seqZ_cons a) by lia. split; [|lia]. f_equal. f_equal; lia.
Qed.

(** ** The page tables *)

Definition start_memory (es : list memory_map) : Z := highest es.
Definition start_table : Z := V2P KERNEL_END.
Definition start_base (es : list memory_map) : Z := P2V (init_table (highest es) start_table).

(** The boot loader's tables, which stay in use when the page array fits in
    what they map: well formed once the root has the recursive slot, reaching
    the frames [D], in memory that has a page and that the array, which
    [page_init] writes, does not cover. Nothing keeps the map from calling
    their frames usable. *)
Record loader_tables (s : kstate) (es : list memory_map) (lv : Z → Z) (D : Z → Prop) : Prop := {
  lt_wf : pt_wf (with_recursion s) (cr3 s) lv;
  lt_slot : present (ram s (recursive_slot s)) = true →
    ram s (recursive_slot s) = table_entry (cr3 s);
  lt_tables : ∀ f, lv f ≠ 0 → D f;
  lt_direct : ∀ f, D f → frame_ok f ∧ window (ram s) (cr3 s) (P2V f) f;
  lt_root : cr3 s / 4096 < init_numpages (highest es);
  lt_apart : ∀ f, lv f ≠ 0 →
    let T := init_table (highest es) start_table in
    f + 4096 <= T ∨ T + init_pages (highest es) * 4096 <= f;
}.

(** The levels and the directly mapped frames that [pmm_init] leaves. *)
Inductive start_tables (s : kstate) (es : list memory_map) : (Z → Z) → (Z → Prop) → Prop :=
  | start_new :
      init_big (highest es) start_table = true →
      (∀ f i, f ∈ init_frames start_table → 0 <= i < 512 → present (ram s (f + 8 * i)) = false) →
      let T := init_round start_table in
      start_tables s es (boot_level T (T + 4096) (T + 8192))
        (λ f, frame_ok f ∧ f + 4096 <= init_top (highest es) start_table)
  | start_loader lv D :
      init_big (highest es) start_table = false →
      loader_tables s es lv D → start_tables s es lv D.

Lemma pt_wf_ext r r' root lv : (∀ a, r a = r' a) → pt_wf r root lv → pt_wf r' root lv.
Proof. intros E [W1 W2 W3 W4]. split; [done|done|by rewrite <- E|]. intros f i. rewrite <- E. apply W4. Qed.

Lemma with_recursion_id s a :
  ram s (recursive_slot s) = table_entry (cr3 s) → with_recursion s a = ram s a.
Proof.
  intros E. unfold with_recursion. destruct (Z.eq_dec a (recursive_slot s)) as [->|].
  - by rewrite ram_set_eq.
  - by rewrite ram_set_ne.
Qed.

(** What the tables look like once [pmm_init] is done. *)
Record tables_ready (s' : kstate) (lv : Z → Z) (D : Z → Prop) : Prop := {
  tr_wf : pt_wf (with_recursion s') (cr3 s') lv;
  tr_slot : present (ram s' (recursive_slot s')) = true →
    ram s' (recursive_slot s') = table_entry (cr3 s');
  tr_tables : ∀ f, lv f ≠ 0 → D f;
  tr_direct : ∀ f, D f → frame_ok f ∧ window (ram s') (cr3 s') (P2V f) f;
}.

Section tables.
Context (s s1 : kstate) (es : list memory_map) (lv : Z → Z) (D : Z → Prop).
Hypotheses (Hr : init_ready (highest es) start_table s).
Hypothesis Hm : init_memory (highest es) start_table s s1.
Hypothesis Ht : start_tables s es lv D.

Lemma start_tables_ready : tables_ready s1 lv D.
Proof.
  unfold init_memory in Hm. destruct Ht as [Hb Hclear T|lv' D' Hb [W Hs Htab Hd _ _]].
  - rewrite Hb in Hm. destruct Hm as (Hc & Hbt & [Hrp Hrest] & Ho).
    destruct (init_frames_ok _ _ _ Hr Hb) as (Hf & Hnd & Hn & Etop).
    unfold init_frames in Hf, Hnd. fold T in Hf, Hnd, Hc, Hbt, Hrp, Hrest.
    apply Forall_cons in Hf as [(F4 & ? & ?) Hf]. apply Forall_cons in Hf as [(F3 & ? & ?) Hf].
    apply Forall_cons in Hf as [(F2 & ? & ?) _].
    assert (W : pt_wf (ram s1) T (boot_level T (T + 4096) (T + 8192))).
    { eapply (boot_wf _ _ _ _ (init_top (highest es) start_table) (init_top (highest es) start_table / 2 ^ 21));
        [exact F4|exact F3|exact F2|exact Hnd|lia|exact Hbt|exact Hrp|].
      intros f i Hf Hi Hns. rewrite Hrest by done. by apply Hclear. }
    assert (Er : ram s1 (recursive_slot s1) = table_entry (cr3 s1))
      by (unfold recursive_slot; rewrite Hc; apply Hbt).
    split.
    + rewrite Hc. eapply pt_wf_ext; [|exact W]. intros a. symmetry. by apply with_recursion_id.
    + done.
    + intros f Hf. destruct (boot_level_inv _ _ _ _ Hf) as [[-> _]|[[-> _]|[-> _]]]; by split.
    + intros f [Hf Hft]. split; [done|]. rewrite Hc.
      eapply (boot_window _ _ _ _ (init_top (highest es) start_table / 2 ^ 21));
        [exact F4|exact F3|exact F2|lia|exact Hbt|done|lia].
  - rewrite Hb in Hm. destruct Hm as [Er Ec].
    split; unfold with_recursion, recursive_slot in *; rewrite ?Er, ?Ec; done.
Qed.

Lemma start_blank f : blank D (ram s) lv f → blank D (ram s1) lv f.
Proof.
  intros (Hf & Hz & Hl & Hb & Hd). split; [done|]. split; [done|]. split; [done|]. split; [|done].
  intros i Hi. specialize (Hb i Hi). unfold init_memory in Hm.
  destruct Ht as [Hbig Hclear T|lv' D' Hbig L].
  - rewrite Hbig in Hm. destruct Hm as (_ & _ & _ & Ho). rewrite Ho; [done|].
    intros g j Hg Hj Heq. destruct (init_frames_ok _ _ _ Hr Hbig) as (Hfr & _).
    rewrite Forall_forall in Hfr. destruct (Hfr g Hg) as ((Hga & _) & _).
    apply slot_inj in Heq as [-> _]; [|apply Hf|done|done|done].
    revert Hl. unfold init_frames in Hg. fold T in Hg. unfold boot_level.
    rewrite !elem_of_cons, elem_of_nil in Hg.
    destruct (Z.eqb_spec g T), (Z.eqb_spec g (T + 4096)), (Z.eqb_spec g (T + 8192)); try discriminate.
    intuition.
  - rewrite Hbig in Hm. destruct Hm as [-> _]. done.
Qed.

(** The root has a page. *)
Lemma start_root : 0 <= cr3 s1 / 4096 < init_numpages (highest es).
Proof.
  pose proof start_tables_ready as [W _ _ _]. destruct (root_frame _ _ _ W) as [[_ Hb0] _].
  split; [dlia|]. unfold init_memory in Hm.
  destruct Ht as [Hb Hclear T|lv' D' Hb [_ _ _ _ Hn _]]; rewrite Hb in Hm.
  - destruct Hm as [-> _]. pose proof (ir_fits _ _ _ Hr) as Hfit. unfold init_table in Hfit.
    rewrite Hb in Hfit. assert (0 < init_pages (highest es))
      by (unfold init_pages, init_numpages; pose proof (ir_order _ _ _ Hr); dlia). dlia.
  - by destruct Hm as [_ ->].
Qed.
End tables.

(** ** The whole start *)

(** The memory of the page array holds no flag that marking respects. *)
Definition clean_array (s : kstate) (es : list memory_map) : Prop :=
  ∀ i pg, 0 <= i < init_numpages (highest es) →
    store s !! page_at (start_base es) i = Some pg → immutable pg = false.

(** Page [i] is in the free list after [pmm_init]. *)
Definition starts_free (es : list memory_map) (i : Z) : Prop :=
  ¬ init_reserved (highest es) start_table i ∧ boot_verdict es i = Some false.

(** The first [n] free pages are those from [a] on, and they can become page
    tables. *)
Record ready_pages (s : kstate) (es : list memory_map) (lv : Z → Z) (D : Z → Prop) (a : Z) (n : nat) :
    Prop := {
  rp_range : 0 <= a ∧ a + Z.of_nat n <= init_numpages (highest es);
  rp_first : ∀ i, 0 <= i < a → ¬ starts_free es i;
  rp_ready : ∀ i, a <= i < a + Z.of_nat n → starts_free es i ∧ blank D (ram s) lv (4096 * i);
}.

(** What the boot loader leaves: the memory map at 0x7000, and memory as
    [page_init] needs it. *)
Record loaded_kernel (s : kstate) (es : list memory_map) : Prop := {
  lk_map : map_at s 0x7000 es;
  lk_length : (length es <= 255)%nat;
  lk_entries : Forall entry_ok es;
  lk_order : ascending 0 es;
  lk_settled : settled es;
  lk_table : 0x9000 <= start_table;
  lk_ready : init_ready (highest es) start_table s;
  lk_clean : clean_array s es;
}.

Section whole.
Context (s s1 t : kstate) (es : list memory_map).
Hypothesis L : loaded_kernel s es.
Hypothesis I : init_done (highest es) start_table s (init_reserved (highest es) start_table) s1.
Hypothesis B : booting s1 (boot_pools s1 es) t.
Abbreviation memory := (highest es).

Lemma whole_parray : parray t = start_base es ∧ numpages t = init_numpages memory ∧
  parray s1 = start_base es ∧ numpages s1 = init_numpages memory.
Proof.
  destruct (id_parray _ _ _ _ _ I) as [Ep En]. destruct (bo_same _ _ _ B) as (-> & -> & _).
  unfold start_base. by rewrite Ep, En.
Qed.

Lemma whole_layout : layout_ok (parray s1) (numpages s1).
Proof.
  destruct whole_parray as (_ & _ & -> & ->). exact (ir_layout _ _ _ (lk_ready _ _ L)).
Qed.

Lemma whole_bounds : 0 <= start_table < memory ∧ memory / 4096 < numpages s1 ∧
  start_table / 4096 < numpages s1 ∧ memory < 2 ^ 31 - 2 ^ 22.
Proof.
  destruct whole_parray as (_ & _ & _ & ->). pose proof (ir_order _ _ _ (lk_ready _ _ L)).
  pose proof (ir_memory _ _ _ (lk_ready _ _ L)). unfold init_numpages. dlia.
Qed.

(** A page is skipped when it holds a new table or a part of the array. *)
Lemma whole_skipped i : 0 <= i < init_numpages memory →
  (init_reserved memory start_table i → skipped s1 i = true) ∧
  (¬ init_reserved memory start_table i → skipped s1 i = false) ∧
  frame_of t (page_at (start_base es) i) = 4096 * i.
Proof.
  intros Hi. destruct whole_parray as (_ & _ & Ep & En).
  destruct (id_pages _ _ _ _ _ I i Hi) as (pg0 & pg & E0 & E1 & Ha & Hres & Hnres).
  pose proof (bo_address _ _ _ B i ltac:(by rewrite En)) as Had.
  unfold frame_of, skipped. rewrite Ep in *. fold (start_base es) in E0, E1. rewrite Had, E1.
  split; [done|]. split; [|cbn; lia]. intros Hn.
  pose proof (lk_clean _ _ L i pg0 Hi E0) as Hc. unfold immutable in *. by rewrite Hnres.
Qed.

Lemma whole_free i : 0 <= i < init_numpages memory →
  page_at (start_base es) i ∈ free_pool (boot_pools s1 es) ↔ starts_free es i.
Proof.
  intros Hi. destruct whole_parray as (_ & _ & Ep & En). destruct whole_bounds as (Hk & Hk1 & Hk2 & _).
  destruct (whole_skipped i Hi) as (Hs1 & Hs2 & _).
  pose proof (placed_boot s1 es whole_layout (lk_entries _ _ L) Hk1 (proj1 Hk) Hk2 i
    ltac:(by rewrite En)) as Hv. rewrite Ep in Hv. unfold starts_free.
  assert (Hd : init_reserved memory start_table i ∨ ¬ init_reserved memory start_table i)
    by (unfold init_reserved; lia).
  destruct Hd as [Hd|Hd].
  - rewrite (Hs1 Hd) in Hv. destruct Hv. tauto.
  - rewrite (Hs2 Hd) in Hv. destruct (boot_verdict es i) as [[]|].
    + destruct Hv as (_ & ? & _). split; [done|]. by intros [_ ?].
    + destruct Hv. tauto.
    + destruct Hv. split; [done|]. by intros [_ ?].
Qed.

Lemma whole_repr : repr t (boot_pools s1 es).
Proof.
  destruct whole_parray as (_ & _ & _ & En). destruct whole_bounds as (? & _).
  apply tracks_repr; [apply B|]. eapply boot_pools_wf; [exact B|apply L|apply L|exact En|done].
Qed.

Lemma whole_take lv D a n : ready_pages s es lv D a n →
  take n (free_pool (boot_pools s1 es)) = page_at (start_base es) <$> seqZ a (Z.of_nat n) ∧
  (n <= length (free_pool (boot_pools s1 es)))%nat.
Proof.
  intros [Hr Hf Hb]. destruct whole_parray as (_ & _ & Ep & En). destruct whole_bounds as (Hk & Hk1 & Hk2 & _).
  destruct (listed_boot s1 es whole_layout) as (js & Ejs & Hs & Hp); [apply L|exact Hk1|apply L|apply Hk|exact Hk2|].
  rewrite Ep in Ejs. rewrite En, Forall_forall in Hp.
  assert (Hin : ∀ j, 0 <= j < init_numpages memory → j ∈ js ↔ starts_free es j).
  { intros j Hj. rewrite <- whole_free, Ejs, list_elem_of_fmap by done. split; [by exists j|].
    intros (k & Ek & Hkj). rewrite <- Ep in Ek. apply page_at_inj in Ek as ->; [done|apply whole_layout|..];
      rewrite En; auto. }
  destruct (take_sorted n js a Hs) as [E El].
  - intros j Hj. destruct (Z.lt_ge_cases j a) as [Hlt|]; [|done]. exfalso.
    specialize (Hp j Hj). eapply Hf; [|by apply Hin]. lia.
  - intros j Hj. apply Hin; [lia|]. by apply Hb.
  - rewrite Ejs, length_fmap, <- fmap_take, E. done.
Qed.
End whole.

Lemma start_startable s s1 t es lv D a n :
  loaded_kernel s es → start_tables s es lv D → ready_pages s es lv D a n →
  init_done (highest es) start_table s (init_reserved (highest es) start_table) s1 →
  init_memory (highest es) start_table s s1 → booting s1 (boot_pools s1 es) t →
  startable D t (boot_pools s1 es) lv n.
Proof.
  intros L T Hrp I Hm B. pose proof (lk_ready _ _ L) as Hr.
  destruct (bo_same _ _ _ B) as (_ & _ & Hsame).
  assert (Hmt : init_memory (highest es) start_table s t)
    by exact (init_memory_same _ _ _ _ _ _ (conj eq_refl eq_refl) Hm Hsame).
  pose proof (start_tables_ready s t es lv D Hr Hmt T) as [W Hs Htab Hd].
  pose proof (start_root s t es lv D Hr Hmt T) as Hri.
  destruct (whole_parray s s1 t es I B) as (Ep & En & Ep1 & En1).
  destruct (whole_bounds s s1 t es L I B) as (Hk & Hk1 & Hk2 & Hk3).
  destruct (whole_take s s1 t es L I B lv D a n Hrp) as [Etk Hlen].
  pose proof (whole_repr s s1 t es L I B) as R.
  assert (Hpage : ∀ p, p ∈ free_pool (boot_pools s1 es) →
    ∃ i, 0 <= i < init_numpages (highest es) ∧ p = page_at (start_base es) i).
  { intros p Hp. destruct (rep_pages _ _ _ _ (repr_rep _ _ R) p) as (i & Hi & ->); [set_solver|].
    rewrite En in Hi. exists i. split; [done|]. rewrite <- Ep. symmetry.
    apply page_at_page; [exact (repr_layout _ _ R)|by rewrite En]. }
  split; [exact R|apply B| | |exact W|exact Hs|exact Htab|exact Hd|exact Hlen| |].
  - rewrite Ep, En. split; [|lia]. pose proof (ir_fits _ _ _ Hr) as Hfit.
    destruct (init_arith _ _ s Hr) as (_ & _ & _ & _ & HT0 & HT & HTa & Hnp).
    unfold start_base, sizeof_page. rewrite P2V_add by lia. unfold KERNEL_VIRT.
    assert (init_table (highest es) start_table + 64 * init_numpages (highest es) < 2 ^ 31); [|lia].
    unfold init_pages, init_numpages in *. dlia.
  - unfold root_page. rewrite Ep. apply (bo_linkable _ _ _ B). rewrite <- Ep1. apply page_at_page; [|by rewrite En1].
    exact (whole_layout s s1 t es L I B).
  - intros p Hp. rewrite Etk in Hp. apply list_elem_of_fmap in Hp as (i & -> & Hi%elem_of_seqZ).
    destruct (rp_range _ _ _ _ _ _ Hrp) as [? ?].
    destruct (rp_ready _ _ _ _ _ _ Hrp i Hi) as [_ Hb]. split.
    + unfold root_page. rewrite Ep. intros E. rewrite <- Ep1 in E.
      apply page_at_inj in E; [|exact (whole_layout s s1 t es L I B)|rewrite En1; lia..].
      destruct (root_frame _ _ _ W) as [[? _] _]. destruct Hb as (_ & _ & Hb & _).
      replace (4096 * i) with (cr3 t) in Hb by dlia. by rewrite (root_level _ _ _ W) in Hb.
    + destruct (whole_skipped s s1 t es L I B i) as (_ & _ & ->); [lia|].
      by eapply start_blank.
  - intros p q Hp Hq. destruct (Hpage p Hp) as (i & Hi & ->), (Hpage q Hq) as (j & Hj & ->).
    destruct (whole_skipped s s1 t es L I B i Hi) as (_ & _ & ->).
    destruct (whole_skipped s s1 t es L I B j Hj) as (_ & _ & ->).
    intros E. by replace j with i by lia.
Qed.

Lemma returns_start s es lv D a n :
  loaded_kernel s es → start_tables s es lv D → ready_pages s es lv D a n →
  returns (pmm_init (P2V 0x7000) (Z.of_nat (length es));; mmu_init) s (λ _ s', ∃ P,
    paged D s' P lv n ∧ take n (free_pool P) = page_at (start_base es) <$> seqZ a (Z.of_nat n) ∧
    (∀ i, 0 <= i < init_numpages (highest es) →
       (page_at (start_base es) i ∈ free_pool P ↔ starts_free es i ∧ 4096 * i ≠ cr3 s') ∧
       frame_of s' (page_at (start_base es) i) = 4096 * i) ∧
    cr3 s' = (if init_big (highest es) start_table then init_round start_table else cr3 s)).
Proof.
  intros L T Hrp. k_step. ret_use returns_pmm_init; [apply L|apply L|apply L|apply L|apply L|].
  intros _ t (s1 & I & Hm & B). pose proof (start_startable _ _ _ _ _ _ _ _ L T Hrp I Hm B) as S.
  ret_use returns_mmu_init; [exact S|]. cbn. intros _ s' (G & _ & Ec & _ & _ & _ & Efr & _).
  destruct (whole_take s s1 t es L I B lv D a n Hrp) as [Etk _].
  destruct (whole_parray s s1 t es I B) as (Ep & _ & Ep1 & En1).
  destruct (root_frame _ _ _ (st_wf _ _ _ _ _ S)) as [[Hca Hcb] _].
  destruct (st_fits _ _ _ _ _ S) as [_ Hcn]. destruct (whole_parray s s1 t es I B) as (_ & En & _).
  exists (spec_unlink (root_page t) (boot_pools s1 es)). split; [exact G|]. split; [|split].
  - cbn [free_pool spec_unlink]. rewrite <- Etk.
    apply take_remove_page; [apply (st_ready _ _ _ _ _ S)|].
    intros Hin. by destruct (st_free _ _ _ _ _ S _ Hin).
  - intros i Hi. rewrite Efr. destruct (whole_skipped s s1 t es L I B i Hi) as (_ & _ & ->).
    split; [|done]. cbn [free_pool spec_unlink]. rewrite elem_of_remove_page, (whole_free s s1 t es L I B) by done.
    unfold root_page. rewrite Ep, Ec. split; intros [? ?]; split; try done.
    + intros Hc. revert select (_ ≠ _). rewrite <- Hc. replace (4096 * i / 4096) with i by dlia. done.
    + intros Hc. revert select (_ ≠ _). rewrite <- Ep1 in Hc. apply page_at_inj in Hc.
      * dlia.
      * exact (whole_layout s s1 t es L I B).
      * by rewrite En1.
      * rewrite En1, <- En. dlia.
  - rewrite Ec. destruct (bo_same _ _ _ B) as (_ & _ & _ & ->). unfold init_memory in Hm.
    fold start_table in Hm. destruct (init_big (highest es) start_table).
    + by destruct Hm as [-> _].
    + by destruct Hm as [_ ->].
Qed.

(** C3: The kernel's start, from the boot loader to a memory manager in
    working order: [pmm_init] and then [mmu_init], as [main] runs them, on a
    memory map in the order of its addresses in which nothing that was called
    reserved is called usable afterwards, establish the invariant under which
    [mmu_map_page], [mmu_req_page] and [elf_load] are proved. The tables are
    the boot loader's, or, on a machine whose page array does not fit in what
    those map, the ones [page_init] builds in three clear frames after the
    kernel; the first free pages are those with the lowest addresses, and as
    many of them are ready for new tables as are clear and directly mapped. *)
Theorem start_paged s es lv D a n :
  loaded_kernel s es → start_tables s es lv D → ready_pages s es lv D a n →
  returns (pmm_init (P2V 0x7000) (Z.of_nat (length es));; mmu_init) s (λ _ s', ∃ P,
    paged D s' P lv n ∧ take n (free_pool P) = page_at (start_base es) <$> seqZ a (Z.of_nat n) ∧
    (∀ i, 0 <= i < init_numpages (highest es) →
       (page_at (start_base es) i ∈ free_pool P ↔ starts_free es i ∧ 4096 * i ≠ cr3 s') ∧
       frame_of s' (page_at (start_base es) i) = 4096 * i) ∧
    cr3 s' = (if init_big (highest es) start_table then init_round start_table else cr3 s)).
Proof. exact (returns_start s es lv D a n). Qed.

(** C39: When the boot loader's tables stay in use, nothing reserves their
    frames: [pmm_init] marks as in use what lies below the end of the kernel,
    and [mmu_init] takes out the root's page alone. The page of every other
    table that lies in a usable region of the map is in the free list
    afterwards, with the processor still walking it, and the allocator will
    hand it out. *)
Theorem start_frees_loader_tables s es lv D a n f :
  loaded_kernel s es → init_big (highest es) start_table = false → loader_tables s es lv D →
  ready_pages s es lv D a n →
  lv f ≠ 0 → f ≠ cr3 s → f / 4096 < init_numpages (highest es) → starts_free es (f / 4096) →
  returns (pmm_init (P2V 0x7000) (Z.of_nat (length es));; mmu_init) s (λ _ s', ∃ P,
    repr s' P ∧ page_at (start_base es) (f / 4096) ∈ free_pool P ∧
    frame_of s' (page_at (start_base es) (f / 4096)) = f ∧
    cr3 s' = cr3 s ∧ pt_wf (ram s') (cr3 s') lv).
Proof.
  intros L Hb LT Hrp Hf Hne Hn Hsf.
  assert (Hfo : frame_ok f) by by apply (lt_direct _ _ _ _ LT), (lt_tables _ _ _ _ LT).
  destruct Hfo as [Hfa Hfb]. ret_use (returns_start s es lv D a n); [exact L|by right|exact Hrp|].
  rewrite Hb. intros _ s' (P & G & _ & Hp & Hc). destruct (Hp (f / 4096)) as [Hin Hfr]; [dlia|].
  exists P. split; [apply G|]. split; [apply Hin; split; [done|]; rewrite Hc; dlia|].
  split; [rewrite Hfr; dlia|]. split; [done|apply G].
Qed.
End start.
