(* ===== verification/UserPages.v ===== *)
(** Pages of the lower half that a sequence of [mmu_req_page] calls has
    mapped: each has a frame of its own, taken from the free pool, which can
    be written without disturbing the tables, the other pages, or the memory
    that was in use before. *)

From S2P Require Import Prelude Kernel KList State Paging Bytes Frame FrameSpec FrameRefine.
From S2P Require Import PagingWf PagingTree Mmu MmuSpec MmuMap.

Open Scope Z_scope.

Section pages.
Context `{MMU, Layout}.
Context (D : Z → Prop).

(** *** The lower half never guards the kernel's own views *)

Lemma direct_index_high f i : frame_ok f → 0 <= i < 512 → 256 <= PML4E (u64 (P2V f + 8 * i)).
Proof.
  intros [Hf Hb] Hi. rewrite P2V_add by lia. unfold KERNEL_VIRT.
  rewrite wrap_small by dlia. rewrite PML4E_spec. dlia.
Qed.

Lemma low_not_RE va : 0 <= va < 2 ^ 47 → PML4E va ≠ MMU_RE.
Proof. intros Hva. pose proof (low_index va Hva). unfold MMU_RE. lia. Qed.

Lemma low_canonical va : 0 <= va < 2 ^ 47 → canonical va = true.
Proof. intros. unfold canonical. rewrite (proj2 (Z.leb_le _ _)), (proj2 (Z.ltb_lt _ _)) by lia. done. Qed.

Lemma tree_guarded s P lv c va :
  paged D s P lv c → unshared (ram s) (cr3 s) lv → 0 <= va < 2 ^ 47 → guarded D s va.
Proof.
  intros G U Hva f i a Hf Hi Ha Hb. destruct (pg_direct _ _ _ _ _ G f Hf) as [Hok _].
  destruct (leaf_slot_path _ _ _ (pg_wf _ _ _ _ _ G) U va (u64 (P2V f + 8 * i)) a) as (E & _);
    [by apply low_index|by apply direct_index|done..|].
  pose proof (direct_index_high f i Hok Hi). pose proof (low_index va Hva). lia.
Qed.

(** *** Writing a frame that is neither a table nor free *)

Definition quiet (s : kstate) (P : pools) (lv : Z → Z) (f : Z) : Prop :=
  f mod 4096 = 0 ∧ lv f = 0 ∧ ∀ p, p ∈ free_pool P → frame_of s p ≠ f.

Section write.
Context (s : kstate) (P : pools) (lv : Z → Z) (c : nat) (f o v : Z).
Hypotheses (G : paged D s P lv c) (Q : quiet s P lv f) (Ho : 0 <= o < 4096).
Let r' := ram_set_byte (ram s) (f + o) v.

Lemma write_tables : same_tables lv (ram s) r'.
Proof. destruct Q as (? & ? & _). by eapply same_tables_set; [apply G|..]. Qed.

Lemma write_frame g i : g mod 4096 = 0 → 0 <= i < 512 → g ≠ f → r' (g + 8 * i) = ram s (g + 8 * i).
Proof.
  intros Hg Hi Hne. apply ram_set_ne. replace ((f + o) / 8 * 8) with (f + 8 * (o / 8)).
  - intros [? _]%slot_inj; [done|done|apply Q|done|dlia].
  - destruct Q as [? _]. dlia.
Qed.

Lemma paged_write : paged D (put_ram r' s) P lv c.
Proof.
  pose proof (pg_wf _ _ _ _ _ G) as W. pose proof write_tables as S. destruct G. split; try done.
  - destruct pg_repr. by split.
  - by apply (pt_wf_outside (ram s)).
  - intros g Hg. destruct (pg_direct g Hg) as [Hok [Hz Hw]]. split; [done|]. split; [done|].
    intros i Hi. apply (mapped_outside (ram s) _ _ lv); [done..|by apply direct_index|by apply Hw].
  - intros p Hp. pose proof Hp as (k & Hk%list_elem_of_lookup_2 & _)%elem_of_take.
    destruct (pg_free p Hp) as ([? ?] & ? & ? & Hb & ?). split_and!; [done..| |done].
    intros i Hi. cbn. rewrite write_frame; [by apply Hb|done..|]. by apply Q.
Qed.

Lemma taken_write : taken s P lv [f] (put_ram r' s) P lv.
Proof.
  pose proof write_tables as S. split; try done.
  - by left.
  - intros g i Hg Hi Hl Hne. cbn. apply write_frame; [done..|]. set_solver.
  - intros U. cbn. by eapply unshared_outside.
  - intros va Hva Hs d. unfold small in Hs. cbn. rewrite (dir_slot_outside (ram s) _ _ lv); [|apply G|done..].
    intros Hd. destruct (dir_levels _ _ _ (pg_wf _ _ _ _ _ G) va Hva _ Hd) as (_ & L2 & _ & _ & E).
    rewrite E in *. unfold slot2 in *. rewrite S by (lia || auto with words). by apply Hs.
Qed.

Lemma mapped_write va pa :
  PML4E va ≠ MMU_RE → mapped (ram s) (cr3 s) va pa → mapped r' (cr3 s) va pa.
Proof. apply mapped_outside with (lv := lv); [apply G|apply write_tables]. Qed.
End write.

(** *** The pages mapped so far *)

(** From [s] to [t], the pages [A] (numbers, with their frames) have been
    mapped to frames taken from the free pool, and may have been written. *)
Record loaded (s : kstate) (P : pools) (lv : Z → Z) (A : list (Z * Z)) (t : kstate) (P' : pools)
    (lv' : Z → Z) (c : nat) : Prop := {
  ld_paged : paged D t P' lv' c;
  ld_tree : unshared (ram t) (cr3 t) lv';
  ld_taken : taken s P lv A.*2 t P' lv';
  ld_kept : ∀ x pa, PML4E x ≠ MMU_RE → (x / 4096 ∉ A.*1) →
    mapped (ram s) (cr3 s) x pa → mapped (ram t) (cr3 t) x pa;
  ld_new : ∀ n f, (n, f) ∈ A → (0 <= n < 2 ^ 35 ∧ frame_ok f ∧ lv' f = 0) ∧
    (∃ p, p ∈ free_pool P ∧ (p ∉ free_pool P') ∧ f = frame_of s p) ∧
    ∀ o, 0 <= o < 4096 → mapped (ram t) (cr3 t) (n * 4096 + o) (f + o);
  ld_distinct : NoDup A.*2;
}.

Lemma loaded_refl s P lv c :
  paged D s P lv c → unshared (ram s) (cr3 s) lv → loaded s P lv [] s P lv c.
Proof.
  intros G U. split; [done|done|by apply taken_refl|done| |constructor].
  intros n f []%elem_of_nil.
Qed.

Lemma page_low n o : 0 <= n < 2 ^ 35 → 0 <= o < 4096 →
  0 <= n * 4096 + o < 2 ^ 47 ∧ (n * 4096 + o) / 4096 = n.
Proof. intros. split; [lia|dlia]. Qed.

(** A frame handed out before is not handed out again. *)
Lemma given_frame s P p p' f : (∃ lv c, paged D s P lv c) →
  p ∈ free_pool P → p' ∈ free_pool P → f = frame_of s p → f = frame_of s p' → p = p'.
Proof. intros (lv & c & G) Hp Hp' -> E. by eapply (pg_distinct _ _ _ _ _ G). Qed.

Section trans.
Context (s : kstate) (P : pools) (lv : Z → Z) (A : list (Z * Z)) (t : kstate) (P' : pools) (lv' : Z → Z).
Context (B : list (Z * Z)) (u : kstate) (P'' : pools) (lv'' : Z → Z) (c0 c1 c2 : nat).
Hypotheses (G : paged D s P lv c0) (LA : loaded s P lv A t P' lv' c1).
Hypothesis LB : loaded t P' lv' B u P'' lv'' c2.
Hypothesis Hdis : ∀ n, n ∈ A.*1 → n ∈ B.*1 → False.

(** The frames of [A] are neither taken nor written on the way to [u]. *)
Lemma loaded_frame f : f ∈ A.*2 → lv'' f = 0 ∧ f ∉ B.*2.
Proof.
  intros ([n f'] & -> & Hf)%list_elem_of_fmap. cbn.
  destruct (ld_new _ _ _ _ _ _ _ _ LA n f' Hf) as ((_ & _ & Hl) & (p & Hp & Hp' & Ef) & _).
  pose proof (ld_taken _ _ _ _ _ _ _ _ LA) as TA.
  assert (Hno : ∀ p2, p2 ∈ free_pool P' → f' = frame_of t p2 → False).
  { intros p2 Hp2 E. rewrite (tk_frame _ _ _ _ _ _ _ TA) in E. apply Hp'.
    rewrite (given_frame s P p p2 f'); eauto. by apply (tk_free _ _ _ _ _ _ _ TA). }
  split.
  - destruct (tk_lv _ _ _ _ _ _ _ (ld_taken _ _ _ _ _ _ _ _ LB) f') as [->|(_ & p2 & Hp2 & _ & E)]; [done|].
    exfalso. eauto.
  - intros ([n2 f2] & E & Hf2)%list_elem_of_fmap. cbn in E. subst f2.
    destruct (ld_new _ _ _ _ _ _ _ _ LB n2 f' Hf2) as (_ & (p2 & Hp2 & _ & E2) & _). eauto.
Qed.

Lemma loaded_page_kept n f o pa : (n, f) ∈ A → 0 <= o < 4096 →
  mapped (ram t) (cr3 t) (n * 4096 + o) pa → mapped (ram u) (cr3 u) (n * 4096 + o) pa.
Proof.
  intros HA Ho. destruct (ld_new _ _ _ _ _ _ _ _ LA n f HA) as ((Hn & _) & _).
  destruct (page_low n o Hn Ho) as [Hlow Hdiv]. apply (ld_kept _ _ _ _ _ _ _ _ LB).
  - by apply low_not_RE.
  - rewrite Hdiv. intros HB. apply (Hdis n); [|done]. apply list_elem_of_fmap. by exists (n, f).
Qed.

Lemma loaded_trans : loaded s P lv (A ++ B) u P'' lv'' c2.
Proof.
  pose proof (ld_taken _ _ _ _ _ _ _ _ LA) as TA. pose proof (ld_taken _ _ _ _ _ _ _ _ LB) as TB.
  split; [apply LB|apply LB|..].
  - rewrite fmap_app. by eapply taken_trans.
  - intros x pa Hx. rewrite fmap_app, not_elem_of_app. intros [NA NB] Hm.
    by apply (ld_kept _ _ _ _ _ _ _ _ LB), (ld_kept _ _ _ _ _ _ _ _ LA).
  - intros n f [HA|HB]%elem_of_app.
    + destruct (ld_new _ _ _ _ _ _ _ _ LA n f HA) as ((? & ? & _) & (p & Hp & Hp' & Ef) & Hm).
      destruct (loaded_frame f) as [Hl _]; [apply list_elem_of_fmap; by exists (n, f)|].
      split; [done|split].
      * exists p. split_and!; [done| |done]. intros ?. by apply Hp', (tk_free _ _ _ _ _ _ _ TB).
      * intros o Ho. eapply loaded_page_kept; eauto.
    + destruct (ld_new _ _ _ _ _ _ _ _ LB n f HB) as (Hl & (p & Hp & Hp' & Ef) & Hm).
      split; [done|split; [|done]]. exists p.
      split_and!; [by apply (tk_free _ _ _ _ _ _ _ TA)|done|]. by rewrite <- (tk_frame _ _ _ _ _ _ _ TA).
  - rewrite fmap_app. apply NoDup_app. split_and!; [apply LA| |apply LB].
    intros f HA. by apply loaded_frame.
Qed.
End trans.

(** One call of [mmu_req_page]. *)
Lemma returns_req_user_page c s P lv va fl :
  paged D s P lv (4 + c) → unshared (ram s) (cr3 s) lv → 0 <= va < 2 ^ 47 →
  small s (ROUND_DOWN va PAGE_SIZE) → 0 <= fl < 4096 → present fl = true →
  returns (mmu_req_page va fl) s (λ q t, ∃ f P' lv' pg,
    loaded s P lv [(va / 4096, f)] t P' lv' c ∧
    q ≠ 0 ∧ store t !! q = Some pg ∧ data pg = ROUND_DOWN va PAGE_SIZE).
Proof.
  intros G U Hva Hsm Hfl Hp. pose proof (pg_ready _ _ _ _ _ G) as Hn. set (pg := ROUND_DOWN va PAGE_SIZE) in *.
  assert (Epg : pg = va / 4096 * 4096) by (unfold pg; rewrite ROUND_DOWN_page by lia; dlia).
  assert (Hpg : 0 <= pg < 2 ^ 47) by dlia.
  destruct P as [[|p F] Us Ls] eqn:EP; [cbn in Hn; lia|]. rewrite <- EP in *.
  assert (Ha : spec_alloc P = Some (p, Pools F (p :: Us) (Ls ++ [p]))) by by rewrite EP.
  assert (HF : length (free_pool P) = S (length F)) by by rewrite EP.
  ret_use (returns_mmu_req_page D c); [exact G|by apply low_not_RE|by eapply tree_guarded|done|exact Ha|].
  fold pg. intros q t (fp & P' & lv' & a & -> & Ef & Hok & PM & G' & T & Hpz & Hin & Hout & Hl).
  destruct (pm_data _ _ _ _ _ _ _ PM) as [flg Hst].
  pose proof (tk_tree _ _ _ _ _ _ _ T U) as U'. pose proof (pm_slot _ _ _ _ _ _ _ PM) as Hslot.
  exists (address fp), P', lv', (with_data pg (with_flags flg fp)). split_and!; [|done..].
  split; [done|done| | | |cbn; apply NoDup_singleton].
  - destruct T as [? ? ? ? Hr ? ?]. split; try done.
    intros f i Hf Hi Hlf _. apply Hr; [done..|]. set_solver.
  - cbn. intros x pa Hx Hne Hm. apply PM; [done..|]. intros Hs.
    pose proof (leaf_slot_page _ _ _ pg x a (pg_wf _ _ _ _ _ G') U' Hpg) as E.
    destruct Hm as [Hcan _]. specialize (E Hcan Hx Hslot Hs). apply Hne.
    apply list_elem_of_singleton. rewrite <- E, Epg. dlia.
  - intros n f [= -> ->]%list_elem_of_singleton. split_and!; [dlia|dlia|done|done| |].
    + by exists p.
    + intros o Ho. rewrite <- Epg. destruct Hok as [? ?].
      apply (page_mapped_mapped D s p pg fl fp t a); try done; [by apply low_canonical|rewrite Epg; dlia|lia].
Qed.

(** Writing one byte of a page that was mapped. *)
Lemma loaded_quiet s P lv A t P' lv' c0 c n f :
  paged D s P lv c0 → loaded s P lv A t P' lv' c → (n, f) ∈ A → quiet t P' lv' f.
Proof.
  intros G L HA. destruct (ld_new _ _ _ _ _ _ _ _ L n f HA) as ((_ & [? _] & ?) & (p & Hp & Hp' & Ef) & _).
  split_and!; [done..|]. intros p2 Hp2 E. pose proof (ld_taken _ _ _ _ _ _ _ _ L) as T.
  rewrite (tk_frame _ _ _ _ _ _ _ T) in E. apply Hp'.
  rewrite (given_frame s P p p2 f); eauto. by apply (tk_free _ _ _ _ _ _ _ T).
Qed.

Lemma loaded_write s P lv A t P' lv' c0 c n f o v :
  paged D s P lv c0 → loaded s P lv A t P' lv' c → (n, f) ∈ A → 0 <= o < 4096 →
  loaded s P lv A (put_ram (ram_set_byte (ram t) (f + o) v) t) P' lv' c.
Proof.
  intros G L HA Ho. pose proof (loaded_quiet _ _ _ _ _ _ _ _ _ _ _ G L HA) as Q.
  pose proof (ld_paged _ _ _ _ _ _ _ _ L) as G'.
  pose proof (taken_write t P' lv' c f o v G' Q Ho) as T'.
  split.
  - by apply paged_write.
  - by apply T', L.
  - destruct (taken_trans _ _ _ _ _ _ _ _ _ _ _ (ld_taken _ _ _ _ _ _ _ _ L) T') as [? ? ? ? Hr ? ?].
    split; try done. intros g i Hg Hi Hl Hne. apply Hr; [done..|].
    apply not_elem_of_app. split; [done|]. intros ->%list_elem_of_singleton.
    apply Hne, list_elem_of_fmap. by exists (n, f).
  - intros x pa Hx Hne Hm. apply (mapped_write t P' lv' c); [done..|]. by apply (ld_kept _ _ _ _ _ _ _ _ L).
  - intros m g Hg. destruct (ld_new _ _ _ _ _ _ _ _ L m g Hg) as (Hl & Hex & Hm). split; [done|split; [done|]].
    intros o' Ho'. apply (mapped_write t P' lv' c); [done..| |by apply Hm].
    apply low_not_RE, page_low; [apply Hl|done].
  - apply L.
Qed.

(** *** Memory of the kernel's half that is left alone *)

(** The byte at [x] of the kernel's half, in a frame that is neither a table
    nor free. *)
Definition readable (s : kstate) (P : pools) (lv : Z → Z) (x b : Z) : Prop :=
  0 <= x < 2 ^ 64 ∧ 256 <= PML4E x ∧ PML4E x ≠ MMU_RE ∧
  ∃ pa, mapped (ram s) (cr3 s) x pa ∧ quiet s P lv (pa / 4096 * 4096) ∧ ram_byte (ram s) pa = b.

Lemma readable_load s P lv x b : readable s P lv x b → load8 x s = Ok b s.
Proof.
  intros (_ & _ & _ & pa & Hm & _ & Hb). unfold load8. by rewrite (mapped_translate _ _ _ _ Hm), Hb.
Qed.

(** No page of the kernel's half has been mapped. *)
Lemma loaded_high s P lv A t P' lv' c x :
  loaded s P lv A t P' lv' c → 256 <= PML4E x → x / 4096 ∉ A.*1.
Proof.
  intros L Hhigh ([n f] & En & HA)%list_elem_of_fmap. cbn in En.
  destruct (ld_new _ _ _ _ _ _ _ _ L n f HA) as ((Hn & _) & _).
  destruct (page_low n (x mod 4096) Hn) as [Hlow _]; [dlia|].
  replace (n * 4096 + x mod 4096) with x in Hlow by dlia.
  pose proof (low_index x Hlow). lia.
Qed.

(** A frame that was quiet is so afterwards, with the same contents. *)
Lemma loaded_quiet_frame s P lv A t P' lv' c f :
  loaded s P lv A t P' lv' c → quiet s P lv f →
  quiet t P' lv' f ∧ (f ∉ A.*2) ∧ ∀ i, 0 <= i < 512 → ram t (f + 8 * i) = ram s (f + 8 * i).
Proof.
  intros L (Hf & Hl & Hq). pose proof (ld_taken _ _ _ _ _ _ _ _ L) as T.
  assert (Hl' : lv' f = 0).
  { destruct (tk_lv _ _ _ _ _ _ _ T f) as [->|(_ & p & Hp & _ & ->)]; [done|]. by destruct (Hq p). }
  assert (HA : f ∉ A.*2).
  { intros ([n g] & -> & HA)%list_elem_of_fmap. cbn in *.
    destruct (ld_new _ _ _ _ _ _ _ _ L n g HA) as (_ & (p & Hp & _ & ->) & _). by destruct (Hq p). }
  unfold quiet. split_and!; [done|done| |done|].
  - intros p Hp. rewrite (tk_frame _ _ _ _ _ _ _ T). by apply Hq, (tk_free _ _ _ _ _ _ _ T).
  - intros i Hi. by apply T.
Qed.

Lemma readable_loaded s P lv A t P' lv' c x b :
  loaded s P lv A t P' lv' c → readable s P lv x b → readable t P' lv' x b.
Proof.
  intros L (Hx & Hhigh & Hre & pa & Hm & Hq & Hb).
  destruct (loaded_quiet_frame _ _ _ _ _ _ _ _ _ L Hq) as (Hq' & _ & Hr).
  do 3 (split; [done|]). exists pa. split_and!; [|done|].
  - apply (ld_kept _ _ _ _ _ _ _ _ L); [done|by eapply loaded_high|done].
  - rewrite <- Hb. by eapply ram_byte_frame.
Qed.

(** A field of the kernel's half keeps its value. *)
Lemma load_bytes_loaded s P lv A t P' lv' c n x v :
  loaded s P lv A t P' lv' c → (∀ k, 0 <= k < Z.of_nat n → ∃ b, readable s P lv (x + k) b) →
  load_bytes n x s = Ok v s → load_bytes n x t = Ok v t.
Proof.
  intros L. revert x v. induction n as [|n IH]; intros x v Hr; [by intros [= <-]|].
  destruct (Hr 0) as [b Hb]; [lia|]. rewrite Z.add_0_r in Hb. cbn [load_bytes].
  rewrite (bind_ok _ _ _ _ _ (readable_load _ _ _ _ _ Hb)).
  rewrite (bind_ok _ _ _ _ _ (readable_load _ _ _ _ _ (readable_loaded _ _ _ _ _ _ _ _ _ _ L Hb))).
  assert (Hn : ∀ w, load_bytes n (u64 (x + 1)) s = Ok w s → load_bytes n (u64 (x + 1)) t = Ok w t).
  { destruct n as [|n]; [by intros w [= <-]|]. intros w. apply IH. intros k Hk.
    destruct (Hr 1) as [b1 (Hx1 & _)]; [lia|]. rewrite (wrap_small 64 (x + 1)) by lia.
    destruct (Hr (1 + k)) as [b' Hb']; [lia|]. exists b'. by rewrite <- Z.add_assoc. }
  unfold mbind, M_bind. destruct (load_bytes n (u64 (x + 1)) s) as [w s'|e s'] eqn:E; [|done].
  intros [= <- ->]. by rewrite (Hn w).
Qed.
End pages.
