(* ===== verification/Elf.v ===== *)
(** The ELF loader, [src/elf.c]: the headers of [include/arch/x86_64/elf.h] as
    they lie in memory, [elf_objdump] and [elf_load], and the headers that the
    loader visits. *)

From S2P Require Import Prelude Kernel KList State Paging Bytes Frame Mmu.

Open Scope Z_scope.

(** ** elf.h *)

Definition sizeof_Elf64_Phdr : Z := 56.
Definition PT_LOAD : Z := 1.

Section elf.
Context `{MMU, Layout}.

(** Fields of an [Elf64_Ehdr*]. *)
Definition e_ident0 (h : Z) : M kstate Z := load8 h.
Definition e_type (h : Z) : M kstate Z := load16 (u64 (h + 16)).
Definition e_version (h : Z) : M kstate Z := load32 (u64 (h + 20)).
Definition e_entry (h : Z) : M kstate Z := load64 (u64 (h + 24)).
Definition e_phoff (h : Z) : M kstate Z := load64 (u64 (h + 32)).
Definition e_flags (h : Z) : M kstate Z := load32 (u64 (h + 48)).
Definition e_phentsize (h : Z) : M kstate Z := load16 (u64 (h + 54)).
Definition e_phnum (h : Z) : M kstate Z := load16 (u64 (h + 56)).

(** Fields of an [Elf64_Phdr*]. *)
Definition p_type (p : Z) : M kstate Z := load32 p.
Definition p_offset (p : Z) : M kstate Z := load64 (u64 (p + 8)).
Definition p_vaddr (p : Z) : M kstate Z := load64 (u64 (p + 16)).
Definition p_paddr (p : Z) : M kstate Z := load64 (u64 (p + 24)).
Definition p_filesz (p : Z) : M kstate Z := load64 (u64 (p + 32)).
Definition p_memsz (p : Z) : M kstate Z := load64 (u64 (p + 40)).
Definition p_align (p : Z) : M kstate Z := load64 (u64 (p + 48)).

(** [phdr + n] for an [Elf64_Phdr*], and one past the last header: the
    product of the two 16-bit fields is an [int]. *)
Definition phdr_at (phdr n : Z) : Z := u64 (phdr + sizeof_Elf64_Phdr * n).
Definition last_header (ehdr phdr : Z) : M kstate Z :=
  size ← e_phentsize ehdr; num ← e_phnum ehdr; mret (phdr_at phdr (s32 (size * num))).

(** ** elf_objdump *)

Definition elf_types : list string := ["NONE"; "RELOCATABLE"; "EXECUTABLE"; "SHARED"; "CORE"].

(** [while(phdr < last_phdr)]: print each header. *)
Fixpoint dump_headers (fuel : nat) (phdr last_phdr : Z) : M kstate () :=
  match fuel with
  | O => throw NoFuel
  | S fuel =>
      if phdr <? last_phdr then
        off ← p_offset phdr; va ← p_vaddr phdr; pa ← p_paddr phdr;
        fsz ← p_filesz phdr; msz ← p_memsz phdr; al ← p_align phdr;
        printf "LOAD:\toff 0x%x\tvaddr\t0x%x\tpaddr\t0x%x\n\t\tfilesz\t%d\tmemsz\t%d\talign\t%d\t\n"
          [AInt off; AInt va; AInt pa; AInt fsz; AInt msz; AInt al];;
        dump_headers fuel (phdr_at phdr 1) last_phdr
      else skip
  end.

Definition elf_objdump (fuel : nat) (data : Z) : M kstate () :=
  printf "OBJDUMP\n" [];;
  i ← e_ident0 data; printf "ELF ident\t%x\t" [AInt i];;
  t ← e_type data;
  (match elf_types !! Z.to_nat t with
   | Some name => printf "Type %s\t" [AStr name]
   | None => throw (OutOfBounds t)
   end);;
  printf "Machine %s\n" [AStr "i386"];;
  v ← e_version data; printf "Version \t%x\t" [AInt v];;
  e ← e_entry data; printf "Entry\t%x\t" [AInt e];;
  f ← e_flags data; printf "Flags\t%x\n" [AInt f];;
  (* the offset is added to a pointer to headers *)
  off ← e_phoff data;
  let phdr := phdr_at data off in
  last_phdr ← last_header data phdr;
  dump_headers fuel phdr last_phdr.

(** ** elf_load *)

(** [for (i = 0; i <= phdr->p_memsz; i += 0x1000)]. *)
Fixpoint map_segment (fuel : nat) (phdr i : Z) : M kstate () :=
  match fuel with
  | O => throw NoFuel
  | S fuel =>
      msz ← p_memsz phdr;
      if i <=? msz then
        va ← p_vaddr phdr;
        p ← mmu_req_page (u64 (va + i)) (Z.lor PRESENT (Z.lor RW USER));
        pg ← load_page p;
        va ← p_vaddr phdr;
        if negb (data pg =? ROUND_DOWN (u64 (va + i)) PAGE_SIZE) then skip
        else map_segment fuel phdr (u64 (i + 0x1000))
      else skip
  end.

Definition load_segment (fuel : nat) (data phdr : Z) : M kstate () :=
  map_segment fuel phdr 0;;
  (va ← p_vaddr phdr; msz ← p_memsz phdr; memset va 0 msz);;
  (va ← p_vaddr phdr; off ← p_offset phdr; fsz ← p_filesz phdr; memcpy va (u64 (data + off)) fsz).

(** [while(phdr < last_phdr)]. *)
Fixpoint load_headers (fuel : nat) (data phdr last_phdr : Z) : M kstate () :=
  match fuel with
  | O => throw NoFuel
  | S fuel =>
      if phdr <? last_phdr then
        t ← p_type phdr;
        if negb (t =? PT_LOAD) then load_headers fuel data (phdr_at phdr 1) last_phdr
        else
          load_segment fuel data phdr;;
          load_headers fuel data (phdr_at phdr 1) last_phdr
      else skip
  end.

Definition elf_load (fuel : nat) (data : Z) : M kstate () :=
  off ← e_phoff data;
  let phdr := u64 (data + off) in
  last_phdr ← last_header data phdr;
  load_headers fuel data phdr last_phdr.

(** ** Which headers are visited *)

(** A load that succeeds, and changes nothing. *)
Definition loads (c : M kstate Z) (s : kstate) (v : Z) : Prop := c s = Ok v s.

(** A file at [data] in memory, as far as its header goes. *)
Record elf_header (s : kstate) (data off size num : Z) : Prop := {
  eh_phoff : loads (e_phoff data) s off;
  eh_phentsize : loads (e_phentsize data) s size;
  eh_phnum : loads (e_phnum data) s num;
  eh_count : 0 <= size * num < 2 ^ 31;
  eh_room : 0 <= data + off ∧ data + off + 56 * (size * num) < 2 ^ 64;
}.

(** Header [j]. *)
Definition header (data off j : Z) : Z := data + off + 56 * j.

Lemma elf_load_start fuel s data off size num :
  elf_header s data off size num →
  elf_load fuel data s =
    load_headers fuel data (header data off 0) (header data off (size * num)) s.
Proof.
  intros [E1 E2 E3 Hc Hr]. unfold elf_load, last_header. rewrite (bind_ok _ _ _ _ _ E1).
  cbv zeta. rewrite bind_assoc, (bind_ok _ _ _ _ _ E2), bind_assoc, (bind_ok _ _ _ _ _ E3).
  unfold phdr_at, header, sizeof_Elf64_Phdr. rewrite sgn_small by lia.
  rewrite (wrap_small 64 (data + off)) by lia. rewrite wrap_small by lia.
  replace (data + off + 56 * 0) with (data + off) by lia. reflexivity.
Qed.

(** Passing over a header that is not to be loaded. *)
Lemma load_headers_skip fuel s data off n j t :
  0 <= header data off j → j < n → header data off n < 2 ^ 64 →
  loads (p_type (header data off j)) s t → t ≠ PT_LOAD →
  load_headers (S fuel) data (header data off j) (header data off n) s =
    load_headers fuel data (header data off (j + 1)) (header data off n) s.
Proof.
  intros H0' Hj Hn E Ht. cbn [load_headers]. unfold header in *.
  replace (data + off + 56 * j <? data + off + 56 * n) with true by lia.
  rewrite (bind_ok _ _ _ _ _ E), (proj2 (Z.eqb_neq _ _) Ht). cbn [negb].
  unfold phdr_at, sizeof_Elf64_Phdr. rewrite wrap_small by lia.
  by replace (data + off + 56 * j + 56 * 1) with (data + off + 56 * (j + 1)) by lia.
Qed.

Lemma load_headers_pass fuel s data off n j k :
  0 <= data + off → 0 <= j → j + Z.of_nat k <= n → header data off n < 2 ^ 64 →
  (∀ i, j <= i < j + Z.of_nat k → ∃ t, loads (p_type (header data off i)) s t ∧ t ≠ PT_LOAD) →
  load_headers (k + fuel) data (header data off j) (header data off n) s =
    load_headers fuel data (header data off (j + Z.of_nat k)) (header data off n) s.
Proof.
  intros H0' Hj Hk Hn Ht. revert j Hj Hk Ht. induction k as [|k IH]; intros j Hj Hk Ht.
  - by rewrite Z.add_0_r.
  - destruct (Ht j) as (t & E & Hne); [lia|]. cbn [Nat.add].
    rewrite (load_headers_skip _ _ _ _ _ _ t); [|unfold header; lia|lia|done|done|done].
    rewrite IH; [|lia|lia|intros i Hi; apply Ht; lia].
    by replace (j + 1 + Z.of_nat k) with (j + Z.of_nat (S k)) by lia.
Qed.

End elf.
