(* ===== verification/ElfLoad.v ===== *)
(** What [elf_load] leaves in memory: every segment of the file at its
    address, zeroes behind it, and everything that was in use before as it
    was. *)

From S2P Require Import Prelude Kernel KList State Paging Bytes Frame FrameSpec FrameRefine.
From S2P Require Import PagingWf PagingTree Mmu MmuSpec MmuMap UserPages Elf.

Open Scope Z_scope.

(** The fields of a program header that the loader uses. *)
Record phdr := Phdr { ph_type : Z; ph_off : Z; ph_va : Z; ph_fsz : Z; ph_msz : Z }.

(** The pages that [map_segment] asks for, by number. *)
Definition page_count (ph : phdr) : Z := ph_msz ph / 4096 + 1.
Definition seg_pages (ph : phdr) : list Z := seqZ (ph_va ph / 4096) (page_count ph).
Definition pages_of (hs : list phdr) : list Z :=
  hs ≫= λ ph, if ph_type ph =? PT_LOAD then seg_pages ph else [].

(** A segment in the lower half, whose last byte lies in the last page the
    loader maps. *)
Definition fits (ph : phdr) : Prop :=
  0 <= ph_va ph ∧ ph_va ph + ph_msz ph + 4096 <= 2 ^ 47 ∧ 0 <= ph_fsz ph <= ph_msz ph ∧
  ph_va ph mod 4096 + ph_msz ph <= 4096 * page_count ph.

Section load.
Context `{MMU, Layout}.
Context (D : Z → Prop).

(** The header at [h] reads as [ph], in memory that loading leaves alone. *)
Record header_at (s : kstate) (P : pools) (lv : Z → Z) (h : Z) (ph : phdr) : Prop := {
  ha_bytes : ∀ k, 0 <= k < sizeof_Elf64_Phdr → ∃ b, readable s P lv (h + k) b;
  ha_type : loads (p_type h) s (ph_type ph);
  ha_off : loads (p_offset h) s (ph_off ph);
  ha_va : loads (p_vaddr h) s (ph_va ph);
  ha_fsz : loads (p_filesz h) s (ph_fsz ph);
  ha_msz : loads (p_memsz h) s (ph_msz ph);
}.

Lemma field_loaded s P lv A t P' lv' c h n k v :
  loaded D s P lv A t P' lv' c → (∀ k, 0 <= k < sizeof_Elf64_Phdr → ∃ b, readable s P lv (h + k) b) →
  0 <= k → k + Z.of_nat n <= sizeof_Elf64_Phdr → (0 < n)%nat →
  loads (load_bytes n (u64 (h + k))) s v → loads (load_bytes n (u64 (h + k))) t v.
Proof.
  unfold sizeof_Elf64_Phdr. intros L Hb Hk Hn Hn0. destruct (Hb k) as [b (Hx & _)]; [lia|].
  rewrite (wrap_small 64 (h + k)) by lia. apply (load_bytes_loaded D _ _ _ _ _ _ _ _ _ _ _ L).
  intros j Hj. rewrite <- Z.add_assoc. apply Hb. lia.
Qed.

Lemma header_at_loaded s P lv A t P' lv' c h ph :
  loaded D s P lv A t P' lv' c → header_at s P lv h ph → header_at t P' lv' h ph.
Proof.
  intros L [Hb Ht Ho Hv Hf Hm].
  assert (Eh : h = u64 (h + 0)).
  { destruct (Hb 0) as [b (Hx & _)]; [done|]. rewrite (wrap_small 64 (h + 0)) by lia. lia. }
  split.
  - intros k Hk. destruct (Hb k Hk) as [b Hr]. exists b. by eapply readable_loaded.
  - change (loads (load_bytes 4 h) t (ph_type ph)). rewrite Eh.
    apply (field_loaded s P lv A t P' lv' c h 4 0); [done|done|lia|by cbv|lia|by rewrite <- Eh].
  - apply (field_loaded s P lv A t P' lv' c h 8 8); [done|done|lia|by cbv|lia|done].
  - apply (field_loaded s P lv A t P' lv' c h 8 16); [done|done|lia|by cbv|lia|done].
  - apply (field_loaded s P lv A t P' lv' c h 8 32); [done|done|lia|by cbv|lia|done].
  - apply (field_loaded s P lv A t P' lv' c h 8 40); [done|done|lia|by cbv|lia|done].
Qed.

Lemma returns_loads (c : M kstate Z) s v (Q : Z → kstate → Prop) :
  loads c s v → Q v s → returns c s Q.
Proof. intros E HQ. unfold returns. by rewrite E. Qed.

(** *** Mapping the pages of a segment *)

Section segment.
Context (s : kstate) (P : pools) (lv : Z → Z) (c0 : nat) (h : Z) (ph : phdr).
Hypotheses (G : paged D s P lv c0) (Hh : header_at s P lv h ph).
Hypotheses (Hfit : fits ph) (Hsm : ∀ n, n ∈ seg_pages ph → small s (n * 4096)).

(** From page [j] on, with [m] pages to go. *)
Lemma returns_map_segment c m : ∀ fuel j t A P' lv',
  (m < fuel)%nat → 0 <= j → j + Z.of_nat m = page_count ph →
  loaded D s P lv A t P' lv' (4 * m + c) → A.*1 = seqZ (ph_va ph / 4096) j →
  returns (map_segment fuel h (4096 * j)) t (λ _ u, ∃ B P'' lv'',
    loaded D s P lv B u P'' lv'' c ∧ B.*1 = seg_pages ph).
Proof.
  unfold page_count in *. destruct Hfit as (Hva & Htop & Hfsz & _).
  induction m as [|m IH]; intros [|fuel] j t A P' lv' Hf Hj Hm L EA; try lia;
    cbn [map_segment]; pose proof (header_at_loaded _ _ _ _ _ _ _ _ _ _ L Hh) as Ht;
    k_step; (eapply returns_loads; [by eapply ha_msz|]).
  { rewrite (proj2 (Z.leb_gt _ _)) by dlia. k_step. exists A, P', lv'.
    split; [done|]. rewrite EA. unfold seg_pages, page_count. f_equal. lia. }
  rewrite (proj2 (Z.leb_le _ _)) by dlia.
  k_step. eapply returns_loads; [by eapply ha_va|].
  set (va := ph_va ph + 4096 * j) in *. assert (Hvb : 0 <= va < 2 ^ 47) by dlia.
  rewrite (wrap_small 64 va) by lia.
  assert (En : va / 4096 = ph_va ph / 4096 + j) by dlia.
  assert (Hin : va / 4096 ∈ seg_pages ph).
  { apply elem_of_seqZ. unfold page_count. lia. }
  k_step. ret_use (returns_req_user_page D (4 * m + c));
    [replace (4 + (4 * m + c))%nat with (4 * S m + c)%nat by lia; apply L|apply L|exact Hvb| |by cbv|done|].
  { rewrite ROUND_DOWN_page by lia. apply (tk_small _ _ _ _ _ _ _ (ld_taken _ _ _ _ _ _ _ _ _ L)).
    - apply low_not_RE. dlia.
    - by apply Hsm. }
  intros q u (f & P'' & lv'' & pg & L1 & Hq & Hpg & Hdata).
  assert (LT : loaded D s P lv (A ++ [(va / 4096, f)]) u P'' lv'' (4 * m + c)).
  { eapply (loaded_trans D s P lv A t P' lv'); [done..|]. cbn. intros n Hn ->%list_elem_of_singleton.
    rewrite EA in Hn. apply elem_of_seqZ in Hn. lia. }
  pose proof (header_at_loaded _ _ _ _ _ _ _ _ _ _ LT Hh) as Hu.
  k_step. eapply returns_load_page; [done|exact Hpg|].
  k_step. eapply returns_loads; [by eapply ha_va|]. fold va.
  rewrite Hdata, (wrap_small 64 va), Z.eqb_refl by lia. cbn [negb].
  rewrite (wrap_small 64 (4096 * j + 4096)) by dlia.
  replace (4096 * j + 4096) with (4096 * (j + 1)) by lia.
  eapply IH; [lia|lia|lia|exact LT|].
  rewrite fmap_app, EA. cbn. rewrite seqZ_app, En by lia. done.
Qed.
End segment.

(** *** Filling a segment *)

(** The byte at [x], in the pages [A], is [b]. *)
Definition holds (t : kstate) (A : list (Z * Z)) (x b : Z) : Prop :=
  ∃ n f o, (n, f) ∈ A ∧ 0 <= o < 4096 ∧ x = n * 4096 + o ∧ ram_byte (ram t) (f + o) = b.

(** Where byte [i] of the segment lies. *)
Definition place (ph : phdr) (B : list (Z * Z)) (i : Z) : Z :=
  default 0 (B.*2 !! Z.to_nat ((ph_va ph + i) / 4096 - ph_va ph / 4096)) + (ph_va ph + i) mod 4096.

Section place.
Context (ph : phdr) (B : list (Z * Z)) (s : kstate) (P : pools) (lv : Z → Z).
Context (t : kstate) (P' : pools) (lv' : Z → Z) (c : nat).
Hypotheses (Hfit : fits ph) (EB : B.*1 = seg_pages ph) (L : loaded D s P lv B t P' lv' c).

Lemma place_page i : 0 <= i < ph_msz ph → ∃ f,
  let k := Z.to_nat ((ph_va ph + i) / 4096 - ph_va ph / 4096) in
  ((ph_va ph + i) / 4096, f) ∈ B ∧ B.*2 !! k = Some f ∧ place ph B i = f + (ph_va ph + i) mod 4096.
Proof.
  intros Hi. destruct Hfit as (Hva & _ & _ & Hspan). unfold page_count in Hspan.
  set (k := Z.to_nat ((ph_va ph + i) / 4096 - ph_va ph / 4096)).
  assert (Hk : B.*1 !! k = Some ((ph_va ph + i) / 4096)).
  { rewrite EB. apply lookup_seqZ. unfold k, page_count. split; dlia. }
  rewrite list_lookup_fmap in Hk. destruct (B !! k) as [[n f]|] eqn:E; [|done]. injection Hk as ->.
  assert (E2 : B.*2 !! k = Some f) by by rewrite list_lookup_fmap, E.
  exists f. split_and!; [by eapply list_elem_of_lookup_2|done|]. unfold place. fold k. by rewrite E2.
Qed.

Lemma place_inj i j : 0 <= i < ph_msz ph → 0 <= j < ph_msz ph → place ph B i = place ph B j → i = j.
Proof.
  intros Hi Hj. destruct (place_page i Hi) as (f & Hf & Ef & ->).
  destruct (place_page j Hj) as (g & Hg & Eg & ->). intros E.
  destruct (ld_new _ _ _ _ _ _ _ _ _ L _ _ Hf) as ((_ & [Af _] & _) & _).
  destruct (ld_new _ _ _ _ _ _ _ _ _ L _ _ Hg) as ((_ & [Ag _] & _) & _).
  assert (f = g) as -> by dlia.
  pose proof (NoDup_lookup _ _ _ _ (ld_distinct _ _ _ _ _ _ _ _ _ L) Ef Eg) as Ek.
  destruct Hfit as (Hva & _). dlia.
Qed.

Lemma place_translate i : 0 <= i < ph_msz ph →
  translate (ram t) (cr3 t) (u64 (ph_va ph + i)) = Some (place ph B i).
Proof.
  intros Hi. destruct (place_page i Hi) as (f & Hf & _ & ->). destruct Hfit as (Hva & Htop & _).
  destruct (ld_new _ _ _ _ _ _ _ _ _ L _ _ Hf) as (_ & _ & Hm).
  rewrite (wrap_small 64 (ph_va ph + i)) by lia. apply mapped_translate.
  specialize (Hm ((ph_va ph + i) mod 4096)). 
  replace ((ph_va ph + i) / 4096 * 4096 + (ph_va ph + i) mod 4096) with (ph_va ph + i) in Hm by dlia.
  apply Hm. dlia.
Qed.

Lemma place_write c0 i v : paged D s P lv c0 → 0 <= i < ph_msz ph →
  loaded D s P lv B (put_ram (ram_set_byte (ram t) (place ph B i) v) t) P' lv' c.
Proof.
  intros G Hi. destruct (place_page i Hi) as (f & Hf & _ & ->). eapply loaded_write; [done..|dlia].
Qed.

Lemma place_holds i b : 0 <= i < ph_msz ph → ram_byte (ram t) (place ph B i) = b →
  holds t B (ph_va ph + i) b.
Proof.
  intros Hi Hb. destruct (place_page i Hi) as (f & Hf & _ & E). rewrite E in Hb.
  exists ((ph_va ph + i) / 4096), f, ((ph_va ph + i) mod 4096). split_and!; [done|dlia..|done].
Qed.
End place.

(** The contents of the segment: the bytes of the file, then zeroes. *)
Definition content (fb : Z → Z) (ph : phdr) (k : Z) : Z :=
  if k <? ph_fsz ph then fb (ph_off ph + k) else 0.

(** The bytes of the segment in the file at [data]. *)
Definition file_bytes (s : kstate) (P : pools) (lv : Z → Z) (data : Z) (fb : Z → Z) (ph : phdr) : Prop :=
  ∀ k, 0 <= k < ph_fsz ph → readable s P lv (data + ph_off ph + k) (fb (ph_off ph + k)).

Lemma file_bytes_loaded s P lv A t P' lv' c data fb ph :
  loaded D s P lv A t P' lv' c → file_bytes s P lv data fb ph → file_bytes t P' lv' data fb ph.
Proof. intros L Hf k Hk. eapply readable_loaded; [exact L|by apply Hf]. Qed.

Lemma u64_add a b : u64 (u64 a + b) = u64 (a + b).
Proof. apply Zplus_mod_idemp_l. Qed.

(** Copying a segment into its pages, once they are mapped. *)
Section copy.
Context (s : kstate) (P : pools) (lv : Z → Z) (data h : Z) (ph : phdr) (fb : Z → Z).
Context (B : list (Z * Z)) (P' : pools) (lv' : Z → Z) (c0 c : nat).
Hypotheses (G : paged D s P lv c0) (Hfit : fits ph) (EB : B.*1 = seg_pages ph).
Hypothesis Hfile : file_bytes s P lv data fb ph.
Let Inv (u : kstate) : Prop := loaded D s P lv B u P' lv' c.
Let src : Z := u64 (data + ph_off ph).
Let from (k : Z) : Z := default 0 (translate (ram s) (cr3 s) (u64 (src + k))).

Lemma source_byte u k : Inv u → 0 <= k < ph_fsz ph →
  translate (ram u) (cr3 u) (u64 (src + k)) = Some (from k) ∧
  (from k / 4096 * 4096 ∉ B.*2) ∧ ram_byte (ram u) (from k) = fb (ph_off ph + k).
Proof.
  intros L Hk. pose proof (Hfile k Hk) as R. pose proof R as (Hx & _ & _ & pa & Hm & Hq & _).
  pose proof (readable_loaded _ _ _ _ _ _ _ _ _ _ _ L R) as (_ & _ & _ & pb & Hm' & _ & Hb').
  assert (Es : u64 (src + k) = data + ph_off ph + k).
  { unfold src. rewrite u64_add. by apply wrap_small. }
  unfold from. rewrite Es, (mapped_translate _ _ _ _ Hm). cbn.
  assert (Hmu : mapped (ram u) (cr3 u) (data + ph_off ph + k) pa).
  { destruct R as (_ & Hhigh & Hre & _).
    apply (ld_kept _ _ _ _ _ _ _ _ _ L); [done|by eapply loaded_high|done]. }
  pose proof (mapped_translate _ _ _ _ Hmu) as E. rewrite (mapped_translate _ _ _ _ Hm') in E.
  injection E as ->. split_and!; [by apply mapped_translate| |done].
  by apply (loaded_quiet_frame _ _ _ _ _ _ _ _ _ _ L Hq).
Qed.

Lemma place_frame u i : Inv u → 0 <= i < ph_msz ph → place ph B i / 4096 * 4096 ∈ B.*2.
Proof.
  intros L Hi. destruct (place_page ph B Hfit EB i Hi) as (f & Hf & _ & ->).
  destruct (ld_new _ _ _ _ _ _ _ _ _ L _ _ Hf) as ((_ & [Af _] & _) & _).
  apply list_elem_of_fmap. exists ((ph_va ph + i) / 4096, f). split; [cbn; dlia|done].
Qed.

Lemma returns_copy_segment u : Inv u → header_at s P lv h ph →
  returns ((va ← p_vaddr h; msz ← p_memsz h; memset va 0 msz);;
           (va ← p_vaddr h; off ← p_offset h; fsz ← p_filesz h; memcpy va (u64 (data + off)) fsz)) u
    (λ _ w, Inv w ∧ ∀ k, 0 <= k < ph_msz ph → holds w B (ph_va ph + k) (content fb ph k)).
Proof.
  intros L Hh. pose proof Hfit as (Hva & Htop & Hfsz & _).
  assert (Hwr : ∀ n w i v, n <= ph_msz ph → Inv w → 0 <= i < n →
    Inv (put_ram (ram_set_byte (ram w) (place ph B i) v) w)).
  { intros n w i v Hn Lw Hi. eapply place_write; [done..|lia]. }
  assert (Hinj : ∀ n i j, n <= ph_msz ph → 0 <= i < n → 0 <= j < n → place ph B i = place ph B j → i = j).
  { intros n i j Hn Hi Hj. apply (place_inj ph B s P lv u P' lv' c); done || lia. }
  assert (Htr : ∀ n w i, n <= ph_msz ph → Inv w → 0 <= i < n →
    translate (ram w) (cr3 w) (u64 (ph_va ph + i)) = Some (place ph B i)).
  { intros n w i Hn Lw Hi. apply (place_translate ph B s P lv w P' lv' c); done || lia. }
  pose proof (header_at_loaded _ _ _ _ _ _ _ _ _ _ L Hh) as Hu.
  k_step. k_step. eapply returns_loads; [by eapply ha_va|]. k_step. eapply returns_loads; [by eapply ha_msz|].
  ret_use (returns_memset (ph_msz ph) (place ph B) Inv); [by intros; eapply Hinj|by intros; eapply Hwr|by intros; eapply Htr|lia|done|].
  intros _ v (Lv & Hzero & _). pose proof (header_at_loaded _ _ _ _ _ _ _ _ _ _ Lv Hh) as Hv.
  k_step. eapply returns_loads; [by eapply ha_va|]. k_step. eapply returns_loads; [by eapply ha_off|].
  k_step. eapply returns_loads; [by eapply ha_fsz|]. fold src.
  ret_use (returns_memcpy (ph_fsz ph) (place ph B) Inv); [..|lia|done| | |].
  - intros; eapply Hinj; done || lia.
  - intros; eapply Hwr; done || lia.
  - intros; eapply Htr; done || lia.
  - intros w i Lw Hi. by apply (source_byte w i Lw Hi).
  - intros i j Hi Hj E. destruct (source_byte v i Lv Hi) as (_ & Hno & _). apply Hno. rewrite E.
    apply (place_frame v); [done|lia].
  - intros _ w (Lw & Hcopy & Hrest). split; [done|]. intros k Hk.
    apply (place_holds ph B w); [done..|]. unfold content.
    destruct (Z.ltb_spec k (ph_fsz ph)) as [Hlt|Hge].
    + rewrite Hcopy, u8_ram_byte by lia. by destruct (source_byte v k Lv) as (_ & _ & ->); [lia|].
    + rewrite Hrest; [by rewrite Hzero|]. intros i Hi E. apply Hinj with (n := ph_msz ph) in E; lia.
Qed.
End copy.

(** One loadable segment. *)
Lemma returns_load_segment c fuel data h ph fb s P lv :
  paged D s P lv (4 * Z.to_nat (page_count ph) + c) → unshared (ram s) (cr3 s) lv →
  header_at s P lv h ph → fits ph →
  (∀ n, n ∈ seg_pages ph → small s (n * 4096)) → file_bytes s P lv data fb ph →
  (Z.to_nat (page_count ph) < fuel)%nat →
  returns (load_segment fuel data h) s (λ _ t, ∃ B P' lv',
    loaded D s P lv B t P' lv' c ∧ B.*1 = seg_pages ph ∧
    ∀ k, 0 <= k < ph_msz ph → holds t B (ph_va ph + k) (content fb ph k)).
Proof.
  intros G U Hh Hfit Hsm Hfile Hf. unfold load_segment. k_step.
  assert (Hcount : 0 <= page_count ph) by (destruct Hfit as (? & ? & ? & ?); unfold page_count in *; dlia).
  pose proof (returns_map_segment s P lv _ h ph G Hh Hfit Hsm c (Z.to_nat (page_count ph))
    fuel 0 s [] P lv Hf ltac:(lia) ltac:(lia) (loaded_refl D s P lv _ G U) eq_refl) as Hmap.
  eapply returns_mono; [exact Hmap|]. cbv beta. intros _ u (B & P' & lv' & L & EB).
  eapply returns_mono; [by eapply returns_copy_segment|]. cbv beta. intros _ w [Lw Hw]. eauto 8.
Qed.

(** *** All headers *)

Lemma holds_kept s P lv A t P' lv' B u P'' lv'' c0 c1 c2 x b :
  paged D s P lv c0 → loaded D s P lv A t P' lv' c1 → loaded D t P' lv' B u P'' lv'' c2 →
  holds t A x b → holds u (A ++ B) x b.
Proof.
  intros G LA LB (n & f & o & HA & Ho & -> & Hb). exists n, f, o.
  split; [set_solver|]. split; [done|]. split; [done|].
  destruct (ld_new _ _ _ _ _ _ _ _ _ LA n f HA) as ((_ & [Hf _] & _) & _).
  destruct (loaded_frame D s P lv A t P' lv' B u P'' lv'' _ _ _ G LA LB f) as [Hl HB].
  { apply list_elem_of_fmap. by exists (n, f). }
  rewrite <- Hb. apply ram_byte_frame with (f := f); [dlia|]. intros i Hi.
  by apply (tk_ram _ _ _ _ _ _ _ (ld_taken _ _ _ _ _ _ _ _ _ LB)).
Qed.

Lemma holds_new t A B x b : holds t B x b → holds t (A ++ B) x b.
Proof. intros (n & f & o & HB & ?). exists n, f, o. split; [set_solver|done]. Qed.

Lemma pages_of_app hs1 hs2 : pages_of (hs1 ++ hs2) = pages_of hs1 ++ pages_of hs2.
Proof. apply bind_app. Qed.

Lemma pages_of_load ph hs : ph_type ph = PT_LOAD → pages_of (ph :: hs) = seg_pages ph ++ pages_of hs.
Proof. intros E. unfold pages_of. cbn. by rewrite E. Qed.

Lemma pages_of_other ph hs : ph_type ph ≠ PT_LOAD → pages_of (ph :: hs) = pages_of hs.
Proof. intros E. unfold pages_of. cbn. by rewrite (proj2 (Z.eqb_neq _ _) E). Qed.

(** The segments of [hs] are in the pages [A] of [t]. *)
Definition in_place (t : kstate) (A : list (Z * Z)) (fb : Z → Z) (hs : list phdr) : Prop :=
  ∀ ph k, ph ∈ hs → ph_type ph = PT_LOAD → 0 <= k < ph_msz ph →
    holds t A (ph_va ph + k) (content fb ph k).

(** A file at [data] whose loader visits the headers [hs]: they can be read,
    and the loadable segments fit, do not share a page, have their bytes in
    the file, and lie where no large page is. *)
Record loadable (s : kstate) (P : pools) (lv : Z → Z) (data off : Z) (fb : Z → Z)
    (hs : list phdr) : Prop := {
  lo_room : 0 <= data + off ∧ header data off (Z.of_nat (length hs)) < 2 ^ 64;
  lo_header : ∀ i ph, hs !! i = Some ph → header_at s P lv (header data off (Z.of_nat i)) ph;
  lo_fits : ∀ ph, ph ∈ hs → ph_type ph = PT_LOAD → fits ph ∧ file_bytes s P lv data fb ph;
  lo_pages : NoDup (pages_of hs);
  lo_small : ∀ n, n ∈ pages_of hs → small s (n * 4096);
}.

Section headers.
Context (s : kstate) (P : pools) (lv : Z → Z) (c0 : nat) (data off : Z) (fb : Z → Z) (hs : list phdr).
Hypotheses (G : paged D s P lv c0) (U : unshared (ram s) (cr3 s) lv).
Hypothesis HL : loadable s P lv data off fb hs.

(** After the headers [pre]. *)
Definition loaded_upto (pre : list phdr) (t : kstate) (c : nat) : Prop := ∃ A P' lv',
  loaded D s P lv A t P' lv' c ∧ A.*1 = pages_of pre ∧ in_place t A fb pre.

(** A loadable header. *)
Lemma returns_load_one fuel pre ph rest c t :
  hs = pre ++ ph :: rest → ph_type ph = PT_LOAD → (length (pages_of hs) < fuel)%nat →
  loaded_upto pre t (4 * length (seg_pages ph) + c) →
  returns (load_segment fuel data (header data off (Z.of_nat (length pre)))) t
    (λ _ u, loaded_upto (pre ++ [ph]) u c).
Proof.
  intros Ehs Ht Hf (A & P' & lv' & L & EA & Hin).
  assert (Hph : ph ∈ hs) by (rewrite Ehs; set_solver).
  destruct (lo_fits _ _ _ _ _ _ _ HL ph Hph Ht) as [Hfit Hfile].
  assert (Hh : header_at s P lv (header data off (Z.of_nat (length pre))) ph).
  { apply (lo_header _ _ _ _ _ _ _ HL). by rewrite Ehs, list_lookup_middle. }
  assert (Epages : pages_of hs = pages_of pre ++ seg_pages ph ++ pages_of rest).
  { by rewrite Ehs, pages_of_app, pages_of_load. }
  assert (Hlen : length (seg_pages ph) = Z.to_nat (page_count ph)) by apply length_seqZ.
  pose proof (lo_pages _ _ _ _ _ _ _ HL) as Hnd. rewrite Epages in Hnd.
  apply NoDup_app in Hnd as (_ & Hdis & _).
  eapply returns_mono; [eapply (returns_load_segment c)|];
    [rewrite <- Hlen; apply L|apply L|by eapply header_at_loaded|done| |by eapply file_bytes_loaded| |].
  - intros n Hn. assert (Hn' : n ∈ pages_of hs) by (rewrite Epages; set_solver).
    apply (tk_small _ _ _ _ _ _ _ (ld_taken _ _ _ _ _ _ _ _ _ L)); [|by apply (lo_small _ _ _ _ _ _ _ HL)].
    apply low_not_RE. apply elem_of_seqZ in Hn. destruct Hfit as (? & ? & ? & _).
    unfold page_count in Hn. dlia.
  - rewrite Epages, !length_app in Hf. lia.
  - cbv beta. intros _ u (B & P'' & lv'' & LB & EB & HB). exists (A ++ B), P'', lv''. split_and!.
    + eapply loaded_trans; [done..|]. intros n HA HB'. rewrite EA in HA. rewrite EB in HB'.
      by apply (Hdis n HA), elem_of_app; left.
    + rewrite fmap_app, EA, EB, pages_of_app, pages_of_load by done. by rewrite app_nil_r.
    + intros ph' k Hp Ht' Hk. apply elem_of_app in Hp as [Hp| ->%list_elem_of_singleton].
      * eapply holds_kept; [done..|]. by apply Hin.
      * by apply holds_new, HB.
Qed.

Lemma returns_load_headers c rest : ∀ pre fuel t,
  hs = pre ++ rest → (length rest + length (pages_of hs) + 1 < fuel)%nat →
  loaded_upto pre t (4 * length (pages_of rest) + c) →
  returns (load_headers fuel data (header data off (Z.of_nat (length pre)))
    (header data off (Z.of_nat (length hs)))) t (λ _ u, loaded_upto hs u c).
Proof.
  pose proof (lo_room _ _ _ _ _ _ _ HL) as [Hlo Hhi]. unfold header in Hhi.
  induction rest as [|ph rest IH]; intros pre [|fuel] t Ehs Hf I; try lia.
  - rewrite app_nil_r in Ehs. subst pre. cbn [load_headers]. rewrite Z.ltb_irrefl. by apply returns_ret.
  - assert (Hlen : (length hs = length pre + S (length rest))%nat) by by rewrite Ehs, length_app.
    assert (Ehs' : hs = (pre ++ [ph]) ++ rest) by by rewrite <- app_assoc.
    assert (Enext : header data off (Z.of_nat (length (pre ++ [ph]))) =
      phdr_at (header data off (Z.of_nat (length pre))) 1).
    { unfold phdr_at, header, sizeof_Elf64_Phdr. rewrite length_app, wrap_small; cbn; lia. }
    assert (Ht : loads (p_type (header data off (Z.of_nat (length pre)))) t (ph_type ph)).
    { destruct I as (A & P' & lv' & L & _). eapply ha_type, header_at_loaded; [exact L|].
      apply (lo_header _ _ _ _ _ _ _ HL). by rewrite Ehs, list_lookup_middle. }
    cbn [load_headers]. replace (header data off (Z.of_nat (length pre)) <? _) with true
      by (unfold header; lia).
    k_step. eapply returns_loads; [exact Ht|]. rewrite <- Enext.
    destruct (Z.eqb_spec (ph_type ph) PT_LOAD) as [E|E]; cbn [negb].
    + rewrite (pages_of_load _ _ E), length_app, Nat.mul_add_distr_l, <- Nat.add_assoc in I. k_step.
      ret_use returns_load_one; [done..|cbn in Hf; lia|exact I|].
      intros _ u Iu. apply IH; [done|cbn in Hf; lia|done].
    + rewrite (pages_of_other _ _ E) in I. apply IH; [done|cbn in Hf; lia|].
      destruct I as (A & P' & lv' & L & EA & Hin). exists A, P', lv'. split_and!; [done| |].
      * by rewrite pages_of_app, pages_of_other, app_nil_r.
      * intros ph' k Hp Ht' Hk. apply elem_of_app in Hp as [Hp| ->%list_elem_of_singleton]; [|done].
        by apply Hin.
Qed.
End headers.

(** C6: [elf_load] loads the file: when the headers that it visits can be read
    from kernel memory that is in use, and the segments marked for loading lie
    in the lower half, end in the last page it maps for them, and share no
    page, and four pages are ready for each page, it ends; then every
    byte of each segment is mapped, to the byte of the file or, behind
    [p_filesz], to zero; and every byte that was mapped in the kernel's half,
    and was not in a page table or in a free frame, is mapped where it was and
    has its value. The memory manager's invariant holds again. *)
Theorem elf_load_loads c fuel s P lv data off size num fb hs :
  paged D s P lv (4 * length (pages_of hs) + c) → unshared (ram s) (cr3 s) lv →
  elf_header s data off size num → size * num = Z.of_nat (length hs) →
  loadable s P lv data off fb hs →
  (length hs + length (pages_of hs) + 1 < fuel)%nat →
  returns (elf_load fuel data) s (λ _ t, ∃ P' lv',
    paged D t P' lv' c ∧
    (∀ ph k, ph ∈ hs → ph_type ph = PT_LOAD → 0 <= k < ph_msz ph →
       load8 (ph_va ph + k) t = Ok (content fb ph k) t) ∧
    (∀ x b, readable s P lv x b → readable t P' lv' x b)).
Proof.
  intros G U Hh Hn HL Hf. unfold returns. rewrite (elf_load_start _ _ _ _ _ _ Hh), Hn.
  change (returns (load_headers fuel data (header data off (Z.of_nat (length (@nil phdr))))
    (header data off (Z.of_nat (length hs)))) s (λ _ t, ∃ P' lv',
    paged D t P' lv' c ∧
    (∀ ph k, ph ∈ hs → ph_type ph = PT_LOAD → 0 <= k < ph_msz ph →
       load8 (ph_va ph + k) t = Ok (content fb ph k) t) ∧
    (∀ x b, readable s P lv x b → readable t P' lv' x b))).
  eapply returns_mono; [eapply returns_load_headers with (rest := hs) (c := c); [done..|]|].
  { exists [], P, lv. split_and!; [by apply loaded_refl|done|]. by intros ph k ?%elem_of_nil. }
  cbv beta. intros _ t (A & P' & lv' & L & _ & Hin). exists P', lv'. split_and!; [apply L| |].
  - intros ph k Hp Ht Hk. destruct (Hin ph k Hp Ht Hk) as (n & f & o & HA & Ho & -> & Hb).
    destruct (ld_new _ _ _ _ _ _ _ _ _ L n f HA) as (_ & _ & Hm).
    unfold load8. by rewrite (mapped_translate _ _ _ _ (Hm o Ho)), Hb.
  - intros x b. by eapply readable_loaded.
Qed.
End load.
