(* ===== verification/Typed.v ===== *)
(** The types of the memory manager's state: every field of [struct page], every
    counter and every word of memory stays within its 64-bit C type, whatever
    is called, with whatever arguments of their types, and on every path, the
    ones that end in a fault included. *)

From S2P Require Import Prelude Kernel KList State Paging Bytes Frame PmmInit Mmu Elf.

Open Scope Z_scope.

Definition in64 (x : Z) : Prop := 0 <= x < 2 ^ 64.

Record page_typed (pg : page) : Prop := {
  pt_address : in64 (address pg);
  pt_flags : in64 (flags pg);
  pt_data : in64 (data pg);
  pt_refs : - 2 ^ 31 <= refs pg < 2 ^ 31;
}.

Record typed (s : kstate) : Prop := {
  ty_array : in64 (parray s) ∧ in64 (numpages s);
  ty_counters : in64 (num_free_pages s) ∧ in64 (num_used_pages s);
  ty_pages : ∀ p pg, store s !! p = Some pg → page_typed pg;
  ty_ram : ∀ a, in64 (ram s a);
  ty_root : in64 (cr3 s) ∧ in64 (PML4 s);
}.

(** ** Words *)

Lemma in64_wrap x : in64 (u64 x).
Proof. apply wrap_bounds. lia. Qed.
Lemma in64_lor x y : in64 x → in64 y → in64 (Z.lor x y).
Proof. apply lor_bounds. lia. Qed.
Lemma in64_land_r x y : in64 y → in64 (Z.land x y).
Proof. apply land_bounds. lia. Qed.

Lemma in64_land_nonneg x y : in64 x → in64 (Z.land x y).
Proof. intros Hx. rewrite Z.land_comm. by apply in64_land_r. Qed.

Lemma in64_ROUND_DOWN a b : in64 a → in64 (ROUND_DOWN a b).
Proof. apply in64_land_nonneg. Qed.
Lemma in64_ROUND_UP a b : in64 (ROUND_UP a b).
Proof. apply in64_land_nonneg, in64_wrap. Qed.
Lemma in64_P2V x : in64 x → in64 (P2V x).
Proof. intros. apply in64_lor; [done|]. unfold in64, KERNEL_VIRT. lia. Qed.
Lemma in64_V2P x : in64 x → in64 (V2P x).
Proof. apply in64_land_nonneg. Qed.
Lemma in64_div x d : in64 x → 0 < d → in64 (x / d).
Proof.
  unfold in64. intros Hx Hd. split; [apply Z.div_pos; lia|].
  apply Z.le_lt_trans with x; [|lia]. apply Z.div_le_upper_bound; nia.
Qed.
Lemma in64_const x : (0 <=? x) && (x <? 2 ^ 64) = true → in64 x.
Proof. unfold in64. lia. Qed.

Lemma in64_set_byte w k v : in64 w → 0 <= k < 8 → in64 (set_byte w k v).
Proof.
  unfold in64. intros Hw Hk. unfold set_byte, byte_of. set (p := 2 ^ (8 * k)).
  set (q := 2 ^ (8 * (7 - k))).
  assert (Hp : 0 < p ∧ 0 < q) by (subst p q; lia).
  assert (E : p * q * 256 = 2 ^ 64).
  { subst p q. rewrite <- Z.pow_add_r by lia. change 256 with (2 ^ 8).
    rewrite <- Z.pow_add_r by lia. f_equal. lia. }
  pose proof (wrap_bounds 8 v ltac:(lia)) as Hv. change (2 ^ 8) with 256 in *.
  assert (Ew : w = p * (256 * (w / p / 256) + w / p mod 256) + w mod p).
  { rewrite <- Z.div_mod by lia. apply Z.div_mod. lia. }
  pose proof (Z.mod_pos_bound w p ltac:(lia)). pose proof (Z.mod_pos_bound (w / p) 256 ltac:(lia)).
  assert (0 <= w / p / 256) by (repeat apply Z.div_pos; lia).
  set (h := w / p / 256) in *. set (b := w / p mod 256) in *. set (l := w mod p) in *.
  rewrite <- E in *. assert (h < q) by nia. rewrite Ew. nia.
Qed.

(** ** Computations that keep the types *)

Definition sound {A} (c : M kstate A) (V : A → Prop) : Prop := ∀ s, typed s →
  match c s with Ok a s' => V a ∧ typed s' | Err _ s' => typed s' end.

Lemma sound_ret {A} (a : A) (V : A → Prop) : V a → sound (mret a) V.
Proof. by intros HV s Hs. Qed.
Lemma sound_throw {A} f (V : A → Prop) : sound (throw f) V.
Proof. by intros s Hs. Qed.
Lemma sound_bind {A B} (c : M kstate A) (k : A → M kstate B) (V : A → Prop) (W : B → Prop) :
  sound c V → (∀ a, V a → sound (k a) W) → sound (c ≫= k) W.
Proof.
  intros Hc Hk s Hs. specialize (Hc s Hs). unfold mbind, M_bind.
  destruct (c s) as [a s'|f s']; [|done]. destruct Hc as [Ha Hs']. by apply Hk.
Qed.
Lemma sound_mono {A} (c : M kstate A) (V W : A → Prop) :
  sound c V → (∀ a, V a → W a) → sound c W.
Proof. intros Hc HVW s Hs. specialize (Hc s Hs). destruct (c s); naive_solver. Qed.
Lemma sound_if {A} (b : bool) (c c' : M kstate A) V : sound c V → sound c' V → sound (if b then c else c') V.
Proof. by destruct b. Qed.
Lemma sound_gets {A} (g : kstate → A) (V : A → Prop) : (∀ s, typed s → V (g s)) → sound (gets g) V.
Proof. intros HV s Hs. split; [by apply HV|done]. Qed.
Lemma sound_modify g : (∀ s, typed s → typed (g s)) → sound (modify g) (λ _, True).
Proof. intros Hg s Hs. split; [done|by apply Hg]. Qed.
Lemma sound_lists {A} (c : M heap A) : sound (on_lists c) (λ _, True).
Proof. intros s [? ? ? ? ?]. unfold on_lists, zoom. destruct (c (lists s)); by split. Qed.
Lemma sound_for_up n i step f :
  (∀ k, 0 <= k < Z.of_nat n → sound (f (i + k * step)) (λ _, True)) →
  sound (for_up n i step f) (λ _, True).
Proof.
  revert i. induction n as [|n IH]; intros i Hf; cbn; [by apply sound_ret|].
  eapply sound_bind; [specialize (Hf 0 ltac:(lia)); by rewrite Z.mul_0_l, Z.add_0_r in Hf|].
  intros _ _. apply IH. intros k Hk. replace (i + step + k * step) with (i + (k + 1) * step) by lia.
  apply Hf. lia.
Qed.

Create HintDb sound.
#[export] Hint Resolve in64_wrap in64_lor in64_ROUND_DOWN in64_ROUND_UP in64_P2V in64_V2P : sound.
#[export] Hint Extern 1 (in64 _) => (apply in64_const; reflexivity) : sound.
#[export] Hint Extern 2 (in64 (if _ then _ else _)) => case_match : sound.
#[export] Hint Resolve sound_lists : sound.

(** Follow the program text; [eauto] finds what each step yields. *)
Ltac sound_step :=
  lazymatch goal with
  | |- sound (mbind _ _) _ =>
      first [ eapply sound_bind; [solve [eauto 7 with sound]|intros ? ?]
            | apply (sound_bind _ _ (λ _, True)); [|intros ? _] ]
  | |- sound (if _ then _ else _) _ => apply sound_if
  | |- sound (mret _) _ => apply sound_ret
  | |- sound skip _ => apply sound_ret
  | |- sound (throw _) _ => apply sound_throw
  | |- sound (for_range _ _ _) _ => apply sound_for_up; intros ? ?
  | |- sound (for_up _ _ _ _) _ => apply sound_for_up; intros ? ?
  | |- sound (let _ := _ in _) _ => cbv zeta
  | |- sound _ _ => solve [eauto 7 with sound]
  end.
Ltac sound_steps := repeat (cbv beta; sound_step).

(** ** State.v *)

Ltac typed_tac := let s := fresh "s" in let T := fresh "T" in
  intros s T; destruct T; split; cbn; auto with sound.

Lemma sound_log fmt args : sound (kernel_log fmt args) (λ _, True).
Proof. apply sound_modify. typed_tac. Qed.
Lemma sound_printf fmt args : sound (printf fmt args) (λ _, True).
Proof. apply sound_modify. typed_tac. Qed.
Lemma sound_assert e x : sound (assert e x) (λ _, True).
Proof. unfold assert. apply sound_if; [by apply sound_ret|]. apply sound_modify. typed_tac. Qed.
Lemma sound_lock_init : sound lock_init (λ _, True).
Proof. apply sound_modify. typed_tac. Qed.
Lemma sound_lock_release : sound lock_release (λ _, True).
Proof. apply sound_modify. typed_tac. Qed.
Lemma sound_lock_acquire : sound lock_acquire (λ _, True).
Proof.
  unfold lock_acquire. apply (sound_bind _ _ (λ _, True)); [by apply sound_gets|].
  intros l _. apply sound_if; [apply sound_throw|]. apply sound_modify. typed_tac.
Qed.
#[export] Hint Resolve sound_log sound_printf sound_assert sound_lock_init sound_lock_release
  sound_lock_acquire : sound.

Lemma sound_load_page p : sound (load_page p) page_typed.
Proof.
  intros s Hs. unfold load_page. destruct (p =? 0); [done|].
  destruct (store s !! p) as [pg|] eqn:E; [|done]. split; [by eapply ty_pages|done].
Qed.
Lemma sound_store_page p f : (∀ pg, page_typed pg → page_typed (f pg)) → sound (store_page p f) (λ _, True).
Proof.
  intros Hf. unfold store_page. eapply sound_bind; [apply sound_load_page|]. intros pg Hpg.
  apply sound_modify. intros s [? ? Hp ? ?]. split; cbn; [done|done| |done|done].
  intros q qg. rewrite lookup_insert. case_decide; [|by apply Hp]. intros [= <-]. by apply Hf.
Qed.
Lemma typed_with_address v pg : in64 v → page_typed pg → page_typed (with_address v pg).
Proof. intros ? []. by split. Qed.
Lemma typed_with_flags v pg : in64 v → page_typed pg → page_typed (with_flags v pg).
Proof. intros ? []. by split. Qed.
Lemma typed_with_data v pg : in64 v → page_typed pg → page_typed (with_data v pg).
Proof. intros ? []. by split. Qed.
#[export] Hint Resolve sound_load_page sound_store_page typed_with_address typed_with_flags
  typed_with_data pt_address pt_flags pt_data : sound.

Lemma sound_numpages : sound (gets numpages) in64.
Proof. apply sound_gets. intros s Hs. apply Hs. Qed.
Lemma sound_parray : sound (gets parray) in64.
Proof. apply sound_gets. intros s Hs. apply Hs. Qed.
Lemma sound_PML4 : sound (gets PML4) in64.
Proof. apply sound_gets. intros s Hs. apply Hs. Qed.
Lemma sound_cr3 : sound get_cr3 in64.
Proof. apply sound_gets. intros s Hs. apply Hs. Qed.
#[export] Hint Resolve sound_numpages sound_parray sound_PML4 sound_cr3 : sound.

(** ** Memory *)

Section memory.
Context `{MMU, Layout, Image}.

Lemma sound_mem_read va : sound (mem_read va) in64.
Proof.
  intros s Hs. unfold mem_read. destruct (translate _ _ _); [|done]. split; [apply Hs|done].
Qed.

Lemma typed_ram s r : typed s → (∀ a, in64 (r a)) → typed (put_ram r s).
Proof. intros []. by split. Qed.

Lemma sound_mem_write va v : in64 v → sound (mem_write va v) (λ _, True).
Proof.
  intros Hv s Hs. unfold mem_write. destruct (translate _ _ _) as [pa|]; [|done]. split; [done|].
  apply typed_ram; [done|]. intros a. unfold ram_set. case_match; [done|apply Hs].
Qed.

Lemma sound_read_entry t i : sound (read_entry t i) in64.
Proof. unfold read_entry. apply sound_if; [apply sound_throw|apply sound_mem_read]. Qed.
Lemma sound_write_entry t i v : in64 v → sound (write_entry t i v) (λ _, True).
Proof. intros. unfold write_entry. apply sound_if; [apply sound_throw|by apply sound_mem_write]. Qed.

Lemma sound_store8 va v : sound (store8 va v) (λ _, True).
Proof.
  intros s Hs. unfold store8. destruct (translate _ _ _) as [pa|]; [|done]. split; [done|].
  apply typed_ram; [done|]. intros a. unfold ram_set_byte, ram_set. case_match; [|apply Hs].
  apply in64_set_byte; [apply Hs|dlia].
Qed.
Lemma sound_load8 va : sound (load8 va) (λ b, 0 <= b < 2 ^ 8).
Proof.
  intros s Hs. unfold load8. destruct (translate _ _ _); [|done]. split; [apply ram_byte_bounds|done].
Qed.

Lemma sound_load_bytes n va : sound (load_bytes n va) (λ v, 0 <= v < 2 ^ (8 * Z.of_nat n)).
Proof.
  revert va. induction n as [|n IH]; intros va; cbn [load_bytes]; [by apply sound_ret|].
  eapply sound_bind; [apply sound_load8|]. intros b Hb.
  eapply sound_bind; [apply IH|]. intros v Hv. apply sound_ret.
  replace (8 * Z.of_nat (S n)) with (8 + 8 * Z.of_nat n) by lia. rewrite Z.pow_add_r by lia. cbv beta in *. nia.
Qed.

Lemma sound_load64 va : sound (load64 va) in64.
Proof. apply (sound_load_bytes 8). Qed.
Lemma sound_load32 va : sound (load32 va) (λ _, True).
Proof. eapply sound_mono; [apply sound_load_bytes|done]. Qed.
Lemma sound_load16 va : sound (load16 va) (λ _, True).
Proof. eapply sound_mono; [apply sound_load_bytes|done]. Qed.
End memory.
#[export] Hint Resolve sound_mem_read sound_read_entry sound_write_entry sound_store8 sound_load8
  sound_load64 sound_load32 sound_load16 : sound.

(** ** The operations *)

Section operations.
Context `{MMU, Layout, Image}.

Lemma in64_page_at base i : in64 (page_at base i).
Proof. apply in64_wrap. Qed.
#[local] Hint Resolve in64_page_at : sound.

Lemma sound_num_free (f : kstate → Z) :
  sound (modify (λ t, put_num_free (u64 (f t)) t)) (λ _, True).
Proof. apply sound_modify. intros s [? ? ? ? ?]. split; try done. cbn. split; [apply in64_wrap|naive_solver]. Qed.
Lemma sound_num_used (f : kstate → Z) :
  sound (modify (λ t, put_num_used (u64 (f t)) t)) (λ _, True).
Proof. apply sound_modify. intros s [? ? ? ? ?]. split; try done. cbn. split; [naive_solver|apply in64_wrap]. Qed.
Lemma sound_put_numpages v : in64 v → sound (modify (put_numpages v)) (λ _, True).
Proof. intros. apply sound_modify. intros s [? ? ? ? ?]. split; try done. cbn. naive_solver. Qed.
Lemma sound_put_parray v : in64 v → sound (modify (put_parray v)) (λ _, True).
Proof. intros. apply sound_modify. intros s [? ? ? ? ?]. split; try done. cbn. naive_solver. Qed.
Lemma sound_put_cr3 v : in64 v → sound (modify (put_cr3 v)) (λ _, True).
Proof. intros. apply sound_modify. intros s [? ? ? ? ?]. split; try done. cbn. naive_solver. Qed.
Lemma sound_put_PML4 v : in64 v → sound (modify (put_PML4 v)) (λ _, True).
Proof. intros. apply sound_modify. intros s [? ? ? ? ?]. split; try done. cbn. naive_solver. Qed.
#[local] Hint Resolve sound_num_free sound_num_used sound_put_numpages sound_put_parray sound_put_cr3
  sound_put_PML4 : sound.

Lemma sound_first_free : sound first_free in64.
Proof. unfold first_free. sound_steps. apply in64_wrap. Qed.
#[local] Hint Resolve sound_first_free : sound.

Lemma sound_set_page_flags i v : in64 v → sound (set_page_flags i v) (λ _, True).
Proof. intros. unfold set_page_flags. sound_steps. Qed.
#[local] Hint Resolve sound_set_page_flags : sound.

Lemma sound_mmu_bootstrap physical pml4 pdpt pd :
  in64 physical → in64 pml4 → in64 pdpt → in64 pd → sound (mmu_bootstrap physical pml4 pdpt pd) (λ _, True).
Proof.
  intros Hp ???. unfold mmu_bootstrap. do 5 (eapply sound_bind; [solve [eauto 6 with sound]|intros ? ?]).
  eapply sound_bind; [apply sound_for_up; intros k Hk|intros ? ?; eauto with sound].
  apply sound_write_entry, in64_lor; [|apply in64_const; reflexivity].
  unfold in64, bootstrap_rounds in *. dlia.
Qed.
#[local] Hint Resolve sound_mmu_bootstrap : sound.

Lemma sound_page_init memory table : in64 memory → in64 table → sound (page_init memory table) (λ _, True).
Proof.
  intros. unfold page_init.
  eapply sound_bind; [solve [eauto 6 with sound]|intros ? _].
  eapply sound_bind; [eapply sound_put_numpages, in64_div; [apply in64_ROUND_UP|done]|intros ? _].
  eapply sound_bind; [apply sound_numpages|intros np Hnp].
  eapply sound_bind; [solve [eauto 6 with sound]|intros ? _].
  eapply sound_bind; [apply sound_if; [apply sound_mmu_bootstrap; eauto 6 with sound|by apply sound_ret]|intros ? _].
  cbv zeta. sound_steps; try done.
Qed.
#[local] Hint Resolve sound_page_init : sound.

Lemma sound_mark_one fl i : sound (mark_one fl i) (λ _, True).
Proof. unfold mark_one. sound_steps; done. Qed.
#[local] Hint Resolve sound_mark_one : sound.
Lemma sound_page_mark_range a b fl : sound (page_mark_range a b fl) (λ _, True).
Proof. unfold page_mark_range. sound_steps; done. Qed.
Lemma sound_alloc_locked : sound alloc_locked in64.
Proof. unfold alloc_locked. sound_steps; done. Qed.
#[local] Hint Resolve sound_page_mark_range sound_alloc_locked : sound.
Lemma sound_page_alloc : sound page_alloc in64.
Proof. unfold page_alloc. sound_steps; try done; apply in64_const; reflexivity. Qed.
Lemma sound_page_free p : sound (page_free p) (λ _, True).
Proof. unfold page_free, free_locked, free_log. sound_steps; done. Qed.
Lemma sound_page_request a : sound (page_request a) in64.
Proof. unfold page_request. sound_steps; auto with sound. Qed.
#[local] Hint Resolve sound_page_alloc sound_page_free sound_page_request : sound.

Lemma sound_mmu_init : sound mmu_init (λ _, True).
Proof. unfold mmu_init. sound_steps; try done; apply in64_const; by vm_compute. Qed.

Lemma sound_new_table t i fmt : sound (new_table t i fmt) in64.
Proof. unfold new_table. sound_steps; try done; eauto 7 with sound. Qed.
#[local] Hint Resolve sound_new_table : sound.
Lemma sound_next_table t i fmt : sound (next_table t i fmt) in64.
Proof. unfold next_table. sound_steps; try done; eauto 7 with sound. Qed.
#[local] Hint Resolve sound_next_table : sound.
Lemma sound_map_in_directory pd frame addr fl : in64 addr →
  sound (map_in_directory pd frame addr fl) (λ _, True).
Proof. intros. unfold map_in_directory. sound_steps; try done; eauto 7 with sound. Qed.
#[local] Hint Resolve sound_map_in_directory : sound.
Lemma sound_mmu_map_page frame addr fl : in64 addr → sound (mmu_map_page frame addr fl) (λ _, True).
Proof. intros. unfold mmu_map_page. sound_steps; try done; eauto 7 with sound. Qed.
#[local] Hint Resolve sound_mmu_map_page : sound.
Lemma sound_mmu_req_page addr fl : in64 addr → sound (mmu_req_page addr fl) in64.
Proof. intros. unfold mmu_req_page. sound_steps; try done; eauto 7 with sound. Qed.
Lemma sound_mmu_virt_to_phys va : sound (mmu_virt_to_phys va) (λ r, in64 r.1).
Proof. unfold mmu_virt_to_phys. sound_steps; try done; eauto 7 with sound. Qed.
#[local] Hint Resolve sound_mmu_req_page sound_mmu_init sound_mmu_virt_to_phys : sound.

Lemma sound_load_map a : sound (load_map a) (λ e, in64 (mm_base e)).
Proof. unfold load_map. sound_steps; done. Qed.
#[local] Hint Resolve sound_load_map : sound.
Lemma sound_scan_map n a h : in64 h → sound (scan_map n a h) in64.
Proof.
  revert a h. induction n as [|n IH]; intros a h Hh; cbn [scan_map]; sound_steps; try done;
    apply IH; case_match; auto with sound.
Qed.
Lemma sound_mark_map n a h : sound (mark_map n a h) (λ _, True).
Proof. revert a. induction n as [|n IH]; intros a; cbn [mark_map]; sound_steps; done. Qed.
#[local] Hint Resolve sound_scan_map sound_mark_map : sound.
Lemma sound_pmm_init a n : in64 kernel_end → sound (pmm_init a n) (λ _, True).
Proof. intros. unfold pmm_init, KERNEL_END. sound_steps; done. Qed.

Lemma sound_memcpy a b n : sound (memcpy a b n) (λ _, True).
Proof. unfold memcpy. sound_steps. Qed.
Lemma sound_memset a c n : sound (memset a c n) (λ _, True).
Proof. unfold memset. sound_steps. Qed.
#[local] Hint Resolve sound_pmm_init sound_memcpy sound_memset : sound.

Ltac sound_field := eapply sound_mono; [apply sound_load_bytes|done].
Lemma sound_p_type p : sound (p_type p) (λ _, True).
Proof. sound_field. Qed.
Lemma sound_p_memsz p : sound (p_memsz p) (λ _, True).
Proof. sound_field. Qed.
Lemma sound_p_filesz p : sound (p_filesz p) (λ _, True).
Proof. sound_field. Qed.
Lemma sound_p_vaddr p : sound (p_vaddr p) (λ _, True).
Proof. sound_field. Qed.
Lemma sound_p_offset p : sound (p_offset p) (λ _, True).
Proof. sound_field. Qed.
#[local] Hint Resolve sound_p_type sound_p_memsz sound_p_filesz sound_p_vaddr sound_p_offset : sound.

Lemma sound_map_segment fuel p i : sound (map_segment fuel p i) (λ _, True).
Proof. revert i. induction fuel as [|fuel IH]; intros i; cbn [map_segment]; sound_steps; done. Qed.
#[local] Hint Resolve sound_map_segment : sound.
Lemma sound_load_segment fuel d p : sound (load_segment fuel d p) (λ _, True).
Proof. unfold load_segment. sound_steps; done. Qed.
#[local] Hint Resolve sound_load_segment : sound.
Lemma sound_load_headers fuel d p l : sound (load_headers fuel d p l) (λ _, True).
Proof. revert p. induction fuel as [|fuel IH]; intros p; cbn [load_headers]; sound_steps; done. Qed.
#[local] Hint Resolve sound_load_headers : sound.
Lemma sound_elf_load fuel d : sound (elf_load fuel d) (λ _, True).
Proof.
  unfold elf_load, last_header, e_phoff, e_phentsize, e_phnum. sound_steps; done.
Qed.

(** ** Calls *)

(** A call of one of the memory manager's operations. *)
Inductive call :=
  | CInit (memory table : Z)
  | CMark (start end_ fl : Z)
  | CAlloc
  | CFree (p : Z)
  | CRequest (a : Z)
  | CMmuInit
  | CMap (frame addr fl : Z)
  | CTranslate (va : Z)
  | CReq (addr fl : Z)
  | CPmm (loc len : Z)
  | CElf (fuel : nat) (d : Z).

Definition run_call (c : call) : M kstate () :=
  match c with
  | CInit memory table => page_init memory table
  | CMark a b fl => page_mark_range a b fl;; skip
  | CAlloc => page_alloc;; skip
  | CFree p => page_free p
  | CRequest a => page_request a;; skip
  | CMmuInit => mmu_init
  | CMap frame addr fl => mmu_map_page frame addr fl
  | CTranslate va => mmu_virt_to_phys va;; skip
  | CReq addr fl => mmu_req_page addr fl;; skip
  | CPmm loc len => pmm_init loc len
  | CElf fuel d => elf_load fuel d
  end.

(** The arguments that reach a field or memory are of their types. *)
Definition call_typed (c : call) : Prop :=
  match c with
  | CInit memory table => in64 memory ∧ in64 table
  | CMap _ addr _ | CReq addr _ => in64 addr
  | _ => True
  end.

Lemma sound_call c : in64 kernel_end → call_typed c → sound (run_call c) (λ _, True).
Proof.
  intros He Hc. destruct c; cbn in Hc |- *; [destruct Hc|..]; try apply sound_elf_load;
    sound_steps; done.
Qed.

End operations.
