(* ===== verification/FrameClient.v ===== *)
(** Clients of the page allocator: any sequence of allocations and of releases
    of pages that were handed out, as a step relation, and the invariant of
    every state it reaches. *)

From S2P Require Import Prelude Kernel KList State Paging Frame FrameSpec FrameRefine FrameMark.
From stdpp Require Import relations.

Open Scope Z_scope.

Section client.
Context `{MMU, Layout}.

(** One call; the list holds the pages that are out. *)
Inductive client_step : kstate * list Z → kstate * list Z → Prop :=
  | client_alloc s own p s' : page_alloc s = Ok p s' → p ≠ 0 → client_step (s, own) (s', p :: own)
  | client_none s own s' : page_alloc s = Ok 0 s' → client_step (s, own) (s', own)
  | client_free s own p s' : p ∈ own → page_free p s = Ok () s' →
      client_step (s, own) (s', remove_page p own).

(** The free pages and the pages that are out are those that were free at the
    start, each once. *)
Record client_inv (F0 : list Z) (x : kstate * list Z) : Prop := {
  ci_pools : ∃ P, repr x.1 P ∧ counted x.1 P ∧ free_pool P ++ x.2 ≡ₚ F0 ∧
    ∀ p, p ∈ x.2 → p ∈ used_pool P;
  ci_lock : page_lock x.1 = false;
  ci_start : NoDup F0;
}.

Lemma client_inv_NoDup F0 x : client_inv F0 x → NoDup x.2.
Proof.
  intros [(P & _ & _ & Hperm & _) _ Hnd]. rewrite <- Hperm in Hnd.
  by apply NoDup_app in Hnd as (_ & _ & ?).
Qed.

Lemma remove_page_perm p l : NoDup l → p ∈ l → l ≡ₚ p :: remove_page p l.
Proof.
  intros Hnd (xs & ys & ->)%list_elem_of_split. rewrite remove_page_split by done.
  by rewrite Permutation_middle.
Qed.

Lemma client_inv_step F0 x y : client_step x y → client_inv F0 x → client_inv F0 y.
Proof.
  intros Hs HI. pose proof (client_inv_NoDup _ _ HI) as Hown.
  destruct HI as [(P & R & Hc & Hperm & Hu) Hl Hnd].
  destruct Hs as [s own p s' E Hp|s own s' E|s own p s' Hp E]; cbn [fst snd] in *.
  - pose proof (returns_page_alloc s P R Hl) as Ha. unfold returns in Ha. rewrite E in Ha.
    destruct P as [[|q F] U L]; cbn in Ha; [by destruct Ha|].
    destruct Ha as (-> & _ & R' & Hl' & _ & Hc'). split; [|done|done].
    exists (Pools F (q :: U) (L ++ [q])). cbn in *. split_and!; [done|by apply Hc'| |set_solver].
    by rewrite <- Permutation_middle.
  - pose proof (returns_page_alloc s P R Hl) as Ha. unfold returns in Ha. rewrite E in Ha.
    destruct P as [[|q F] U L]; cbn in Ha; [|by destruct Ha as (-> & ? & _)].
    destruct Ha as [_ ->]. split; [by eexists|done|done].
  - pose proof (returns_page_free s P p R Hl (Hu p Hp)) as Ha. unfold returns in Ha. rewrite E in Ha.
    destruct Ha as (R' & Hl' & _ & Hc'). split; [|done|done].
    exists (spec_free p P). cbn. split_and!; [done|by apply Hc'| |].
    + rewrite <- app_assoc. cbn. by rewrite <- remove_page_perm.
    + intros q [Hne Hq]%elem_of_remove_page. apply elem_of_remove_page. auto.
Qed.

Lemma client_inv_reachable F0 x y : rtc client_step x y → client_inv F0 x → client_inv F0 y.
Proof. induction 1; eauto using client_inv_step. Qed.

(** C17: Whatever sequence of allocations and releases clients make, the pages
    that are out are distinct, in use and not free; together with the free
    pages they are the pages that were free at the start, so none is lost and
    none appears; and the counters count the lists. In every such state the
    next allocation returns, with NULL exactly when all pages are out, and
    the release of any page that is out returns. *)
Theorem client_sequences_safe s P s' own :
  repr s P → counted s P → page_lock s = false →
  rtc client_step (s, []) (s', own) →
  NoDup own ∧
  (∃ P', repr s' P' ∧ counted s' P' ∧ free_pool P' ++ own ≡ₚ free_pool P ∧
     ∀ p, p ∈ own → p ∈ used_pool P' ∧ p ∉ free_pool P') ∧
  returns page_alloc s' (λ p _, p = 0 ↔ length own = length (free_pool P)) ∧
  (∀ p, p ∈ own → returns (page_free p) s' (λ _ _, True)).
Proof.
  intros R Hc Hl Hr. assert (HI : client_inv (free_pool P) (s', own)).
  { apply (client_inv_reachable _ _ _ Hr). split; cbn [fst snd]; [|done|apply (repr_wf _ _ R)].
    exists P. rewrite app_nil_r. split_and!; [done..|set_solver]. }
  pose proof (client_inv_NoDup _ _ HI) as Hown. destruct HI as [(P' & R' & Hc' & Hperm & Hu) Hl' _].
  cbn [fst snd] in *. split_and!; [done| | |].
  - exists P'. split_and!; [done..|]. intros p Hp. split; [auto|]. intros HF.
    destruct (repr_wf _ _ R') as (_ & _ & _ & Hsep & _). by apply (Hsep p HF), Hu.
  - ret_use returns_page_alloc; [done|done|]. intros p s2 Ha.
    apply Permutation_length in Hperm. rewrite length_app in Hperm.
    destruct P' as [[|q F] U L]; cbn in *.
    + destruct Ha as [-> _]. split; [lia|done].
    + destruct Ha as (-> & Hnz & _). split; [done|lia].
  - intros p Hp. ret_use returns_page_free; [done|done|by apply Hu|done].
Qed.
End client.
