(* ===== verification/FrameRace.v ===== *)
(** [page_alloc] and [page_free] on several processors: their atomic parts
    interleaved, as a step relation. The list test before the lock is one
    step, so is each lock operation, and so is each critical section, whose
    writes only the holder of the lock makes. *)

From S2P Require Import Prelude Kernel KList State Paging Frame FrameSpec FrameRefine FrameMark.
From stdpp Require Import relations.

Open Scope Z_scope.

(** Where a processor stands: in [page_alloc], with the page that it got
    ([PDone], 0 for none), or in [page_free]. *)
Inductive pc :=
  | PCheck
  | PAcquire
  | PCritical
  | PRelease (p : Z)
  | PDone (p : Z)
  | PFree (p : Z)
  | PFreeCritical (p : Z)
  | PFreeRelease (p : Z)
  | PLog (p : Z).

Section race.
Context `{MMU, Layout}.

(** One step of one processor. A processor that finds the lock held spins: it
    has no step. A client allocates a page, keeps it for as long as it likes,
    releases it, and begins again. *)
Inductive cpu_step (s : kstate) : pc → kstate → pc → Prop :=
  | step_check b s' : on_lists (list_empty l_free) s = Ok b s' →
      cpu_step s PCheck s' (if b then PDone 0 else PAcquire)
  | step_acquire s' : lock_acquire s = Ok () s' → cpu_step s PAcquire s' PCritical
  | step_critical p s' : alloc_locked s = Ok p s' → cpu_step s PCritical s' (PRelease p)
  | step_release p s' : lock_release s = Ok () s' → cpu_step s (PRelease p) s' (PDone p)
  | step_retry : cpu_step s (PDone 0) s PCheck
  | step_give p : p ≠ 0 → cpu_step s (PDone p) s (PFree p)
  | step_free_acquire p s' : lock_acquire s = Ok () s' → cpu_step s (PFree p) s' (PFreeCritical p)
  | step_free_critical p s' : free_locked p s = Ok () s' → cpu_step s (PFreeCritical p) s' (PFreeRelease p)
  | step_free_release p s' : lock_release s = Ok () s' → cpu_step s (PFreeRelease p) s' (PLog p)
  | step_log p s' : free_log p s = Ok () s' → cpu_step s (PLog p) s' PCheck.

(** The machine: the shared state and the processors. *)
Inductive step : kstate * list pc → kstate * list pc → Prop :=
  | step_cpu s cs i c s' c' : cs !! i = Some c → cpu_step s c s' c' →
      step (s, cs) (s', <[i:=c']> cs).

(** An invariant of the steps holds in every reachable state. *)
Lemma rtc_invariant (I : kstate * list pc → Prop) x y :
  rtc step x y → (∀ a b, step a b → I a → I b) → I x → I y.
Proof. intros Hr HI. induction Hr; eauto. Qed.

(** *** One processor alone runs page_alloc and page_free *)

(** The steps of processor [i]. *)
Definition own_step (x y : kstate * pc) : Prop := cpu_step x.1 x.2 y.1 y.2.

Lemma own_steps x y cs i : rtc own_step x y → cs !! i = Some x.2 → rtc step (x.1, cs) (y.1, <[i:=y.2]> cs).
Proof.
  intros Hr. revert cs. induction Hr as [[s c]|[s c] [s1 c1] y Hs Hr IH]; intros cs Hi; cbn [fst snd] in *.
  { by rewrite list_insert_id. }
  eapply rtc_l; [by apply (step_cpu s cs i c s1 c1)|].
  rewrite <- (list_insert_insert_eq cs i y.2 c1). apply IH.
  apply list_lookup_insert_eq. by eapply lookup_lt_Some.
Qed.

(** A processor that takes these steps, undisturbed by the others, computes
    [page_alloc] and [page_free]: every run of them that returns is a run of
    the step relation, with the same result and the same state. *)
Lemma page_alloc_steps s p s' cs i :
  page_alloc s = Ok p s' → cs !! i = Some PCheck → rtc step (s, cs) (s', <[i:=PDone p]> cs).
Proof.
  intros E Hi. apply (own_steps (s, PCheck) (s', PDone p)); [|done]. revert E.
  unfold page_alloc, mbind, M_bind. destruct (on_lists (list_empty l_free) s) as [b s1|] eqn:E1; [|done].
  assert (S1 : own_step (s, PCheck) (s1, if b then PDone 0 else PAcquire)) by by constructor.
  destruct b.
  { intros [= <- <-]. by apply rtc_once. }
  destruct (lock_acquire s1) as [[] s2|] eqn:E2; [|done].
  destruct (alloc_locked s2) as [q s3|] eqn:E3; [|done].
  destruct (lock_release s3) as [[] s4|] eqn:E4; [|done]. intros [= <- <-].
  eapply rtc_l; [exact S1|]. apply (rtc_l _ _ (s2, PCritical)); [by apply step_acquire|].
  apply (rtc_l _ _ (s3, PRelease q)); [by apply step_critical|]. apply rtc_once. by apply step_release.
Qed.

Lemma page_free_steps s p s' cs i :
  page_free p s = Ok () s' → p ≠ 0 → cs !! i = Some (PDone p) → rtc step (s, cs) (s', <[i:=PCheck]> cs).
Proof.
  intros E Hp Hi. apply (own_steps (s, PDone p) (s', PCheck)); [|done]. revert E.
  unfold page_free, mbind, M_bind.
  destruct (lock_acquire s) as [[] s1|] eqn:E1; [|done].
  destruct (free_locked p s1) as [[] s2|] eqn:E2; [|done].
  destruct (lock_release s2) as [[] s3|] eqn:E3; [|done]. intros E4.
  apply (rtc_l _ _ (s, PFree p)); [by apply step_give|].
  apply (rtc_l _ _ (s1, PFreeCritical p)); [by apply step_free_acquire|].
  apply (rtc_l _ _ (s2, PFreeRelease p)); [by apply step_free_critical|].
  apply (rtc_l _ _ (s3, PLog p)); [by apply step_free_release|]. apply rtc_once. by apply step_log.
Qed.

(** *** Mutual exclusion *)

(** Computations that leave the lock alone. *)
Definition keeps_lock {A} (m : M kstate A) : Prop :=
  ∀ s a s', m s = Ok a s' → page_lock s' = page_lock s.

Lemma keeps_lock_bind {A B} (m : M kstate A) (k : A → M kstate B) :
  keeps_lock m → (∀ a, keeps_lock (k a)) → keeps_lock (m ≫= k).
Proof.
  intros Hm Hk s b s'. unfold mbind, M_bind. destruct (m s) as [a s1|] eqn:E; [|done].
  intros E'. rewrite (Hk _ _ _ _ E'). by eapply Hm.
Qed.

Lemma keeps_lock_lists {A} (m : M heap A) : keeps_lock (on_lists m).
Proof. intros s a s'. unfold on_lists, zoom. by destruct (m (lists s)); intros [= <- <-]. Qed.

Lemma keeps_lock_modify (g : kstate → kstate) :
  (∀ s, page_lock (g s) = page_lock s) → keeps_lock (modify g).
Proof. intros Hg s a s' [= <- <-]. apply Hg. Qed.

Lemma keeps_lock_ret {A} (a : A) : keeps_lock (mret a).
Proof. by intros s b s' [= <- <-]. Qed.

Lemma keeps_lock_alloc : keeps_lock alloc_locked.
Proof.
  unfold alloc_locked, first_free.
  repeat first [ apply keeps_lock_bind; [|intros ?] | apply keeps_lock_lists
               | by apply keeps_lock_modify | apply keeps_lock_ret ].
Qed.

Lemma keeps_lock_free p : keeps_lock (free_locked p).
Proof.
  unfold free_locked.
  repeat first [ apply keeps_lock_bind; [|intros ?] | apply keeps_lock_lists
               | by apply keeps_lock_modify | apply keeps_lock_ret ].
Qed.

Lemma keeps_lock_log p : keeps_lock (free_log p).
Proof.
  unfold free_log. apply keeps_lock_bind; [|intros pg; by apply keeps_lock_modify].
  intros s pg s'. unfold load_page. destruct (p =? 0); [done|]. by destruct (store s !! p); intros [= <- <-].
Qed.

(** Between acquiring and releasing the lock. *)
Definition holds (c : pc) : bool :=
  match c with PCritical | PRelease _ | PFreeCritical _ | PFreeRelease _ => true | _ => false end.
(** How many processors stand at a place in [f]. *)
Definition count (f : pc → bool) (cs : list pc) : nat := length (filter (λ c, f c = true) cs).
Definition holders : list pc → nat := count holds.

Lemma count_insert f cs i c c' :
  cs !! i = Some c →
  (count f (<[i:=c']> cs) + (if f c then 1 else 0) = count f cs + (if f c' then 1 else 0))%nat.
Proof.
  intros Hi. rewrite insert_take_drop by (by eapply lookup_lt_Some).
  assert (E : count f cs = count f (take i cs ++ c :: drop (S i) cs)) by (by rewrite take_drop_middle).
  rewrite E. unfold count. rewrite !filter_app, !length_app, !filter_cons.
  destruct (f c) eqn:?, (f c') eqn:?; repeat case_decide; try congruence; cbn; lia.
Qed.

Lemma count_replicate_false f n c : f c = false → count f (replicate n c) = 0%nat.
Proof.
  intros Hf. unfold count. induction n as [|n IH]; [done|].
  cbn [replicate]. by rewrite filter_cons_False by congruence.
Qed.

Lemma count_replicate_true f n c : f c = true → count f (replicate n c) = n.
Proof.
  intros Hf. unfold count. induction n as [|n IH]; [done|].
  cbn [replicate]. rewrite filter_cons_True by done. cbn. by rewrite IH.
Qed.

Definition lock_inv (x : kstate * list pc) : Prop :=
  holders x.2 = if page_lock x.1 then 1%nat else 0%nat.

Lemma lock_inv_step x y : step x y → lock_inv x → lock_inv y.
Proof.
  intros [s cs i c s' c' Hi Hs]. unfold lock_inv. cbn [fst snd]. intros HI.
  pose proof (count_insert holds cs i c c' Hi) as Hc. fold holders in *.
  destruct Hs as [b s' E|s' E|p s' E|p s' E| |p Hp|p s' E|p s' E|p s' E|p s' E]; cbn [holds] in Hc.
  1: rewrite (keeps_lock_lists _ _ _ _ E); destruct b; cbn [holds] in Hc; lia.
  1,6: unfold lock_acquire, mbind, M_bind, gets in E; destruct (page_lock s); [done|];
    injection E as <-; cbn; lia.
  2,6: injection E as <-; cbn; destruct (page_lock s); lia.
  - rewrite (keeps_lock_alloc _ _ _ E). lia.
  - destruct (page_lock s); lia.
  - destruct (page_lock s); lia.
  - rewrite (keeps_lock_free _ _ _ _ E). lia.
  - rewrite (keeps_lock_log _ _ _ _ E). destruct (page_lock s); lia.
Qed.

(** *** Enough free pages: no page is handed out twice, and none is lost *)

(** The page that a processor has. *)
Definition taken (c : pc) : option Z :=
  match c with PRelease p | PDone p | PFree p | PFreeCritical p => Some p | _ => None end.
Definition has_page (c : pc) : bool := bool_decide (is_Some (taken c)).
(** The page that it has given back and still reads. *)
Definition given (c : pc) : option Z :=
  match c with PFreeRelease p | PLog p => Some p | _ => None end.

(** [N] pages are free or with a processor, at least one for each. *)
Record race_inv (N : nat) (x : kstate * list pc) : Prop := {
  rc_pools : ∃ P, repr x.1 P ∧ counted x.1 P ∧ (length (free_pool P) + count has_page x.2 = N)%nat ∧
    ∀ i c p, x.2 !! i = Some c → taken c = Some p → p ∈ used_pool P;
  rc_given : ∀ i c p, x.2 !! i = Some c → given c = Some p → is_page (parray x.1) (numpages x.1) p;
  rc_distinct : ∀ i j c d p, x.2 !! i = Some c → x.2 !! j = Some d →
    taken c = Some p → taken d = Some p → i = j;
  rc_enough : (length x.2 <= N)%nat;
}.

Lemma count_lt f cs i c : cs !! i = Some c → f c = false → (count f cs < length cs)%nat.
Proof.
  intros Hi Hf. rewrite <- (take_drop_middle cs i c Hi) at 1. unfold count.
  rewrite filter_app, length_app, filter_cons_False by congruence.
  pose proof (length_filter (λ c, f c = true) (take i cs)). pose proof (length_filter (λ c, f c = true) (drop (S i) cs)).
  pose proof (lookup_lt_Some _ _ _ Hi). rewrite length_take in *. rewrite length_drop in *. lia.
Qed.

(** A processor goes from [c] to [c'], and the pools from [P] to [P']. *)
Lemma race_inv_move N s cs i c s' c' P P' :
  cs !! i = Some c → race_inv N (s, cs) →
  repr s P → (length (free_pool P) + count has_page cs = N)%nat →
  (∀ j d p, cs !! j = Some d → taken d = Some p → p ∈ used_pool P) →
  repr s' P' → counted s' P' → parray s' = parray s → numpages s' = numpages s →
  (length (free_pool P') + (if has_page c' then 1 else 0) = length (free_pool P) + (if has_page c then 1 else 0))%nat →
  (∀ p, p ∈ used_pool P → taken c ≠ Some p → p ∈ used_pool P') →
  (∀ p, taken c' = Some p → p ∈ used_pool P' ∧ (taken c = Some p ∨ p ∉ used_pool P)) →
  (∀ p, given c' = Some p → given c = Some p ∨ taken c = Some p) →
  race_inv N (s', <[i:=c']> cs).
Proof.
  intros Hi HI R HN Hu R' Hc' Ea En Hlen Hkeep Hnew Hgiv. destruct HI as [_ Hg Hd Hl]. cbn [fst snd] in *.
  pose proof (count_insert has_page cs i c c' Hi) as Hcount. split; cbn [fst snd].
  - exists P'. split_and!; [done|done|lia|].
    intros j d p Hj Ht. apply list_lookup_insert_Some in Hj as [(<- & <- & _)|[Hne Hj]]; [by apply Hnew|].
    apply Hkeep; [by eapply Hu|]. intros Hc. by destruct Hne; apply (Hd i j c d p).
  - rewrite Ea, En. intros j d p Hj Ht. apply list_lookup_insert_Some in Hj as [(<- & <- & _)|[_ Hj]]; [|by eapply Hg].
    destruct (Hgiv _ Ht) as [Hgc|Htc]; [by eapply Hg|].
    apply (rep_pages _ _ _ _ (repr_rep _ _ R)). apply elem_of_app. right. apply elem_of_app. left. by eapply Hu.
  - intros j k d e p Hj Hk Htd Hte. apply list_lookup_insert_Some in Hj as [(<- & <- & _)|[Hnj Hj]];
      apply list_lookup_insert_Some in Hk as [(<- & <- & _)|[Hnk Hk]]; [done| | |by eapply Hd].
    + destruct (Hnew _ Htd) as [_ [Hc|Hn]]; [by eapply Hd|]. by destruct Hn; eapply Hu.
    + destruct (Hnew _ Hte) as [_ [Hc|Hn]]; [by eapply Hd|]. by destruct Hn; eapply Hu.
  - by rewrite length_insert.
Qed.

Lemma race_inv_quiet N s cs i c s' c' P :
  cs !! i = Some c → race_inv N (s, cs) →
  repr s P → (length (free_pool P) + count has_page cs = N)%nat →
  (∀ j d p, cs !! j = Some d → taken d = Some p → p ∈ used_pool P) →
  repr s' P → counted s' P → parray s' = parray s → numpages s' = numpages s →
  taken c' = taken c → (∀ p, given c' = Some p → given c = Some p) →
  race_inv N (s', <[i:=c']> cs).
Proof.
  intros Hi HI R HN Hu R' Hc' Ea En Ht Hg. apply (race_inv_move N s cs i c s' c' P P); try done.
  - unfold has_page. by rewrite Ht.
  - intros p Hp. rewrite Ht in Hp. split; [by eapply Hu|by left].
  - intros p Hp. left. by apply Hg.
Qed.

(** A processor that takes no page finds a free one. *)
Lemma race_free N s cs i c P :
  race_inv N (s, cs) → cs !! i = Some c → has_page c = false →
  (length (free_pool P) + count has_page cs = N)%nat → free_pool P ≠ [].
Proof.
  intros [_ _ _ Hl] Hi Hc HN E. cbn in Hl. rewrite E in HN. cbn in HN.
  pose proof (count_lt has_page cs i c Hi Hc). lia.
Qed.

Lemma race_inv_step N x y : step x y → race_inv N x → race_inv N y.
Proof.
  intros [s cs i c s' c' Hi Hs] HI. pose proof HI as [(P & R & Hct & HN & Hu) _ _ _]. cbn [fst snd] in *.
  destruct Hs as [b s' E|s' E|p s' E|p s' E| |p Hp|p s' E|p s' E|p s' E|p s' E].
  1: pose proof (repr_empty s P R) as He; unfold returns in He; rewrite E in He; destruct He as [-> ->];
    rewrite bool_decide_false by (by eapply race_free).
  2,7: unfold lock_acquire, mbind, M_bind, gets in E; destruct (page_lock s); [done|]; injection E as <-.
  5,9: injection E as <-.
  1-3,5,6: by apply (race_inv_quiet N s cs i _ _ _ P Hi HI R HN Hu); try apply repr_lock.
  - (* page_alloc takes the first page *)
    destruct P as [[|q F] U L]; [by destruct (race_free _ _ _ _ _ _ HI Hi eq_refl HN)|].
    pose proof (returns_alloc_locked s q F U L R) as Ha. unfold returns in Ha. rewrite E in Ha.
    destruct Ha as (-> & _ & R' & _ & (_ & Ea & En & _) & Hc').
    assert (HqU : q ∉ U).
    { destruct (repr_wf _ _ R) as (_ & _ & _ & Hsep & _). apply Hsep. cbn. set_solver. }
    apply (race_inv_move N s cs i _ s' _ _ (Pools F (q :: U) (L ++ [q])) Hi HI R HN Hu R'); auto; cbn.
    + lia.
    + intros p Hp _. by right.
    + intros p [= ->]. split; [by left|by right].
  - (* no processor is told that there is no page *)
    pose proof (Hu _ _ _ Hi eq_refl) as H0'. destruct (page_nonzero _ _ (repr_layout _ _ R) 0); [|done].
    apply (rep_pages _ _ _ _ (repr_rep _ _ R)). set_solver.
  - by apply (race_inv_quiet N s cs i _ _ _ P Hi HI R HN Hu).
  - (* page_free *)
    pose proof (Hu _ _ _ Hi eq_refl) as Hp.
    pose proof (returns_free_locked s P p R Hp) as Ha. unfold returns in Ha. rewrite E in Ha.
    destruct Ha as (R' & _ & (_ & Ea & En & _) & Hc').
    apply (race_inv_move N s cs i _ s' _ P (spec_free p P) Hi HI R HN Hu R'); auto; cbn.
    + rewrite length_app. cbn. lia.
    + intros q Hq Hne. apply elem_of_remove_page. split; [|done]. congruence.
    + intros q Hq. done.
  - pose proof (rc_given _ _ HI i _ p Hi eq_refl) as Hp. cbn in Hp.
    pose proof (returns_free_log s P p R Hp) as Ha. unfold returns in Ha. rewrite E in Ha.
    destruct Ha as (R' & _ & (_ & Ea & En & _) & Hc').
    by apply (race_inv_quiet N s cs i _ _ _ P Hi HI R HN Hu); auto.
Qed.

(** A processor has a step when the lock is free, or when it holds it: no
    access faults. *)
Lemma race_can_step N s cs i c :
  race_inv N (s, cs) → cs !! i = Some c → page_lock s = false ∨ holds c = true →
  ∃ s' c', cpu_step s c s' c'.
Proof.
  intros HI Hi Hl. pose proof HI as [(P & R & Hct & HN & Hu) Hg _ _]. cbn [fst snd] in *.
  assert (Hacq : holds c = false → lock_acquire s = Ok () (put_lock true s)).
  { intros Hh. destruct Hl as [Hl|Hl]; [|congruence]. unfold lock_acquire, mbind, M_bind, gets. by rewrite Hl. }
  destruct c as [| | |p|p|p|p|p|p].
  - pose proof (repr_empty s P R) as He. unfold returns in He.
    destruct (on_lists (list_empty l_free) s) as [b s'|] eqn:E; [|done]. by do 2 eexists; apply step_check.
  - do 2 eexists. by apply step_acquire, Hacq.
  - destruct P as [[|q F] U L]; [by destruct (race_free _ _ _ _ _ _ HI Hi eq_refl HN)|].
    pose proof (returns_alloc_locked s q F U L R) as Ha. unfold returns in Ha.
    destruct (alloc_locked s) as [p s'|] eqn:E; [|done]. by do 2 eexists; apply step_critical.
  - do 2 eexists. by apply step_release.
  - destruct (decide (p = 0)) as [->|Hp]; do 2 eexists; [apply step_retry|by apply step_give].
  - do 2 eexists. by apply step_free_acquire, Hacq.
  - pose proof (returns_free_locked s P p R (Hu _ _ _ Hi eq_refl)) as Ha. unfold returns in Ha.
    destruct (free_locked p s) as [[] s'|] eqn:E; [|done]. by do 2 eexists; apply step_free_critical.
  - do 2 eexists. by apply step_free_release.
  - pose proof (returns_free_log s P p R (Hg i _ p Hi eq_refl)) as Ha. unfold returns in Ha.
    destruct (free_log p s) as [[] s'|] eqn:E; [|done]. by do 2 eexists; apply step_log.
Qed.

Lemma count_exists f cs : (1 <= count f cs)%nat → ∃ i c, cs !! i = Some c ∧ f c = true.
Proof.
  unfold count. destruct (filter (λ c, f c = true) cs) as [|c l] eqn:E; [cbn; lia|]. intros _.
  assert (Hc : c ∈ filter (λ c, f c = true) cs) by (rewrite E; set_solver).
  apply list_elem_of_filter in Hc as [Hf Hc]. apply list_elem_of_lookup in Hc as [i Hi]. eauto.
Qed.

Lemma race_progress N s cs :
  race_inv N (s, cs) → lock_inv (s, cs) → cs ≠ [] → ∃ y, step (s, cs) y.
Proof.
  intros HI HL Hcs. unfold lock_inv in HL. cbn [fst snd] in HL.
  assert (∃ i c, cs !! i = Some c ∧ (page_lock s = false ∨ holds c = true)) as (i & c & Hi & Hc).
  { destruct (page_lock s) eqn:El; rewrite ?El in HL.
    - destruct (count_exists holds cs) as (i & c & Hi & Hc); [unfold holders in HL; lia|]. eauto.
    - destruct cs as [|c cs]; [done|]. exists O, c. auto. }
  destruct (race_can_step N s cs i c HI Hi Hc) as (s' & c' & Hs). eexists. by eapply step_cpu.
Qed.

(** C10: [n] processors that allocate a page, keep it for a while, release it and
    begin again, on at least [n] free pages: every interleaving is safe. In every
    reachable state the lists represent pools with exact counters; a page that
    a processor has is a page of the array, in use, and no other processor has
    it; the free pages and those with the processors are as many as were free
    at first, so that no page is lost; no processor is told that there is no
    page; at most one processor is between [lock_acquire] and [lock_release],
    and one is exactly when the lock is held; and some processor can go on: none faults, and they do not block
    each other. *)
Theorem alloc_free_race_safe s P n s' cs' :
  repr s P → counted s P → page_lock s = false → (n <= length (free_pool P))%nat →
  rtc step (s, replicate n PCheck) (s', cs') →
  (∃ P', repr s' P' ∧ counted s' P' ∧
     (length (free_pool P') + count has_page cs' = length (free_pool P))%nat ∧
     ∀ i c p, cs' !! i = Some c → taken c = Some p →
       p ∈ used_pool P' ∧ is_page (parray s') (numpages s') p ∧ p ≠ 0) ∧
  (∀ i j c d p, cs' !! i = Some c → cs' !! j = Some d → taken c = Some p → taken d = Some p → i = j) ∧
  holders cs' = (if page_lock s' then 1%nat else 0%nat) ∧
  (cs' ≠ [] → ∃ y, step (s', cs') y).
Proof.
  intros R Hc Hl Hn Hr.
  assert (H1 : race_inv (length (free_pool P)) (s, replicate n PCheck)).
  { split; cbn [fst snd].
    - exists P. split_and!; [done|done|rewrite count_replicate_false by done; lia|].
      intros i c p Hi. apply lookup_replicate in Hi as [-> _]. done.
    - intros i c p Hi. apply lookup_replicate in Hi as [-> _]. done.
    - intros i j c d p Hi. apply lookup_replicate in Hi as [-> _]. done.
    - by rewrite length_replicate. }
  assert (H2 : lock_inv (s, replicate n PCheck)).
  { unfold lock_inv, holders. cbn. rewrite Hl. by apply count_replicate_false. }
  apply (rtc_invariant lock_inv _ _ Hr lock_inv_step) in H2.
  apply (rtc_invariant (race_inv _) _ _ Hr (race_inv_step _)) in H1.
  pose proof H1 as [(P' & R' & Hc' & HN & Hu) _ Hd _]. cbn [fst snd] in *. split_and!.
  - exists P'. split_and!; [done..|]. intros i c p Hi Ht. pose proof (Hu _ _ _ Hi Ht) as Hp.
    assert (Hpg : is_page (parray s') (numpages s') p) by (apply (rep_pages _ _ _ _ (repr_rep _ _ R')); set_solver).
    split_and!; [done|done|]. by eapply page_nonzero; [apply (repr_layout _ _ R')|].
  - done.
  - exact H2.
  - by eapply race_progress.
Qed.

(** *** One free page: the test before the lock is too early *)

Lemma faults_on_lists {A} (m : M heap A) s f : faults m (lists s) f → faults (on_lists m) s f.
Proof. intros [h E]. exists (put_lists h s). unfold on_lists, zoom. by rewrite E. Qed.

Lemma faults_add_tail (h : heap) hd e last :
  pv h hd = Some last → h !! e = None → faults (list_add_tail hd e) h (BadPointer e).
Proof.
  intros Hp He. assert (hd ≠ e) by (intros ->; unfold pv in Hp; by rewrite He in Hp).
  unfold list_add_tail. apply faults_bind_r. eapply returns_get_prev; [exact Hp|].
  unfold __list_add. apply faults_bind_r. apply returns_set_prev; [by eapply pv_is_Some|].
  apply faults_bind_l. unfold set_next. apply faults_bind_l. unfold faults, load.
  rewrite lookup_alter_ne, He by done. eauto.
Qed.

Lemma empty_list_faults s last :
  nx (lists s) l_free = Some l_free → pv (lists s) l_lru = Some last →
  lists s !! lru_of (entry_pages l_free) = None →
  faults alloc_locked s (BadPointer (lru_of (entry_pages l_free))).
Proof.
  intros Hn Hl Hnone. unfold alloc_locked, first_free.
  apply faults_bind_r, returns_bind, returns_on_lists. eapply returns_get_next; [exact Hn|].
  apply returns_ret. replace (put_lists (lists s) s) with s by (by destruct s).
  by eapply faults_bind_l, faults_on_lists, faults_add_tail.
Qed.

(** C31: The list test of [page_alloc] is made before the lock is taken. With
    one free page, two processors both pass it; the first takes the page, and
    the second enters the critical section with an empty free list, takes the
    list head itself for a page and writes through the node at
    [&free - sizeof(struct list)], which belongs to no page. *)
Theorem alloc_race_unsafe s p U L :
  repr s (Pools [p] U L) → page_lock s = false →
  ∃ s', rtc step (s, [PCheck; PCheck]) (s', [PDone p; PCritical]) ∧
    repr s' (Pools [] (p :: U) (L ++ [p])) ∧
    (lists s' !! lru_of (entry_pages l_free) = None →
     faults alloc_locked s' (BadPointer (lru_of (entry_pages l_free)))).
Proof.
  intros R Hl. pose proof (repr_empty s _ R) as He. unfold returns in He.
  destruct (on_lists (list_empty l_free) s) as [b s0|] eqn:E; [|done]. destruct He as [-> ->].
  rewrite bool_decide_false in E by done.
  assert (Ea : lock_acquire s = Ok () (put_lock true s))
    by (unfold lock_acquire, mbind, M_bind, gets; by rewrite Hl).
  pose proof (returns_alloc_locked _ _ _ _ _ (repr_lock _ _ true R)) as Hal. unfold returns in Hal.
  destruct (alloc_locked (put_lock true s)) as [q s1|] eqn:Ec; [|done].
  destruct Hal as (-> & _ & R1 & _).
  exists (put_lock true (put_lock false s1)). split_and!.
  - eapply rtc_l; [apply (step_cpu _ _ 0 PCheck); [done|by apply step_check]|]. cbn.
    eapply rtc_l; [apply (step_cpu _ _ 1 PCheck); [done|by apply step_check]|]. cbn.
    eapply rtc_l; [apply (step_cpu _ _ 0 PAcquire); [done|by apply step_acquire]|]. cbn.
    eapply rtc_l; [apply (step_cpu _ _ 0 PCritical); [done|by apply step_critical]|]. cbn.
    eapply rtc_l; [apply (step_cpu _ _ 0 (PRelease p)); [done|by apply step_release]|]. cbn.
    eapply rtc_l; [apply (step_cpu _ _ 1 PAcquire); [done|by apply step_acquire]|]. done.
  - by do 2 apply repr_lock.
  - cbn [lists put_lock]. intros Hnone. pose proof (repr_rep _ _ R1) as Rp.
    destruct (rep_free _ _ _ _ Rp) as [_ Hfree]. cbn in Hfree. destruct Hfree as [Ln _].
    apply (empty_list_faults (put_lock true (put_lock false s1)) (seg_last l_lru (lru_of <$> L ++ [p])));
      [done| |done].
    eapply seg_link_last, (rep_lru _ _ _ _ Rp).
Qed.
End race.
