(* ===== verification/FrameDemo.v ===== *)
(** The theorems on the page allocator and on [mmu_bootstrap] applied to a
    small machine: the hypotheses of each theorem hold there. *)

From S2P Require Import Prelude Kernel KList State Paging Frame FrameSpec FrameRefine FrameMark Demo.
From S2P Require Import FrameInit FrameEdge FrameClient FrameRace PagingWf Mmu MmuWalk MmuSpec MmuBoot.
From stdpp Require Import relations.

Open Scope Z_scope.

Lemma page_alloc_refines_witness :
  returns page_alloc demo_free (λ p s',
    p = 0x1000 ∧ p ≠ 0 ∧ repr s' (Pools [0x1040; 0x1080] [0x1000] [0x1000]) ∧
    page_lock s' = false ∧ same_rest demo_free s' ∧
    (counted demo_free (Pools [0x1000; 0x1040; 0x1080] [] []) →
     counted s' (Pools [0x1040; 0x1080] [0x1000] [0x1000]))).
Proof.
  apply (page_alloc_refines demo_free (Pools [0x1000; 0x1040; 0x1080] [] []));
    [apply demo_free_repr|reflexivity].
Defined.

Lemma page_free_refines_witness :
  returns (page_free 0x1000) demo_used (λ _ s',
    repr s' (Pools [0x1040; 0x1080; 0x1000] [] []) ∧ page_lock s' = false ∧
    same_rest demo_used s' ∧
    (counted demo_used (Pools [0x1040; 0x1080] [0x1000] [0x1000]) →
     counted s' (Pools [0x1040; 0x1080; 0x1000] [] []))).
Proof.
  apply (page_free_refines demo_used (Pools [0x1040; 0x1080] [0x1000] [0x1000]) 0x1000);
    [apply demo_used_repr|reflexivity|cbn; set_solver].
Defined.

(** Pages 0, 1 and 2 of a machine of four pages, none of them in a pool yet. *)
Lemma demo_markable i : 0 <= i <= 2 →
  markable P_FREE (lists (demo_state 4)) (Pools [] [] []) (page_at (parray (demo_state 4)) i).
Proof.
  intros Hi. assert (Hc : i = 0 ∨ i = 1 ∨ i = 2) by lia. split; [right; right|cbn; set_solver].
  split; [cbn; set_solver|]. split; [cbn; set_solver|].
  destruct Hc as [->|[->| ->]]; apply (bool_decide_unpack _); vm_compute; reflexivity.
Qed.

Lemma page_mark_range_refines_witness :
  returns (page_mark_range 0 8192 P_FREE) (demo_state 4) (λ r s',
    r = 0 ∧ page_lock s' = false ∧
    repr s' (spec_mark_range P_FREE (demo_state 4) (Pools [] [] []) (0 / 4096) (8192 / 4096 + 1)) ∧
    (∀ i, 0 <= i < numpages (demo_state 4) →
       store s' !! page_at (parray (demo_state 4)) i =
       (if bool_decide (0 / 4096 <= i <= 8192 / 4096 ∧ skipped (demo_state 4) i = false)
        then with_flags (u64 P_FREE) else id) <$>
          store (demo_state 4) !! page_at (parray (demo_state 4)) i) ∧
    num_free_pages s' = u64 (0 + to_mark (demo_state 4) (0 / 4096) (8192 / 4096 + 1)) ∧
    num_used_pages s' = 0) ∧
  spec_mark_range P_FREE (demo_state 4) (Pools [] [] []) (0 / 4096) (8192 / 4096 + 1) =
    Pools [0x1000; 0x1040; 0x1080] [] [].
Proof.
  split; [|vm_compute; reflexivity].
  apply (page_mark_range_refines (demo_state 4) (Pools [] [] []) 0 8192 P_FREE).
  - apply demo_state_repr.
  - reflexivity.
  - lia.
  - lia.
  - vm_compute. reflexivity.
  - split; vm_compute; discriminate.
  - intros i Hi _. apply demo_markable. revert Hi. change (0 / 4096) with 0.
    change (8192 / 4096) with 2. lia.
Defined.

Lemma page_request_spec_witness :
  returns (page_request (4 * 4096)) (demo_state 4) (λ p s', s' = demo_state 4 ∧
    (4 * 4096 / 4096 < 4 → p = demo_base + sizeof_page * (4 * 4096 / 4096) ∧ is_page demo_base 4 p) ∧
    (4 * 4096 / 4096 = 4 → p = demo_base + sizeof_page * 4 ∧ ¬ is_page demo_base 4 p) ∧
    (4 < 4 * 4096 / 4096 → p = 0)).
Proof.
  apply (page_request_spec (demo_state 4) (4 * 4096)).
  - apply (demo_layout_ok 4). lia.
  - lia.
  - vm_compute. reflexivity.
Defined.

Lemma page_lru_spec_witness :
  returns (page_lru 1) demo_used (λ _ s',
    s' = put_klog (reverse (lru_lines demo_used [0x1000]) ++ klog demo_used) demo_used) ∧
  lru_lines demo_used [0x1000] = [Print "lru %#x\n" [AInt 0]].
Proof.
  split; [|vm_compute; reflexivity].
  apply (page_lru_spec demo_used (Pools [0x1040; 0x1080] [0x1000] [0x1000]) 1).
  - apply demo_used_repr.
  - cbn. lia.
Defined.

Lemma page_stats_spec_witness :
  (num_free_pages demo_used + num_used_pages demo_used = 0 → faults page_stats demo_used DivideError) ∧
  (0 < num_free_pages demo_used + num_used_pages demo_used →
   returns page_stats demo_used (λ _ s',
     ∃ avail usage, s' = put_klog
       (Print "Memory currently in use:  %d%%, %d MB\n"
          [AInt usage; AInt (num_used_pages demo_used / 0x100)] ::
        Print "Memory available for use: %d%%, %d MB\n"
          [AInt avail; AInt (num_free_pages demo_used / 0x100)] :: klog demo_used) demo_used ∧
       usage = if num_free_pages demo_used =? 0 then 100 else 0)).
Proof. apply (page_stats_spec demo_used); vm_compute; congruence. Defined.

(** ** Several processors *)

Lemma run_check_Ok {A} `{EqDecision A} (m : M kstate A) s v :
  run_check (m s) v = true → m s = Ok v (final (m s)).
Proof. unfold run_check, final. destruct (m s); [|done]. by intros ->%bool_decide_eq_true. Qed.

Lemma demo_alloc : page_alloc demo_free = Ok 0x1000 demo_used.
Proof. unfold demo_used. apply (run_check_Ok page_alloc demo_free 0x1000). vm_compute. reflexivity. Qed.

(** A client takes two pages and gives the first one back. *)
Definition demo_two : kstate := final (page_alloc demo_used).
Definition demo_back : kstate := final (page_free 0x1000 demo_two).

Lemma demo_alloc_two : page_alloc demo_used = Ok 0x1040 demo_two.
Proof. unfold demo_two. apply (run_check_Ok page_alloc demo_used 0x1040). vm_compute. reflexivity. Qed.

Lemma demo_client : rtc client_step (demo_free, []) (demo_back, [0x1040]).
Proof.
  eapply rtc_l; [eapply client_alloc; [apply demo_alloc|done]|].
  eapply rtc_l; [eapply client_alloc; [apply demo_alloc_two|done]|].
  eapply rtc_l; [eapply (client_free _ _ 0x1000 demo_back)|].
  - set_solver.
  - unfold demo_back. apply (run_check_Ok (page_free 0x1000) demo_two ()). vm_compute. reflexivity.
  - replace (remove_page 0x1000 [0x1040; 0x1000]) with [0x1040] by (vm_compute; reflexivity).
    apply rtc_refl.
Qed.

(** Two processors: both allocate, and the first one releases its page. *)
Lemma alloc_free_race_safe_witness :
  (∃ P', repr demo_back P' ∧ counted demo_back P' ∧ (length (free_pool P') + 1 = 3)%nat ∧ 0x1040 ∈ used_pool P') ∧
  ∃ y, step (demo_back, [PCheck; PDone 0x1040]) y.
Proof.
  assert (Hr : rtc step (demo_free, [PCheck; PCheck]) (demo_back, [PCheck; PDone 0x1040])).
  { etransitivity; [exact (page_alloc_steps _ _ _ [PCheck; PCheck] 0 demo_alloc eq_refl)|].
    etransitivity; [exact (page_alloc_steps _ _ _ [PDone 0x1000; PCheck] 1 demo_alloc_two eq_refl)|].
    assert (Hf : page_free 0x1000 demo_two = Ok () demo_back).
    { unfold demo_back. apply (run_check_Ok (page_free 0x1000) demo_two ()). vm_compute. reflexivity. }
    exact (page_free_steps _ _ _ [PDone 0x1000; PDone 0x1040] 0 Hf ltac:(done) eq_refl). }
  destruct (alloc_free_race_safe demo_free (Pools [0x1000; 0x1040; 0x1080] [] []) 2 demo_back [PCheck; PDone 0x1040])
    as ((P' & R & Hc & HN & Hu) & _ & _ & Hgo).
  - apply demo_free_repr.
  - split; vm_compute; reflexivity.
  - vm_compute. reflexivity.
  - cbn. lia.
  - exact Hr.
  - split; [|by apply Hgo]. exists P'. split; [exact R|]. split; [exact Hc|]. split; [exact HN|].
    by apply (Hu 1%nat (PDone 0x1040) 0x1040).
Defined.

Lemma client_sequences_safe_witness :
  NoDup [0x1040] ∧
  (∃ P', repr demo_back P' ∧ counted demo_back P' ∧
     free_pool P' ++ [0x1040] ≡ₚ free_pool (Pools [0x1000; 0x1040; 0x1080] [] []) ∧
     ∀ p, p ∈ [0x1040] → p ∈ used_pool P' ∧ p ∉ free_pool P') ∧
  returns page_alloc demo_back (λ p _,
    p = 0 ↔ length [0x1040] = length (free_pool (Pools [0x1000; 0x1040; 0x1080] [] []))) ∧
  (∀ p, p ∈ [0x1040] → returns (page_free p) demo_back (λ _ _, True)).
Proof.
  apply (client_sequences_safe demo_free (Pools [0x1000; 0x1040; 0x1080] [] [])).
  - apply demo_free_repr.
  - split; vm_compute; reflexivity.
  - vm_compute. reflexivity.
  - apply demo_client.
Defined.

(** One free page. *)
Definition demo_one : kstate := final (page_mark_range 0 0 P_FREE (demo_state 4)).
Lemma demo_one_repr : repr demo_one (Pools [0x1000] [] []).
Proof. demo_repr. Qed.

Lemma alloc_race_unsafe_witness :
  ∃ s', rtc step (demo_one, [PCheck; PCheck]) (s', [PDone 0x1000; PCritical]) ∧
    repr s' (Pools [] [0x1000] [0x1000]) ∧
    (lists s' !! lru_of (entry_pages l_free) = None →
     faults alloc_locked s' (BadPointer (lru_of (entry_pages l_free)))).
Proof. apply (alloc_race_unsafe demo_one 0x1000 [] []); [apply demo_one_repr|reflexivity]. Defined.

(** ** page_init *)

(** A machine with [memory] bytes whose kernel image ends at [table]: the
    array's memory holds garbage nodes and pages. *)
Definition raw_array (base np : Z) : kstate :=
  KState
    (list_to_map ((λ a, (a, Node a a)) <$>
      [l_free; l_used; l_lru] ++ (page_addrs base np ≫= λ p, [lru_of p; pages_of p])))
    (list_to_map ((λ i, (page_at base i, Page 77 P_VIRT 5 0)) <$> seqZ 0 np))
    0 0 0 0 true (λ _, 0) 0 0 [].

Definition init_base : Z := P2V 0x2000.
Definition demo_init : kstate := raw_array init_base 5.

Lemma init_base_eq : P2V (init_table 0x4000 0x1000) = init_base.
Proof. vm_compute. reflexivity. Qed.
Lemma init_numpages_eq : init_numpages 0x4000 = 5.
Proof. vm_compute. reflexivity. Qed.

Lemma init_layout_ok : layout_ok init_base 5.
Proof.
  split; [vm_compute; intuition discriminate|vm_compute; intuition discriminate|].
  intros a [Ha _]. assert (E : init_base = 0xFFFFFFFF80002000) by (vm_compute; reflexivity).
  rewrite E in Ha. cbn [l_free l_used l_lru demo_layout]. lia.
Qed.

Lemma demo_init_nodes : nodes_ok (lists demo_init) init_base 5.
Proof.
  unfold nodes_ok. apply is_page_all. apply (bool_decide_unpack _). vm_compute. reflexivity.
Qed.

Lemma demo_init_store p : is_page init_base 5 p → is_Some (store demo_init !! p).
Proof.
  revert p. apply is_page_all. apply (bool_decide_unpack _). vm_compute. reflexivity.
Qed.

Lemma demo_init_ready : init_ready 0x4000 0x1000 demo_init.
Proof.
  assert (Hb : init_big 0x4000 0x1000 = false) by (vm_compute; reflexivity).
  split; rewrite ?init_base_eq, ?init_numpages_eq.
  - lia.
  - vm_compute. discriminate.
  - lia.
  - apply init_layout_ok.
  - apply demo_init_nodes.
  - apply demo_init_store.
  - split_and!; apply (bool_decide_unpack _); vm_compute; reflexivity.
  - split; vm_compute; reflexivity.
  - rewrite Hb. discriminate.
Qed.

Lemma page_init_spec_witness :
  returns (page_init 0x4000 0x1000) demo_init (λ _ s',
    page_lock s' = false ∧
    init_done 0x4000 0x1000 demo_init (init_reserved 0x4000 0x1000) s' ∧ repr s' (Pools [] [] [])).
Proof. apply (page_init_spec 0x4000 0x1000 demo_init). apply demo_init_ready. Defined.

(** ** mmu_bootstrap *)

(** Boot tables at [0x110000] that map the first two megabytes to themselves. *)
Definition boot_ram : Z → Z := λ a,
  if a =? 0x110000 then table_entry 0x111000 else
  if a =? 0x111000 then table_entry 0x112000 else
  if a =? 0x112000 then big_entry 0 else 0.
Definition boot_demo : kstate := put_ram boot_ram (put_cr3 0x110000 (demo_state 0)).
Definition boot_frames : list Z := [0x100000; 0x101000; 0x102000].

Lemma boot_demo_identity : identity_mapped boot_ram 0x110000 boot_frames.
Proof.
  intros r f i Hr Hf Hi.
  assert (Hfb : 0x100000 <= f <= 0x102000 ∧ f mod 4096 = 0).
  { unfold boot_frames in Hf. rewrite !elem_of_cons, elem_of_nil in Hf.
    destruct Hf as [->|[->|[->|[]]]]; split; done. }
  assert (Hout : ∀ a, 0x110000 <= a → r a = boot_ram a).
  { intros a Ha. apply Hr. intros g j Hg Hj. unfold boot_frames in Hg.
    rewrite !elem_of_cons, elem_of_nil in Hg. destruct Hg as [->|[->|[->|[]]]]; lia. }
  rewrite (translate_2m _ _ _ 0x112000).
  - rewrite Hout by lia. f_equal. change (Z.land (boot_ram 0x112000) 0x000FFFFFFFE00000) with 0.
    rewrite Z.mod_small; lia.
  - unfold canonical. lia.
  - rewrite dir_slot_eq. cbv zeta.
    replace (PML4E (f + 8 * i)) with 0 by (rewrite PML4E_spec; dlia).
    replace (PDPTE (f + 8 * i)) with 0 by (rewrite PDPTE_spec; dlia).
    replace (PDE (f + 8 * i)) with 0 by (rewrite PDE_spec; dlia).
    change (entry_addr 0x110000 + 8 * 0) with 0x110000. rewrite Hout by lia.
    change (boot_ram 0x110000) with (table_entry 0x111000).
    change (entry_addr (table_entry 0x111000) + 8 * 0) with 0x111000. rewrite Hout by lia. done.
  - by rewrite Hout by lia.
  - by rewrite Hout by lia.
Qed.

Lemma mmu_bootstrap_direct_map_witness :
  returns (mmu_bootstrap 0x300000 0x100000 0x101000 0x102000) boot_demo (λ _ s',
    cr3 s' = 0x100000 ∧
    (∀ a, 0 <= a < 0x300000 → translate (ram s') (cr3 s') (P2V a) = Some a) ∧
    ((∀ f i, f ∈ boot_frames → 0 <= i < 512 → present (ram boot_demo (f + 8 * i)) = false) →
     pt_wf (ram s') (cr3 s') (boot_level 0x100000 0x101000 0x102000) ∧
     ∀ i, 0 <= i < 512 →
       translate (ram s') (cr3 s') (pml4_window + 8 * i) = Some (0x100000 + 8 * i))).
Proof.
  apply (mmu_bootstrap_direct_map boot_demo 0x300000 0x100000 0x101000 0x102000).
  - apply boot_demo_identity.
  - split; vm_compute; intuition congruence.
  - split; vm_compute; intuition congruence.
  - split; vm_compute; intuition congruence.
  - apply (bool_decide_unpack _). vm_compute. reflexivity.
  - lia.
Defined.
