(* ===== verification/MmuDemo.v ===== *)
(** A small machine with page tables, and the theorems on the virtual memory
    manager applied to it: the hypotheses of each theorem hold there. *)

From S2P Require Import Prelude Kernel KList State Paging Frame FrameSpec FrameRefine FrameMark Demo.
From S2P Require Import PagingWf Mmu MmuWalk MmuSpec MmuMap MmuBoot.

Open Scope Z_scope.

(** ** The machine *)

(** The root at 1 MB, then the table and the directory that map the first two
    megabytes at [KERNEL_VIRT]. *)
Definition vm_pml4 : Z := 0x100000.
Definition vm_pdpt : Z := 0x101000.
Definition vm_pd : Z := 0x102000.
Definition vm_ram : Z → Z := λ a,
  if a =? vm_pml4 + 8 * 511 then table_entry vm_pdpt else
  if a =? vm_pml4 + 8 * MMU_RE then table_entry vm_pml4 else
  if a =? vm_pdpt then table_entry vm_pd else
  if a =? vm_pdpt + 8 * 510 then table_entry vm_pd else
  if a =? vm_pd then big_entry 0 else 0.

(** The frames the direct map reaches. *)
Definition vm_direct (f : Z) : Prop := frame_ok f ∧ f + 4096 <= 2 ^ 21.

(** Eight pages; page 7 stands for the root. [l] is the allocator's state. *)
Definition vm_state (l : kstate) : kstate :=
  let root := page_at demo_base 7 in
  put_ram vm_ram (put_cr3 vm_pml4 (put_PML4 root
    (put_store (<[root := Page vm_pml4 0 pml4_window 0]> (store l)) l))).

Definition vm_empty : kstate := vm_state (demo_state 8).
Definition vm : kstate := vm_state (final (page_mark_range 4096 (4 * 4096) P_FREE (demo_state 8))).
Definition vm_free : list Z := [0x1040; 0x1080; 0x10C0; 0x1100].

Lemma vm_frames : frame_ok vm_pml4 ∧ frame_ok vm_pdpt ∧ frame_ok vm_pd.
Proof. repeat split; vm_compute; congruence. Qed.

Lemma vm_NoDup : NoDup [0; vm_pml4; vm_pdpt; vm_pd].
Proof. by apply (bool_decide_unpack _). Qed.

Lemma vm_tables : boot_tables vm_ram vm_pml4 vm_pdpt vm_pd 1.
Proof.
  split_and!; [done..|]. intros k Hk. assert (k = 0) as -> by lia. done.
Qed.

Lemma vm_ram_outside a :
  ¬ boot_slot vm_pml4 vm_pdpt vm_pd 0 1 a → vm_ram a = 0.
Proof.
  intros Ha. unfold vm_ram. change (PDPTE 0) with 0 in Ha. unfold boot_slot in Ha.
  repeat match goal with |- context [if a =? ?b then _ else _] =>
    destruct (Z.eqb_spec a b) as [->|]; [exfalso; apply Ha|] end; [tauto..| |done].
  right; right; right; right. exists 0. split; [lia|done].
Qed.

Lemma vm_wf : pt_wf vm_ram vm_pml4 (boot_level vm_pml4 vm_pdpt vm_pd).
Proof.
  destruct vm_frames as (? & ? & ?).
  apply (boot_wf _ _ vm_pdpt vm_pd 0 1); [done..|apply vm_NoDup|lia|apply vm_tables|done|].
  intros f i _ _ Hs. by rewrite vm_ram_outside.
Qed.

Lemma vm_window f : vm_direct f → window vm_ram vm_pml4 (P2V f) f.
Proof.
  intros [Hf Hb]. destruct vm_frames as (? & ? & ?).
  apply (boot_window _ _ vm_pdpt vm_pd 1); [done..|lia|apply vm_tables|done|lia].
Qed.

Lemma vm_ram_low a : 0 <= a < vm_pml4 → vm_ram a = 0.
Proof.
  intros Ha. unfold vm_pml4 in Ha. apply vm_ram_outside. unfold boot_slot, vm_pml4, vm_pdpt, vm_pd, MMU_RE.
  change (PDPTE 0) with 0. intros [?|[?|[?|[?|(k & ? & ?)]]]]; lia.
Qed.

(** A frame below the tables is blank. *)
Lemma vm_blank a : a mod 4096 = 0 → 0 < a → a + 4096 <= vm_pml4 →
  blank vm_direct vm_ram (boot_level vm_pml4 vm_pdpt vm_pd) a.
Proof.
  unfold vm_pml4. intros Ha Hz Hb. split_and!; [split; [done|lia]|lia| | |].
  - unfold boot_level, vm_pml4, vm_pdpt, vm_pd.
    by rewrite !(proj2 (Z.eqb_neq a _)) by lia.
  - intros i Hi. by rewrite vm_ram_low by (unfold vm_pml4; lia).
  - split; [split; [done|lia]|lia].
Qed.

(** The invariant holds in a state of the machine whose free pages are ordinary
    pages of the array. *)
Lemma vm_paged l P :
  repr (vm_state l) P → page_lock l = false →
  Forall (λ p, frame_of (vm_state l) p mod 4096 = 0 ∧ 0 < frame_of (vm_state l) p ∧
    frame_of (vm_state l) p + 4096 <= vm_pml4 ∧ p ≠ page_at demo_base 7) (free_pool P) →
  NoDup (frame_of (vm_state l) <$> free_pool P) →
  paged vm_direct (vm_state l) P (boot_level vm_pml4 vm_pdpt vm_pd) (length (free_pool P)).
Proof.
  intros R Hl Hf Hnd. rewrite Forall_forall in Hf. split.
  - done.
  - done.
  - apply vm_wf.
  - cbn [PML4 store vm_state put_ram put_cr3 put_PML4 put_store].
    split; [done|]. split; [intros Hin; by destruct (Hf _ Hin) as (_ & _ & _ & ?)|].
    eexists. split; [by apply lookup_insert_eq|done].
  - intros f Hlf Hr. destruct (boot_level_inv _ _ _ f Hlf) as [[-> _]|[[-> _]|[-> _]]]; [done|..];
      (split; [apply vm_frames|by vm_compute]).
  - intros f Hd. split; [apply Hd|by apply vm_window].
  - done.
  - intros p Hp. rewrite firstn_all in Hp. destruct (Hf _ Hp) as (? & ? & ? & _). by apply vm_blank.
  - intros p q Hp Hq. apply list_elem_of_lookup in Hp as [i Hi], Hq as [j Hj].
    intros E. assert (i = j) as <-; [|congruence].
    eapply NoDup_lookup; [exact Hnd|by rewrite list_lookup_fmap, Hi|].
    by rewrite list_lookup_fmap, Hj, E.
Qed.

Ltac vm_paged_tac :=
  apply (vm_paged _ (Pools vm_free [] []));
  [ demo_repr | done
  | apply (bool_decide_unpack _); vm_compute; reflexivity
  | apply (bool_decide_unpack _); vm_compute; reflexivity ].

Lemma vm_ok : paged vm_direct vm (Pools vm_free [] []) (boot_level vm_pml4 vm_pdpt vm_pd) 4.
Proof. vm_paged_tac. Qed.

Lemma vm_empty_ok : paged vm_direct vm_empty (Pools [] [] []) (boot_level vm_pml4 vm_pdpt vm_pd) 0.
Proof. apply (vm_paged _ (Pools [] [] [])); [demo_repr|done|constructor|constructor]. Qed.

(** An address in the lower half that nothing maps. *)
Definition vm_addr : Z := 0x40001000.

Lemma vm_addr_unmapped : dir_slot (ram vm) (cr3 vm) vm_addr = None.
Proof. by vm_compute. Qed.

Lemma vm_addr_small : small vm vm_addr.
Proof. intros d. by rewrite vm_addr_unmapped. Qed.

Lemma vm_addr_guarded : guarded vm_direct vm vm_addr.
Proof. intros f i a _ _. by rewrite leaf_slot_eq, vm_addr_unmapped. Qed.

(** ** The theorems, applied *)

Lemma mmu_map_page_maps_witness :
  returns (mmu_map_page 0x1180 vm_addr 3) vm (λ _ s', ∃ P' lv' a,
    paged vm_direct s' P' lv' 1 ∧ page_mapped vm 0x1180 vm_addr 3 (Page 0x6000 0 0 0) s' a ∧
    ∀ o, 0 <= o < 4096 → translate (ram s') (cr3 s') (vm_addr + o) = Some (0x6000 + o)).
Proof.
  apply (mmu_map_page_maps vm_direct 1 vm (Pools vm_free [] []) (boot_level vm_pml4 vm_pdpt vm_pd)
    0x1180 (Page 0x6000 0 0 0) vm_addr 3 vm_ok).
  - vm_compute. discriminate.
  - apply vm_addr_guarded.
  - apply vm_addr_small.
  - discriminate.
  - vm_compute. discriminate.
  - vm_compute. reflexivity.
  - reflexivity.
  - reflexivity.
  - reflexivity.
  - cbn. lia.
  - lia.
  - reflexivity.
Defined.

Lemma mmu_map_page_large_witness :
  returns (mmu_map_page 0x1180 KERNEL_VIRT 3) vm (λ _ s', ∃ P' lv',
    paged vm_direct s' P' lv' 1 ∧ free_pool P' ⊆ vm_free ∧
    (data <$> store s' !! 0x1180) = Some 0 ∧
    ∀ va pa, mapped (ram vm) (cr3 vm) va pa → mapped (ram s') (cr3 s') va pa).
Proof.
  apply (mmu_map_page_large vm_direct 1 vm (Pools vm_free [] []) (boot_level vm_pml4 vm_pdpt vm_pd)
    0x1180 (Page 0x6000 0 0 0) KERNEL_VIRT 3 vm_pd vm_ok);
    try (vm_compute; reflexivity); try (vm_compute; discriminate).
Defined.

Lemma mmu_req_page_maps_witness :
  returns (mmu_req_page 0x40001234 3) vm (λ q s', ∃ P'' lv',
    q = 0x1040 ∧ paged vm_direct s' P'' lv' 0 ∧ (data <$> store s' !! 0x1040) = Some vm_addr ∧
    translate (ram s') (cr3 s') 0x40001234 = Some 0x1234 ∧
    returns (mmu_virt_to_phys 0x40001234) s' (λ ve _, ve = (0x1003, 0))).
Proof.
  apply (mmu_req_page_maps vm_direct 0 vm (Pools vm_free [] []) (boot_level vm_pml4 vm_pdpt vm_pd)
    0x1040 (Pools [0x1080; 0x10C0; 0x1100] [0x1040] [0x1040]) 0x40001234 3 vm_ok).
  - vm_compute. discriminate.
  - apply vm_addr_guarded.
  - apply vm_addr_small.
  - reflexivity.
  - lia.
  - reflexivity.
  - lia.
  - reflexivity.
Defined.

Lemma mmu_req_page_out_of_memory_witness : faults (mmu_req_page vm_addr 3) vm_empty NullDeref.
Proof.
  apply (mmu_req_page_out_of_memory vm_direct 0 vm_empty (Pools [] [] [])
    (boot_level vm_pml4 vm_pdpt vm_pd) vm_addr 3 vm_empty_ok). reflexivity.
Defined.

Lemma mmu_req_page_leaks_witness :
  returns (mmu_req_page KERNEL_VIRT 3) vm (λ q s', ∃ P'' lv',
    q = 0 ∧ paged vm_direct s' P'' lv' 0 ∧ (0x1040 ∉ free_pool P'') ∧
    (data <$> store s' !! 0x1040) = Some 0).
Proof.
  apply (mmu_req_page_leaks vm_direct 0 vm (Pools vm_free [] []) (boot_level vm_pml4 vm_pdpt vm_pd)
    0x1040 (Pools [0x1080; 0x10C0; 0x1100] [0x1040] [0x1040]) KERNEL_VIRT 3 vm_pd vm_ok);
    try (vm_compute; reflexivity); try (vm_compute; discriminate).
Defined.

Lemma mmu_virt_to_phys_spec_witness :
  returns (mmu_virt_to_phys KERNEL_VIRT) vm (λ ve s',
    s' = vm ∧ ve = walk_entry vm_ram vm_pml4 KERNEL_VIRT) ∧
  walk_entry vm_ram vm_pml4 KERNEL_VIRT = (0x83, 0) ∧
  walk_entry vm_ram vm_pml4 vm_addr = (0, 4) ∧
  walk_entry vm_ram vm_pml4 (KERNEL_VIRT + 0x40000000) = (0, 3) ∧
  walk_entry vm_ram vm_pml4 (KERNEL_VIRT + 0x200000) = (0, 2).
Proof.
  split; [|vm_compute; auto].
  apply (mmu_virt_to_phys_spec vm (boot_level vm_pml4 vm_pdpt vm_pd)); [apply vm_wf|].
  vm_compute. discriminate.
Defined.

Lemma mmu_virt_to_phys_mapped_witness :
  translate vm_ram vm_pml4 KERNEL_VIRT = Some (entry_addr 0x83 + KERNEL_VIRT mod 2 ^ 12) ∨
  (large 0x83 = true ∧ translate vm_ram vm_pml4 KERNEL_VIRT =
     Some (Z.land 0x83 0x000FFFFFFFE00000 + KERNEL_VIRT mod 2 ^ 21)).
Proof.
  apply (mmu_virt_to_phys_mapped vm (boot_level vm_pml4 vm_pdpt vm_pd) KERNEL_VIRT 0x83).
  - apply vm_wf.
  - vm_compute. discriminate.
  - reflexivity.
  - reflexivity.
  - vm_compute. reflexivity.
Defined.

(** ** Page tables are not cleared *)

(** The machine, with a word left in the third free page: what was in its
    page when it was freed. *)
Definition stale_vm : kstate := put_ram (ram_set (ram vm) (0x3000 + 8 * 5) 0x200007) vm.

