(* ===== verification/Lib.v ===== *)
(** The kernel's C library ([lib/]): character classes, [strncmp], [strchr],
    and the buffers of bytes that the formatting code works on. A C string is
    the list of its bytes, each in [0, 256), before the terminating NUL. *)

From Stdlib Require Export Ascii.
From S2P Require Import Prelude.

Open Scope Z_scope.

(** The code of a character. *)
Definition ch (a : ascii) : Z := Z.of_N (N_of_ascii a).
Arguments ch a%_char_scope.

(** The bytes of a string literal. *)
Fixpoint chars (s : string) : list Z :=
  match s with
  | EmptyString => []
  | String a s => ch a :: chars s
  end.

(** The text of a buffer, up to the first NUL. *)
Fixpoint text_of (s : list Z) : string :=
  match s with
  | [] => EmptyString
  | c :: s => if c =? 0 then EmptyString else String (ascii_of_N (Z.to_N c)) (text_of s)
  end.

(** ** Character classes *)

Definition isdigit (c : Z) : bool := (ch "0" <=? c) && (c <=? ch "9").
Definition islower (c : Z) : bool := (ch "a" <=? c) && (c <=? ch "z").
Definition isupper (c : Z) : bool := (ch "A" <=? c) && (c <=? ch "Z").
Definition isalpha (c : Z) : bool := islower c || isupper c.
Definition isalnum (c : Z) : bool := isdigit c || isalpha c.
Definition isblank (c : Z) : bool := (c =? 9) || (c =? ch " ").
Definition iscntrl (c : Z) : bool := ((0 <=? c) && (c <=? 0x1F)) || (c =? 0x7F).
Definition isspace (c : Z) : bool := c =? ch " ".

(** ** strncmp and strchr *)

(** [*s1], the NUL at the end included. *)
Definition byte_at (s : list Z) : Z := match s with [] => 0 | c :: _ => c end.

(** The comparison [*s1 != *s2] is on bytes of either signedness; the result
    compares them unsigned. *)
Fixpoint strncmp (s1 s2 : list Z) (n : nat) : Z :=
  match n with
  | O => 0
  | S n =>
      if negb (byte_at s1 =? byte_at s2) then (if byte_at s1 <? byte_at s2 then -1 else 1)
      else if byte_at s1 =? 0 then 0
      else strncmp (tail s1) (tail s2) n
  end.

(** The suffix that starts at the first [c]; [None] is NULL. The comparison
    [*s == c] is between a signed character and an [int]. *)
Fixpoint strchr (s : list Z) (c : Z) : option (list Z) :=
  match s with
  | [] => None
  | x :: r => if s8 x =? c then Some s else strchr r c
  end.

(** A string of non-NUL bytes. *)
Definition cstring (s : list Z) : Prop := Forall (λ c, 0 < c < 256) s.

(** [strncmp s1 s2 n] is 0 when the first [n] bytes of the two strings
    agree; otherwise there is a first position below [n] where they differ, the
    NULs at their ends included, and the result is -1 or 1 by the unsigned order
    of the bytes there. *)
Theorem strncmp_spec s1 s2 n :
  cstring s1 → cstring s2 →
  (strncmp s1 s2 n = 0 ∧ take n s1 = take n s2) ∨
  (∃ k, (k < n)%nat ∧ take k s1 = take k s2 ∧ (k <= length s1)%nat ∧ (k <= length s2)%nat ∧
     byte_at (drop k s1) ≠ byte_at (drop k s2) ∧
     strncmp s1 s2 n = if byte_at (drop k s1) <? byte_at (drop k s2) then -1 else 1).
Proof.
  revert s1 s2. induction n as [|n IH]; intros s1 s2 H1 H2; [by left|]. cbn [strncmp].
  destruct (Z.eqb_spec (byte_at s1) (byte_at s2)) as [E|E]; cbn [negb].
  2:{ right. exists 0%nat. cbn. split_and!; [lia|done|lia|lia|done|done]. }
  destruct s1 as [|x s1], s2 as [|y s2]; cbn [byte_at] in *.
  - by left.
  - apply Forall_cons in H2 as [? _]. lia.
  - apply Forall_cons in H1 as [? _]. lia.
  - subst y. apply Forall_cons in H1 as [Hx H1], H2 as [_ H2].
    destruct (Z.eqb_spec x 0); [lia|]. cbn [tail].
    destruct (IH s1 s2 H1 H2) as [[-> Ht]|(k & Hk & Ht & Hl1 & Hl2 & Hne & ->)].
    + left. cbn. by rewrite Ht.
    + right. exists (S k). cbn. rewrite Ht. split_and!; [lia|done|lia|lia|done|done].
Qed.

(** [strchr s c], for a character code below 128, is NULL when [c] does not
    occur in [s] and the suffix from its first occurrence otherwise; for any
    [c] above 127 it is NULL, because the bytes it compares with are signed. *)
Theorem strchr_spec s c :
  cstring s → 0 <= c →
  match strchr s c with
  | None => c ∉ s ∨ 128 <= c
  | Some t => ∃ p, s = p ++ t ∧ (c ∉ p) ∧ byte_at t = c ∧ c < 128
  end.
Proof.
  intros Hs Hc. induction s as [|x s IH]; cbn; [left; set_solver|].
  apply Forall_cons in Hs as [Hx Hs].
  assert (E : s8 x = if x <? 128 then x else x - 256).
  { unfold sgn. rewrite wrap_small by lia. done. }
  rewrite E. destruct (Z.eqb_spec (if x <? 128 then x else x - 256) c) as [Ec|Hne].
  - exists []. destruct (Z.ltb_spec x 128); [|lia]. subst. split_and!; [done|set_solver|done|lia].
  - specialize (IH Hs). destruct (strchr s c) as [t|].
    + destruct IH as (p & -> & Hp & Ht & Hlt). exists (x :: p). split_and!; [done| |done|done].
      destruct (Z.ltb_spec x 128); [set_solver|]. intros [->|?]%elem_of_cons; [lia|done].
    + destruct IH as [IH|?]; [|by right]. destruct (Z.ltb_spec x 128); [left; set_solver|].
      destruct (Z.le_gt_cases 128 c); [by right|left]. intros [->|?]%elem_of_cons; [lia|done].
Qed.
