(* ===== verification/Printf.v ===== *)
(** Formatted output, [lib/vsnprintf.c]: [strrev], [ulltostr] and [vsnprintf],
    on byte buffers with their bounds. A write outside the caller's buffer is
    the fault [BadPointer], one outside the scratch buffer [OutOfBounds]. *)

From S2P Require Import Prelude Lib.

Open Scope Z_scope.

Definition PREFIX : Z := 1.
Definition ALWAYS_SIGN : Z := 2.
Definition PAD : Z := 4.
Definition LONG : Z := 8.
Definition NOTNUM : Z := 0x10.

(** ** Buffers *)

Definition get_byte (i : Z) : M (list Z) Z := λ b,
  if i <? 0 then Err (OutOfBounds i) b else
  match b !! Z.to_nat i with
  | Some c => Ok c b
  | None => Err (OutOfBounds i) b
  end.
Definition put_byte (i v : Z) : M (list Z) () := λ b,
  if (0 <=? i) && (i <? Z.of_nat (length b)) then Ok () (<[Z.to_nat i:=u8 v]> b)
  else Err (OutOfBounds i) b.

(** [strlen]: the index of the first NUL; without one it runs off the end. *)
Fixpoint find_nul (b : list Z) : option Z :=
  match b with
  | [] => None
  | c :: b => if c =? 0 then Some 0 else Z.succ <$> find_nul b
  end.
Definition strlen : M (list Z) Z := λ b,
  match find_nul b with
  | Some k => Ok k b
  | None => Err (OutOfBounds (Z.of_nat (length b))) b
  end.

Definition strrev : M (list Z) Z :=
  len ← strlen;
  let length := len - 1 in
  (* [length/2] rounds toward zero *)
  for_range 0 (Z.quot length 2 + 1) (λ i,
    temp ← get_byte i;
    c ← get_byte (length - i);
    put_byte i c;;
    put_byte (length - i) temp);;
  mret (length + 1).

(** The digit loop of [ulltostr]: [while (num != 0 && len--)]. *)
Fixpoint ull_loop (fuel : nat) (num base len i : Z) : M (list Z) Z :=
  match fuel with
  | O => throw NoFuel
  | S fuel =>
      if negb (num =? 0) && negb (len =? 0) then
        let remainder := num mod base in
        put_byte i (if 9 <? remainder then remainder - 10 + ch "A" else remainder + ch "0");;
        ull_loop fuel (num / base) base (len - 1) (i + 1)
      else mret i
  end.

(** A 64-bit number has at most 64 digits: 65 rounds are enough. *)
Definition ulltostr (num base len : Z) : M (list Z) Z :=
  if num =? 0 then
    put_byte 0 (ch "0");; put_byte 1 0;; mret 1
  else
    i ← ull_loop 65 num base len 0;
    put_byte i 0;;
    strrev.

(** [strncpy(buf, tmp, len)] for [len > 0]: at most [len] bytes, the rest of
    the [len] bytes filled with NULs ([lib/strncpy.asm]). *)
Definition strncpy_bytes (src : list Z) (len : nat) : list Z :=
  take len src ++ replicate (len - length src) 0.
Definition strncpy (src : list Z) (len : Z) : M (list Z) () := λ b,
  if len <=? Z.of_nat (length b) then
    Ok () (strncpy_bytes src (Z.to_nat len) ++ drop (Z.to_nat len) b)
  else Err (OutOfBounds len) b.

(** ** The formatter's state *)

Inductive varg := VInt (z : Z) | VStr (s : list Z).

Record fstate := FState {
  f_out : list Z;      (** [str] *)
  f_buf : list Z;      (** [buf] *)
  f_n : Z;
  f_pad : Z;
  f_flags : Z;
  f_fmt : list Z;      (** what is left at [format], without the NUL *)
  f_args : list varg;  (** [ap] *)
}.

Definition put_out v s := FState v (f_buf s) (f_n s) (f_pad s) (f_flags s) (f_fmt s) (f_args s).
Definition put_buf v s := FState (f_out s) v (f_n s) (f_pad s) (f_flags s) (f_fmt s) (f_args s).
Definition put_n v s := FState (f_out s) (f_buf s) v (f_pad s) (f_flags s) (f_fmt s) (f_args s).
Definition put_pad v s := FState (f_out s) (f_buf s) (f_n s) v (f_flags s) (f_fmt s) (f_args s).
Definition put_fflags v s := FState (f_out s) (f_buf s) (f_n s) (f_pad s) v (f_fmt s) (f_args s).
Definition put_fmt v s := FState (f_out s) (f_buf s) (f_n s) (f_pad s) (f_flags s) v (f_args s).
Definition put_args v s := FState (f_out s) (f_buf s) (f_n s) (f_pad s) (f_flags s) (f_fmt s) v.

Definition on_buf {A} (m : M (list Z) A) : M fstate A := zoom f_buf put_buf m.

(** [str[n++] = c]. *)
Definition emit (c : Z) : M fstate () := λ s,
  if (0 <=? f_n s) && (f_n s <? Z.of_nat (length (f_out s))) then
    Ok () (put_n (u64 (f_n s + 1)) (put_out (<[Z.to_nat (f_n s):=u8 c]> (f_out s)) s))
  else Err (BadPointer (f_n s)) s.

(** [*format], and [format++]; the code never steps past the NUL. *)
Definition peek : M fstate Z := gets (λ s, byte_at (f_fmt s)).
Definition advance : M fstate () := modify (λ s, put_fmt (tail (f_fmt s)) s).
Definition set_flag (f : Z) : M fstate () := modify (λ s, put_fflags (Z.lor (f_flags s) f) s).
Definition has_flag (f : Z) : M fstate bool := gets (λ s, nz (Z.land (f_flags s) f)).

(** [va_arg(ap, size_t)], [va_arg(ap, char* )]: the arguments must be of the
    types that the format asks for. *)
Definition arg_int : M fstate Z := λ s,
  match f_args s with
  | VInt z :: r => Ok (u64 z) (put_args r s)
  | _ => Err NullDeref s
  end.
Definition arg_str : M fstate (list Z) := λ s,
  match f_args s with
  | VStr t :: r => Ok t (put_args r s)
  | _ => Err NullDeref s
  end.

(** [while (isdigit( *format)) { flags |= PAD; pad = pad * 10 + ...; }] over
    the rest of the format. *)
Fixpoint pad_digits (l : list Z) : M fstate () :=
  match l with
  | [] => skip
  | c :: r =>
      if isdigit c then
        set_flag PAD;;
        modify (λ s, put_pad (u64 (u64 (f_pad s * 10) + (c - ch "0"))) s);;
        advance;;
        pad_digits r
      else skip
  end.

Section size.
Context (size : Z).

(** The conversions, without the prefix characters. *)
Definition convert (c : Z) : M fstate () :=
  if c =? ch "%" then on_buf (put_byte 0 (ch "%"));; on_buf (put_byte 1 0)
  else if (c =? ch "X") || (c =? ch "x") then
    v ← arg_int;
    on_buf (ulltostr v 16 16);;
    p ← has_flag PREFIX;
    n ← gets f_n;
    if (p : bool) && (u64 (n + 2) <? size) then emit (ch "0");; emit (ch "x") else skip
  else if c =? ch "d" then
    v ← arg_int;
    p ← has_flag ALWAYS_SIGN;
    n ← gets f_n;
    (if (p : bool) && (u64 (n + 1) <? size)
     then emit (if 0 <? sgn 64 v then ch "+" else ch "-") else skip);;
    on_buf (ulltostr v 10 20);; skip
  else if c =? ch "i" then
    v ← arg_int;
    n ← gets f_n;
    (if u64 (n + 1) <? size then if sgn 64 v <? 0 then emit (ch "-") else skip else skip);;
    on_buf (ulltostr v 10 20);; skip
  else if c =? ch "u" then v ← arg_int; on_buf (ulltostr v 10 20);; skip
  else if c =? ch "l" then set_flag LONG;; v ← arg_int; on_buf (ulltostr v 16 16);; skip
  else if c =? ch "o" then
    v ← arg_int;
    on_buf (ulltostr v 8 16);;
    p ← has_flag PREFIX;
    n ← gets f_n;
    if (p : bool) && (u64 (n + 2) <? size) then emit (ch "0") else skip
  else if c =? ch "s" then
    t ← arg_str;
    n ← gets f_n;
    on_buf (strncpy t (u64 (size - n)));;
    set_flag NOTNUM
  else if c =? ch "c" then
    v ← arg_int;
    on_buf (put_byte 0 v);; on_buf (put_byte 1 0);;
    set_flag NOTNUM
  else set_flag PAD;; on_buf (put_byte 0 (ch " ")).

(** The characters that [convert] handles. *)
Definition conversion (c : Z) : bool :=
  existsb (Z.eqb c) (chars "%Xxdiuloscw").

(** [next_format:] and its [goto]s. *)
Fixpoint next_format (fuel : nat) : M fstate () :=
  match fuel with
  | O => throw NoFuel
  | S fuel =>
      c ← peek;
      if c =? ch "#" then
        set_flag (Z.lor PREFIX PAD);;
        modify (put_pad 16);;
        advance;; next_format fuel
      else if c =? ch "+" then
        set_flag ALWAYS_SIGN;; advance;; next_format fuel
      else if conversion c then convert c
      else
        modify (put_pad 0);;
        l ← gets f_fmt;
        pad_digits l;;
        next_format fuel
  end.

(** [for (i = 0; i < lim && i + n < size; i++) str[n++] = get(i);] *)
Fixpoint emit_loop (fuel : nat) (i lim : Z) (get : Z → M fstate Z) : M fstate () :=
  match fuel with
  | O => throw NoFuel
  | S fuel =>
      n ← gets f_n;
      if (i <? lim) && (u64 (i + n) <? size) then
        c ← get i; emit c;; emit_loop fuel (i + 1) lim get
      else skip
  end.
(** [i] stays below [size]. *)
Definition emit_for : Z → (Z → M fstate Z) → M fstate () := emit_loop (S (Z.to_nat size)) 0.

(** [memset(buf, 0, strlen(buf))]. *)
Definition clear_buf : M fstate () :=
  l ← on_buf strlen;
  modify (λ s, put_buf (replicate (Z.to_nat l) 0 ++ drop (Z.to_nat l) (f_buf s)) s).

(** One round of the outer loop; [format] is not at its end. *)
Definition format_char (fuel : nat) : M fstate () :=
  c ← peek;
  if c =? ch "%" then
    advance;;
    next_format fuel;;
    fl ← gets f_flags;
    pad ← gets f_pad;
    l ← on_buf strlen;
    (if nz (Z.land fl PAD) && (l <? pad) then
       emit_for (pad - l) (λ _, mret (if nz (Z.land fl NOTNUM) then ch " " else ch "0"))
     else skip);;
    emit_for l (λ i, on_buf (get_byte i));;
    clear_buf
  else
    emit c;; modify (put_fflags 0).

(** [while ( *format && n < size) { ...; format++; }] *)
Fixpoint format_loop (fuel : nat) : M fstate () :=
  match fuel with
  | O => throw NoFuel
  | S fuel =>
      l ← gets f_fmt;
      n ← gets f_n;
      match l with
      | [] => skip
      | _ => if n <? size then format_char fuel;; advance;; format_loop fuel else skip
      end
  end.
End size.

(** [vsnprintf(str, size, format, ap)]: the buffer afterwards and the result.
    [fuel] bounds the rounds of the two loops over [format]. *)
Definition vsnprintf (fuel : nat) (str : list Z) (size : Z) (format : list Z) (ap : list varg) :
    res fstate Z :=
  (format_loop size fuel;; n ← gets f_n; mret (s32 n))
    (FState str (replicate (Z.to_nat size) 0) 0 0 0 format ap).

Definition snprintf := vsnprintf.
