(* ===== verification/PrintfSpec.v ===== *)
(** [strrev] reverses, [ulltostr] prints a number: the functional
    specifications of the building blocks of [vsnprintf]. *)

From S2P Require Import Prelude Lib Printf.

Open Scope Z_scope.

(** ** Buffers *)

(** Bytes in range. *)
Definition bytes (b : list Z) : Prop := Forall (λ c, 0 <= c < 256) b.

Lemma cstring_bytes w : cstring w → bytes w.
Proof. intros Hw. eapply Forall_impl; [exact Hw|]. cbn. lia. Qed.

Lemma find_nul_app w r : cstring w → find_nul (w ++ 0 :: r) = Some (Z.of_nat (length w)).
Proof.
  induction 1 as [|c w Hc Hw IH]; [done|]. cbn [find_nul app].
  destruct (Z.eqb_spec c 0); [lia|]. rewrite IH. cbn. f_equal. lia.
Qed.

Lemma returns_strlen w r (Q : Z → list Z → Prop) :
  cstring w → Q (Z.of_nat (length w)) (w ++ 0 :: r) → returns strlen (w ++ 0 :: r) Q.
Proof. intros Hw HQ. unfold strlen, returns. by rewrite find_nul_app. Qed.

Lemma returns_get_byte b i c (Q : Z → list Z → Prop) :
  0 <= i → b !! Z.to_nat i = Some c → Q c b → returns (get_byte i) b Q.
Proof.
  intros Hi Hc HQ. unfold get_byte, returns. destruct (Z.ltb_spec i 0); [lia|]. by rewrite Hc.
Qed.

Lemma returns_put_byte b i v (Q : () → list Z → Prop) :
  0 <= i < Z.of_nat (length b) → Q () (<[Z.to_nat i:=u8 v]> b) → returns (put_byte i v) b Q.
Proof.
  intros Hi HQ. unfold put_byte, returns.
  by rewrite (proj2 (Z.leb_le _ _)), (proj2 (Z.ltb_lt _ _)) by lia.
Qed.

(** ** strrev *)

Section strrev.
Context (w r : list Z).
Hypotheses (Hw : cstring w) (Hne : w ≠ []).
Let L : Z := Z.of_nat (length w).

(** After the rounds below [i]: the outer bytes are exchanged. *)
Definition rev_inv (i : Z) (b : list Z) : Prop :=
  length b = length (w ++ 0 :: r) ∧
  ∀ j, b !! j =
    if bool_decide ((j < length w)%nat ∧ (Z.of_nat j < i ∨ L - i <= Z.of_nat j))
    then w !! (length w - 1 - j)%nat else (w ++ 0 :: r) !! j.

Lemma w_lookup j : (j < length w)%nat → ∃ c, w !! j = Some c ∧ 0 < c < 256.
Proof.
  intros Hj. apply lookup_lt_is_Some in Hj as [c Hc]. exists c. split; [done|].
  by apply (Forall_lookup_1 _ _ _ _ Hw Hc).
Qed.

Lemma rev_inv_round i b :
  0 <= i < Z.quot (L - 1) 2 + 1 → rev_inv i b →
  returns (temp ← get_byte i; c ← get_byte (L - 1 - i); put_byte i c;; put_byte (L - 1 - i) temp) b
    (λ _ b', rev_inv (i + 1) b').
Proof.
  intros Hi [Hlen Hb]. assert (HL : 0 < L) by (unfold L; destruct w; [done|cbn; lia]).
  rewrite Z.quot_div_nonneg in Hi by lia. assert (Hi' : 0 <= i /\ 2 * i <= L - 1) by dlia.
  assert (Hlw : (length w < length b)%nat) by (rewrite Hlen, length_app; cbn; lia).
  destruct (w_lookup (Z.to_nat i)) as (ci & Eci & Bci); [unfold L in *; lia|].
  destruct (w_lookup (Z.to_nat (L - 1 - i))) as (cj & Ecj & Bcj); [unfold L in *; lia|].
  assert (Gi : b !! Z.to_nat i = Some ci).
  { rewrite Hb, bool_decide_false by (unfold L in *; lia).
    by rewrite lookup_app_l by (unfold L in *; lia). }
  assert (Gj : b !! Z.to_nat (L - 1 - i) = Some cj).
  { rewrite Hb, bool_decide_false by (unfold L in *; lia).
    by rewrite lookup_app_l by (unfold L in *; lia). }
  apply returns_bind. eapply returns_get_byte; [lia|exact Gi|].
  apply returns_bind. eapply returns_get_byte; [lia|exact Gj|].
  apply returns_bind, returns_put_byte; [unfold L in *; lia|].
  apply returns_put_byte; [rewrite length_insert; unfold L in *; lia|].
  rewrite !wrap_small by lia. split; [by rewrite !length_insert|]. intros j.
  rewrite !list_lookup_insert, !length_insert.
  destruct (decide (Z.to_nat (L - 1 - i) = j ∧ (Z.to_nat (L - 1 - i) < length b)%nat)) as [[<- _]|Hj1].
  { rewrite bool_decide_true by (unfold L in *; lia).
    rewrite <- Eci. f_equal. unfold L in *. lia. }
  destruct (decide (Z.to_nat i = j ∧ (Z.to_nat i < length b)%nat)) as [[<- _]|Hj2].
  { rewrite bool_decide_true by (unfold L in *; lia).
    rewrite <- Ecj. f_equal. unfold L in *. lia. }
  rewrite Hb. destruct (decide (j < length b)%nat).
  - erewrite bool_decide_ext; [reflexivity|]. unfold L in *. lia.
  - rewrite !bool_decide_false by lia. done.
Qed.

Lemma rev_inv_final b : rev_inv (Z.quot (L - 1) 2 + 1) b → b = reverse w ++ 0 :: r.
Proof.
  intros [Hlen Hb]. apply list_eq. intros j. rewrite Hb.
  assert (HL : 0 < L) by (unfold L; destruct w; [done|cbn; lia]).
  rewrite Z.quot_div_nonneg by lia.
  assert (Hh : 2 * ((L - 1) / 2) <= L - 1 < 2 * ((L - 1) / 2) + 2) by dlia.
  set (h := (L - 1) / 2) in *. clearbody h.
  destruct (decide (j < length w)%nat) as [Hj|Hj].
  - rewrite bool_decide_true by (unfold L in *; lia).
    rewrite lookup_app_l by (by rewrite length_reverse).
    rewrite reverse_lookup by done. f_equal. lia.
  - rewrite bool_decide_false by lia. rewrite !lookup_app_r; rewrite ?length_reverse; done || lia.
Qed.

Lemma returns_strrev (Q : Z → list Z → Prop) :
  Q L (reverse w ++ 0 :: r) → returns strrev (w ++ 0 :: r) Q.
Proof.
  intros HQ. assert (HL : 0 < L) by (unfold L; destruct w; [done|cbn; lia]).
  unfold strrev. apply returns_bind. apply returns_strlen; [done|]. fold L. cbv zeta.
  apply returns_bind. apply (returns_for_range rev_inv).
  - rewrite Z.quot_div_nonneg by lia. dlia.
  - split; [done|]. intros j. rewrite bool_decide_false by (unfold L; lia). done.
  - intros i b Hi Hb. by apply rev_inv_round.
  - intros b Hb%rev_inv_final. subst b. apply returns_ret.
    by replace (L - 1 + 1) with L by lia.
Qed.
End strrev.

(** [strrev] reverses a string of at least one byte in place, leaves what
    follows its NUL alone, and returns its length. On the empty string it
    reads and writes the byte before the buffer. *)
Theorem strrev_spec w r :
  cstring w →
  (w ≠ [] → returns strrev (w ++ 0 :: r) (λ n b, n = Z.of_nat (length w) ∧ b = reverse w ++ 0 :: r)) ∧
  (w = [] → faults strrev (w ++ 0 :: r) (OutOfBounds (-1))).
Proof.
  intros Hw. split.
  - intros Hne. by apply returns_strrev.
  - intros ->. exists (0 :: r). reflexivity.
Qed.

(** ** Numbers *)

(** The low digits of [num], least significant first: as many as there are,
    at most [len]. *)
Fixpoint low_digits (fuel : nat) (num base : Z) (len : nat) : list Z :=
  match fuel, len with
  | S fuel, S len =>
      if num =? 0 then [] else num mod base :: low_digits fuel (num / base) base len
  | _, _ => []
  end.

Definition digit_char (d : Z) : Z := if 9 <? d then d - 10 + ch "A" else d + ch "0".

(** The text of [num]: at most [len] digits, most significant first. *)
Definition num_text (base : Z) (len : nat) (num : Z) : list Z :=
  if num =? 0 then [ch "0"] else digit_char <$> reverse (low_digits 64 num base len).

(** The value of a list of digits, least significant first. *)
Fixpoint low_value (base : Z) (ds : list Z) : Z :=
  match ds with [] => 0 | d :: ds => d + base * low_value base ds end.

Section digits.
Context (base : Z) (Hbase : 2 <= base <= 16).

Lemma low_digits_range fuel num len : Forall (λ d, 0 <= d < base) (low_digits fuel num base len).
Proof.
  revert num len. induction fuel as [|fuel IH]; intros num [|len]; cbn; [constructor..|].
  destruct (num =? 0); constructor; [|done]. apply Z.mod_pos_bound. lia.
Qed.

Lemma low_digits_length fuel num len : (length (low_digits fuel num base len) <= len)%nat.
Proof.
  revert num len. induction fuel as [|fuel IH]; intros num [|len]; cbn; [lia..|].
  destruct (num =? 0); cbn; [lia|]. pose proof (IH (num / base) len). lia.
Qed.

Lemma low_digits_value fuel num len :
  0 <= num < 2 ^ Z.of_nat fuel →
  low_value base (low_digits fuel num base len) = num mod base ^ Z.of_nat len.
Proof.
  revert num len. induction fuel as [|fuel IH]; intros num [|len] Hn; cbn [low_digits low_value].
  - by rewrite Z.mod_1_r.
  - assert (num = 0) as -> by (cbn in Hn; lia). by rewrite Zmod_0_l.
  - by rewrite Z.mod_1_r.
  - destruct (Z.eqb_spec num 0) as [->|]; cbn [low_value]; [by rewrite Zmod_0_l|].
    rewrite Nat2Z.inj_succ, Z.pow_succ_r in * by lia.
    rewrite IH by (split; [apply Z.div_pos; lia|apply Z.div_lt_upper_bound; nia]).
    rewrite Z.rem_mul_r by lia. lia.
Qed.

(** No leading zero when all digits fit. *)
Lemma low_digits_last fuel num len :
  0 < num < 2 ^ Z.of_nat fuel → num < base ^ Z.of_nat len →
  ∃ ds d, low_digits fuel num base len = ds ++ [d] ∧ 0 < d.
Proof.
  revert num len. induction fuel as [|fuel IH]; intros num [|len] Hn Hb; cbn [low_digits].
  - cbn in Hn. lia.
  - cbn in Hn. lia.
  - cbn in Hb. lia.
  - destruct (Z.eqb_spec num 0); [lia|].
    rewrite Nat2Z.inj_succ, Z.pow_succ_r in Hn, Hb by lia.
    destruct (Z.eq_dec (num / base) 0) as [E|E].
    + exists [], (num mod base). rewrite E. split; [by destruct fuel, len|].
      rewrite Z.mod_eq, E by lia. lia.
    + assert (0 < num / base) by (pose proof (Z.div_pos num base); lia).
      destruct (IH (num / base) len) as (ds & d & -> & Hd).
      * split; [done|]. apply Z.div_lt_upper_bound; nia.
      * apply Z.div_lt_upper_bound; nia.
      * by exists (num mod base :: ds), d.
Qed.

Lemma digit_char_range d : 0 <= d < base → 0 < digit_char d < 256.
Proof.
  intros. unfold digit_char. change (ch "A") with 65. change (ch "0") with 48.
  destruct (Z.ltb_spec 9 d); lia.
Qed.

Lemma digit_chars_cstring fuel num len : cstring (digit_char <$> low_digits fuel num base len).
Proof.
  apply Forall_fmap. eapply Forall_impl; [apply low_digits_range|]. cbn. apply digit_char_range.
Qed.

(** The loop writes the digits from index [i] on. *)
Lemma returns_ull_loop fuel num len i b (Q : Z → list Z → Prop) :
  0 <= num < 2 ^ Z.of_nat fuel →
  let ds := digit_char <$> low_digits fuel num base len in
  (i + length ds <= length b)%nat →
  Q (Z.of_nat (i + length ds)) (take i b ++ ds ++ drop (i + length ds) b) →
  returns (ull_loop (S fuel) num base (Z.of_nat len) (Z.of_nat i)) b Q.
Proof.
  revert num len i b. induction fuel as [|fuel IH]; intros num len i b Hn ds Hlen HQ.
  - assert (num = 0) as -> by (cbn in Hn; lia). subst ds. cbn in *. apply returns_ret.
    rewrite Nat.add_0_r, take_drop in HQ. done.
  - change (ull_loop (S (S fuel)) num base (Z.of_nat len) (Z.of_nat i)) with
      (if negb (num =? 0) && negb (Z.of_nat len =? 0) then
         put_byte (Z.of_nat i) (digit_char (num mod base));;
         ull_loop (S fuel) (num / base) base (Z.of_nat len - 1) (Z.of_nat i + 1)
       else mret (Z.of_nat i)).
    subst ds. destruct len as [|len]; cbn [low_digits] in *.
    { rewrite andb_false_r. apply returns_ret. cbn in HQ. rewrite Nat.add_0_r, take_drop in HQ. done. }
    destruct (Z.eqb_spec num 0) as [->|Hz].
    { apply returns_ret. cbn in HQ. rewrite Nat.add_0_r, take_drop in HQ. done. }
    rewrite (proj2 (Z.eqb_neq (Z.of_nat (S len)) 0)) by lia. cbn [negb andb].
    rewrite Nat2Z.inj_succ, Z.pow_succ_r in Hn by lia.
    rewrite fmap_cons in Hlen, HQ. cbn [length] in Hlen, HQ.
    pose proof (Z.mod_pos_bound num base ltac:(lia)) as Hm.
    apply returns_bind, returns_put_byte; [lia|]. rewrite Nat2Z.id, wrap_small.
    2:{ pose proof (digit_char_range (num mod base) Hm). lia. }
    replace (Z.of_nat (S len) - 1) with (Z.of_nat len) by lia.
    replace (Z.of_nat i + 1) with (Z.of_nat (S i)) by lia.
    apply IH.
    + split; [apply Z.div_pos; lia|apply Z.div_lt_upper_bound; nia].
    + rewrite length_insert. lia.
    + set (ds := digit_char <$> _) in *. replace (S i + length ds)%nat with (i + S (length ds))%nat by lia.
      assert (Hi : (i < length b)%nat) by lia.
      rewrite (take_S_r _ i (digit_char (num mod base))) by (by apply list_lookup_insert_eq).
      rewrite take_insert, drop_insert_lt by lia. rewrite decide_False by lia.
      rewrite <- app_assoc. exact HQ.
Qed.

Lemma num_text_cstring len num : cstring (num_text base len num).
Proof.
  unfold num_text. destruct (num =? 0); [repeat constructor|].
  rewrite fmap_reverse. apply Forall_reverse, digit_chars_cstring.
Qed.

Lemma num_text_length len num : (length (num_text base len num) <= len `max` 1)%nat.
Proof.
  unfold num_text. destruct (num =? 0); [cbn; lia|].
  rewrite length_fmap, length_reverse. pose proof (low_digits_length 64 num len). lia.
Qed.

Lemma num_text_nonempty len num : 0 <= num < 2 ^ 64 → (0 < len)%nat → num_text base len num ≠ [].
Proof.
  intros Hn Hl. unfold num_text. destruct (Z.eqb_spec num 0); [done|].
  destruct len as [|len]; [lia|]. cbn [low_digits].
  rewrite (proj2 (Z.eqb_neq _ _)) by done. rewrite reverse_cons, fmap_app.
  intros [_ ?]%app_eq_nil. done.
Qed.

Lemma returns_ulltostr num len b (Q : Z → list Z → Prop) :
  0 <= num < 2 ^ 64 → (0 < len)%nat → (len `max` 1 < length b)%nat →
  let t := num_text base len num in
  Q (Z.of_nat (length t)) (t ++ 0 :: drop (S (length t)) b) →
  returns (ulltostr num base (Z.of_nat len)) b Q.
Proof.
  intros Hn Hl Hb t HQ. unfold ulltostr.
  pose proof (num_text_nonempty len num Hn Hl) as Hne. subst t. unfold num_text in *.
  destruct (Z.eqb_spec num 0) as [->|Hz].
  { apply returns_bind, returns_put_byte; [lia|]. apply returns_bind, returns_put_byte.
    - rewrite length_insert. lia.
    - apply returns_ret. destruct b as [|? [|? ?]]; [cbn in Hb; lia..|]. exact HQ. }
  apply returns_bind. change 65%nat with (S 64). apply (returns_ull_loop 64 num len 0); [done| |].
  { rewrite length_fmap. pose proof (low_digits_length 64 num len). lia. }
  rewrite fmap_reverse in *. set (ds := digit_char <$> _) in *.
  assert (Hds : (length ds <= len)%nat)
    by (unfold ds; rewrite length_fmap; apply low_digits_length).
  rewrite take_0. cbn [Nat.add app]. apply returns_bind, returns_put_byte.
  { rewrite length_app, length_drop. lia. }
  rewrite Nat2Z.id. change (u8 0) with 0.
  rewrite insert_app_r_alt, Nat.sub_diag by lia.
  destruct (drop (length ds) b) as [|c r] eqn:Ed.
  { apply (f_equal length) in Ed. rewrite length_drop in Ed. cbn [length] in Ed. lia. }
  cbn [insert list_insert]. apply returns_strrev.
  - apply digit_chars_cstring.
  - intros E. rewrite E in Hne. done.
  - rewrite length_reverse in HQ.
    replace r with (drop (S (length ds)) b); [exact HQ|].
    rewrite <- (Nat.add_1_r), <- drop_drop, Ed. done.
Qed.
End digits.

(** [ulltostr num buffer base len], for a base between 2 and 16 and a
    buffer of more than [len] bytes, terminates, stays inside the buffer and
    writes the NUL-terminated text of [num]: digits of the base whose value is
    [num] modulo [base^len], without a leading zero when [num < base^len]. It
    returns the number of digits. *)
Theorem ulltostr_spec num base len b :
  2 <= base <= 16 → 0 <= num < 2 ^ 64 → (0 < len)%nat → (len < length b)%nat →
  returns (ulltostr num base (Z.of_nat len)) b (λ n b', ∃ ds,
    Forall (λ d, 0 <= d < base) ds ∧ n = Z.of_nat (length ds) ∧ 0 < n <= Z.of_nat len ∧
    b' = (digit_char <$> reverse ds) ++ 0 :: drop (S (length ds)) b ∧
    low_value base ds = num mod base ^ Z.of_nat len ∧
    (0 < num < base ^ Z.of_nat len → ∃ d ds', reverse ds = d :: ds' ∧ 0 < d)).
Proof.
  intros Hbase Hn Hl Hb. apply returns_ulltostr; [done..|lia|].
  pose proof (num_text_nonempty base len num Hn Hl) as Hne.
  pose proof (num_text_length base len num) as Hle.
  unfold num_text in *. destruct (Z.eqb_spec num 0) as [->|Hz].
  - exists [0]. cbn. split_and!; [by repeat constructor; lia|done|lia|lia|done| |lia].
    rewrite Zmod_0_l. lia.
  - rewrite length_fmap, length_reverse in *. exists (low_digits 64 num base len).
    split_and!; [by apply low_digits_range|done| |lia|done| |].
    + destruct (low_digits 64 num base len); [done|cbn; lia].
    + apply low_digits_value; [done|]. exact Hn.
    + intros Hlt. destruct (low_digits_last base Hbase 64 num len) as (ds & d & -> & Hd).
      * change (Z.of_nat 64) with 64. lia.
      * lia.
      * exists d, (reverse ds). by rewrite reverse_app.
Qed.
