(* ===== verification/PrintfRender.v ===== *)
(** [vsnprintf] against a reference renderer: a function from the format and
    the arguments to the text, without buffers, indices or sizes. *)

From S2P Require Import Prelude Lib Printf PrintfSpec.

Open Scope Z_scope.

(** ** The reference *)

(** A field width: the digits at the front of [l]. *)
Fixpoint scan (l : list Z) (pad fl : Z) : Z * Z * list Z :=
  match l with
  | [] => (pad, fl, [])
  | c :: r =>
      if isdigit c then scan r (u64 (u64 (pad * 10) + (c - ch "0"))) (Z.lor fl PAD)
      else (pad, fl, l)
  end.

(** The flags and the field width of a conversion, up to its letter. [None]: there
    is no letter, [vsnprintf] looks for one forever. *)
Fixpoint parse (fuel : nat) (pad fl : Z) (l : list Z) : option (Z * Z * list Z) :=
  match fuel with
  | O => None
  | S fuel =>
      let c := byte_at l in
      if c =? ch "#" then parse fuel 16 (Z.lor fl (Z.lor PREFIX PAD)) (tail l)
      else if c =? ch "+" then parse fuel pad (Z.lor fl ALWAYS_SIGN) (tail l)
      else if conversion c then Some (pad, fl, l)
      else let '(p, f, r) := scan l 0 fl in parse fuel p f r
  end.

(** What one conversion prints: what comes before the padding, what comes after
    it, and the flags and arguments afterwards. *)
Definition conv_text (c fl : Z) (ap : list varg) : option (list Z * list Z * Z * list varg) :=
  if c =? ch "%" then Some ([], chars "%", fl, ap)
  else if (c =? ch "X") || (c =? ch "x") then
    match ap with
    | VInt z :: ap =>
        Some (if nz (Z.land fl PREFIX) then chars "0x" else [], num_text 16 16 (u64 z), fl, ap)
    | _ => None
    end
  else if c =? ch "d" then
    match ap with
    | VInt z :: ap =>
        Some (if nz (Z.land fl ALWAYS_SIGN) then if 0 <? sgn 64 (u64 z) then chars "+" else chars "-" else [],
              num_text 10 20 (u64 z), fl, ap)
    | _ => None
    end
  else if c =? ch "i" then
    match ap with
    | VInt z :: ap =>
        Some (if sgn 64 (u64 z) <? 0 then chars "-" else [], num_text 10 20 (u64 z), fl, ap)
    | _ => None
    end
  else if c =? ch "u" then
    match ap with VInt z :: ap => Some ([], num_text 10 20 (u64 z), fl, ap) | _ => None end
  else if c =? ch "l" then
    match ap with VInt z :: ap => Some ([], num_text 16 16 (u64 z), Z.lor fl LONG, ap) | _ => None end
  else if c =? ch "o" then
    match ap with
    | VInt z :: ap =>
        Some (if nz (Z.land fl PREFIX) then chars "0" else [], num_text 8 16 (u64 z), fl, ap)
    | _ => None
    end
  else if c =? ch "s" then
    match ap with
    | VStr t :: ap =>
        if forallb (λ c, (0 <? c) && (c <? 256)) t then Some ([], t, Z.lor fl NOTNUM, ap) else None
    | _ => None
    end
  else if c =? ch "c" then
    match ap with
    | VInt z :: ap =>
        Some ([], if u8 z =? 0 then [] else [u8 z], Z.lor fl NOTNUM, ap)
    | _ => None
    end
  else if c =? ch "w" then Some ([], chars " ", Z.lor fl PAD, ap)
  else None.

(** The padding of a conversion. *)
Definition padding (pad fl : Z) (body : list Z) : list Z :=
  if nz (Z.land fl PAD) && (Z.of_nat (length body) <? pad)
  then replicate (Z.to_nat (pad - Z.of_nat (length body))) (if nz (Z.land fl NOTNUM) then ch " " else ch "0")
  else [].

(** The text of a format; the field width and the flags carry over from one
    conversion to the next. *)
Fixpoint render (fuel : nat) (pad fl : Z) (l : list Z) (ap : list varg) : option (list Z) :=
  match fuel with
  | O => None
  | S fuel' =>
      match l with
      | [] => Some []
      | c :: r =>
          if c =? ch "%" then
            '(pad, fl, r) ← parse fuel' pad fl r;
            '(pre, body, fl, ap) ← conv_text (byte_at r) fl ap;
            t ← render fuel' pad fl (tail r) ap;
            Some (pre ++ padding pad fl body ++ body ++ t)
          else t ← render fuel' pad 0 r ap; Some (c :: t)
      end
  end.

(** ** The formatter's states *)

Section render.
Context (size : Z) (out0 : list Z).
Hypotheses (Hsize : 22 <= size < 2 ^ 31) (Hout : Z.of_nat (length out0) = size).

(** [txt] has been written to the caller's buffer. *)
Definition St (txt buf : list Z) (pad fl : Z) (fmt : list Z) (ap : list varg) : fstate :=
  FState (txt ++ drop (length txt) out0) buf (Z.of_nat (length txt)) pad fl fmt ap.

(** The scratch buffer holding [t]. *)
Definition held (t : list Z) : list Z := t ++ replicate (Z.to_nat size - length t) 0.

Lemma held_nil : held [] = replicate (Z.to_nat size) 0.
Proof. unfold held. cbn. by rewrite Nat.sub_0_r. Qed.

Lemma held_length t : (length t <= Z.to_nat size)%nat → length (held t) = Z.to_nat size.
Proof. intros. unfold held. rewrite length_app, length_replicate. lia. Qed.

Lemma held_after t :
  (length t < Z.to_nat size)%nat →
  t ++ 0 :: drop (S (length t)) (replicate (Z.to_nat size) 0) = held t.
Proof.
  intros Ht. unfold held. f_equal. rewrite drop_replicate.
  change (0 :: replicate (Z.to_nat size - S (length t)) 0)
    with (replicate (S (Z.to_nat size - S (length t))) 0). f_equal. lia.
Qed.

Lemma held_split t :
  (length t < Z.to_nat size)%nat → ∃ r, held t = t ++ 0 :: r.
Proof. intros Ht. rewrite <- held_after by done. eauto. Qed.

Lemma returns_emit txt buf pad fl fmt ap c (Q : () → fstate → Prop) :
  Z.of_nat (length txt) < size → 0 <= c < 256 →
  Q () (St (txt ++ [c]) buf pad fl fmt ap) →
  returns (emit c) (St txt buf pad fl fmt ap) Q.
Proof.
  intros Hn Hc HQ. unfold emit, returns, St. cbn [f_n f_out put_n put_out].
  rewrite length_app, length_drop.
  rewrite (proj2 (Z.leb_le _ _)), (proj2 (Z.ltb_lt _ _)) by lia. cbn [andb].
  rewrite Nat2Z.id, !wrap_small by lia. unfold St in HQ.
  replace (<[length txt:=c]> (txt ++ drop (length txt) out0))
    with ((txt ++ [c]) ++ drop (length (txt ++ [c])) out0).
  { rewrite length_app in *. cbn [length] in *.
    replace (Z.of_nat (length txt) + 1) with (Z.of_nat (length txt + 1)) by lia. exact HQ. }
  rewrite insert_app_r_alt, Nat.sub_diag by lia. rewrite <- app_assoc. f_equal.
  rewrite length_app. cbn [length].
  destruct (drop (length txt) out0) as [|x r] eqn:Ed.
  { apply (f_equal length) in Ed. rewrite length_drop in Ed. cbn [length] in Ed. lia. }
  cbn. f_equal. rewrite <- drop_drop, Ed. done.
Qed.

Lemma returns_on_buf {A} (m : M (list Z) A) s (Q : A → fstate → Prop) :
  returns m (f_buf s) (λ a b, Q a (put_buf b s)) → returns (on_buf m) s Q.
Proof. apply returns_zoom. Qed.

(** A loop that emits the bytes [cs]. *)
Lemma returns_emit_loop get txt buf pad fl fmt ap cs i fuel (Q : () → fstate → Prop) :
  bytes cs →
  (∀ k c txt', cs !! k = Some c → ∀ Q' : Z → fstate → Prop, Q' c (St txt' buf pad fl fmt ap) →
     returns (get (i + Z.of_nat k)) (St txt' buf pad fl fmt ap) Q') →
  0 <= i → (length cs < fuel)%nat →
  i + Z.of_nat (length txt) + 2 * Z.of_nat (length cs) <= size →
  Q () (St (txt ++ cs) buf pad fl fmt ap) →
  returns (emit_loop size fuel i (i + Z.of_nat (length cs)) get) (St txt buf pad fl fmt ap) Q.
Proof.
  revert txt i fuel. induction cs as [|c cs IH]; intros txt i fuel Hb Hget Hi Hf Hs HQ;
    (destruct fuel as [|fuel]; [cbn in Hf; lia|]); cbn [emit_loop].
  - ret_steps. cbn [length]. rewrite Z.add_0_r, Z.ltb_irrefl. cbn [andb]. apply returns_ret.
    by rewrite app_nil_r in HQ.
  - apply Forall_cons in Hb as [Hc Hb]. cbn [length] in *. ret_step. ret_step. cbn [f_n St].
    rewrite wrap_small by lia.
    rewrite (proj2 (Z.ltb_lt i _)), (proj2 (Z.ltb_lt _ size)) by lia. cbn [andb].
    ret_step. pose proof (Hget 0%nat c txt eq_refl) as Hg. rewrite Z.add_0_r in Hg. apply Hg.
    ret_step. apply returns_emit; [lia|done|].
    replace (i + Z.of_nat (S (length cs))) with (i + 1 + Z.of_nat (length cs)) by lia.
    apply IH; [done| |lia|lia| |].
    + intros k c' txt' Hk. replace (i + 1 + Z.of_nat k) with (i + Z.of_nat (S k)) by lia.
      by apply Hget.
    + rewrite length_app. cbn. lia.
    + by rewrite <- app_assoc.
Qed.

Lemma returns_emit_for get txt buf pad fl fmt ap cs (Q : () → fstate → Prop) :
  bytes cs →
  (∀ k c txt', cs !! k = Some c → ∀ Q' : Z → fstate → Prop, Q' c (St txt' buf pad fl fmt ap) →
     returns (get (Z.of_nat k)) (St txt' buf pad fl fmt ap) Q') →
  Z.of_nat (length txt) + 2 * Z.of_nat (length cs) <= size →
  Q () (St (txt ++ cs) buf pad fl fmt ap) →
  returns (emit_for size (Z.of_nat (length cs)) get) (St txt buf pad fl fmt ap) Q.
Proof.
  intros Hb Hget Hs HQ. unfold emit_for.
  pose proof (returns_emit_loop get txt buf pad fl fmt ap cs 0 (S (Z.to_nat size)) Q) as He.
  rewrite Z.add_0_l in He. apply He; [done|done|lia|lia|lia|done].
Qed.

(** *** The prefix of a conversion *)

Lemma returns_pad_digits txt buf pad fl l ap p f r (Q : () → fstate → Prop) :
  scan l pad fl = (p, f, r) → Q () (St txt buf p f r ap) →
  returns (pad_digits l) (St txt buf pad fl l ap) Q.
Proof.
  revert pad fl. induction l as [|c l IH]; intros pad fl; cbn [scan pad_digits].
  - intros [= <- <- <-] HQ. by apply returns_ret.
  - destruct (isdigit c); [|by intros [= <- <- <-] HQ; apply returns_ret].
    intros Hs HQ. unfold set_flag, advance. ret_steps. by eapply IH.
Qed.

Lemma returns_next_format fuel txt buf pad fl l ap p f r (Q : () → fstate → Prop) :
  parse fuel pad fl l = Some (p, f, r) →
  returns (convert size (byte_at r)) (St txt buf p f r ap) Q →
  returns (next_format size fuel) (St txt buf pad fl l ap) Q.
Proof.
  revert pad fl l. induction fuel as [|fuel IH]; intros pad fl l; [done|].
  cbn [parse next_format]. intros Hp HQ. unfold peek. ret_step. ret_step. cbn [f_fmt St].
  destruct (byte_at l =? ch "#").
  { unfold set_flag, advance. ret_steps. by apply IH. }
  destruct (byte_at l =? ch "+").
  { unfold set_flag, advance. ret_steps. by apply IH. }
  destruct (conversion (byte_at l)).
  { injection Hp as -> -> ->. done. }
  destruct (scan l 0 fl) as [[p1 f1] r1] eqn:Es. do 4 ret_step. cbn [f_fmt St put_pad].
  ret_step. by eapply returns_pad_digits; [exact Es|apply IH].
Qed.

(** *** The conversions *)

Lemma returns_arg_int txt buf pad fl l z ap (Q : Z → fstate → Prop) :
  Q (u64 z) (St txt buf pad fl l ap) → returns arg_int (St txt buf pad fl l (VInt z :: ap)) Q.
Proof. done. Qed.

Lemma returns_number base len txt pad fl l ap v (Q : Z → fstate → Prop) :
  2 <= base <= 16 → 0 <= v < 2 ^ 64 → (0 < len <= 20)%nat →
  (∀ k, Q k (St txt (held (num_text base len v)) pad fl l ap)) →
  returns (on_buf (ulltostr v base (Z.of_nat len))) (St txt (held []) pad fl l ap) Q.
Proof.
  intros Hb Hv Hl HQ. apply returns_on_buf. cbn [f_buf St]. rewrite held_nil.
  apply returns_ulltostr; [done|done|lia|rewrite length_replicate; lia|].
  rewrite held_after; [by apply HQ|].
  pose proof (num_text_length base len v). lia.
Qed.

Lemma held_char c : 0 < c < 256 → <[1%nat:=0]> (<[0%nat:=c]> (held [])) = held [c].
Proof.
  intros Hc. rewrite held_nil. rewrite <- (held_after [c]) by (cbn; lia).
  destruct (Z.to_nat size) as [|[|k]] eqn:E; [lia..|]. done.
Qed.

Lemma returns_put_char txt pad fl l ap v c (Q : () → fstate → Prop) :
  u8 v = c → c ≠ 0 → Q () (St txt (held [c]) pad fl l ap) →
  returns (on_buf (put_byte 0 v);; on_buf (put_byte 1 0)) (St txt (held []) pad fl l ap) Q.
Proof.
  intros Hv Hc HQ. pose proof (wrap_bounds 8 v ltac:(lia)).
  apply returns_bind, returns_on_buf, returns_put_byte; [cbn [f_buf St]; rewrite held_length; cbn; lia|].
  apply returns_on_buf, returns_put_byte; [cbn [f_buf St put_buf]; rewrite length_insert, held_length; cbn; lia|].
  cbn [f_buf St put_buf]. change (u8 0) with 0. rewrite Hv. rewrite held_char by lia. exact HQ.
Qed.

Lemma emit_prefix (b : bool) txt buf pad fl l ap pre (Q : () → fstate → Prop) :
  bytes pre → Z.of_nat (length txt) + Z.of_nat (length pre) < size →
  Q () (St (txt ++ if b then pre else []) buf pad fl l ap) →
  returns (if b then foldr (λ c m, emit c;; m) skip pre else skip) (St txt buf pad fl l ap) Q.
Proof.
  destruct b; [|by rewrite app_nil_r].
  revert txt. induction pre as [|c pre IH]; intros txt Hb Hn HQ; cbn [foldr].
  - by rewrite app_nil_r in HQ.
  - apply Forall_cons in Hb as [Hc Hb]. cbn [length] in Hn.
    ret_step. apply returns_emit; [lia|done|]. apply IH; [done|rewrite length_app; cbn; lia|].
    by rewrite <- app_assoc.
Qed.

Lemma cstring_check t : forallb (λ c, (0 <? c) && (c <? 256)) t = true → cstring t.
Proof.
  rewrite forallb_forall. intros Ht. apply Forall_forall. intros c Hc%list_elem_of_In.
  specialize (Ht c Hc). lia.
Qed.

Lemma strncpy_held (t txt : list Z) :
  (length t < Z.to_nat (size - Z.of_nat (length txt)))%nat →
  strncpy_bytes t (Z.to_nat (size - Z.of_nat (length txt))) ++
    drop (Z.to_nat (size - Z.of_nat (length txt))) (held []) = held t.
Proof.
  intros Ht. unfold strncpy_bytes, held. rewrite take_ge by lia. cbn [app length].
  rewrite drop_replicate, <- app_assoc, <- replicate_add. do 2 f_equal. lia.
Qed.

Lemma u64_small_n n : 0 <= n < size + 2 → u64 n = n.
Proof. intros. apply wrap_small. lia. Qed.

(** [m] does what the reference [r] says, from flags [fl] and arguments [ap]. *)
Definition converts (m : M fstate ()) (fl : Z) (ap : list varg)
    (r : option (list Z * list Z * Z * list varg)) : Prop :=
  ∀ txt pad l pre body fl' ap' (Q : () → fstate → Prop),
    r = Some (pre, body, fl', ap') →
    2 * (Z.of_nat (length txt) + Z.of_nat (length pre) + Z.of_nat (length body)) < size →
    Q () (St (txt ++ pre) (held body) pad fl' l ap') →
    returns m (St txt (held []) pad fl l ap) Q.

Lemma converts_if (b : bool) m1 m2 fl ap r1 r2 :
  converts m1 fl ap r1 → converts m2 fl ap r2 →
  converts (if b then m1 else m2) fl ap (if b then r1 else r2).
Proof. by destruct b. Qed.

(** Numbers: the text has a digit, and the buffer holds it. *)
Lemma num_text_pos base len z : 2 <= base <= 16 → (0 < len)%nat →
  1 <= Z.of_nat (length (num_text base len (u64 z))).
Proof.
  intros Hb Hl. pose proof (num_text_nonempty base len (u64 z) (wrap_bounds 64 z ltac:(lia)) Hl).
  destruct (num_text base len (u64 z)); [done|cbn; lia].
Qed.

Lemma returns_number_arg base len txt pad fl l z ap (Q : Z → fstate → Prop) :
  2 <= base <= 16 → (0 < len <= 20)%nat →
  (∀ k, Q k (St txt (held (num_text base len (u64 z))) pad fl l ap)) →
  returns (on_buf (ulltostr (u64 z) base (Z.of_nat len))) (St txt (held []) pad fl l ap) Q.
Proof. intros Hb Hl HQ. apply returns_number; [done|apply wrap_bounds; lia|done|done]. Qed.

Lemma converts_hex fl ap :
  converts (v ← arg_int; on_buf (ulltostr v 16 16);; p ← has_flag PREFIX; n ← gets f_n;
      if (p : bool) && (u64 (n + 2) <? size) then emit (ch "0");; emit (ch "x") else skip) fl ap
    match ap with
    | VInt z :: ap =>
        Some (if nz (Z.land fl PREFIX) then chars "0x" else [], num_text 16 16 (u64 z), fl, ap)
    | _ => None
    end.
Proof.
  intros txt pad l pre body fl' ap' Q Hc Hn HQ. destruct ap as [|[z|] ap]; try done.
  injection Hc as <- <- <- <-. ret_step. apply returns_arg_int. ret_step.
  pose proof (num_text_pos 16 16 z ltac:(lia) ltac:(lia)) as Hp.
  apply (returns_number_arg 16 16); [lia|lia|intros k]. unfold has_flag. do 4 ret_step.
  cbn [f_n f_flags St]. destruct (nz (Z.land fl PREFIX)); cbn [andb].
  - change (length (chars "0x")) with 2%nat in Hn.
    rewrite u64_small_n, (proj2 (Z.ltb_lt _ _)) by lia.
    ret_step. apply returns_emit; [lia|done|].
    apply returns_emit; [rewrite length_app; cbn; lia|done|]. by rewrite <- app_assoc.
  - apply returns_ret. by rewrite app_nil_r in HQ.
Qed.

Lemma converts_d fl ap :
  converts (v ← arg_int; p ← has_flag ALWAYS_SIGN; n ← gets f_n;
      (if (p : bool) && (u64 (n + 1) <? size)
       then emit (if 0 <? sgn 64 v then ch "+" else ch "-") else skip);;
      on_buf (ulltostr v 10 20);; skip) fl ap
    match ap with
    | VInt z :: ap =>
        Some (if nz (Z.land fl ALWAYS_SIGN) then if 0 <? sgn 64 (u64 z) then chars "+" else chars "-" else [],
              num_text 10 20 (u64 z), fl, ap)
    | _ => None
    end.
Proof.
  intros txt pad l pre body fl' ap' Q Hc Hn HQ. destruct ap as [|[z|] ap]; try done.
  injection Hc as <- <- <- <-. ret_step. apply returns_arg_int. unfold has_flag. do 4 ret_step.
  cbn [f_n f_flags St]. pose proof (num_text_pos 10 20 z ltac:(lia) ltac:(lia)) as Hp.
  ret_step. destruct (nz (Z.land fl ALWAYS_SIGN)); cbn [andb].
  - rewrite u64_small_n, (proj2 (Z.ltb_lt _ _))
      by (destruct (0 <? sgn 64 (u64 z)); change (length (chars _)) with 1%nat in Hn; lia).
    apply returns_emit; [lia|by destruct (0 <? sgn 64 (u64 z))|].
    ret_step. apply (returns_number_arg 10 20); [lia|lia|intros k]. apply returns_ret.
    by destruct (0 <? sgn 64 (u64 z)).
  - apply returns_ret. ret_step. apply (returns_number_arg 10 20); [lia|lia|intros k].
    apply returns_ret. by rewrite app_nil_r in HQ.
Qed.

Lemma converts_i fl ap :
  converts (v ← arg_int; n ← gets f_n;
      (if u64 (n + 1) <? size then if sgn 64 v <? 0 then emit (ch "-") else skip else skip);;
      on_buf (ulltostr v 10 20);; skip) fl ap
    match ap with
    | VInt z :: ap =>
        Some (if sgn 64 (u64 z) <? 0 then chars "-" else [], num_text 10 20 (u64 z), fl, ap)
    | _ => None
    end.
Proof.
  intros txt pad l pre body fl' ap' Q Hc Hn HQ. destruct ap as [|[z|] ap]; try done.
  injection Hc as <- <- <- <-. ret_step. apply returns_arg_int. do 2 ret_step. cbn [f_n St]. ret_step.
  pose proof (num_text_pos 10 20 z ltac:(lia) ltac:(lia)) as Hp.
  rewrite u64_small_n, (proj2 (Z.ltb_lt _ _)) by lia. destruct (sgn 64 (u64 z) <? 0).
  - apply returns_emit; [lia|done|]. ret_step.
    apply (returns_number_arg 10 20); [lia|lia|intros k]. by apply returns_ret.
  - apply returns_ret. ret_step. apply (returns_number_arg 10 20); [lia|lia|intros k].
    apply returns_ret. by rewrite app_nil_r in HQ.
Qed.

Lemma converts_u fl ap :
  converts (v ← arg_int; on_buf (ulltostr v 10 20);; skip) fl ap
    match ap with VInt z :: ap => Some ([], num_text 10 20 (u64 z), fl, ap) | _ => None end.
Proof.
  intros txt pad l pre body fl' ap' Q Hc Hn HQ. destruct ap as [|[z|] ap]; try done.
  injection Hc as <- <- <- <-. ret_step. apply returns_arg_int. ret_step.
  apply (returns_number_arg 10 20); [lia|lia|intros k]. apply returns_ret. by rewrite app_nil_r in HQ.
Qed.

Lemma converts_l fl ap :
  converts (set_flag LONG;; v ← arg_int; on_buf (ulltostr v 16 16);; skip) fl ap
    match ap with VInt z :: ap => Some ([], num_text 16 16 (u64 z), Z.lor fl LONG, ap) | _ => None end.
Proof.
  intros txt pad l pre body fl' ap' Q Hc Hn HQ. destruct ap as [|[z|] ap]; try done.
  injection Hc as <- <- <- <-. unfold set_flag. do 3 ret_step. apply returns_arg_int. ret_step.
  apply (returns_number_arg 16 16); [lia|lia|intros k]. apply returns_ret. by rewrite app_nil_r in HQ.
Qed.

Lemma converts_o fl ap :
  converts (v ← arg_int; on_buf (ulltostr v 8 16);; p ← has_flag PREFIX; n ← gets f_n;
      if (p : bool) && (u64 (n + 2) <? size) then emit (ch "0") else skip) fl ap
    match ap with
    | VInt z :: ap =>
        Some (if nz (Z.land fl PREFIX) then chars "0" else [], num_text 8 16 (u64 z), fl, ap)
    | _ => None
    end.
Proof.
  intros txt pad l pre body fl' ap' Q Hc Hn HQ. destruct ap as [|[z|] ap]; try done.
  injection Hc as <- <- <- <-. ret_step. apply returns_arg_int. ret_step.
  pose proof (num_text_pos 8 16 z ltac:(lia) ltac:(lia)) as Hp.
  apply (returns_number_arg 8 16); [lia|lia|intros k]. unfold has_flag. do 4 ret_step.
  cbn [f_n f_flags St]. destruct (nz (Z.land fl PREFIX)); cbn [andb].
  - change (length (chars "0")) with 1%nat in Hn.
    rewrite u64_small_n, (proj2 (Z.ltb_lt _ _)) by lia. by apply returns_emit; [lia|..].
  - apply returns_ret. by rewrite app_nil_r in HQ.
Qed.

Lemma converts_s fl ap :
  converts (t ← arg_str; n ← gets f_n; on_buf (strncpy t (u64 (size - n)));; set_flag NOTNUM) fl ap
    match ap with
    | VStr t :: ap =>
        if forallb (λ c, (0 <? c) && (c <? 256)) t then Some ([], t, Z.lor fl NOTNUM, ap) else None
    | _ => None
    end.
Proof.
  intros txt pad l pre body fl' ap' Q Hc Hn HQ. destruct ap as [|[|t] ap]; try done.
  destruct (forallb _ t); [|done]. injection Hc as <- <- <- <-. cbn [length] in Hn.
  ret_step. apply (returns_mono _ _ (λ a s', a = t ∧ s' = St txt (held []) pad fl l ap)); [done|].
  intros a s' [-> ->]. do 3 ret_step. cbn [f_n St]. rewrite u64_small_n by lia.
  apply returns_on_buf. unfold returns, strncpy. cbn [f_buf St].
  rewrite held_length by (cbn; lia). rewrite (proj2 (Z.leb_le _ _)) by lia.
  rewrite strncpy_held by lia. rewrite app_nil_r in HQ. exact HQ.
Qed.

Lemma u8_u64 z : u8 (u64 z) = u8 z.
Proof.
  unfold wrap. apply Z.mod_mod_divide. by exists (2 ^ 56).
Qed.

Lemma held_zero : <[1%nat:=0]> (<[0%nat:=0]> (held [])) = held [].
Proof. rewrite held_nil. destruct (Z.to_nat size) as [|[|k]] eqn:E; done. Qed.

Lemma converts_c fl ap :
  converts (v ← arg_int; on_buf (put_byte 0 v);; on_buf (put_byte 1 0);; set_flag NOTNUM) fl ap
    match ap with
    | VInt z :: ap => Some ([], if u8 z =? 0 then [] else [u8 z], Z.lor fl NOTNUM, ap)
    | _ => None
    end.
Proof.
  intros txt pad l pre body fl' ap' Q Hc Hn HQ. destruct ap as [|[z|] ap]; try done.
  injection Hc as <- <- <- <-. rewrite app_nil_r in HQ. ret_step. apply returns_arg_int.
  apply returns_bind, returns_on_buf, returns_put_byte; [cbn [f_buf St]; rewrite held_length; cbn; lia|].
  apply returns_bind, returns_on_buf, returns_put_byte;
    [cbn [f_buf St put_buf]; rewrite length_insert, held_length; cbn; lia|].
  cbn [f_buf St put_buf]. rewrite u8_u64. change (u8 0) with 0. apply returns_modify.
  pose proof (wrap_bounds 8 z ltac:(lia)).
  destruct (Z.eqb_spec (u8 z) 0) as [E|E].
  - rewrite E. change (Z.to_nat 0) with 0%nat. change (Z.to_nat 1) with 1%nat.
    rewrite held_zero. exact HQ.
  - change (Z.to_nat 0) with 0%nat. change (Z.to_nat 1) with 1%nat.
    rewrite held_char by lia. exact HQ.
Qed.

Lemma converts_percent fl ap :
  converts (on_buf (put_byte 0 (ch "%"));; on_buf (put_byte 1 0)) fl ap (Some ([], chars "%", fl, ap)).
Proof.
  intros txt pad l pre body fl' ap' Q Hc Hn HQ. injection Hc as <- <- <- <-.
  rewrite app_nil_r in HQ. by eapply (returns_put_char _ _ _ _ _ (ch "%") (ch "%")).
Qed.

Lemma converts_w fl ap :
  converts (set_flag PAD;; on_buf (put_byte 0 (ch " "))) fl ap (Some ([], chars " ", Z.lor fl PAD, ap)).
Proof.
  intros txt pad l pre body fl' ap' Q Hc Hn HQ. injection Hc as <- <- <- <-.
  rewrite app_nil_r in HQ. unfold set_flag. do 2 ret_step.
  apply returns_on_buf, returns_put_byte; [cbn [f_buf St put_fflags]; rewrite held_length; cbn; lia|].
  cbn [f_buf St put_fflags]. change (u8 (ch " ")) with 32. change (Z.to_nat 0) with 0%nat.
  replace (<[0%nat:=32]> (held [])) with (held [32]); [exact HQ|].
  rewrite held_nil. rewrite <- (held_after [32]) by (cbn; lia).
  by destruct (Z.to_nat size) as [|[|k]] eqn:E; [lia..|].
Qed.

Lemma returns_convert c fl ap : conversion c = true → converts (convert size c) fl ap (conv_text c fl ap).
Proof.
  intros Hc. unfold convert, conv_text.
  apply converts_if; [apply converts_percent|].
  apply converts_if; [apply converts_hex|].
  apply converts_if; [apply converts_d|].
  apply converts_if; [apply converts_i|].
  apply converts_if; [apply converts_u|].
  apply converts_if; [apply converts_l|].
  apply converts_if; [apply converts_o|].
  apply converts_if; [apply converts_s|].
  apply converts_if; [apply converts_c|].
  destruct (c =? ch "w"); [apply converts_w|]. by intros txt pad l pre body fl' ap' Q Hn.
Qed.

(** *** One conversion, padding and body *)

Lemma conv_text_body c fl ap pre body fl' ap' :
  conv_text c fl ap = Some (pre, body, fl', ap') → cstring body.
Proof.
  assert (Hnum : ∀ base len z, 2 <= base <= 16 → cstring (num_text base len z))
    by (intros; by apply num_text_cstring).
  assert (Hch : ∀ x, cstring (if u8 x =? 0 then [] else [u8 x])).
  { intros x. pose proof (wrap_bounds 8 x ltac:(lia)).
    destruct (Z.eqb_spec (u8 x) 0); repeat constructor; lia. }
  unfold conv_text. intros Hc.
  repeat match type of Hc with
  | (if ?b then _ else _) = Some _ => destruct b eqn:?
  | match ?l with [] => _ | _ :: _ => _ end = Some _ => destruct l as [|[?|?] ?]; try done
  end; try discriminate; injection Hc as <- <- <- <-;
    first [ apply Hnum; lia | apply Hch | by apply cstring_check | repeat constructor; cbv; done ].
Qed.

Lemma scan_cstring l pad fl p f r : scan l pad fl = (p, f, r) → cstring l → cstring r.
Proof.
  revert pad fl. induction l as [|c l IH]; intros pad fl; cbn [scan]; [by intros [= <- <- <-]|].
  destruct (isdigit c); [|by intros [= <- <- <-]].
  intros Hs Hl. apply Forall_cons in Hl as [_ Hl]. by eapply IH.
Qed.

Lemma parse_cstring fuel pad fl l p f r :
  parse fuel pad fl l = Some (p, f, r) → cstring l → cstring r ∧ conversion (byte_at r) = true.
Proof.
  revert pad fl l. induction fuel as [|fuel IH]; intros pad fl l; [done|]. cbn [parse].
  assert (Ht : cstring l → cstring (tail l)) by (destruct l; [done|by intros [_ ?]%Forall_cons]).
  destruct (byte_at l =? ch "#"); [intros ? ?; eauto|].
  destruct (byte_at l =? ch "+"); [intros ? ?; eauto|].
  destruct (conversion (byte_at l)) eqn:Ec; [by intros [= <- <- <-]|].
  destruct (scan l 0 fl) as [[p1 f1] r1] eqn:Es. intros Hp Hl.
  eapply IH; [done|by eapply scan_cstring].
Qed.

Lemma returns_clear_buf txt body pad fl l ap (Q : () → fstate → Prop) :
  cstring body → Z.of_nat (length body) < size →
  Q () (St txt (held []) pad fl l ap) →
  returns clear_buf (St txt (held body) pad fl l ap) Q.
Proof.
  intros Hb Hn HQ. unfold clear_buf. ret_step. apply returns_on_buf. cbn [f_buf St].
  destruct (held_split body) as [r Er]; [lia|]. rewrite Er.
  apply returns_strlen; [done|]. apply returns_modify.
  unfold put_buf. cbn [f_out f_n f_pad f_flags f_fmt f_args f_buf]. rewrite Nat2Z.id, <- Er.
  replace (replicate (length body) 0 ++ drop (length body) (held body)) with (held []); [exact HQ|].
  unfold held. cbn [app length]. rewrite drop_app_length, <- replicate_add. f_equal. lia.
Qed.

Lemma returns_output txt body pad fl l ap (Q : () → fstate → Prop) :
  cstring body →
  2 * (Z.of_nat (length txt) + Z.of_nat (length (padding pad fl body)) + Z.of_nat (length body)) < size →
  Q () (St (txt ++ padding pad fl body ++ body) (held []) pad fl l ap) →
  returns (fl ← gets f_flags; pad ← gets f_pad; l ← on_buf strlen;
    (if nz (Z.land fl PAD) && (l <? pad) then
       emit_for size (pad - l) (λ _, mret (if nz (Z.land fl NOTNUM) then ch " " else ch "0"))
     else skip);;
    emit_for size l (λ i, on_buf (get_byte i));;
    clear_buf) (St txt (held body) pad fl l ap) Q.
Proof.
  intros Hb Hn HQ. do 4 ret_step. cbn [f_flags f_pad St]. destruct (held_split body) as [r Er]; [lia|].
  do 1 ret_step. apply returns_on_buf. cbn [f_buf St]. rewrite Er. apply returns_strlen; [done|].
  rewrite <- Er. change (put_buf (held body) (St txt (held body) pad fl l ap))
    with (St txt (held body) pad fl l ap).
  ret_step. unfold padding in *.
  destruct (nz (Z.land fl PAD) && (Z.of_nat (length body) <? pad)) eqn:Ep.
  - apply andb_true_iff in Ep as [_ Ep%Z.ltb_lt]. rewrite length_replicate in Hn.
    pose proof (returns_emit_for (λ _, mret (if nz (Z.land fl NOTNUM) then ch " " else ch "0"))
      txt (held body) pad fl l ap
      (replicate (Z.to_nat (pad - Z.of_nat (length body)))
        (if nz (Z.land fl NOTNUM) then ch " " else ch "0"))) as He.
    rewrite length_replicate, Z2Nat.id in He by lia. apply He; clear He.
    + apply Forall_replicate. by destruct (nz (Z.land fl NOTNUM)).
    + intros k c txt' [-> _]%lookup_replicate Q' HQ'. by apply returns_ret.
    + lia.
    + ret_step. apply returns_emit_for.
      * by apply cstring_bytes.
      * intros k c txt' Hk Q' HQ'. apply returns_on_buf. eapply returns_get_byte; [lia| |exact HQ'].
        rewrite Nat2Z.id. unfold held. cbn [f_buf St]. by apply lookup_app_l_Some.
      * rewrite length_app, length_replicate. lia.
      * apply returns_clear_buf; [done|lia|]. by rewrite <- app_assoc.
  - apply returns_ret. ret_step. cbn [length] in Hn. apply returns_emit_for.
    + by apply cstring_bytes.
    + intros k c txt' Hk Q' HQ'. apply returns_on_buf. eapply returns_get_byte; [lia| |exact HQ'].
      rewrite Nat2Z.id. unfold held. cbn [f_buf St]. by apply lookup_app_l_Some.
    + lia.
    + by apply returns_clear_buf; [|lia|].
Qed.

(** *** The whole format *)

Lemma returns_format_loop fuel txt pad fl l ap t :
  cstring l → render fuel pad fl l ap = Some t →
  2 * (Z.of_nat (length txt) + Z.of_nat (length t)) < size →
  returns (format_loop size fuel) (St txt (held []) pad fl l ap) (λ _ s',
    f_out s' = (txt ++ t) ++ drop (length (txt ++ t)) out0 ∧ f_n s' = Z.of_nat (length (txt ++ t))).
Proof.
  revert txt pad fl l ap t. induction fuel as [|fuel IH]; intros txt pad fl l ap t Hl; [done|].
  cbn [render format_loop]. intros Hr Hn. do 4 ret_step. cbn [f_n f_fmt St].
  destruct l as [|c l].
  { injection Hr as <-. apply returns_ret. rewrite app_nil_r. done. }
  rewrite (proj2 (Z.ltb_lt _ _)) by lia. pose proof Hl as Hl'. apply Forall_cons in Hl' as [Hc Hl'].
  unfold format_char, peek, advance. do 3 ret_step. cbn [byte_at f_fmt St].
  destruct (c =? ch "%").
  - apply bind_Some in Hr as ([[p f] r] & Hp & Hr).
    apply bind_Some in Hr as ([[[pre body] fl'] ap'] & Hcv & Hr).
    apply bind_Some in Hr as (t' & Hr & [= <-]).
    destruct (parse_cstring _ _ _ _ _ _ _ Hp Hl') as [Hrc Hconv].
    pose proof (conv_text_body _ _ _ _ _ _ _ Hcv) as Hbody.
    rewrite !length_app in Hn. do 3 ret_step.
    eapply returns_next_format; [exact Hp|].
    eapply returns_convert; [exact Hconv|exact Hcv|lia|].
    apply returns_output; [done|rewrite length_app; lia|]. do 2 ret_step.
    ret_use IH; [|exact Hr|rewrite !length_app; lia|].
    { destruct r; [done|by apply Forall_cons in Hrc as [_ ?]]. }
    intros _ s'. cbv beta. by rewrite <- !app_assoc.
  - apply bind_Some in Hr as (t' & Hr & [= <-]). cbn [length] in Hn.
    ret_step. apply returns_emit; [lia|lia|]. do 3 ret_step.
    ret_use IH; [exact Hl'|exact Hr|rewrite length_app; cbn; lia|].
    intros _ s'. cbv beta. by rewrite <- !app_assoc.
Qed.
End render.

Lemma vsnprintf_text fuel str size fmt ap t :
  22 <= size < 2 ^ 31 → Z.of_nat (length str) = size → cstring fmt →
  render fuel 0 0 fmt ap = Some t → 2 * Z.of_nat (length t) < size →
  ∃ s', vsnprintf fuel str size fmt ap = Ok (Z.of_nat (length t)) s' ∧
    f_out s' = t ++ drop (length t) str.
Proof.
  intros Hs Hl Hf Hr Hn.
  pose proof (returns_format_loop size str Hs Hl fuel [] 0 0 fmt ap t Hf Hr ltac:(cbn; lia)) as Hret.
  rewrite held_nil in Hret. unfold St in Hret. cbn [app length] in Hret. rewrite drop_0 in Hret.
  unfold vsnprintf, mbind, M_bind. unfold returns in Hret. change (Z.of_nat 0) with 0 in Hret.
  destruct (format_loop size fuel _) as [[] s'|]; [|done]. destruct Hret as [Ho En].
  exists s'. unfold gets, mret, M_ret. rewrite En, sgn_small by lia. done.
Qed.

(** C11: [vsnprintf] prints what the reference renderer prints, when the text
    takes less than half of a buffer of at least 22 bytes: the result is the
    length of the text, the text is at the front of the buffer, and the bytes
    behind it are as they were (no NUL is stored). The flags and the width of
    one conversion carry over to the next, [%d] and [%i] print negative
    numbers as unsigned ones, and [%o] prints the low sixteen digits, as the
    reference says. *)
Theorem vsnprintf_renders fuel str size fmt ap t :
  22 <= size < 2 ^ 31 → Z.of_nat (length str) = size → cstring fmt →
  render fuel 0 0 fmt ap = Some t → 2 * Z.of_nat (length t) < size →
  ∃ s', vsnprintf fuel str size fmt ap = Ok (Z.of_nat (length t)) s' ∧
    f_out s' = t ++ drop (length t) str.
Proof. apply vsnprintf_text. Qed.
