(* ===== verification/PrintfSafe.v ===== *)
(** [vsnprintf] never writes outside the caller's buffer, whatever the format
    and the arguments; and it never returns from a conversion it does not
    know. *)

From S2P Require Import Prelude Lib Printf.

Open Scope Z_scope.

(** ** Partial correctness without a write outside the caller's buffer *)

Definition safe {A} (m : M fstate A) (s : fstate) (Q : A → fstate → Prop) : Prop :=
  match m s with
  | Ok a s' => Q a s'
  | Err f _ => ∀ p, f ≠ BadPointer p
  end.

Section rules.
Context {A B : Type}.
Implicit Types (m : M fstate A) (k : A → M fstate B) (s : fstate).

Lemma safe_ret (a : A) s Q : Q a s → safe (mret a) s Q.
Proof. done. Qed.
Lemma safe_bind m k s Q : safe m s (λ a s', safe (k a) s' Q) → safe (m ≫= k) s Q.
Proof. unfold safe, mbind, M_bind. by destruct (m s). Qed.
Lemma safe_mono m s (P Q : A → fstate → Prop) :
  safe m s P → (∀ a s', P a s' → Q a s') → safe m s Q.
Proof. unfold safe. destruct (m s); eauto. Qed.
Lemma safe_gets (g : fstate → A) s Q : Q (g s) s → safe (gets g) s Q.
Proof. done. Qed.
Lemma safe_modify (g : fstate → fstate) s (Q : () → fstate → Prop) :
  Q () (g s) → safe (modify g) s Q.
Proof. done. Qed.
End rules.

Section safe.
Context (size : Z) (Hsize : 0 <= size < 2 ^ 31).

(** The invariant: the index is inside the buffer or at its end. *)
Definition inside (s : fstate) : Prop :=
  Z.of_nat (length (f_out s)) = size ∧ 0 <= f_n s <= size.

(** [m] keeps the invariant. *)
Definition stays {A} (m : M fstate A) : Prop := ∀ s, inside s → safe m s (λ _, inside).
(** ... and the index, too. *)
Definition still {A} (m : M fstate A) : Prop :=
  ∀ s, inside s → safe m s (λ _ s', inside s' ∧ f_n s' = f_n s).

Lemma still_stays {A} (m : M fstate A) : still m → stays m.
Proof. intros Hm s Hs. eapply safe_mono; [by apply Hm|]. by intros a s' [? _]. Qed.

Lemma stays_bind {A B} (m : M fstate A) (k : A → M fstate B) :
  stays m → (∀ a, stays (k a)) → stays (m ≫= k).
Proof. intros Hm Hk s Hs. apply safe_bind. eapply safe_mono; [by apply Hm|]. intros a s'. apply Hk. Qed.

Lemma still_bind {A B} (m : M fstate A) (k : A → M fstate B) :
  still m → (∀ a, still (k a)) → still (m ≫= k).
Proof.
  intros Hm Hk s Hs. apply safe_bind. eapply safe_mono; [by apply Hm|]. intros a s' [Hs' E].
  eapply safe_mono; [by apply Hk|]. intros b s'' [? ?]. split; [done|congruence].
Qed.

Lemma still_ret {A} (a : A) : still (mret a).
Proof. intros s Hs. by apply safe_ret. Qed.
Lemma still_gets {A} (g : fstate → A) : still (gets g).
Proof. intros s Hs. by apply safe_gets. Qed.
Lemma still_modify (g : fstate → fstate) :
  (∀ s, f_out (g s) = f_out s ∧ f_n (g s) = f_n s) → still (modify g).
Proof.
  intros Hg s [Hl Hn]. apply safe_modify. destruct (Hg s) as [E1 E2]. unfold inside.
  by rewrite E1, E2.
Qed.
Lemma stays_throw {A} f : (∀ p, f ≠ BadPointer p) → stays (throw f : M fstate A).
Proof. intros Hf s Hs. exact Hf. Qed.

(** The scratch buffer's computations stop at [OutOfBounds] or [NoFuel] only. *)
Definition no_bad {A} (m : M (list Z) A) : Prop :=
  ∀ b, match m b with Ok _ _ => True | Err f _ => ∀ p, f ≠ BadPointer p end.

Lemma no_bad_bind {A B} (m : M (list Z) A) (k : A → M (list Z) B) :
  no_bad m → (∀ a, no_bad (k a)) → no_bad (m ≫= k).
Proof.
  intros Hm Hk b. unfold mbind, M_bind. specialize (Hm b). destruct (m b); [apply Hk|done].
Qed.
Lemma no_bad_ret {A} (a : A) : no_bad (mret a).
Proof. done. Qed.
Lemma no_bad_get i : no_bad (get_byte i).
Proof. intros b. unfold get_byte. destruct (i <? 0); [done|]. by destruct (b !! Z.to_nat i). Qed.
Lemma no_bad_put i v : no_bad (put_byte i v).
Proof. intros b. unfold put_byte. by destruct (_ && _). Qed.
Lemma no_bad_strlen : no_bad strlen.
Proof. intros b. unfold strlen. by destruct (find_nul b). Qed.
Lemma no_bad_strncpy t n : no_bad (strncpy t n).
Proof. intros b. unfold strncpy. by destruct (n <=? _). Qed.
Lemma no_bad_for_up n i st (f : Z → M (list Z) ()) : (∀ i, no_bad (f i)) → no_bad (for_up n i st f).
Proof.
  intros Hf. revert i. induction n as [|n IH]; intros i; cbn; [done|]. by apply no_bad_bind.
Qed.
Lemma no_bad_strrev : no_bad strrev.
Proof.
  unfold strrev. apply no_bad_bind; [apply no_bad_strlen|intros len]. apply no_bad_bind; [|intros ?; apply no_bad_ret].
  apply no_bad_for_up. intros i. apply no_bad_bind; [apply no_bad_get|intros ?].
  apply no_bad_bind; [apply no_bad_get|intros ?].
  apply no_bad_bind; [apply no_bad_put|intros ?]. apply no_bad_put.
Qed.
Lemma no_bad_ull_loop fuel num base len i : no_bad (ull_loop fuel num base len i).
Proof.
  revert num len i. induction fuel as [|fuel IH]; intros num len i; cbn [ull_loop]; [done|].
  destruct (_ && _); [|apply no_bad_ret]. apply no_bad_bind; [apply no_bad_put|intros ?]. apply IH.
Qed.
Lemma no_bad_ulltostr num base len : no_bad (ulltostr num base len).
Proof.
  unfold ulltostr. destruct (num =? 0).
  - apply no_bad_bind; [apply no_bad_put|intros ?]. apply no_bad_bind; [apply no_bad_put|intros ?].
    apply no_bad_ret.
  - apply no_bad_bind; [apply no_bad_ull_loop|intros ?]. apply no_bad_bind; [apply no_bad_put|intros ?].
    apply no_bad_strrev.
Qed.

Lemma still_on_buf {A} (m : M (list Z) A) : no_bad m → still (on_buf m).
Proof.
  intros Hm s Hs. unfold safe, on_buf, zoom. specialize (Hm (f_buf s)).
  destruct (m (f_buf s)); [by destruct Hs|done].
Qed.

(** *** Writes to the caller's buffer *)

Lemma safe_emit c s : inside s → f_n s < size →
  safe (emit c) s (λ _ s', inside s' ∧ f_n s' = f_n s + 1).
Proof.
  intros [Hl Hn] Hlt. unfold safe, emit.
  rewrite (proj2 (Z.leb_le _ _)), (proj2 (Z.ltb_lt _ _)) by lia. cbn [andb].
  unfold inside. cbn [f_out f_n put_n put_out]. rewrite length_insert, wrap_small by lia. lia.
Qed.

Lemma safe_emit_guard n k s : inside s → f_n s = n → 0 <= k <= 2 →
  (u64 (n + k) <? size) = true → n + k < size.
Proof. intros [Hl Hn] <- Hk Hlt%Z.ltb_lt. rewrite wrap_small in Hlt by lia. done. Qed.

(** [n ← gets f_n; k n], with [n] known to be the index. *)
Lemma stays_index {A} (k : Z → M fstate A) :
  (∀ s, inside s → safe (k (f_n s)) s (λ _, inside)) → stays (n ← gets f_n; k n).
Proof. intros Hk s Hs. apply safe_bind, safe_gets. by apply Hk. Qed.

Lemma safe_emit_one (b : bool) (k : Z) c s : inside s → 1 <= k <= 2 →
  safe (if b && (u64 (f_n s + k) <? size) then emit c else skip) s (λ _, inside).
Proof.
  intros Hs Hk. destruct b; [|by apply safe_ret]. cbn [andb].
  destruct (u64 (f_n s + k) <? size) eqn:E; [|by apply safe_ret].
  apply (safe_emit_guard _ k s) in E; [|done|done|lia].
  eapply safe_mono; [apply safe_emit; [done|lia]|]. by intros _ s' [? _].
Qed.

Lemma still_arg_int : still arg_int.
Proof. intros s Hs. unfold safe, arg_int. destruct (f_args s) as [|[]]; done. Qed.
Lemma still_arg_str : still arg_str.
Proof. intros s Hs. unfold safe, arg_str. destruct (f_args s) as [|[]]; done. Qed.
Lemma still_set_flag f : still (set_flag f).
Proof. by apply still_modify. Qed.

Lemma still_skip : still skip.
Proof. apply still_ret. Qed.

Create HintDb stays_db.
Hint Resolve still_stays still_skip still_ret still_gets still_arg_int still_arg_str still_set_flag
  still_on_buf no_bad_ulltostr no_bad_put no_bad_strncpy no_bad_strlen no_bad_get : stays_db.

Ltac stays_step :=
  lazymatch goal with
  | |- stays (mbind (λ n, _) (gets f_n)) => apply stays_index; intros s Hs
  | |- stays (mbind _ _) => apply stays_bind; [by auto with stays_db|intros ?]
  end.

Lemma stays_number v base len : stays (on_buf (ulltostr v base len);; skip).
Proof. repeat stays_step. auto with stays_db. Qed.

Lemma stays_convert c : stays (convert size c).
Proof.
  unfold convert.
  destruct (c =? ch "%"). { repeat stays_step. auto with stays_db. }
  destruct ((c =? ch "X") || (c =? ch "x")).
  { unfold has_flag. repeat stays_step. destruct a1; [|by apply safe_ret]. cbn [andb].
    destruct (u64 (f_n s + 2) <? size) eqn:E; [|by apply safe_ret].
    apply (safe_emit_guard _ 2 s) in E; [|done|done|lia].
    apply safe_bind. eapply safe_mono; [apply safe_emit; [done|lia]|]. intros _ s' [Hs' E'].
    eapply safe_mono; [apply safe_emit; [done|lia]|]. by intros _ s'' [? _]. }
  destruct (c =? ch "d").
  { unfold has_flag. repeat stays_step. apply safe_bind.
    eapply safe_mono; [apply safe_emit_one; [done|lia]|]. intros [] s' Hs'. by apply stays_number. }
  destruct (c =? ch "i").
  { repeat stays_step. apply safe_bind.
    eapply (safe_mono _ _ (λ _, inside)).
    { destruct (u64 (f_n s + 1) <? size) eqn:E; [|by apply safe_ret].
      apply (safe_emit_guard _ 1 s) in E; [|done|done|lia].
      destruct (sgn 64 a <? 0); [|by apply safe_ret].
      eapply safe_mono; [apply safe_emit; [done|lia]|]. by intros _ s' [? _]. }
    intros [] s' Hs'. by apply stays_number. }
  destruct (c =? ch "u"). { repeat stays_step. auto with stays_db. }
  destruct (c =? ch "l"). { repeat stays_step. auto with stays_db. }
  destruct (c =? ch "o").
  { unfold has_flag. repeat stays_step. apply safe_emit_one; [done|lia]. }
  destruct (c =? ch "s").
  { repeat stays_step. assert (Hn : ∀ n, stays (on_buf (strncpy a (u64 (size - n)));; set_flag NOTNUM)).
    { intros n. repeat stays_step. auto with stays_db. }
    by apply Hn. }
  destruct (c =? ch "c"). { repeat stays_step. auto with stays_db. }
  repeat stays_step. auto with stays_db.
Qed.

Lemma stays_pad_digits l : stays (pad_digits l).
Proof.
  induction l as [|c l IH]; cbn [pad_digits]; [auto with stays_db|].
  destruct (isdigit c); [|auto with stays_db].
  apply stays_bind; [auto with stays_db|intros _].
  apply stays_bind; [by apply still_stays, still_modify|intros _].
  apply stays_bind; [by apply still_stays, still_modify|intros _]. done.
Qed.

Lemma stays_next_format fuel : stays (next_format size fuel).
Proof.
  induction fuel as [|fuel IH]; cbn [next_format]; [by apply stays_throw|].
  apply stays_bind; [apply still_stays, still_gets|intros c].
  assert (Hm : ∀ g : fstate → fstate, (∀ s, f_out (g s) = f_out s ∧ f_n (g s) = f_n s) → stays (modify g))
    by (intros; by apply still_stays, still_modify).
  destruct (c =? ch "#"); [|destruct (c =? ch "+"); [|destruct (conversion c)]].
  - repeat (apply stays_bind; [by apply Hm|intros _]). done.
  - repeat (apply stays_bind; [by apply Hm|intros _]). done.
  - apply stays_convert.
  - apply stays_bind; [by apply Hm|intros _]. apply stays_bind; [apply still_stays, still_gets|intros l].
    apply stays_bind; [apply stays_pad_digits|done].
Qed.

(** [i] and [n] grow together, so [i] never passes [n] and [i + n] does not
    wrap around. *)
Lemma safe_emit_loop fuel i lim get s :
  (∀ k, still (get k)) → inside s → 0 <= i <= f_n s →
  safe (emit_loop size fuel i lim get) s (λ _, inside).
Proof.
  intros Hg. revert i s. induction fuel as [|fuel IH]; intros i s Hs Hi; cbn [emit_loop]; [done|].
  apply safe_bind, safe_gets. destruct (i <? lim); cbn [andb]; [|by apply safe_ret].
  destruct (u64 (i + f_n s) <? size) eqn:E; [|by apply safe_ret].
  assert (Hlt : f_n s < size).
  { destruct Hs as [_ Hn]. apply Z.ltb_lt in E. rewrite wrap_small in E by lia. lia. }
  apply safe_bind. eapply safe_mono; [by apply Hg|]. intros c s1 [Hs1 E1].
  apply safe_bind. eapply safe_mono; [apply safe_emit; [done|lia]|]. intros _ s2 [Hs2 E2].
  apply IH; [done|lia].
Qed.

Lemma stays_emit_for lim get : (∀ k, still (get k)) → stays (emit_for size lim get).
Proof.
  intros Hg s Hs. apply safe_emit_loop; [done|done|]. destruct Hs as [_ ?]. lia.
Qed.

Lemma stays_clear_buf : stays clear_buf.
Proof.
  unfold clear_buf. stays_step. by apply still_stays, still_modify.
Qed.

Lemma safe_format_char fuel s : inside s → f_n s < size →
  safe (format_char size fuel) s (λ _, inside).
Proof.
  intros Hs Hlt. unfold format_char. apply safe_bind, safe_gets.
  destruct (byte_at (f_fmt s) =? ch "%").
  - revert s Hs Hlt. assert (Hm : stays (advance;; next_format size fuel;; fl ← gets f_flags; pad ← gets f_pad;
      l ← on_buf strlen;
      (if nz (Z.land fl PAD) && (l <? pad) then
         emit_for size (pad - l) (λ _, mret (if nz (Z.land fl NOTNUM) then ch " " else ch "0"))
       else skip);; emit_for size l (λ i, on_buf (get_byte i));; clear_buf)); [|intros s Hs _; by apply Hm].
    apply stays_bind; [by apply still_stays, still_modify|intros _].
    apply stays_bind; [apply stays_next_format|intros _].
    apply stays_bind; [auto with stays_db|intros fl].
    apply stays_bind; [auto with stays_db|intros pad].
    apply stays_bind; [auto with stays_db|intros l].
    apply stays_bind.
    { destruct (_ && _); [|auto with stays_db]. apply stays_emit_for. intros _. apply still_ret. }
    intros _. apply stays_bind; [|intros _; apply stays_clear_buf].
    apply stays_emit_for. intros k. auto with stays_db.
  - apply safe_bind. eapply safe_mono; [by apply safe_emit|]. intros _ s' [Hs' _].
    by apply safe_modify.
Qed.

Lemma stays_format_loop fuel : stays (format_loop size fuel).
Proof.
  induction fuel as [|fuel IH]; intros s Hs; cbn [format_loop]; [done|].
  do 2 apply safe_bind, safe_gets. destruct (f_fmt s) as [|c l]; [by apply safe_ret|].
  destruct (Z.ltb_spec (f_n s) size); [|by apply safe_ret].
  apply safe_bind. eapply safe_mono; [by apply safe_format_char|]. intros [] s' Hs'.
  apply safe_bind, safe_modify. by apply IH.
Qed.
End safe.


(** *** Conversions that are not known *)

(** C34: A [%] that is followed by a character outside [#+%Xxdiuloscw0123456789],
    or by the end of the format, makes [vsnprintf] loop forever: no number of
    rounds is enough. *)
Theorem vsnprintf_unknown_diverges str size fmt ap :
  0 < size →
  byte_at fmt ≠ ch "#" → byte_at fmt ≠ ch "+" → conversion (byte_at fmt) = false →
  isdigit (byte_at fmt) = false →
  ∀ fuel, ∃ s', vsnprintf fuel str size (ch "%" :: fmt) ap = Err NoFuel s'.
Proof.
  intros Hs H1 H2 H3 H4 fuel.
  assert (Hnext : ∀ k pad, ∃ s', next_format size k
    (FState str (replicate (Z.to_nat size) 0) 0 pad 0 fmt ap) = Err NoFuel s').
  { induction k as [|k IH]; intros pad; [by eexists|]. cbn [next_format].
    unfold peek, mbind, M_bind, gets, modify. cbn [f_fmt put_pad].
    rewrite (proj2 (Z.eqb_neq _ _) H1), (proj2 (Z.eqb_neq _ _) H2), H3.
    assert (E : ∀ s, pad_digits fmt s = Ok () s).
    { intros s. destruct fmt as [|c r]; [done|]. cbn [pad_digits]. cbn in H4. by rewrite H4. }
    rewrite E. apply IH. }
  unfold vsnprintf. destruct fuel as [|fuel]; [by eexists|].
  cbn [format_loop]. unfold mbind, M_bind, gets. cbn [f_fmt f_n].
  rewrite (proj2 (Z.ltb_lt 0 size)) by done. unfold format_char, peek, mbind, M_bind, gets.
  cbn [f_fmt byte_at]. rewrite Z.eqb_refl. unfold advance, modify. cbn [f_fmt tail put_fmt].
  destruct (Hnext fuel 0) as [s' E]. unfold put_fmt. cbn [f_out f_buf f_n f_pad f_flags f_args].
  rewrite E. eauto.
Qed.
