(* ===== verification/Io.v ===== *)
(** Port input and output, as a trace of events (newest first). What a device
    answers is not code of the repository: it is the class [Devices], a
    function of the history and the port. *)

From S2P Require Import Prelude.

Open Scope Z_scope.

Inductive event :=
  | Out (width port v : Z)
  | In (width port v : Z)
  | Mmio (addr v : Z)      (** a 32-bit store to a device register *)
  | MmioRead (addr v : Z)
  | Store16 (addr v : Z)   (** a 16-bit store to memory that the firmware reads *)
  | Msr (reg v : Z)
  | Sti
  | Cli.

#[global] Instance event_eq_dec : EqDecision event.
Proof. solve_decision. Defined.

Abbreviation trace := (list event).

(** The answers: to a port read of a width, to a 32-bit load from a device
    register, and to a read of a model-specific register. *)
Class Devices := {
  dev_in : trace → Z → Z → Z;
  dev_mmio : trace → Z → Z;
  dev_msr : trace → Z → Z;
}.

(** Arguments are converted to the parameter types of the prototypes in
    [include/arch/x86_64/kernel.h]. *)
Definition outb (port v : Z) : M trace () := modify (cons (Out 8 (u16 port) (u8 v))).
Definition outw (port v : Z) : M trace () := modify (cons (Out 16 (u16 port) (u16 v))).
Definition outd (port v : Z) : M trace () := modify (cons (Out 32 (u16 port) (u32 v))).

Section devices.
Context `{Devices}.

Definition port_in (w port : Z) : M trace Z := λ t,
  let v := wrap w (dev_in t w (u16 port)) in Ok v (In w (u16 port) v :: t).
Definition inb : Z → M trace Z := port_in 8.
Definition inw : Z → M trace Z := port_in 16.
(** [ind] reads 32 bits and is declared to return [uint16_t]. *)
Definition ind (port : Z) : M trace Z := v ← port_in 32 port; mret (u16 v).

Definition mmio_write (a v : Z) : M trace () := modify (cons (Mmio a (u32 v))).
Definition mmio_read (a : Z) : M trace Z := λ t,
  let v := u32 (dev_mmio t a) in Ok v (MmioRead a v :: t).

Definition store16 (a v : Z) : M trace () := modify (cons (Store16 a (u16 v))).

Definition writemsr (reg v : Z) : M trace () := modify (cons (Msr reg (u64 v))).
Definition readmsr (reg : Z) : M trace Z := gets (λ t, u64 (dev_msr t reg)).
End devices.

Definition interrupts_enable : M trace () := modify (cons Sti).
Definition interrupts_disable : M trace () := modify (cons Cli).

(** What was written to a port, oldest first. *)
Definition written (t : trace) (port : Z) : list Z :=
  reverse (omap (λ e, match e with Out _ p v => if p =? port then Some v else None | _ => None end) t).

Lemma written_cons e t p : written (e :: t) p =
  written t p ++ (match e with Out _ q v => if q =? p then [v] else [] | _ => [] end).
Proof.
  unfold written. destruct e as [w q v| | | | | | |]; cbn [omap list_omap]; try by rewrite app_nil_r.
  destruct (q =? p); [by rewrite <- reverse_cons|by rewrite app_nil_r].
Qed.
