(* ===== verification/Term.v ===== *)
(** The text console, [term.c]: the cursor, the text buffer at [0xB8000] and
    the cursor registers. The buffer is the 32 KB of colour text memory; an
    access outside it is the fault [OutOfBounds]. *)

From S2P Require Import Prelude Kernel Lib Io.

Open Scope Z_scope.

(** [struct vga_coord]: [vga] is the contents of the memory it points to. *)
Record term := Term {
  vga : Z → Z;
  attrib : Z;
  tx : Z;        (** byte column: two bytes per character *)
  ty : Z;
  tlock : bool;
  tio : trace;   (** port events *)
}.

Definition put_vga v t := Term v (attrib t) (tx t) (ty t) (tlock t) (tio t).
Definition put_attrib v t := Term (vga t) v (tx t) (ty t) (tlock t) (tio t).
Definition put_x v t := Term (vga t) (attrib t) v (ty t) (tlock t) (tio t).
Definition put_y v t := Term (vga t) (attrib t) (tx t) v (tlock t) (tio t).
Definition put_tlock v t := Term (vga t) (attrib t) (tx t) (ty t) v (tio t).
Definition put_tio v t := Term (vga t) (attrib t) (tx t) (ty t) (tlock t) v.

Definition on_io {A} (m : M trace A) : M term A := zoom tio put_tio m.

(** The size of the colour text memory. *)
Definition vga_size : Z := 0x8000.

Definition vga_store (i v : Z) : M term () := λ t,
  if (0 <=? i) && (i <? vga_size)
  then Ok () (put_vga (λ a, if a =? i then u8 v else vga t a) t)
  else Err (OutOfBounds i) t.

(** [*(uint16_t* ) (vga + i) = v]. *)
Definition vga_store16 (i v : Z) : M term () :=
  vga_store i v;; vga_store (i + 1) (Z.shiftr (u16 v) 8).

(** [memcpy(vga + dst, vga + src, n)] for [dst <= src]: the copy runs upwards,
    so every byte is read before it is overwritten. *)
Definition vga_memcpy (dst src n : Z) : M term () := λ t,
  if (0 <=? dst) && (dst <=? src) && (0 <=? n) && (src + n <=? vga_size) then
    Ok () (put_vga (λ a, if (dst <=? a) && (a <? dst + n) then vga t (a - dst + src) else vga t a) t)
  else Err (OutOfBounds (src + n)) t.

(** [memsetw(vga + dst, v, n)]: [n] counts bytes ([lib/memset.asm]). *)
Definition vga_memsetw (dst v n : Z) : M term () := λ t,
  if (0 <=? dst) && (dst + n <=? vga_size) then
    Ok () (put_vga (λ a, if (dst <=? a) && (a <? dst + n) then
      (if Z.even (a - dst) then u8 v else u8 (Z.shiftr v 8)) else vga t a) t)
  else Err (OutOfBounds (dst + n)) t.

Definition vga_clear : M term () :=
  for_range 0 (80 * 25) (λ i,
    vga_store (2 * i) 0;;
    a ← gets attrib;
    vga_store (2 * i + 1) a);;
  modify (put_y 0);;
  modify (put_x 0).

Definition vga_move_cursor (x y : Z) : M term () :=
  let pos := u16 (y * 80 + x) in
  on_io (outb 0x3D4 14);;
  on_io (outb 0x3D5 (Z.shiftr pos 8));;
  on_io (outb 0x3D4 15);;
  on_io (outb 0x3D5 pos).

Definition vga_update_cursor : M term () :=
  x ← gets tx; y ← gets ty; vga_move_cursor (x / 2) y.

Definition vga_setcolor (color : Z) : M term () := modify (put_attrib (u16 color)).

Definition vga_scroll : M term () :=
  y ← gets ty;
  (if 25 <=? y then
     let temp := u8 (y - 24) in
     vga_memcpy 0 (temp * 160) (u64 ((25 - temp) * 160 * 2));;
     a ← gets attrib;
     vga_memsetw (24 * 160) (Z.lor 0 (Z.shiftl a 8)) 160;;
     modify (put_y 24)
   else skip);;
  vga_update_cursor.

(** [for (i = start_x + 1 + 160 * start_y; i < sizeend; i += 2) vga[i] = color;] *)
Definition vga_overwrite_color (color start_x start_y end_x end_y : Z) : M term () :=
  let sizeend := 2 * end_x + 160 * end_y in
  let i0 := start_x + 1 + 160 * start_y in
  for_up (Z.to_nat ((sizeend - i0 + 1) / 2)) i0 2 (λ i, vga_store i color).

(** [c] is a signed [char]: bytes from 128 on smear the attribute. *)
Definition vga_kputc (c x y : Z) : M term () :=
  a ← gets attrib;
  vga_store16 (x + y * 160) (Z.lor (s8 c) (Z.shiftl a 8)).

Fixpoint vga_kputs (s : list Z) (x y : Z) : M term () :=
  match s with
  | [] => skip
  | c :: s => vga_kputc c (x + 2) y;; vga_kputs s (x + 2) y
  end.

(** [while (x % 16) x++]: at most fifteen rounds. *)
Fixpoint tab_loop (fuel : nat) : M term () :=
  match fuel with
  | O => throw NoFuel
  | S fuel =>
      x ← gets tx;
      if nz (x mod 16) then modify (put_x (u16 (x + 1)));; tab_loop fuel else skip
  end.

Definition vga_putc (c : Z) : M term () :=
  if c =? 10 then
    modify (λ t, put_y (u16 (ty t + 1)) t);;
    modify (put_x 0);;
    vga_scroll
  else if c =? 8 then
    modify (λ t, put_x (u16 (tx t - 2)) t);;
    x ← gets tx; y ← gets ty; vga_kputc (ch " ") x y
  else if c =? 9 then
    tab_loop 16;;
    modify (λ t, put_x (u16 (tx t + 2)) t);;
    x ← gets tx;
    if 160 <=? x then modify (put_x 0);; modify (λ t, put_y (u16 (ty t + 1)) t) else skip
  else
    x ← gets tx; y ← gets ty;
    vga_kputc c x y;;
    modify (λ t, put_x (u16 (tx t + 2)) t);;
    x ← gets tx;
    (if 160 <=? x then modify (put_x 0);; modify (λ t, put_y (u16 (ty t + 1)) t) else skip);;
    vga_scroll.

Fixpoint vga_chars (s : list Z) : M term () :=
  match s with
  | [] => skip
  | c :: s => vga_putc c;; vga_chars s
  end.

Definition vga_puts (s : list Z) : M term () :=
  l ← gets tlock;
  if (l : bool) then throw Deadlock else
  modify (put_tlock true);;
  vga_chars s;;
  modify (put_tlock false).

Definition vga_pretty (s : list Z) (color : Z) : M term () :=
  start_x ← gets tx;
  start_y ← gets ty;
  vga_puts s;;
  y ← gets ty;
  vga_overwrite_color color start_x start_y 80 y.
