(* ===== verification/TermSpec.v ===== *)
(** The console stays inside the screen, prints where the cursor is, and
    scrolls by one row. *)

From S2P Require Import Prelude Kernel Lib Io Term.

Open Scope Z_scope.

(** The cursor is at a cell of the screen. *)
Definition cursor_ok (t : term) : Prop :=
  0 <= tx t <= 158 ∧ Z.even (tx t) = true ∧ 0 <= ty t <= 24 ∧ 0 <= attrib t < 2 ^ 16.

(** Character and attribute of the cell in row [r], column [c]. *)
Definition cell (t : term) (r c : Z) : Z * Z := (vga t (160 * r + 2 * c), vga t (160 * r + 2 * c + 1)).

(** What [vga_update_cursor] sends to the CRT controller. *)
Definition cursor_events (x y : Z) : trace :=
  let pos := u16 (y * 80 + x / 2) in
  [Out 8 0x3D5 (u8 pos); Out 8 0x3D4 15; Out 8 0x3D5 (u8 (Z.shiftr pos 8)); Out 8 0x3D4 14].

Lemma returns_update_cursor t (Q : () → term → Prop) :
  Q () (put_tio (cursor_events (tx t) (ty t) ++ tio t) t) → returns vga_update_cursor t Q.
Proof. done. Qed.

(** The memory after [*(uint16_t* ) (vga + i) = v]. *)
Definition poke16 (f : Z → Z) (i v : Z) : Z → Z :=
  λ a, if a =? i + 1 then u8 (Z.shiftr (u16 v) 8) else if a =? i then u8 v else f a.

Lemma returns_store16 t i v (Q : () → term → Prop) :
  0 <= i → i + 1 < vga_size → Q () (put_vga (poke16 (vga t) i v) t) →
  returns (vga_store16 i v) t Q.
Proof.
  intros Hi Hs HQ. unfold vga_store16, returns, mbind, M_bind, vga_store.
  rewrite (proj2 (Z.leb_le 0 i)), (proj2 (Z.ltb_lt i _)) by lia. cbn [andb].
  rewrite (proj2 (Z.leb_le 0 _)), (proj2 (Z.ltb_lt _ _)) by lia. exact HQ.
Qed.

(** The word of a character and an attribute. *)
Definition char_word (c a : Z) : Z := Z.lor (s8 c) (Z.shiftl a 8).

Lemma char_word_bytes c a : 0 <= c < 128 → 0 <= a →
  u8 (char_word c a) = c ∧ u8 (Z.shiftr (u16 (char_word c a)) 8) = u8 a.
Proof.
  intros Hc Ha. unfold char_word. rewrite sgn_small by lia.
  rewrite Z.shiftl_mul_pow2, lor_add by lia. unfold wrap. rewrite Z.shiftr_div_pow2 by lia.
  split; dlia.
Qed.

Lemma returns_kputc t c x y (Q : () → term → Prop) :
  0 <= x + y * 160 → x + y * 160 + 1 < vga_size →
  Q () (put_vga (poke16 (vga t) (x + y * 160) (char_word c (attrib t))) t) →
  returns (vga_kputc c x y) t Q.
Proof. intros Hi Hs HQ. unfold vga_kputc. ret_steps. by apply returns_store16. Qed.

(** *** Scrolling *)

(** The memory after scrolling up by one row. *)
Definition scrolled (f : Z → Z) (a : Z) : Z → Z := λ i,
  if (3840 <=? i) && (i <? 3840 + 160)
  then if Z.even (i - 3840) then u8 (Z.lor 0 (Z.shiftl a 8)) else u8 (Z.shiftr (Z.lor 0 (Z.shiftl a 8)) 8)
  else if (0 <=? i) && (i <? 0 + 7680) then f (i - 0 + 160) else f i.

Lemma returns_scroll t (Q : () → term → Prop) :
  0 <= ty t <= 25 →
  (let t' := if ty t =? 25 then put_y 24 (put_vga (scrolled (vga t) (attrib t)) t) else t in
   Q () (put_tio (cursor_events (tx t') (ty t') ++ tio t') t')) →
  returns vga_scroll t Q.
Proof.
  intros Hy HQ. cbv zeta in HQ. unfold vga_scroll. ret_step. ret_step.
  destruct (Z.eqb_spec (ty t) 25) as [E|E].
  - rewrite E. change (25 <=? 25) with true. cbv iota zeta.
    change (u8 (25 - 24)) with 1. change (u64 ((25 - 1) * 160 * 2)) with 7680.
    do 2 ret_step. unfold returns, vga_memcpy, vga_memsetw, gets, mbind, M_bind, modify.
    cbn [vga attrib tx ty tlock tio put_vga]. change (1 * 160) with 160. change (24 * 160) with 3840.
    cbn -[Z.shiftl Z.shiftr Z.even vga_update_cursor cursor_events] in *.
    apply returns_update_cursor. cbn [put_vga put_y put_tio vga attrib tx ty tlock tio] in *.
    exact HQ.
  - rewrite (proj2 (Z.leb_gt 25 (ty t))) by lia. ret_step. ret_step.
    by apply returns_update_cursor.
Qed.

Lemma cell_scrolled t f a :
  0 <= a < 2 ^ 16 →
  let t' := put_vga (scrolled f a) t in
  (∀ r c, 0 <= r < 24 → 0 <= c < 80 → cell t' r c = cell (put_vga f t) (r + 1) c) ∧
  (∀ c, 0 <= c < 80 → cell t' 24 c = (0, u8 a)).
Proof.
  intros Ha t'. unfold cell, t'. cbn [vga put_vga]. split.
  - intros r c Hr Hc. unfold scrolled.
    rewrite !(proj2 (Z.leb_gt 3840 _)), !(proj2 (Z.leb_le 0 _)), !(proj2 (Z.ltb_lt _ (0 + 7680))) by lia.
    cbn [andb]. f_equal; f_equal; lia.
  - intros c Hc. unfold scrolled.
    rewrite !(proj2 (Z.leb_le 3840 _)), !(proj2 (Z.ltb_lt _ (3840 + 160))) by lia. cbn [andb].
    replace (160 * 24 + 2 * c - 3840) with (2 * c) by lia.
    replace (160 * 24 + 2 * c + 1 - 3840) with (2 * c + 1) by lia.
    rewrite Z.even_mul, Z.even_add, Z.even_mul. cbn [Z.even orb xorb Bool.eqb].
    rewrite Z.lor_0_l, Z.shiftl_mul_pow2, Z.shiftr_div_pow2, Z.div_mul by lia. f_equal.
    unfold wrap. apply Z.mod_mul. lia.
Qed.

(** *** One character *)

(** Where the cursor goes after a printed character, before scrolling. *)
Definition advance_cursor (t : term) : term :=
  if tx t =? 158 then put_y (ty t + 1) (put_x 0 t) else put_x (tx t + 2) t.
(** The screen after scrolling, if the cursor left it, and the cursor update. *)
Definition settle (t : term) : term :=
  let t' := if ty t =? 25 then put_y 24 (put_vga (scrolled (vga t) (attrib t)) t) else t in
  put_tio (cursor_events (tx t') (ty t') ++ tio t') t'.

Lemma returns_wrap_column t (Q : () → term → Prop) :
  cursor_ok t → Q () (advance_cursor t) →
  returns (modify (λ t, put_x (u16 (tx t + 2)) t);;
    x ← gets tx;
    if 160 <=? x then modify (put_x 0);; modify (λ t, put_y (u16 (ty t + 1)) t) else skip) t Q.
Proof.
  intros (Hx & He & Hy & _) HQ. unfold advance_cursor in HQ. do 4 ret_step. cbn [tx put_x].
  rewrite wrap_small by lia. destruct (Z.eqb_spec (tx t) 158) as [E|E].
  - rewrite E. change (160 <=? 158 + 2) with true. cbv iota. ret_steps. cbn [ty put_x].
    rewrite wrap_small by lia. exact HQ.
  - assert (tx t + 2 < 160) by (apply Z.even_spec in He as [k ?]; lia).
    rewrite (proj2 (Z.leb_gt 160 _)) by lia. by apply returns_ret.
Qed.

Lemma returns_putc_char t c (Q : () → term → Prop) :
  cursor_ok t → c ≠ 8 → c ≠ 9 → c ≠ 10 →
  Q () (settle (advance_cursor (put_vga (poke16 (vga t) (tx t + ty t * 160) (char_word c (attrib t))) t))) →
  returns (vga_putc c) t Q.
Proof.
  intros Hok H8 H9 H10 HQ. pose proof Hok as (Hx & He & Hy & Ha). unfold vga_putc.
  rewrite !(proj2 (Z.eqb_neq c _)) by done. do 4 ret_step. ret_step.
  apply returns_kputc; [lia|unfold vga_size; lia|].
  set (t1 := put_vga _ t) in *. assert (Hok1 : cursor_ok t1) by exact Hok.
  pose proof (returns_wrap_column t1 (λ _ s, returns vga_scroll s Q) Hok1) as Hw.
  assert (Hs : returns vga_scroll (advance_cursor t1) Q).
  { apply returns_scroll; [|exact HQ]. unfold advance_cursor. destruct (tx t1 =? 158); cbn; lia. }
  specialize (Hw Hs). apply returns_bind_inv in Hw. ret_step. ret_use Hw. intros [] s Hw'.
  apply returns_bind_inv in Hw'. ret_step. ret_use Hw'. intros x s' Hw''. ret_step. exact Hw''.
Qed.

Lemma cell_poke t c row col r k a :
  0 <= c < 128 → 0 <= a → 0 <= col < 80 → 0 <= k < 80 → 0 <= row → 0 <= r →
  cell (put_vga (poke16 (vga t) (2 * col + row * 160) (char_word c a)) t) r k =
    if (r =? row) && (k =? col) then (c, u8 a) else cell t r k.
Proof.
  intros Hc Ha Hcol Hk Hrow Hr. destruct (char_word_bytes c a Hc Ha) as [E1 E2].
  unfold cell, poke16. cbn [vga put_vga]. rewrite E1, E2.
  destruct (Z.eqb_spec r row) as [->|Hr']; cbn [andb].
  - destruct (Z.eqb_spec k col) as [->|Hk'].
    + rewrite (proj2 (Z.eqb_neq (160 * row + 2 * col) (2 * col + row * 160 + 1))) by lia.
      rewrite !(proj2 (Z.eqb_eq _ _)) by lia. done.
    + rewrite !(proj2 (Z.eqb_neq _ _)) by lia. done.
  - rewrite !(proj2 (Z.eqb_neq _ _)) by lia. done.
Qed.

(** Printing a character below 128 (not a control character that moves the
    cursor) puts it with the current attribute into the cell under the cursor,
    leaves every other cell of the screen alone, moves the cursor to the next
    cell and programs the cursor registers with it. Printed in the last cell,
    it is followed by a scroll: every row holds what the row below it held,
    the last row is blank, and the cursor is at its start. *)
Theorem vga_putc_prints t c :
  cursor_ok t → 0 <= c < 128 → c ≠ 8 → c ≠ 9 → c ≠ 10 →
  let printed := λ r k, if (r =? ty t) && (k =? tx t / 2) then (c, u8 (attrib t)) else cell t r k in
  returns (vga_putc c) t (λ _ t',
    tio t' = cursor_events (tx t') (ty t') ++ tio t ∧
    if (ty t =? 24) && (tx t =? 158) then
      tx t' = 0 ∧ ty t' = 24 ∧
      (∀ r k, 0 <= r < 24 → 0 <= k < 80 → cell t' r k = printed (r + 1) k) ∧
      (∀ k, 0 <= k < 80 → cell t' 24 k = (0, u8 (attrib t)))
    else
      80 * ty t' + tx t' / 2 = 80 * ty t + tx t / 2 + 1 ∧ tx t' <= 158 ∧
      (∀ r k, 0 <= r <= 24 → 0 <= k < 80 → cell t' r k = printed r k)).
Proof.
  intros Hok Hc H8 H9 H10 printed. pose proof Hok as (Hx & He & Hy & Ha).
  apply returns_putc_char; [done..|].
  assert (Ex : tx t = 2 * (tx t / 2)) by (apply Z.even_spec in He as [k ->]; dlia).
  set (f := poke16 _ _ _).
  assert (Hcell : ∀ r k, 0 <= r → 0 <= k < 80 → cell (put_vga f t) r k = printed r k).
  { intros r k Hr Hk. unfold f. rewrite Ex at 1.
    rewrite cell_poke; [done|lia|lia|dlia|lia|lia|lia]. }
  clearbody f. unfold settle, advance_cursor. cbn [tx ty put_vga].
  destruct (Z.eqb_spec (tx t) 158) as [E|E].
  - cbn [ty put_y put_x]. destruct (Z.eqb_spec (ty t) 24) as [E2|E2]; cbn [andb].
    + rewrite (proj2 (Z.eqb_eq (ty t + 1) 25)) by lia. cbn [tio put_tio tx ty put_y put_vga put_x].
      split; [done|]. split; [done|]. split; [done|].
      pose proof (cell_scrolled t f (attrib t) Ha) as [Hs1 Hs2].
      split; [|exact Hs2]. intros r k Hr Hk. specialize (Hs1 r k Hr Hk).
      rewrite Hcell in Hs1 by lia. exact Hs1.
    + rewrite (proj2 (Z.eqb_neq (ty t + 1) 25)) by lia. cbn [tio put_tio tx ty put_y put_x].
      split; [done|]. split; [rewrite E; dlia|]. split; [lia|].
      intros r k Hr Hk. rewrite <- Hcell by lia. done.
  - rewrite andb_false_r. cbn [ty put_x put_vga]. rewrite (proj2 (Z.eqb_neq (ty t) 25)) by lia.
    cbn [tio put_tio tx ty put_x put_vga]. split; [done|]. apply Z.even_spec in He as [m Em].
    split; [rewrite Em; dlia|]. split; [lia|].
    intros r k Hr Hk. rewrite <- Hcell by lia. done.
Qed.

(** *** Safety of whole strings *)

Lemma settle_ok t :
  0 <= tx t <= 158 → Z.even (tx t) = true → 0 <= ty t <= 25 → 0 <= attrib t < 2 ^ 16 →
  cursor_ok (settle t) ∧ tlock (settle t) = tlock t.
Proof.
  intros Hx He Hy Ha. unfold settle, cursor_ok.
  destruct (Z.eqb_spec (ty t) 25); cbn [tx ty attrib tlock put_tio put_y put_vga];
    split_and!; try done; lia.
Qed.

Lemma advance_ok t : cursor_ok t →
  let t' := advance_cursor t in
  0 <= tx t' <= 158 ∧ Z.even (tx t') = true ∧ 0 <= ty t' <= 25 ∧ 0 <= attrib t' < 2 ^ 16 ∧
  tlock t' = tlock t.
Proof.
  intros (Hx & He & Hy & Ha). cbv zeta. unfold advance_cursor.
  destruct (Z.eqb_spec (tx t) 158); cbn [tx ty attrib tlock put_x put_y]; split_and!; try done; try lia.
  - apply Z.even_spec in He as [k ?]. lia.
  - by rewrite Z.even_add, He.
Qed.

Lemma returns_newline t (Q : () → term → Prop) :
  cursor_ok t → Q () (settle (put_x 0 (put_y (ty t + 1) t))) → returns (vga_putc 10) t Q.
Proof.
  intros (Hx & He & Hy & Ha) HQ. unfold vga_putc. change (10 =? 10) with true. cbv iota.
  do 4 ret_step. rewrite wrap_small by lia. apply returns_scroll; [cbn; lia|]. exact HQ.
Qed.

Lemma returns_putc_ok t c :
  cursor_ok t → c ≠ 8 → c ≠ 9 →
  returns (vga_putc c) t (λ _ t', cursor_ok t' ∧ tlock t' = tlock t).
Proof.
  intros Hok H8 H9. pose proof Hok as (Hx & He & Hy & Ha).
  destruct (Z.eq_dec c 10) as [->|H10].
  - apply returns_newline; [done|].
    apply (settle_ok (put_x 0 (put_y (ty t + 1) t))); cbn [tx ty attrib put_x put_y]; done || lia.
  - apply returns_putc_char; [done..|]. set (t1 := put_vga _ t).
    destruct (advance_ok t1 Hok) as (H1 & H2 & H3 & H4 & El).
    destruct (settle_ok _ H1 H2 H3 H4) as [H5 H6]. split; [done|]. by rewrite H6, El.
Qed.

(** Printing a string without backspaces and tabs, from a cursor on the
    screen, terminates without an access outside the text memory, leaves the
    cursor on the screen and releases the lock. *)
Theorem vga_puts_safe t s :
  cursor_ok t → tlock t = false → Forall (λ c, c ≠ 8 ∧ c ≠ 9) s →
  returns (vga_puts s) t (λ _ t', cursor_ok t' ∧ tlock t' = false).
Proof.
  intros Hok Hl Hs. unfold vga_puts. ret_step. ret_step. rewrite Hl. do 3 ret_step.
  assert (Hok' : cursor_ok (put_tlock true t)) by exact Hok. clear Hok.
  revert Hok'. generalize (put_tlock true t) as u. clear t Hl. intros t Hok. revert t Hok.
  induction Hs as [|c s [H8 H9] Hs IH]; intros t Hok; cbn [vga_chars].
  - ret_step. by ret_steps.
  - ret_step. ret_use returns_putc_ok; [done..|]. intros [] t' [Hok' _]. by apply IH.
Qed.

(** *** Tabs do not scroll *)

Lemma returns_tab_loop fuel t (Q : () → term → Prop) :
  0 <= tx t <= 160 → (16 - tx t mod 16) mod 16 < Z.of_nat fuel →
  Q () (put_x ((tx t + 15) / 16 * 16) t) → returns (tab_loop fuel) t Q.
Proof.
  revert t. induction fuel as [|fuel IH]; intros t Hx Hf HQ; [dlia|]. cbn [tab_loop].
  do 2 ret_step. unfold nz. destruct (Z.eqb_spec (tx t mod 16) 0) as [E|E]; cbn [negb].
  - apply returns_ret. replace ((tx t + 15) / 16 * 16) with (tx t) in HQ by dlia.
    by destruct t.
  - do 2 ret_step. rewrite wrap_small by lia. apply IH; cbn [tx put_x]; [dlia|dlia|].
    replace ((tx t + 1 + 15) / 16 * 16) with ((tx t + 15) / 16 * 16) by dlia. done.
Qed.

(** A tab in the last eight columns of the last row moves the cursor below
    the screen without scrolling; the character printed after it is written
    below the screen and is lost: after the scroll that follows, the last row
    is blank, with the cursor in its second column. *)
Theorem vga_tab_loses_character t c :
  cursor_ok t → ty t = 24 → 144 < tx t → 0 <= c < 128 → c ≠ 8 → c ≠ 9 → c ≠ 10 →
  returns (vga_putc 9;; vga_putc c) t (λ _ t',
    tx t' = 2 ∧ ty t' = 24 ∧ ∀ k, 0 <= k < 80 → cell t' 24 k = (0, u8 (attrib t))).
Proof.
  intros (Hx & He & _ & Ha) Hy Hx' Hc H8 H9 H10. ret_step.
  unfold vga_putc at 1. change (9 =? 10) with false. change (9 =? 8) with false.
  change (9 =? 9) with true. cbv iota. ret_step. apply returns_tab_loop; [lia|dlia|].
  replace ((tx t + 15) / 16 * 16) with 160 by dlia. do 4 ret_step. cbn [tx put_x].
  change (160 <=? u16 (160 + 2)) with true. cbv iota. do 3 ret_step. cbn [ty put_x]. rewrite Hy.
  unfold vga_putc. rewrite !(proj2 (Z.eqb_neq c _)) by done. do 4 ret_step. ret_step.
  change (ty (put_y (u16 (24 + 1)) (put_x 0 (put_x (u16 (160 + 2)) (put_x 160 t))))) with 25.
  change (tx (put_y (u16 (24 + 1)) (put_x 0 (put_x (u16 (160 + 2)) (put_x 160 t))))) with 0.
  apply returns_kputc; [lia|unfold vga_size; lia|]. do 4 ret_step. cbn [tx ty put_x put_y put_vga].
  change (160 <=? u16 (0 + 2)) with false. cbv iota. do 2 ret_step.
  apply returns_scroll; [cbn [ty put_x put_y put_vga]; change (u16 (24 + 1)) with 25; lia|].
  cbn [ty put_x put_y put_vga]. change (u16 (24 + 1) =? 25) with true.
  cbv iota zeta. cbn [tx ty put_tio put_y put_vga put_x]. split_and!; [done|done|].
  intros k Hk. by apply (cell_scrolled t).
Qed.
