(* ===== verification/TermRefine.v ===== *)
(** The console refines an abstract terminal: a grid of 25 by 80 cells with a
    cursor, on which a string is printed character by character. *)

From S2P Require Import Prelude Kernel Lib Io Term TermSpec.

Open Scope Z_scope.

(** ** The abstract terminal *)

Record screen := Screen { grid : Z → Z → Z * Z; row : Z; col : Z }.

(** Every row moves up by one, the last becomes blank. *)
Definition scroll_up (a : Z) (g : Z → Z → Z * Z) : Z → Z → Z * Z :=
  λ r k, if r =? 24 then (0, a) else g (r + 1) k.

(** The start of the next row. *)
Definition next_row (a : Z) (g : Z → Z → Z * Z) (r : Z) : screen :=
  if r =? 24 then Screen (scroll_up a g) 24 0 else Screen g (r + 1) 0.

Definition spec_put (a : Z) (S : screen) (c : Z) : screen :=
  if c =? 10 then next_row a (grid S) (row S)
  else
    let g := λ r k, if (r =? row S) && (k =? col S) then (c, a) else grid S r k in
    if col S =? 79 then next_row a g (row S) else Screen g (row S) (col S + 1).

(** ** The refinement *)

(** The console shows an abstract screen. *)
Record shows (t : term) (S : screen) : Prop := {
  sh_col : tx t = 2 * col S;
  sh_row : ty t = row S;
  sh_col_range : 0 <= col S < 80;
  sh_row_range : 0 <= row S < 25;
  sh_cells : ∀ r k, 0 <= r < 25 → 0 <= k < 80 → cell t r k = grid S r k;
}.

(** Characters that move the cursor otherwise are left out. *)
Definition plain (c : Z) : Prop := 0 <= c < 128 ∧ c ≠ 8 ∧ c ≠ 9.

Lemma shows_cursor t S : shows t S → 0 <= attrib t < 2 ^ 16 → cursor_ok t.
Proof.
  intros [Hx Hy Hc Hr _] Ha. unfold cursor_ok. rewrite Hx, Hy, Z.even_mul. cbn. split_and!; lia.
Qed.

(** What [settle] does to the screen. *)
Lemma settle_shows t S g r :
  0 <= attrib t < 2 ^ 16 → tx t = 0 → ty t = r + 1 → 0 <= r < 25 →
  (∀ i k, 0 <= i < 25 → 0 <= k < 80 → cell t i k = g i k) →
  S = next_row (u8 (attrib t)) g r → shows (settle t) S.
Proof.
  intros Ha Hx Hy Hr Hg ->. unfold settle, next_row.
  destruct (Z.eqb_spec r 24) as [->|Hr'].
  - rewrite (proj2 (Z.eqb_eq (ty t) 25)) by lia.
    split; cbn [tx ty put_tio put_y put_vga row col grid]; try lia.
    destruct (cell_scrolled t (vga t) (attrib t) Ha) as [H1 H2]. intros i k Hi Hk. unfold scroll_up.
    destruct (Z.eqb_spec i 24) as [->|]; [by apply H2|]. rewrite <- Hg by lia.
    specialize (H1 i k ltac:(lia) Hk). rewrite <- (H1 : _ = cell t (i + 1) k). done.
  - rewrite (proj2 (Z.eqb_neq (ty t) 25)) by lia.
    split; cbn [tx ty put_tio row col grid]; try lia. exact Hg.
Qed.

(** What a printed string leaves alone. *)
Definition kept (t t' : term) : Prop :=
  attrib t' = attrib t ∧ tlock t' = tlock t ∧
  ∀ p, p ≠ 0x3D4 → p ≠ 0x3D5 → written (tio t') p = written (tio t) p.

#[export] Instance kept_pre : PreOrder kept.
Proof.
  split; [by intros t|]. intros t u v (A1 & L1 & W1) (A2 & L2 & W2).
  split_and!; [congruence|congruence|]. intros p H1 H2. rewrite W2, W1; done.
Qed.

Lemma settle_kept t u : attrib u = attrib t → tlock u = tlock t → tio u = tio t → kept t (settle u).
Proof.
  intros Ha Hl Hi. unfold settle, kept.
  destruct (ty u =? 25); cbn [attrib tlock tio put_tio put_y put_vga tx ty]; rewrite Ha, Hl, Hi;
    (split_and!; [done|done|]); intros p H1 H2; unfold cursor_events; cbn [app];
    rewrite !written_cons, !(proj2 (Z.eqb_neq _ p)) by done; by rewrite !app_nil_r.
Qed.

Lemma putc_shows t S c :
  shows t S → 0 <= attrib t < 2 ^ 16 → plain c →
  returns (vga_putc c) t (λ _ t', shows t' (spec_put (u8 (attrib t)) S c) ∧ kept t t').
Proof.
  intros Hs Ha (Hc & H8 & H9). pose proof (shows_cursor t S Hs Ha) as Hok.
  pose proof Hs as [Hx Hy Hcr Hrr Hg]. unfold spec_put.
  destruct (Z.eqb_spec c 10) as [->|H10].
  - apply returns_newline; [done|]. split; [|by apply settle_kept].
    eapply (settle_shows _ _ (grid S) (row S)); cbn [attrib tx ty put_x put_y]; (done || lia).
  - apply returns_putc_char; [done..|]. set (f := poke16 _ _ _).
    assert (Hcell : ∀ r k, 0 <= r < 25 → 0 <= k < 80 → cell (put_vga f t) r k =
        if (r =? row S) && (k =? col S) then (c, u8 (attrib t)) else grid S r k).
    { intros r k Hr Hk. unfold f. rewrite Hx, Hy, cell_poke by lia. by rewrite Hg. }
    clearbody f. unfold advance_cursor. cbn [tx ty put_vga].
    destruct (Z.eqb_spec (tx t) 158) as [E|E]; (split; [|by apply settle_kept]).
    + rewrite (proj2 (Z.eqb_eq (col S) 79)) by lia.
      eapply settle_shows; cbn [attrib tx ty put_x put_y put_vga]; [done|done|by rewrite Hy|done| |done].
      exact Hcell.
    + rewrite (proj2 (Z.eqb_neq (col S) 79)) by lia. unfold settle. cbn [ty put_x put_vga].
      rewrite (proj2 (Z.eqb_neq (ty t) 25)) by lia.
      split; cbn [tx ty put_tio put_x put_vga row col grid]; try lia. exact Hcell.
Qed.

Lemma chars_shows s t S :
  shows t S → 0 <= attrib t < 2 ^ 16 → Forall plain s →
  returns (vga_chars s) t (λ _ t', shows t' (foldl (spec_put (u8 (attrib t))) S s) ∧ kept t t').
Proof.
  revert t S. induction s as [|c s IH]; intros t S Hs Ha Hp; cbn [vga_chars foldl].
  - ret_step. done.
  - apply Forall_cons in Hp as [Hc Hp]. ret_step. ret_use putc_shows; [done..|].
    intros [] t1 [Hs1 Hk1]. pose proof Hk1 as (A1 & _).
    ret_use (IH t1 _ Hs1); [by rewrite A1|done|]. intros [] t2 [Hs2 Hk2].
    rewrite A1 in Hs2. split; [done|]. by etrans.
Qed.

Lemma returns_puts s t S (Q : () → term → Prop) :
  shows t S → 0 <= attrib t < 2 ^ 16 → tlock t = false → Forall plain s →
  (∀ t', shows t' (foldl (spec_put (u8 (attrib t))) S s) → kept t t' → Q () t') →
  returns (vga_puts s) t Q.
Proof.
  intros Hs Ha Hl Hp HQ. unfold vga_puts. do 2 ret_step. rewrite Hl. do 3 ret_step.
  ret_use (chars_shows s (put_tlock true t) S); [by destruct Hs; split|done|done|].
  intros [] t1 [Hs1 (A1 & L1 & W1)]. apply returns_modify. apply HQ.
  - by destruct Hs1; split.
  - split_and!; [exact A1|by rewrite Hl|exact W1].
Qed.

(** C13: The console refines the abstract terminal: when it shows a screen,
    [vga_puts] of a string of printable characters and newlines ends, and
    shows the screen that printing the string, character by character, makes of
    it, with wrapping at the end of a row and scrolling at the end of the
    screen. It stays inside the text memory, keeps the attribute, releases the
    lock, and drives no port but the cursor's. *)
Theorem vga_puts_refines s t S :
  shows t S → 0 <= attrib t < 2 ^ 16 → tlock t = false → Forall plain s →
  returns (vga_puts s) t (λ _ t',
    shows t' (foldl (spec_put (u8 (attrib t))) S s) ∧ kept t t').
Proof. intros Hs Ha Hl Hp. by apply (returns_puts s t S). Qed.

(** ** Clearing *)

Definition blank_screen (a : Z) : screen := Screen (λ _ _, (0, a)) 0 0.

Lemma vga_store_run i v t : 0 <= i < vga_size →
  vga_store i v t = Ok () (put_vga (λ a, if a =? i then u8 v else vga t a) t).
Proof.
  intros Hi. unfold vga_store. by rewrite (proj2 (Z.leb_le 0 i)), (proj2 (Z.ltb_lt i _)) by lia.
Qed.

(** [vga_clear] blanks the screen and moves the cursor to its first cell; the
    cursor registers are not programmed. *)
Lemma vga_clear_shows t :
  returns vga_clear t (λ _ t', shows t' (blank_screen (u8 (attrib t))) ∧
    attrib t' = attrib t ∧ tlock t' = tlock t ∧ tio t' = tio t).
Proof.
  unfold vga_clear. ret_step.
  apply (returns_for_range (λ k t', attrib t' = attrib t ∧ tlock t' = tlock t ∧ tio t' = tio t ∧
    ∀ i, 0 <= i < k → vga t' (2 * i) = 0 ∧ vga t' (2 * i + 1) = u8 (attrib t))).
  - lia.
  - split_and!; [done..|lia].
  - intros k t1 Hk (A & L & I & Hv). unfold vga_size in *. ret_step.
    unfold returns at 1. rewrite vga_store_run by (unfold vga_size; lia). do 2 ret_step.
    unfold returns at 1. rewrite vga_store_run by (unfold vga_size; lia).
    cbn [attrib tlock tio vga put_vga]. rewrite A. split_and!; [done..|].
    intros i Hi. destruct (Z.eq_dec i k) as [->|Hik].
    + rewrite Z.eqb_refl, (proj2 (Z.eqb_neq (2 * k) (2 * k + 1))), Z.eqb_refl by lia. done.
    + rewrite !(proj2 (Z.eqb_neq (2 * i) _)), !(proj2 (Z.eqb_neq (2 * i + 1) _)) by lia.
      apply Hv. lia.
  - intros t1 (A & L & I & Hv). ret_steps. split_and!; [|done..].
    split; cbn [tx ty put_x put_y row col grid blank_screen]; try lia.
    intros r k Hr Hk. unfold cell. cbn [vga put_x put_y].
    destruct (Hv (80 * r + k) ltac:(lia)) as [E1 E2].
    by replace (160 * r + 2 * k) with (2 * (80 * r + k)) by lia; rewrite E1, E2.
Qed.
