(* ===== verification/Desc.v ===== *)
(** Descriptor tables, [desc.c]: the interrupt gates and the segment and task
    descriptors, with the fields packed as the structures of
    [include/arch/x86_64/desc.h] lay them out, and decoded as the processor
    reads them. *)

From S2P Require Import Prelude.

Open Scope Z_scope.

(** ** The structures *)

Record idt_descriptor := IdtDescriptor {
  offset_low : Z;
  segment_selector : Z;
  gate_type : Z;
  offset_mid : Z;
  offset_high : Z;
  reserved : Z;
}.

Record tss_descriptor := TssDescriptor {
  seg_low : Z;
  base_low : Z;
  base_mid : Z;
  seg_type : Z;
  limit : Z;       (** four bits *)
  avl : Z;         (** four bits *)
  base_top : Z;
  base_high : Z;
  tss_res : Z;
}.

(** The two little-endian words of the packed [struct tss_descriptor]. *)
Definition tss_word0 (d : tss_descriptor) : Z :=
  seg_low d + base_low d * 2 ^ 16 + base_mid d * 2 ^ 32 + seg_type d * 2 ^ 40 +
  (limit d + avl d * 2 ^ 4) * 2 ^ 48 + base_top d * 2 ^ 56.
Definition tss_word1 (d : tss_descriptor) : Z := base_high d + tss_res d * 2 ^ 32.

(** The tables; the arrays are functions of the index, with their bounds
    checked on access. *)
Record tables := Tables {
  idt : Z → idt_descriptor;
  tss_rsp : Z → Z;
  tss_ist : Z → Z;
  gdt : Z → Z;
  idtr : option Z;           (** the base that [idt_flush] loads *)
  gdtr : option (Z * Z);     (** the limit and base that [gdt_flush] loads *)
}.

Definition upd (f : Z → Z) (i v : Z) : Z → Z := λ j, if j =? i then v else f j.

(** Addresses that the linker and the assembler fix. *)
Class Symbols := {
  vectors : Z → Z;
  system_tss_addr : Z;
  idt_addr : Z;
  gdt_addr : Z;
}.

(** ** desc.c *)

Definition SYSCALL : Z := 0x80.
Definition BREAKPOINT : Z := 3.

Definition set_tables (f : tables → tables) : M tables () := modify f.

Definition idt_set_gate (n dpl type handler : Z) : M tables () := λ t,
  if (0 <=? n) && (n <? 256) then
    let d := IdtDescriptor
      (u16 (Z.land handler 0xFFFF))
      0x8
      (u16 (Z.lor (Z.lor (Z.shiftl 1 0xF) (Z.shiftl dpl 0xD)) (Z.shiftl type 0x8)))
      (u16 (Z.land (Z.shiftr handler 16) 0xFFFF))
      (u32 (Z.shiftr handler 32))
      0 in
    Ok () (Tables (λ i, if i =? n then d else idt t i) (tss_rsp t) (tss_ist t) (gdt t) (idtr t) (gdtr t))
  else Err (OutOfBounds n) t.

Definition set_gdt (i v : Z) : M tables () :=
  modify (λ t, Tables (idt t) (tss_rsp t) (tss_ist t) (upd (gdt t) i v) (idtr t) (gdtr t)).

Section desc.
Context `{Symbols}.

Definition idt_init : M tables () :=
  for_range 0 256 (λ i, idt_set_gate i 0 0xE (vectors i));;
  idt_set_gate SYSCALL 3 0xF (vectors SYSCALL);;
  idt_set_gate BREAKPOINT 3 0xF (vectors BREAKPOINT);;
  for_range 0 3 (λ i, modify (λ t,
    Tables (idt t) (upd (tss_rsp t) i 0xFFFF80000000A000) (upd (tss_ist t) i 0xFFFF80000000A000)
      (gdt t) (idtr t) (gdtr t)));;
  modify (λ t, Tables (idt t) (tss_rsp t) (tss_ist t) (gdt t) (Some idt_addr) (gdtr t)).

(** The local [tss] after the assignments of [gdt_init]. *)
Definition gdt_tss : tss_descriptor :=
  let tptr := system_tss_addr in
  TssDescriptor 103 (u16 (Z.land tptr 0xffff)) (u8 (Z.land (Z.shiftr tptr 16) 0xff)) 0x89 0 1
    (u8 (Z.land (Z.shiftr tptr 24) 0xff)) (u32 (Z.shiftr tptr 32)) 0.

Definition gdt_init : M tables () :=
  for_range 0 10 (λ i, set_gdt i 0);;
  set_gdt 0 0;;
  set_gdt 1 0x00209A0000000000;;
  set_gdt 2 0x0000920000000000;;
  set_gdt 3 0x0020FA0000000000;;
  set_gdt 4 0x0000F20000000000;;
  set_gdt 5 0x0000920000000000;;
  set_gdt 6 (tss_word0 gdt_tss);;
  set_gdt 7 (tss_word1 gdt_tss);;
  modify (λ t, Tables (idt t) (tss_rsp t) (tss_ist t) (gdt t) (idtr t) (Some (u16 (80 - 1), gdt_addr))).
End desc.

(** ** What the processor reads *)

(** A 64-bit interrupt gate. *)
Definition gate_target (d : idt_descriptor) : Z :=
  offset_low d + offset_mid d * 2 ^ 16 + offset_high d * 2 ^ 32.
Definition gate_ist (d : idt_descriptor) : Z := gate_type d mod 8.
Definition gate_kind (d : idt_descriptor) : Z := gate_type d / 2 ^ 8 mod 16.
Definition gate_dpl (d : idt_descriptor) : Z := gate_type d / 2 ^ 13 mod 4.
Definition gate_present (d : idt_descriptor) : bool := Z.testbit (gate_type d) 15.

(** A code or data descriptor: type and S bit, DPL, P, and the L bit. *)
Definition seg_kind (w : Z) : Z := w / 2 ^ 40 mod 32.
Definition seg_dpl (w : Z) : Z := w / 2 ^ 45 mod 4.
Definition seg_present (w : Z) : bool := Z.testbit w 47.
Definition seg_long (w : Z) : bool := Z.testbit w 53.

(** A 16-byte system descriptor. *)
Definition sys_base (w0 w1 : Z) : Z :=
  w0 / 2 ^ 16 mod 2 ^ 24 + (w0 / 2 ^ 56 mod 2 ^ 8) * 2 ^ 24 + (w1 mod 2 ^ 32) * 2 ^ 32.
Definition sys_limit (w0 : Z) : Z := w0 mod 2 ^ 16 + (w0 / 2 ^ 48 mod 16) * 2 ^ 16.

(** ** Gates *)

Record is_gate (d : idt_descriptor) (target dpl kind : Z) : Prop := {
  ig_target : gate_target d = target;
  ig_selector : segment_selector d = 8;
  ig_ist : gate_ist d = 0;
  ig_kind : gate_kind d = kind;
  ig_dpl : gate_dpl d = dpl;
  ig_present : gate_present d = true;
}.

Lemma gate_type_val dpl type : 0 <= dpl < 4 → 0 <= type < 16 →
  u16 (Z.lor (Z.lor (Z.shiftl 1 0xF) (Z.shiftl dpl 0xD)) (Z.shiftl type 0x8)) =
  2 ^ 15 + dpl * 2 ^ 13 + type * 2 ^ 8.
Proof.
  intros Hd Ht. rewrite !Z.shiftl_mul_pow2 by lia.
  rewrite (lor_add' 15 (dpl * 2 ^ 13)) by (done || lia).
  rewrite (lor_add' 13 (type * 2 ^ 8)) by dlia. rewrite wrap_small by lia. lia.
Qed.

Lemma gate_target_split h : 0 <= h < 2 ^ 64 →
  u16 (Z.land h 0xFFFF) + u16 (Z.land (Z.shiftr h 16) 0xFFFF) * 2 ^ 16 +
  u32 (Z.shiftr h 32) * 2 ^ 32 = h.
Proof.
  intros Hh. change 0xFFFF with (2 ^ 16 - 1). rewrite field_spec, land_low, Z.shiftr_div_pow2 by lia.
  unfold wrap. dlia.
Qed.

Lemma returns_set_gate t n dpl type handler (Q : () → tables → Prop) :
  0 <= n < 256 → 0 <= dpl < 4 → 0 <= type < 16 → 0 <= handler < 2 ^ 64 →
  (∀ t', (∃ d, is_gate d handler dpl type ∧
      t' = Tables (λ i, if i =? n then d else idt t i) (tss_rsp t) (tss_ist t) (gdt t) (idtr t) (gdtr t)) →
    Q () t') →
  returns (idt_set_gate n dpl type handler) t Q.
Proof.
  intros Hn Hd Ht Hh HQ. unfold returns, idt_set_gate.
  rewrite (proj2 (Z.leb_le 0 n)), (proj2 (Z.ltb_lt n 256)) by lia. cbn [andb].
  apply HQ. eexists. split; [|reflexivity]. rewrite gate_type_val by done.
  split; unfold gate_ist, gate_kind, gate_dpl, gate_present;
    cbn [offset_low offset_mid offset_high segment_selector gate_type gate_target].
  - unfold gate_target. cbn [offset_low offset_mid offset_high]. by apply gate_target_split.
  - done.
  - dlia.
  - dlia.
  - dlia.
  - rewrite Z.testbit_eqb by lia. apply Z.eqb_eq. dlia.
Qed.

(** The gate that the kernel wants for vector [n]. *)
Definition gate_for (dpl_kind : Z → Z * Z) (t : tables) (target n : Z) : Prop :=
  is_gate (idt t n) target (dpl_kind n).1 (dpl_kind n).2.
Definition init_gate (n : Z) : Z * Z :=
  if (n =? SYSCALL) || (n =? BREAKPOINT) then (3, 0xF) else (0, 0xE).

Section desc_spec.
Context `{Symbols}.

Lemma returns_idt_init t :
  (∀ n, 0 <= n < 256 → 0 <= vectors n < 2 ^ 64) →
  returns idt_init t (λ _ t',
    (∀ n, 0 <= n < 256 → gate_for init_gate t' (vectors n) n) ∧
    (∀ i, 0 <= i < 3 → tss_rsp t' i = 0xFFFF80000000A000 ∧ tss_ist t' i = 0xFFFF80000000A000) ∧
    gdt t' = gdt t ∧ idtr t' = Some idt_addr).
Proof.
  intros Hv. unfold idt_init. ret_step.
  apply (returns_for_range (λ k t', gdt t' = gdt t ∧
    ∀ n, 0 <= n < k → gate_for (λ _, (0, 0xE)) t' (vectors n) n)); [lia|split; [done|lia]| |].
  { intros k t1 Hk [Hg Hgate]. apply returns_set_gate; [lia|lia|lia|by apply Hv|].
    intros t2 (d & Hd & ->). split; [done|]. intros n Hn. unfold gate_for. cbn [idt].
    destruct (Z.eqb_spec n k) as [->|]; [done|]. apply Hgate. lia. }
  intros t1 [Hg1 Hgate]. unfold SYSCALL, BREAKPOINT.
  ret_step. apply returns_set_gate; [lia|lia|lia|apply Hv; lia|]. intros t2 (d2 & Hd2 & ->).
  ret_step. apply returns_set_gate; [lia|lia|lia|apply Hv; lia|]. intros t3 (d3 & Hd3 & ->).
  ret_step. apply (returns_for_range (λ k t', gdt t' = gdt t ∧
    (∀ n, idt t' n = if n =? 3 then d3 else if n =? 0x80 then d2 else idt t1 n) ∧
    ∀ i, 0 <= i < k → tss_rsp t' i = 0xFFFF80000000A000 ∧ tss_ist t' i = 0xFFFF80000000A000)).
  - lia.
  - split; [done|]. split; [done|lia].
  - intros k t4 Hk (Hg & Hi & Hs). apply returns_modify. split; [done|]. split; [done|].
    intros i Hi'. cbn [tss_rsp tss_ist]. unfold upd. destruct (Z.eqb_spec i k); [done|]. apply Hs. lia.
  - intros t4 (Hg & Hi & Hs). apply returns_modify. split; [|split; [done|split; [done|done]]].
    intros n Hn. unfold gate_for, init_gate, SYSCALL, BREAKPOINT. cbn [idt]. rewrite Hi.
    destruct (Z.eqb_spec n 3) as [->|]; [done|]. destruct (Z.eqb_spec n 0x80) as [->|]; [done|].
    cbn [orb]. by apply Hgate.
Qed.

(** C25: After [idt_init] every one of the 256 vectors has a present gate in
    segment 8, without a stack switch, to its handler: an interrupt gate of
    privilege 0, except the system call and the breakpoint, which are trap
    gates open to user mode. The kernel stacks of the task segment are set and
    the table is loaded. *)
Theorem idt_init_spec t :
  (∀ n, 0 <= n < 256 → 0 <= vectors n < 2 ^ 64) →
  returns idt_init t (λ _ t',
    (∀ n, 0 <= n < 256 → gate_for init_gate t' (vectors n) n) ∧
    (∀ i, 0 <= i < 3 → tss_rsp t' i = 0xFFFF80000000A000 ∧ tss_ist t' i = 0xFFFF80000000A000) ∧
    gdt t' = gdt t ∧ idtr t' = Some idt_addr).
Proof. apply returns_idt_init. Qed.

(** The task descriptor's words, decoded. *)
Lemma gdt_tss_fields : 0 <= system_tss_addr < 2 ^ 64 →
  let a := system_tss_addr in
  tss_word0 gdt_tss = 103 + (a mod 2 ^ 16) * 2 ^ 16 + (a / 2 ^ 16 mod 2 ^ 8) * 2 ^ 32 +
    0x89 * 2 ^ 40 + 16 * 2 ^ 48 + (a / 2 ^ 24 mod 2 ^ 8) * 2 ^ 56 ∧
  tss_word1 gdt_tss = a / 2 ^ 32.
Proof.
  intros Ha a. unfold tss_word0, tss_word1, gdt_tss. fold a.
  cbn [seg_low base_low base_mid seg_type limit avl base_top base_high tss_res].
  change 0xffff with (2 ^ 16 - 1). change 0xff with (2 ^ 8 - 1).
  rewrite !field_spec, land_low, Z.shiftr_div_pow2 by lia. unfold wrap. split; dlia.
Qed.

Lemma returns_set_gdt t i v (Q : () → tables → Prop) :
  (∀ t', gdt t' = upd (gdt t) i v → idt t' = idt t → Q () t') → returns (set_gdt i v) t Q.
Proof. intros HQ. unfold set_gdt. apply returns_modify. by apply HQ. Qed.

Lemma returns_gdt_init t :
  0 <= system_tss_addr < 2 ^ 64 →
  returns gdt_init t (λ _ t',
    let g := gdt t' in
    sys_base (g 6) (g 7) = system_tss_addr ∧ sys_limit (g 6) = 103 ∧
    seg_kind (g 6) = 9 ∧ seg_dpl (g 6) = 0 ∧ seg_present (g 6) = true ∧
    (∀ i, i ∈ [(1, 0x1A, 0); (2, 0x12, 0); (3, 0x1A, 3); (4, 0x12, 3)] →
       seg_kind (g i.1.1) = i.1.2 ∧ seg_dpl (g i.1.1) = i.2 ∧ seg_present (g i.1.1) = true ∧
       seg_long (g i.1.1) = (i.1.2 =? 0x1A)) ∧
    g 0 = 0 ∧ g 8 = 0 ∧ g 9 = 0 ∧ gdtr t' = Some (79, gdt_addr) ∧ idt t' = idt t).
Proof.
  intros Ha. destruct (gdt_tss_fields Ha) as [E0 E1]. set (a := system_tss_addr) in *.
  unfold gdt_init. ret_step.
  apply (returns_for_range (λ k t', idt t' = idt t ∧ ∀ i, 0 <= i < k → gdt t' i = 0)); [lia|split; [done|lia]| |].
  { intros k t1 Hk [Hi Hz]. apply returns_modify. split; [done|]. intros i Hi'. cbn [gdt]. unfold upd.
    destruct (Z.eqb_spec i k); [done|]. apply Hz. lia. }
  intros t1 [Hi Hz]. do 8 (ret_step; apply returns_set_gdt; intros ? ? ?). apply returns_modify.
  cbn [gdt gdtr idt]. repeat match goal with
  | H : gdt ?x = _ |- _ => rewrite H; clear H
  | H : idt ?x = _ |- _ => rewrite H; clear H
  end. unfold upd.
  cbn [Z.eqb Pos.eqb]. rewrite E0, E1. unfold sys_base, sys_limit, seg_kind, seg_dpl, seg_present.
  split_and!; [dlia|dlia|dlia|dlia| | |done|apply Hz; lia|apply Hz; lia|done|done].
  - rewrite Z.testbit_eqb by lia. apply Z.eqb_eq. dlia.
  - intros i Hin. rewrite !elem_of_cons, elem_of_nil in Hin.
    destruct Hin as [->|[->|[->|[->|[]]]]]; cbn [fst snd Z.eqb Pos.eqb]; split_and!; reflexivity.
Qed.

(** After [gdt_init] the task descriptor in entries 6 and 7 decodes to the
    address of the task segment, a limit of 103 and a present available 64-bit
    task segment of privilege 0; entries 1 and 2 are kernel code (64-bit) and
    data, 3 and 4 the same for privilege 3; the last two entries are zero, and
    the register is loaded with the table and its limit. *)
Theorem gdt_init_spec t :
  0 <= system_tss_addr < 2 ^ 64 →
  returns gdt_init t (λ _ t',
    let g := gdt t' in
    sys_base (g 6) (g 7) = system_tss_addr ∧ sys_limit (g 6) = 103 ∧
    seg_kind (g 6) = 9 ∧ seg_dpl (g 6) = 0 ∧ seg_present (g 6) = true ∧
    (∀ i, i ∈ [(1, 0x1A, 0); (2, 0x12, 0); (3, 0x1A, 3); (4, 0x12, 3)] →
       seg_kind (g i.1.1) = i.1.2 ∧ seg_dpl (g i.1.1) = i.2 ∧ seg_present (g i.1.1) = true ∧
       seg_long (g i.1.1) = (i.1.2 =? 0x1A)) ∧
    g 0 = 0 ∧ g 8 = 0 ∧ g 9 = 0 ∧ gdtr t' = Some (79, gdt_addr) ∧ idt t' = idt t).
Proof. apply returns_gdt_init. Qed.
End desc_spec.
