(* ===== verification/Machine.v ===== *)
(** The state of the whole kernel that the interrupt, device and boot code
    works on: the memory manager, the console with the trace of device
    accesses, the descriptor tables, and the static variables of the device
    files. *)

From S2P Require Import Prelude Kernel KList State Paging Frame Mmu Lib Io Term Desc.

Open Scope Z_scope.

(** A function pointer of the trap table: NULL, one of the handlers of the
    repository, or another function by its address. *)
Inductive trap_handler :=
  | h_null
  | h_breakpoint
  | h_page_fault
  | h_pit
  | h_other (a : Z).

#[global] Instance trap_handler_eq_dec : EqDecision trap_handler.
Proof. solve_decision. Defined.

Record mach := Mach {
  ks : kstate;                  (** the memory manager *)
  scr : term;                   (** the console and the trace of device accesses *)
  tb : tables;                  (** descriptor tables, [desc.c] *)
  handlers : Z → trap_handler;  (** the static table of [interrupts.c] *)
  irqmask : Z;                  (** [pic.c] *)
  IOAPIC : Z;                   (** [ioapic.c] *)
  lapic_up : Z;                 (** [lapic.c] *)
  timer_ticks : Z;              (** [pit.c] *)
  sysconfig : Z → Z;            (** [config.c] *)
  uart_lock : bool;             (** [drivers/uart.c] *)
  lapic_lock : bool;            (** [lapic.c] *)
  cr2 : Z;                      (** the page-fault address register *)
}.

Definition set_ks v m := Mach v (scr m) (tb m) (handlers m) (irqmask m) (IOAPIC m) (lapic_up m)
  (timer_ticks m) (sysconfig m) (uart_lock m) (lapic_lock m) (cr2 m).
Definition set_scr v m := Mach (ks m) v (tb m) (handlers m) (irqmask m) (IOAPIC m) (lapic_up m)
  (timer_ticks m) (sysconfig m) (uart_lock m) (lapic_lock m) (cr2 m).
Definition set_tb v m := Mach (ks m) (scr m) v (handlers m) (irqmask m) (IOAPIC m) (lapic_up m)
  (timer_ticks m) (sysconfig m) (uart_lock m) (lapic_lock m) (cr2 m).
Definition set_handlers v m := Mach (ks m) (scr m) (tb m) v (irqmask m) (IOAPIC m) (lapic_up m)
  (timer_ticks m) (sysconfig m) (uart_lock m) (lapic_lock m) (cr2 m).
Definition set_irqmask v m := Mach (ks m) (scr m) (tb m) (handlers m) v (IOAPIC m) (lapic_up m)
  (timer_ticks m) (sysconfig m) (uart_lock m) (lapic_lock m) (cr2 m).
Definition set_IOAPIC v m := Mach (ks m) (scr m) (tb m) (handlers m) (irqmask m) v (lapic_up m)
  (timer_ticks m) (sysconfig m) (uart_lock m) (lapic_lock m) (cr2 m).
Definition set_lapic_up v m := Mach (ks m) (scr m) (tb m) (handlers m) (irqmask m) (IOAPIC m) v
  (timer_ticks m) (sysconfig m) (uart_lock m) (lapic_lock m) (cr2 m).
Definition set_timer_ticks v m := Mach (ks m) (scr m) (tb m) (handlers m) (irqmask m) (IOAPIC m)
  (lapic_up m) v (sysconfig m) (uart_lock m) (lapic_lock m) (cr2 m).
Definition set_sysconfig v m := Mach (ks m) (scr m) (tb m) (handlers m) (irqmask m) (IOAPIC m)
  (lapic_up m) (timer_ticks m) v (uart_lock m) (lapic_lock m) (cr2 m).
Definition set_uart_lock v m := Mach (ks m) (scr m) (tb m) (handlers m) (irqmask m) (IOAPIC m)
  (lapic_up m) (timer_ticks m) (sysconfig m) v (lapic_lock m) (cr2 m).
Definition set_lapic_lock v m := Mach (ks m) (scr m) (tb m) (handlers m) (irqmask m) (IOAPIC m)
  (lapic_up m) (timer_ticks m) (sysconfig m) (uart_lock m) v (cr2 m).
Definition set_cr2 v m := Mach (ks m) (scr m) (tb m) (handlers m) (irqmask m) (IOAPIC m)
  (lapic_up m) (timer_ticks m) (sysconfig m) (uart_lock m) (lapic_lock m) v.

(** The trace of device accesses. *)
Definition io (m : mach) : trace := tio (scr m).
Definition set_io (t : trace) (m : mach) : mach := set_scr (put_tio t (scr m)) m.

(** The operations of the components, on the machine. *)
Definition on_ks {A} (c : M kstate A) : M mach A := zoom ks set_ks c.
Definition on_scr {A} (c : M term A) : M mach A := zoom scr set_scr c.
Definition on_tb {A} (c : M tables A) : M mach A := zoom tb set_tb c.
Definition on_tr {A} (c : M trace A) : M mach A := zoom io set_io c.

Definition m_log (fmt : string) (args : list arg) : M mach () := on_ks (kernel_log fmt args).
Definition m_printf (fmt : string) (args : list arg) : M mach () := on_ks (printf fmt args).
Definition m_assert (e : bool) (expr : string) : M mach () := on_ks (assert e expr).

(** [halt_catch_fire] of [common_x86_64.asm]: interrupts off, and no return. *)
Definition halt_catch_fire {A} : M mach A := on_tr interrupts_disable;; throw Halted.

(** The functions in assembly that the C code calls, the address of the local
    [struct page] of its callers on the stack, and the entry points whose
    addresses it loads. *)
Class Asm := {
  stack_trace : Z → M mach ();
  local_page : Z;
  syscall_entry : Z;
}.

(** ** Rules *)

Lemma returns_on_tr {A} (c : M trace A) m (Q : A → mach → Prop) :
  returns c (io m) (λ a t, Q a (set_io t m)) → returns (on_tr c) m Q.
Proof. apply returns_zoom. Qed.

Lemma returns_on_ks {A} (c : M kstate A) m (Q : A → mach → Prop) :
  returns c (ks m) (λ a k, Q a (set_ks k m)) → returns (on_ks c) m Q.
Proof. apply returns_zoom. Qed.

Lemma io_set_io t m : io (set_io t m) = t.
Proof. done. Qed.
Lemma set_io_set_io t t' m : set_io t (set_io t' m) = set_io t m.
Proof. done. Qed.
