(* ===== verification/Lapic.v ===== *)
(** The local interrupt controller, [lapic.c]: its registers are accessed
    through the identity mapping of [LAPIC_BASE] that [lapic_init] makes. *)

From S2P Require Import Prelude Kernel State Paging Frame Mmu Io Term Machine.

Open Scope Z_scope.

Definition LAPIC_BASE : Z := 0xFEE00000.
Definition LAPIC_ID : Z := 0x020.
Definition LAPIC_VER : Z := 0x030.
Definition LAPIC_TPR : Z := 0x080.
Definition LAPIC_EOI : Z := 0x0B0.
Definition LAPIC_SIV : Z := 0x0F0.
Definition LAPIC_ERR : Z := 0x280.
Definition LAPIC_ICRLO : Z := 0x300.
Definition LAPIC_ICRHI : Z := 0x310.
Definition TIMER : Z := 0x320.
Definition INIT_COUNT : Z := 0x380.
Definition DIVIDE_CONF : Z := 0x3E0.
Definition LAPIC_LINT0 : Z := 0x350.
Definition LAPIC_LINT1 : Z := 0x360.
Definition INIT : Z := 0x500.
Definition STARTUP : Z := 0x600.
Definition DELIVS : Z := 0x1000.
Definition ASSERT : Z := 0x4000.
Definition LEVEL : Z := 0x8000.
Definition BCAST : Z := 0x80000.
Definition PERIODIC : Z := 1.

Definition IRQ_ZERO : Z := 0x20.
Definition IRQ_TIMER : Z := 0x00.
Definition IRQ_ERROR : Z := 0x13.
Definition IRQ_SPURIOUS : Z := 0xDF.

Definition IA32_APIC_BASE : Z := 0x01B.

Section lapic.
Context `{MMU, Layout, Devices, Asm}.

Definition lapic_write (index value : Z) : M mach Z :=
  on_tr (mmio_write (LAPIC_BASE + index) value);;
  on_tr (mmio_read (LAPIC_BASE + index)).

Definition lapic_read (index : Z) : M mach Z := on_tr (mmio_read (LAPIC_BASE + index)).

Definition lapic_active : M mach Z := gets lapic_up.

Definition lapic_eoi : M mach () :=
  up ← gets lapic_up;
  if negb (nz up) then skip else lapic_write LAPIC_EOI 0;; skip.

Definition lapic_test (dest sh vector : Z) : M mach () :=
  lapic_write LAPIC_ICRHI (Z.shiftl dest 24);;
  lapic_write LAPIC_ICRLO (Z.lor (Z.shiftl sh 17) vector);;
  skip.

Definition lapic_timer_config (mode initial_count divide_by : Z) : M mach () :=
  lapic_write TIMER (Z.lor (Z.shiftl mode 17) (IRQ_ZERO + IRQ_TIMER));;
  lapic_write DIVIDE_CONF divide_by;;
  lapic_write INIT_COUNT initial_count;;
  id ← lapic_read LAPIC_ID;
  m_log "[lapic] cpu %x timer mode set to %d, initial count: %#x, divide_by: %x\n"
    [AInt (Z.shiftr id 24); AInt mode; AInt initial_count; AInt divide_by].

(** The [int] of an unsigned 32-bit value below [2^8]. *)
Definition lapic_danger_id : M mach Z := id ← lapic_read LAPIC_ID; mret (Z.shiftr id 24).

(** [while (lapic_read(LAPIC_ICRLO) & DELIVS);] *)
Fixpoint icr_wait (fuel : nat) : M mach () :=
  match fuel with
  | O => throw NoFuel
  | S fuel =>
      v ← lapic_read LAPIC_ICRLO;
      if nz (Z.land v DELIVS) then icr_wait fuel else skip
  end.

Definition lapic_init (fuel : nat) : M mach () :=
  modify (set_lapic_lock false);;
  on_ks (store_page local_page (with_address LAPIC_BASE));;
  on_ks (mmu_map_page local_page LAPIC_BASE (Z.lor PRESENT RW));;
  lapic_write LAPIC_SIV (Z.lor 0x100 (IRQ_ZERO + IRQ_SPURIOUS));;
  lapic_write TIMER 0x100000;;
  (base ← on_tr (readmsr IA32_APIC_BASE);
   on_tr (writemsr IA32_APIC_BASE (Z.lor base (Z.shiftl 1 11))));;
  id ← lapic_read LAPIC_ID;
  m_log "[lapic] configuring for processor %d\n" [AInt id];;
  (* the branch for the bootstrap processor is empty *)
  lapic_write LAPIC_LINT0 0x10000;;
  lapic_write LAPIC_LINT1 0x10000;;
  ver ← lapic_read LAPIC_VER;
  (if 4 <=? Z.land (Z.shiftr ver 16) 0xFF then lapic_write 0x0340 0x10000;; skip else skip);;
  lapic_write LAPIC_ERR (IRQ_ZERO + IRQ_ERROR);;
  lapic_write LAPIC_ERR 0;;
  lapic_write LAPIC_EOI 0;;
  lapic_write LAPIC_ICRHI 0;;
  lapic_write LAPIC_ICRLO (Z.lor INIT (Z.lor LEVEL BCAST));;
  icr_wait fuel;;
  lapic_write LAPIC_TPR 0;;
  modify (set_lapic_up 1);;
  m_log "[lapic] begin timer config\n" [];;
  lapic_timer_config PERIODIC 0x10000 0x0A;;
  m_log "[lapic] configuration complete\n" [].

Definition udelay : M mach Z := lapic_read LAPIC_ID.

Definition lapic_start_AP (apic_id addr : Z) : M mach () :=
  on_tr (outb 0x70 0xF);;
  on_tr (outb 0x71 0xA);;
  let warm_reset_vector := P2V (Z.lor (Z.shiftl 0x40 4) 0x67) in
  on_tr (store16 warm_reset_vector 0);;
  on_tr (store16 (warm_reset_vector + 2) (Z.shiftr addr 4));;
  lapic_write LAPIC_ICRHI (Z.shiftl apic_id 24);;
  lapic_write LAPIC_ICRLO (Z.lor INIT (Z.lor LEVEL ASSERT));;
  udelay;;
  udelay;;
  lapic_write LAPIC_ICRLO (Z.lor INIT LEVEL);;
  udelay;;
  m_log "[lapic] starting cpu: %d, WRV %#x\n" [AInt apic_id; AInt addr];;
  for_range 0 2 (λ _,
    lapic_write LAPIC_ICRHI (Z.shiftl apic_id 24);;
    lapic_write LAPIC_ICRLO (Z.lor STARTUP (Z.shiftr addr 12));;
    udelay;;
    skip).

(** ** The controller's side *)

(** The value last written to a register, and the local vector table's error
    entry, which [lapic.h] calls [LAPIC_LINTERR]. *)
Definition LAPIC_LINTERR : Z := 0x370.
Fixpoint last_write (t : trace) (a : Z) : option Z :=
  match t with
  | [] => None
  | Mmio b v :: t => if b =? a then Some v else last_write t a
  | _ :: t => last_write t a
  end.
Definition lreg (m : mach) (index : Z) : option Z := last_write (io m) (LAPIC_BASE + index).

(** The delivery status clears within [fuel] reads, whatever happened before. *)
Fixpoint idle_within (fuel : nat) (t : trace) : bool :=
  match fuel with
  | O => false
  | S fuel =>
      let v := u32 (dev_mmio t (LAPIC_BASE + LAPIC_ICRLO)) in
      negb (nz (Z.land v DELIVS)) || idle_within fuel (MmioRead (LAPIC_BASE + LAPIC_ICRLO) v :: t)
  end.

(** The registers of [m'] are those of [m]. *)
Definition same_lregs (m m' : mach) : Prop := ∀ j, lreg m' j = lreg m j.

Lemma returns_lapic_write i v m (Q : Z → mach → Prop) :
  (∀ r m', (∀ j, lreg m' j = if j =? i then Some (u32 v) else lreg m j) → lapic_up m' = lapic_up m → Q r m') →
  returns (lapic_write i v) m Q.
Proof.
  intros HQ. unfold lapic_write. ret_step. apply returns_on_tr. unfold mmio_write. ret_step.
  apply returns_on_tr. unfold returns, mmio_read. apply HQ; [|done]. intros j. unfold lreg.
  cbn [io tio scr set_io set_scr put_tio last_write].
  destruct (Z.eqb_spec j i) as [->|]; [by rewrite Z.eqb_refl|].
  by rewrite (proj2 (Z.eqb_neq _ _)) by lia.
Qed.

Lemma returns_lapic_read i m (Q : Z → mach → Prop) :
  (∀ r m', same_lregs m m' → lapic_up m' = lapic_up m → Q r m') → returns (lapic_read i) m Q.
Proof. intros HQ. apply returns_on_tr. unfold returns, mmio_read. by apply HQ. Qed.

Lemma returns_icr_wait fuel m (Q : () → mach → Prop) :
  idle_within fuel (io m) = true → (∀ m', same_lregs m m' → lapic_up m' = lapic_up m → Q () m') →
  returns (icr_wait fuel) m Q.
Proof.
  revert m Q. induction fuel as [|fuel IH]; intros m Q Hi HQ; [done|]. cbn [icr_wait idle_within] in *.
  ret_step. apply returns_on_tr. unfold returns at 1, mmio_read. set (v := wrap 32 _) in *.
  destruct (nz (Z.land v DELIVS)); cbn [negb orb] in Hi.
  - apply IH; [done|]. intros m' Hs Hu. by apply HQ.
  - apply returns_ret. by apply HQ.
Qed.

Lemma returns_m_log fmt args m (Q : () → mach → Prop) :
  (∀ m', same_lregs m m' → lapic_up m' = lapic_up m → Q () m') → returns (m_log fmt args) m Q.
Proof. intros HQ. apply returns_on_ks, returns_modify. by apply HQ. Qed.

(** The global enable bit of the controller. *)
Lemma returns_apic_base m (Q : () → mach → Prop) :
  (∀ m', same_lregs m m' → lapic_up m' = lapic_up m → Q () m') →
  returns (base ← on_tr (readmsr IA32_APIC_BASE);
    on_tr (writemsr IA32_APIC_BASE (Z.lor base (Z.shiftl 1 11)))) m Q.
Proof. intros HQ. unfold returns. apply HQ; [|done]. by intros j. Qed.

Lemma returns_perf_lvt (c : bool) m (Q : () → mach → Prop) :
  (∀ m', (∀ j, j ≠ 0x340 → lreg m' j = lreg m j) → lapic_up m' = lapic_up m → Q () m') →
  returns (if c then lapic_write 0x0340 0x10000;; skip else skip) m Q.
Proof.
  intros HQ. destruct c; ret_step.
  - apply returns_lapic_write. intros r m' Hm Hu. ret_step. apply HQ; [|done].
    intros j Hj. by rewrite Hm, (proj2 (Z.eqb_neq _ _)).
  - by apply HQ.
Qed.

(** Registers after a sequence of writes: look one up. *)
Ltac eqb_const :=
  repeat match goal with
  | |- context [?a =? ?b] => let v := eval vm_compute in (a =? b) in
      first [constr_eq v true | constr_eq v false]; change (a =? b) with v; cbv iota
  end.
Ltac lreg_look := repeat (eqb_const; match goal with
  | H : ∀ j, lreg ?m j = _ |- context [lreg ?m _] => rewrite H
  | H : same_lregs _ ?m |- context [lreg ?m _] => rewrite (H _)
  | H : ∀ j, j ≠ _ → lreg ?m j = _ |- context [lreg ?m _] => rewrite H by done
  end).

Lemma timer_config_spec mode count div m (Q : () → mach → Prop) :
  (∀ m', (∀ j, lreg m' j = if j =? INIT_COUNT then Some (u32 count) else if j =? DIVIDE_CONF
       then Some (u32 div) else if j =? TIMER then Some (u32 (Z.lor (Z.shiftl mode 17) 0x20)) else lreg m j) →
     lapic_up m' = lapic_up m → Q () m') →
  returns (lapic_timer_config mode count div) m Q.
Proof.
  intros HQ. unfold lapic_timer_config.
  do 3 (ret_step; apply returns_lapic_write; intros ? ? ? ?). ret_step.
  apply returns_lapic_read; intros ? ? Hs ?. apply returns_m_log. intros mf Hs' Hu.
  apply HQ; [|congruence]. intros j. rewrite (Hs' j), (Hs j). by lreg_look.
Qed.

(** C27: When the mapping of the controller succeeds and its delivery status
    clears in time, [lapic_init] ends with the controller marked as up, enabled
    with spurious vector 0xFF, all priorities open, both local pins masked, and
    the timer running in periodic mode on vector 0x20. The error interrupt is
    not programmed: its vector goes to the error status register, which is
    then cleared, and the error entry of the vector table keeps its value. *)
Theorem lapic_init_programs fuel m :
  (∀ t, idle_within fuel t = true) →
  returns (store_page local_page (with_address LAPIC_BASE);;
    mmu_map_page local_page LAPIC_BASE (Z.lor PRESENT RW)) (ks m) (λ _ _, True) →
  returns (lapic_init fuel) m (λ _ m',
    lapic_up m' = 1 ∧
    lreg m' LAPIC_SIV = Some 0x1FF ∧ lreg m' LAPIC_TPR = Some 0 ∧
    lreg m' LAPIC_LINT0 = Some 0x10000 ∧ lreg m' LAPIC_LINT1 = Some 0x10000 ∧
    lreg m' TIMER = Some (2 ^ 17 + 0x20) ∧ lreg m' INIT_COUNT = Some 0x10000 ∧
    lreg m' DIVIDE_CONF = Some 0x0A ∧
    lreg m' LAPIC_ERR = Some 0 ∧ lreg m' LAPIC_LINTERR = lreg m LAPIC_LINTERR).
Proof.
  intros Hidle Hmap%returns_bind_inv. unfold lapic_init. do 2 ret_step.
  apply returns_bind, returns_on_ks. eapply returns_mono; [exact Hmap|]. intros [] k1 Hmap1.
  apply returns_bind, returns_on_ks. eapply returns_mono; [exact Hmap1|]. intros [] k2 _.
  set (m0 := set_ks k2 _). assert (H0' : ∀ j, lreg m0 j = lreg m j) by done. clearbody m0.
  do 2 (ret_step; apply returns_lapic_write; intros ? ? ? ?).
  apply returns_bind, returns_apic_base; intros ? ? ?.
  ret_step. apply returns_lapic_read; intros ? ? ? ?. ret_step. apply returns_m_log; intros ? ? ?.
  do 2 (ret_step; apply returns_lapic_write; intros ? ? ? ?).
  ret_step. apply returns_lapic_read; intros ver ? ? ?. apply returns_bind, returns_perf_lvt; intros ? ? ?.
  do 5 (ret_step; apply returns_lapic_write; intros ? ? ? ?).
  ret_step. apply returns_icr_wait; [apply Hidle|]; intros ? ? ?.
  ret_step. apply returns_lapic_write; intros ? mt Ht ?. do 2 ret_step.
  set (mu := set_lapic_up 1 mt). assert (Hu : ∀ j, lreg mu j = lreg mt j) by done.
  assert (Hup : lapic_up mu = 1) by done. clearbody mu.
  ret_step. apply returns_m_log; intros ? ? ?. ret_step. apply timer_config_spec; intros ? ? ?.
  apply returns_m_log; intros mf Hf Huf. split; [congruence|].
  split_and!; lreg_look; reflexivity.
Qed.
End lapic.
