(* ===== verification/Trap.v ===== *)
(** Traps, [interrupts.c], with the timer of [pit.c] and the system-call entry
    of [syscall.c]: the table of handlers, the dispatch of a trap, and the
    acknowledgement to the interrupt controllers. *)

From S2P Require Import Prelude Kernel State Paging Frame Mmu Lib Io Term Desc Machine Lapic.

Open Scope Z_scope.

Definition PAGEFAULT : Z := 14.
Definition KERNEL_CS : Z := 0x08.

(** The frame that [trap_handler] of [vectors.asm] pushes. *)
Record registers := Registers {
  rax : Z; rcx : Z; rdx : Z; rbx : Z; rbp : Z; rsi : Z; rdi : Z;
  r8 : Z; r9 : Z; r10 : Z; r11 : Z; r12 : Z; r13 : Z; r14 : Z; r15 : Z;
  int_no : Z; err_no : Z; rip : Z; cs : Z; rflags : Z; rsp : Z; ss : Z;
}.

(** [exceptions[]]: 31 entries, those without an initialiser NULL. *)
Definition exceptions : list (option string) :=
  (Some <$> ["Divide by zero"; "Debug"; "Non-maskable interrupt"; "Breakpoint"; "Overflow";
    "Bound range exceeded"; "Invalid opcode"; "Device not available"; "Double fault"; "Coprocessor";
    "Invalid TSS"; "Segment not present"; "Stack segment fault"; "General protection fault";
    "Page fault"; "Reserved"; "x87 FPU"; "Alignment check"; "Machine check"; "SIMD FP";
    "Virtualization fault"; "Reserved"]%string) ++
  replicate 8 None ++ [Some "Security fault"%string].

(** The other functions that a trap table can hold. *)
Class Handlers := other_handler : Z → registers → M mach Z.

Section trap.
Context `{MMU, Layout, Devices, Asm, Handlers}.

Definition dump_registers (r : registers) : M mach () :=
  m_printf "Core dump\n" [];;
  m_printf "rip %#x rflags %x\n" [AInt (rip r); AInt (rflags r)];;
  m_printf "cs  %x ss  %x\n" [AInt (cs r); AInt (ss r)];;
  m_printf "rax %#x rbx %#x\n" [AInt (rax r); AInt (rbx r)];;
  m_printf "rcx %#x rdx %#x\n" [AInt (rcx r); AInt (rdx r)];;
  m_printf "rsi %#x rdi %#x\n" [AInt (rsi r); AInt (rdi r)];;
  m_printf "rsp %#x rbp %#x\n" [AInt (rsp r); AInt (rbp r)];;
  m_printf "r8  %#x r9  %#x\n" [AInt (r8 r); AInt (r9 r)];;
  m_printf "r10 %#x r11 %#x\n" [AInt (r10 r); AInt (r11 r)];;
  m_printf "r12 %#x r13 %#x\n" [AInt (r12 r); AInt (r13 r)];;
  m_printf "r14 %#x r15 %#x\n" [AInt (r14 r); AInt (r15 r)].

Definition breakpoint_handler (r : registers) : M mach Z :=
  dump_registers r;;
  (if rax r =? 0 then halt_catch_fire else skip);;
  mret 0.

Definition page_fault (r : registers) : M mach Z :=
  a ← gets cr2;
  m_printf "Page Fault(%2d)   cr2:  %#x\n" [AInt (err_no r); AInt a];;
  m_printf "Faulting instruction:  %#x (%s)\n"
    [AInt (rip r); AStr (if cs r =? 0x23 then "User process" else "Kernel code")];;
  m_printf "Current stack pointer: %#x/%#x\n" [AInt (rsp r); AInt (rbp r)];;
  (if nz (Z.land (err_no r) PRESENT) then m_printf " \tPage Not Present\n" [] else skip);;
  (if nz (Z.land (err_no r) RW) then m_printf " \tPage Not Writeable\n" [] else skip);;
  (if nz (Z.land (err_no r) USER) then m_printf " \tPage Supervisor Mode\n" [] else skip);;
  m_printf "Beginning stack trace:\n" [];;
  stack_trace (rbp r);;
  modify (set_cr2 0);;
  halt_catch_fire (A := ());;
  mret 0.

(** [num] is a signed [int]; the table has 256 entries. *)
Definition trap_register (num : Z) (h : trap_handler) : M mach () :=
  if num <? 256 then
    if num <? 0 then throw (OutOfBounds num)
    else modify (λ m, set_handlers (λ n, if n =? num then h else handlers m n) m)
  else
    m_printf "panic: Trying to install a handler for interrupt %d\n" [AInt num];;
    halt_catch_fire.

(** *** pit.c *)

Definition pit_handler (r : registers) : M mach Z :=
  (if negb (cs r =? KERNEL_CS) then m_log "[timer] PIT still running with usermode...\n" [] else skip);;
  modify (λ m, set_timer_ticks (u64 (timer_ticks m + 1)) m);;
  mret 0.

Definition pit_get_ticks : M mach Z := gets timer_ticks.

(** [1193180 / frequency] is a division of unsigned 32-bit numbers. *)
Definition pit_init (frequency : Z) : M mach () :=
  if frequency =? 0 then throw DivideError else
  let divisor := s32 (1193180 / frequency) in
  trap_register (IRQ_TIMER + IRQ_ZERO) h_pit;;
  on_tr (outb 0x43 0x34);;
  on_tr (inb 0x43);;
  on_tr (outb 0x40 (Z.land divisor 0xFF));;
  on_tr (inb 0x40);;
  on_tr (outb 0x40 (Z.shiftr divisor 8));;
  m_log "[timer] Initializing PIT with frequency %d hz\n" [AInt frequency].

Definition pit_shutdown : M mach () :=
  on_tr interrupts_disable;;
  trap_register (IRQ_TIMER + IRQ_ZERO) h_null;;
  on_tr (outb 0x42 0x34);;
  on_tr interrupts_enable.

(** *** Dispatch *)

(** A call through a function pointer. *)
Definition run_handler (h : trap_handler) (r : registers) : M mach Z :=
  match h with
  | h_null => throw NullDeref
  | h_breakpoint => breakpoint_handler r
  | h_page_fault => page_fault r
  | h_pit => pit_handler r
  | h_other a => other_handler a r
  end.

(** [printf("CPU exception %s\n", exceptions[int_no])]. *)
Definition print_exception (n : Z) : M mach () :=
  match exceptions !! Z.to_nat n with
  | Some (Some e) => m_printf "CPU exception %s\n" [AStr e]
  | Some None => m_printf "CPU exception %s\n" [AInt 0]
  | None => throw (OutOfBounds n)
  end.

(** The end-of-interrupt messages at the end of [trap]. *)
Definition trap_eoi (r : registers) : M mach () :=
  (if 40 <? int_no r then on_tr (outb 0xA0 0x20) else skip);;
  up ← lapic_active;
  (if nz up then lapic_eoi else skip);;
  on_tr (outb 0x20 0x20).

(** A handler gets the frame by reference; the ones of the repository only
    read it. *)
Definition trap (r : registers) : M mach () :=
  if 256 <=? int_no r then throw (OutOfBounds (int_no r)) else
  h ← gets (λ m, handlers m (int_no r));
  (if negb (bool_decide (h = h_null)) then
     err ← run_handler h r;
     if nz err then
       m_printf "Trap handler 0x%x returned value %#x\n" [AInt (int_no r); AInt err];;
       dump_registers r;;
       halt_catch_fire
     else skip
   else if int_no r <? IRQ_ZERO then
     print_exception (int_no r);;
     dump_registers r;;
     stack_trace (rbp r);;
     halt_catch_fire
   else
     m_printf "Interrupt 0x%x without handler\n" [AInt (int_no r)];;
     dump_registers r;;
     stack_trace (rbp r);;
     halt_catch_fire);;
  trap_eoi r.

Definition trap_init : M mach () :=
  modify (set_handlers (λ _, h_null));;
  trap_register BREAKPOINT h_breakpoint;;
  trap_register PAGEFAULT h_page_fault.
End trap.
