(* ===== verification/TrapSpec.v ===== *)
(** What a trap does: the handler, the acknowledgements, or the end of the
    machine; and the timer interrupt from its installation to its effect. *)

From S2P Require Import Prelude Kernel State Paging Frame Mmu Lib Io Term Desc Machine Lapic Trap.

Open Scope Z_scope.

Section spec.
Context `{MMU, Layout, Devices, Asm, Handlers}.

(** The events of [trap_eoi], newest first. *)
Definition eoi_events (m : mach) (n : Z) (t : trace) : trace :=
  let t1 := if 40 <? n then Out 8 0xA0 0x20 :: t else t in
  let t2 := if nz (lapic_up m) then
      MmioRead 0xFEE000B0 (u32 (dev_mmio (Mmio 0xFEE000B0 0 :: t1) 0xFEE000B0)) ::
      Mmio 0xFEE000B0 0 :: t1
    else t1 in
  Out 8 0x20 0x20 :: t2.

Lemma trap_eoi_spec r m : trap_eoi r m = Ok () (set_io (eoi_events m (int_no r) (io m)) m).
Proof.
  unfold trap_eoi, eoi_events, lapic_active, lapic_eoi.
  destruct (40 <? int_no r), (nz (lapic_up m)) eqn:E;
    unfold mbind, M_bind, gets; cbn [zoom on_tr]; unfold on_tr, zoom, outb, modify, skip;
    cbn; rewrite ?E; cbn; try rewrite E; reflexivity.
Qed.

(** Printing changes the log and nothing else. *)
Lemma dump_registers_spec r m :
  ∃ l, dump_registers r m = Ok () (set_ks (put_klog (l ++ klog (ks m)) (ks m)) m).
Proof.
  eexists [_; _; _; _; _; _; _; _; _; _; _]. reflexivity.
Qed.

Lemma m_printf_run fmt args m :
  m_printf fmt args m = Ok () (set_ks (put_klog (Print fmt args :: klog (ks m)) (ks m)) m).
Proof. done. Qed.

(** The end of the machine after a dump of the registers. *)
Lemma dump_then_halt r m (k : M mach ()) :
  ∃ m2, ((dump_registers r;; halt_catch_fire (A := ()));; k) m = Err Halted m2.
Proof.
  destruct (dump_registers_spec r m) as [l E]. eexists.
  rewrite bind_assoc, (bind_ok _ _ _ _ _ E). reflexivity.
Qed.

Lemma trace_then_halt r m (k : M mach ()) :
  (∀ a m, returns (stack_trace a) m (λ _ _, True)) →
  ∃ m2, ((dump_registers r;; stack_trace (rbp r);; halt_catch_fire (A := ()));; k) m = Err Halted m2.
Proof.
  intros Hst. destruct (dump_registers_spec r m) as [l E].
  rewrite bind_assoc, (bind_ok _ _ _ _ _ E).
  destruct (proj1 (returns_run _ _ _) (Hst (rbp r) (set_ks (put_klog (l ++ klog (ks m)) (ks m)) m)))
    as ([] & m2 & E2 & _).
  eexists. rewrite bind_assoc, (bind_ok _ _ _ _ _ E2). reflexivity.
Qed.

Lemma print_exception_spec n m : 0 <= n < 31 → ∃ m', print_exception n m = Ok () m'.
Proof.
  intros Hn. unfold print_exception.
  destruct (exceptions !! Z.to_nat n) as [[e|]|] eqn:E; [by eexists|by eexists|].
  apply lookup_ge_None_1 in E. change (length exceptions) with 31%nat in E. lia.
Qed.

(** A vector without a handler. *)
Lemma trap_unhandled r m :
  (∀ a m, returns (stack_trace a) m (λ _ _, True)) → 0 <= int_no r < 256 →
  handlers m (int_no r) = h_null →
  faults (trap r) m (if int_no r =? 31 then OutOfBounds 31 else Halted).
Proof.
  intros Hst Hn Hh. unfold faults, trap. rewrite (proj2 (Z.leb_gt 256 _)) by lia.
  rewrite (bind_ok _ _ _ (handlers m (int_no r)) m) by done.
  rewrite bool_decide_eq_true_2 by done. cbn [negb]. unfold IRQ_ZERO.
  destruct (Z.ltb_spec (int_no r) 0x20) as [Hlt|Hge].
  - destruct (Z.eqb_spec (int_no r) 31) as [->|Hne]; [by eexists|].
    destruct (print_exception_spec (int_no r) m) as [m' E]; [lia|].
    rewrite bind_assoc, (bind_ok _ _ _ _ _ E). by apply trace_then_halt.
  - replace (int_no r =? 31) with false by lia.
    rewrite bind_assoc, (bind_ok _ _ _ _ _ (m_printf_run _ _ _)). by apply trace_then_halt.
Qed.

(** A vector with a handler. *)
Lemma trap_handled r m :
  0 <= int_no r < 256 → handlers m (int_no r) ≠ h_null →
  match run_handler (handlers m (int_no r)) r m with
  | Ok err m1 =>
      if err =? 0 then trap r m = Ok () (set_io (eoi_events m1 (int_no r) (io m1)) m1)
      else faults (trap r) m Halted
  | Err f m1 => trap r m = Err f m1
  end.
Proof.
  intros Hn Hh. unfold faults, trap. rewrite (proj2 (Z.leb_gt 256 _)) by lia.
  rewrite (bind_ok _ _ _ (handlers m (int_no r)) m) by done.
  rewrite bool_decide_eq_false_2 by done. cbn [negb]. rewrite bind_assoc.
  destruct (run_handler (handlers m (int_no r)) r m) as [err m1|f m1] eqn:E.
  - rewrite (bind_ok _ _ _ _ _ E). unfold nz. destruct (err =? 0); cbn [negb].
    + rewrite (bind_ok _ _ _ () m1) by done. apply trap_eoi_spec.
    + rewrite bind_assoc, (bind_ok _ _ _ _ _ (m_printf_run _ _ _)). apply dump_then_halt.
  - by rewrite (bind_err _ _ _ _ _ E).
Qed.


(** *** The timer *)

(** The handlers that [trap_init] and [pit_init] install. *)
Definition boot_handlers (n : Z) : trap_handler :=
  if n =? 0x20 then h_pit else if n =? 14 then h_page_fault else if n =? 3 then h_breakpoint else h_null.

(** The trace of [pit_init] with a divisor. *)
Definition pit_events (d : Z) (t : trace) : trace :=
  let t1 := Out 8 0x43 0x34 :: t in
  let t2 := In 8 0x43 (u8 (dev_in t1 8 0x43)) :: t1 in
  let t3 := Out 8 0x40 (u8 (Z.land d 0xFF)) :: t2 in
  let t4 := In 8 0x40 (u8 (dev_in t3 8 0x40)) :: t3 in
  Out 8 0x40 (u8 (Z.shiftr d 8)) :: t4.

Lemma trap_init_run m : ∃ h, trap_init m = Ok () (set_handlers h m) ∧
  ∀ n, h n = if n =? 14 then h_page_fault else if n =? 3 then h_breakpoint else h_null.
Proof. eexists. split; [reflexivity|done]. Qed.

Lemma pit_init_run f m : f ≠ 0 → ∃ h l,
  pit_init f m = Ok () (set_ks (put_klog l (ks m)) (set_handlers h
    (set_io (pit_events (s32 (1193180 / f)) (io m)) m))) ∧
  ∀ n, h n = if n =? 0x20 then h_pit else handlers m n.
Proof.
  intros Hf. unfold pit_init. rewrite (proj2 (Z.eqb_neq f 0)) by done.
  eexists _, _. split; [reflexivity|done].
Qed.

(** C22: After [trap_init] and [pit_init f], for a frequency between 19 Hz and
    1.19 MHz, the timer has been programmed with the divisor [1193180 / f], low
    byte first, and from then on, as long as nobody changes the trap table,
    every timer interrupt counts one tick and is acknowledged. *)
Theorem timer_interrupt_ticks f m :
  19 <= f <= 1193180 →
  returns (trap_init;; pit_init f) m (λ _ m1,
    (∃ lo hi, written (io m1) 0x40 = written (io m) 0x40 ++ [lo; hi] ∧
       0 <= lo < 256 ∧ 0 <= hi < 256 ∧ lo + 256 * hi = 1193180 / f) ∧
    ∀ r m2, int_no r = 0x20 → handlers m2 = handlers m1 →
      returns (trap r) m2 (λ _ m3,
        timer_ticks m3 = u64 (timer_ticks m2 + 1) ∧ handlers m3 = handlers m2 ∧
        io m3 = eoi_events m2 0x20 (io m2))).
Proof.
  intros Hf. destruct (trap_init_run m) as (h & E1 & Hh).
  destruct (pit_init_run f (set_handlers h m) ltac:(lia)) as (h' & l & E2 & Hh').
  assert (Hd : s32 (1193180 / f) = 1193180 / f /\ 0 <= 1193180 / f < 2 ^ 16).
  { assert (0 <= 1193180 / f < 2 ^ 16).
    { split; [apply Z.div_pos; lia|]. apply Z.div_lt_upper_bound; lia. }
    split; [|done]. apply sgn_small; lia. }
  unfold returns. rewrite (bind_ok _ _ _ _ _ E1), E2. split.
  - destruct Hd as [-> Hd]. set (d := 1193180 / f) in *. exists (d mod 256), (d / 256).
    split; [|clearbody d; clear - Hd; dlia]. unfold pit_events. change 0xFF with (2 ^ 8 - 1).
    cbn [io tio scr set_ks set_handlers set_io set_scr put_tio].
    rewrite !written_cons. cbn [Z.eqb Pos.eqb]. rewrite !app_nil_r, <- app_assoc. cbn [app].
    rewrite land_low, Z.shiftr_div_pow2 by lia. unfold wrap.
    change (io (set_handlers h m)) with (io m). clearbody d. clear - Hd. do 2 f_equal; [|f_equal]; dlia.
  - intros r m2 Hr Hm2. assert (Hp : handlers m2 (int_no r) = h_pit).
    { rewrite Hm2, Hr. cbn [handlers set_ks]. by rewrite Hh'. }
    pose proof (trap_handled r m2) as Ht. rewrite Hp, Hr in Ht.
    specialize (Ht ltac:(lia) ltac:(done)). cbn [run_handler] in Ht.
    assert (Er : ∃ l, pit_handler r m2 = Ok 0 (set_timer_ticks (u64 (timer_ticks m2 + 1))
        (set_ks (put_klog (l ++ klog (ks m2)) (ks m2)) m2))).
    { unfold pit_handler. destruct (negb (cs r =? KERNEL_CS)); [by eexists [_]|].
      exists []. by destruct m2 as [[]]. }
    destruct Er as [l2 Er]. rewrite Er in Ht. cbn [Z.eqb] in Ht. rewrite Ht. done.
Qed.
End spec.
