(* ===== verification/Pic.v ===== *)
(** The two 8259A interrupt controllers, [pic.c], and what they make of the
    bytes they are sent: the masks and the vectors that are in force after
    each operation. *)

From S2P Require Import Prelude Kernel State Paging Frame Mmu Io Term Machine Lapic.

Open Scope Z_scope.

Definition PIC1_CMD : Z := 0x20.
Definition PIC1_DATA : Z := 0x21.
Definition PIC2_CMD : Z := 0xA0.
Definition PIC2_DATA : Z := 0xA1.
Definition IRQ_SLAVE : Z := 2.

(** The initial value of the static [irqmask]. *)
Definition irqmask_init : Z := u16 (Z.land 0xFFFF (Z.lnot (Z.shiftl 1 IRQ_SLAVE))).

(** [irqmask = mask] and the two data bytes. *)
Definition pic_setmask (mask : Z) : M mach () :=
  modify (set_irqmask (u16 mask));;
  on_tr (outb PIC1_DATA (u16 mask));;
  on_tr (outb PIC2_DATA (Z.shiftr (u16 mask) 8)).

Definition pic_enable (irq : Z) : M mach () :=
  mask ← gets irqmask;
  pic_setmask (Z.land mask (Z.lnot (Z.shiftl 1 irq))).

Definition pic_disable : M mach () := pic_setmask 0xFFFF.

Definition pic_init : M mach () :=
  on_tr (outb PIC1_DATA 0xFF);;
  on_tr (outb PIC2_DATA 0xFF);;
  on_tr (outb PIC1_CMD 0x11);;
  on_tr (outb PIC1_DATA IRQ_ZERO);;
  on_tr (outb PIC1_DATA (Z.shiftl 1 IRQ_SLAVE));;
  on_tr (outb PIC1_DATA 0x3);;
  on_tr (outb PIC2_CMD 0x11);;
  on_tr (outb PIC2_DATA (IRQ_ZERO + 8));;
  on_tr (outb PIC2_DATA IRQ_SLAVE);;
  on_tr (outb PIC2_DATA 0x3);;
  on_tr (outb PIC1_CMD 0x68);;
  on_tr (outb PIC1_CMD 0x0a);;
  on_tr (outb PIC2_CMD 0x68);;
  on_tr (outb PIC2_CMD 0x0a);;
  mask ← gets irqmask;
  if negb (mask =? 0xFFFF) then pic_setmask mask else skip.

(** ** The controller's side *)

(** An 8259A in a cascade: the vector of its first line, its mask, its
    cascade word and mode, and the initialisation word it waits for. *)
Inductive icw := Ready | Icw2 | Icw3 | Icw4.
Record chip := Chip { base_vector : Z; mask : Z; cascade : Z; mode : Z; waits : icw }.

Definition chip_data (v : Z) (c : chip) : chip :=
  match waits c with
  | Ready => Chip (base_vector c) v (cascade c) (mode c) Ready
  | Icw2 => Chip v (mask c) (cascade c) (mode c) Icw3
  | Icw3 => Chip (base_vector c) (mask c) v (mode c) Icw4
  | Icw4 => Chip (base_vector c) (mask c) (cascade c) v Ready
  end.
(** Bit 4 of a command starts the initialisation, which clears the mask. *)
Definition chip_cmd (v : Z) (c : chip) : chip :=
  if Z.testbit v 4 then Chip (base_vector c) 0 (cascade c) (mode c) Icw2 else c.

(** A controller at two ports, after a trace of events. *)
Fixpoint chip_run (cmd data : Z) (c : chip) (t : trace) : chip :=
  match t with
  | [] => c
  | Out _ p v :: t =>
      let c' := chip_run cmd data c t in
      if p =? data then chip_data v c' else if p =? cmd then chip_cmd v c' else c'
  | _ :: t => chip_run cmd data c t
  end.

Section spec.
Context (master0 slave0 : chip).

Definition master (m : mach) : chip := chip_run PIC1_CMD PIC1_DATA master0 (io m).
Definition slave (m : mach) : chip := chip_run PIC2_CMD PIC2_DATA slave0 (io m).

(** Line [i] of the sixteen is masked in its controller. *)
Definition line_masked (m : mach) (i : Z) : bool :=
  if i <? 8 then Z.testbit (mask (master m)) i else Z.testbit (mask (slave m)) (i - 8).

(** Both controllers are initialised, and [irqmask] is the masks in force. *)
Definition pic_in_step (m : mach) : Prop :=
  waits (master m) = Ready ∧ waits (slave m) = Ready ∧
  0 <= irqmask m < 2 ^ 16 ∧ ∀ i, 0 <= i < 16 → line_masked m i = Z.testbit (irqmask m) i.

Lemma setmask_run v m : pic_setmask v m =
  Ok () (set_irqmask (u16 v) (set_io
    (Out 8 PIC2_DATA (u8 (Z.shiftr (u16 v) 8)) :: Out 8 PIC1_DATA (u8 (u16 v)) :: io m) m)).
Proof. reflexivity. Qed.

(** Setting the masks of two initialised controllers. *)
Lemma setmask_in_step v m :
  waits (master m) = Ready → waits (slave m) = Ready →
  returns (pic_setmask v) m (λ _ m',
    pic_in_step m' ∧ irqmask m' = u16 v ∧
    base_vector (master m') = base_vector (master m) ∧ base_vector (slave m') = base_vector (slave m)).
Proof.
  intros Hm Hs. unfold returns. rewrite setmask_run. unfold pic_in_step, line_masked, master, slave.
  cbn [io tio scr set_io set_irqmask set_scr put_tio irqmask chip_run Z.eqb Pos.eqb PIC1_DATA PIC2_DATA PIC1_CMD PIC2_CMD].
  unfold master, slave, PIC1_CMD, PIC1_DATA, PIC2_CMD, PIC2_DATA in *.
  unfold chip_data at 1 2 3 4 5 6. rewrite Hm, Hs. cbn [waits mask base_vector].
  pose proof (wrap_bounds 16 v ltac:(lia)). split_and!; try (done || lia).
  intros i Hi. unfold wrap at 1 3. destruct (Z.ltb_spec i 8).
  - by rewrite Z.mod_pow2_bits_low by lia.
  - rewrite Z.mod_pow2_bits_low, Z.shiftr_spec by lia. by replace (i - 8 + 8) with i by lia.
Qed.

(** [pic_init] sends the initialisation words, then the masks. *)
Lemma pic_init_words m : ∃ t, pic_init m = (mask ← gets irqmask;
    if negb (mask =? 0xFFFF) then pic_setmask mask else skip) (set_io t m) ∧
  master (set_io t m) = Chip 0x20 0 4 3 Ready ∧ slave (set_io t m) = Chip 0x28 0 2 3 Ready.
Proof. eexists. split; [reflexivity|]. split; reflexivity. Qed.


(** When the controllers are in step with [irqmask], [pic_enable irq]
    unmasks that line and no other and keeps them in step, and [pic_disable]
    masks all sixteen. *)
Theorem pic_enable_unmasks m irq :
  pic_in_step m → 0 <= irq < 16 →
  returns (pic_enable irq) m (λ _ m', pic_in_step m' ∧
    ∀ i, 0 <= i < 16 → line_masked m' i = negb (i =? irq) && line_masked m i) ∧
  returns pic_disable m (λ _ m', pic_in_step m' ∧ ∀ i, 0 <= i < 16 → line_masked m' i = true).
Proof.
  intros (Hm & Hs & Hb & Hl) Hirq. split.
  - unfold pic_enable. apply returns_bind, returns_gets.
    eapply returns_mono; [by apply setmask_in_step|]. intros [] m' (Hin & Hmask & _).
    split; [done|]. intros i Hi. rewrite (proj2 (proj2 (proj2 Hin))), Hmask, Hl by done.
    unfold wrap. rewrite Z.mod_pow2_bits_low, Z.land_spec, Z.lnot_spec by lia.
    rewrite Z.shiftl_mul_pow2, Z.mul_1_l, Z.pow2_bits_eqb, Z.eqb_sym by lia. apply andb_comm.
  - unfold pic_disable. eapply returns_mono; [by apply setmask_in_step|].
    intros [] m' (Hin & Hmask & _). split; [done|]. intros i Hi.
    rewrite (proj2 (proj2 (proj2 Hin))), Hmask by done. change (u16 0xFFFF) with (Z.ones 16).
    rewrite Z.testbit_ones by lia. lia.
Qed.
End spec.
