(* ===== verification/Ioapic.v ===== *)
(** The I/O interrupt controller, [ioapic.c]: an index and a data window in
    memory, through which the redirection table is written. *)

From S2P Require Import Prelude Kernel State Paging Frame Mmu Io Term Machine Lapic.

Open Scope Z_scope.

Definition IOREGSEL : Z := 0x00.
Definition IOWIN : Z := 0x10.
Definition IOREDTBL : Z := 0x10.

Section ioapic.
Context `{MMU, Layout, Devices, Asm}.

(** Addresses wrap at 64 bits; registers are 32 bits wide. *)
Definition ioapic_read (reg : Z) : M mach Z :=
  base ← gets IOAPIC;
  on_tr (mmio_write (u64 (base + IOREGSEL)) reg);;
  on_tr (mmio_read (u64 (base + IOWIN))).

Definition ioapic_write (reg data : Z) : M mach () :=
  base ← gets IOAPIC;
  on_tr (mmio_write (u64 (base + IOREGSEL)) reg);;
  on_tr (mmio_write (u64 (base + IOWIN)) data).

(** [irq], [src] and [gsi] are [uint8_t], [cpu] is [uint16_t]. *)
Definition ioapic_enable (irq cpu : Z) : M mach Z :=
  base ← gets IOAPIC;
  if negb (nz base) then mret (-1)
  else
    let low := u32 (IRQ_ZERO + irq) in
    m_log "[ioapic] Enabling irq %d on cpu %d (low dword: %#x)\n" [AInt irq; AInt cpu; AInt low];;
    ioapic_write (IOREDTBL + irq * 2) low;;
    ioapic_write (IOREDTBL + irq * 2 + 1) (Z.shiftl cpu 24);;
    mret 0.

Definition ioapic_remap (src gsi cpu : Z) : M mach Z :=
  base ← gets IOAPIC;
  if negb (nz base) then mret (-1)
  else
    let low := u32 (IRQ_ZERO + gsi) in
    m_log "[ioapic] Mapping %d to %d on cpu %d (low dword: %#x)\n"
      [AInt src; AInt gsi; AInt cpu; AInt low];;
    ioapic_write (IOREDTBL + src * 2) low;;
    ioapic_write (IOREDTBL + src * 2 + 1) (Z.shiftl cpu 24);;
    mret 0.

Definition ioapic_disable (irq : Z) : M mach () :=
  ioapic_write (IOREDTBL + irq * 2) (Z.lor (Z.shiftl 1 16) (0x20 + irq));;
  ioapic_write (IOREDTBL + irq * 2 + 1) 0.

(** The part of [ioapic_init] after the mapping. *)
Definition ioapic_mask_all : M mach () :=
  ver ← ioapic_read 0x01;
  let max := u16 (Z.land (Z.shiftr ver 16) 0xFF) in
  m_log "[ioapic] version %#x max reg table entries: %d\n" [AInt ver; AInt max];;
  for_range 0 max (λ i, ioapic_disable (u8 i)).

Definition ioapic_init (ioapic_address : Z) : M mach () :=
  on_ks (store_page local_page (with_address (ROUND_DOWN ioapic_address PAGE_SIZE)));;
  let ioapic_address := P2V ioapic_address in
  on_ks (mmu_map_page local_page ioapic_address (Z.lor PRESENT RW));;
  modify (set_IOAPIC ioapic_address);;
  ioapic_mask_all.

(** ** The controller's side *)

(** The registers behind the window of the controller at [base], after a
    trace of events: the selected index and the contents by index. *)
Fixpoint ioapic_run (base : Z) (r0 : Z * (Z → Z)) (t : trace) : Z * (Z → Z) :=
  match t with
  | [] => r0
  | Mmio a v :: t =>
      let '(sel, regs) := ioapic_run base r0 t in
      if a =? u64 (base + IOREGSEL) then (u8 v, regs)
      else if a =? u64 (base + IOWIN) then (sel, λ i, if i =? sel then v else regs i)
      else (sel, regs)
  | _ :: t => ioapic_run base r0 t
  end.

Section spec.
Context (r0 : Z * (Z → Z)).

Definition regs_at (base : Z) (t : trace) : Z → Z := (ioapic_run base r0 t).2.
Definition regs_of (m : mach) : Z → Z := regs_at (IOAPIC m) (io m).

(** Entry [i] of the redirection table: the vector, the mask bit and the
    destination. *)
Definition entry_vector (regs : Z → Z) (i : Z) : Z := regs (IOREDTBL + i * 2) mod 2 ^ 8.
Definition entry_masked (regs : Z → Z) (i : Z) : bool := Z.testbit (regs (IOREDTBL + i * 2)) 16.
Definition entry_dest (regs : Z → Z) (i : Z) : Z := regs (IOREDTBL + i * 2 + 1) / 2 ^ 24.

(** A write through the window changes one register. *)
Lemma returns_ioapic_write reg data m (Q : () → mach → Prop) :
  0 <= reg < 2 ^ 8 → 0 <= IOAPIC m < 2 ^ 64 - 16 →
  (∀ m', IOAPIC m' = IOAPIC m → ks m' = ks m →
     (∀ i, regs_of m' i = if i =? reg then u32 data else regs_of m i) → Q () m') →
  returns (ioapic_write reg data) m Q.
Proof.
  intros Hreg Hb HQ. unfold ioapic_write. ret_step. ret_step. ret_step.
  apply returns_on_tr. unfold mmio_write. ret_step. apply returns_on_tr, returns_modify.
  apply HQ; [done|done|]. intros i. unfold regs_of, regs_at.
  cbn [IOAPIC io tio scr set_io set_scr put_tio ioapic_run]. fold (io m).
  destruct (ioapic_run (IOAPIC m) r0 (io m)) as [sel regs].
  unfold IOREGSEL, IOWIN. rewrite !(wrap_small 64) by lia.
  rewrite Z.eqb_refl. destruct (Z.eqb_spec (IOAPIC m + 16) (IOAPIC m + 0)); [lia|].
  rewrite Z.eqb_refl. cbn [snd fst]. by rewrite (wrap_small 32 reg), (wrap_small 8 reg) by lia.
Qed.

(** Entry [i] is masked, with the vector of its line. *)
Definition entry_off (regs : Z → Z) (i : Z) : Prop :=
  entry_masked regs i = true ∧ entry_vector regs i = 0x20 + i ∧ entry_dest regs i = 0.

Lemma returns_ioapic_disable i m (Q : () → mach → Prop) :
  0 <= i < 120 → 0 <= IOAPIC m < 2 ^ 64 - 16 →
  (∀ m', IOAPIC m' = IOAPIC m → ks m' = ks m → entry_off (regs_of m') i →
     (∀ j, j ≠ IOREDTBL + i * 2 → j ≠ IOREDTBL + i * 2 + 1 → regs_of m' j = regs_of m j) → Q () m') →
  returns (ioapic_disable i) m Q.
Proof.
  intros Hi Hb HQ. unfold ioapic_disable. ret_step.
  apply returns_ioapic_write; [unfold IOREDTBL; lia|done|]. intros m1 B1 K1 R1.
  apply returns_ioapic_write; [unfold IOREDTBL; lia|by rewrite B1|]. intros m2 B2 K2 R2.
  apply HQ; [congruence|congruence| |].
  - unfold entry_off, entry_masked, entry_vector, entry_dest. rewrite !R2, !R1, !Z.eqb_refl.
    rewrite (proj2 (Z.eqb_neq _ _)) by lia.
    change (Z.shiftl 1 16) with (2 ^ 16). rewrite (lor_add' 16) by (done || lia).
    rewrite wrap_small by lia. split_and!; [|dlia|done].
    rewrite Z.testbit_eqb by lia. apply Z.eqb_eq. dlia.
  - intros j J1 J2. by rewrite R2, R1, !(proj2 (Z.eqb_neq _ _)) by done.
Qed.

(** A read selects the register and changes none. *)
Lemma returns_ioapic_read reg m (Q : Z → mach → Prop) :
  0 <= reg < 2 ^ 8 → 0 <= IOAPIC m < 2 ^ 64 - 16 →
  (∀ m', IOAPIC m' = IOAPIC m → (∀ j, regs_of m' j = regs_of m j) →
     Q (u32 (dev_mmio (Mmio (IOAPIC m) reg :: io m) (IOAPIC m + 16))) m') →
  returns (ioapic_read reg) m Q.
Proof.
  intros Hreg Hb HQ. unfold ioapic_read, IOREGSEL, IOWIN.
  replace (Mmio (IOAPIC m) reg) with (Mmio (IOAPIC m + 0) reg) in HQ by (f_equal; lia).
  do 2 ret_step. rewrite !(wrap_small 64) by lia. ret_step. apply returns_on_tr.
  unfold mmio_write. ret_step. rewrite (wrap_small 32 reg) by lia. apply returns_on_tr.
  unfold returns, mmio_read. apply HQ; [done|]. intros j. unfold regs_of, regs_at.
  cbn [IOAPIC io tio scr set_io set_scr put_tio ioapic_run]. fold (io m).
  destruct (ioapic_run (IOAPIC m) r0 (io m)) as [sel regs]. unfold IOREGSEL.
  by rewrite (wrap_small 64), Z.eqb_refl by lia.
Qed.

(** The version register's number of the last entry, as the device answers. *)
Definition last_entry (base : Z) (t : trace) : Z :=
  Z.land (Z.shiftr (u32 (dev_mmio (Mmio base 1 :: t) (base + 16))) 16) 0xFF.

Lemma returns_mask_all m (Q : () → mach → Prop) :
  0 <= IOAPIC m < 2 ^ 64 - 16 → last_entry (IOAPIC m) (io m) < 120 →
  (∀ m', IOAPIC m' = IOAPIC m → (∀ i, 0 <= i < last_entry (IOAPIC m) (io m) → entry_off (regs_of m') i) →
     (∀ j, IOREDTBL + last_entry (IOAPIC m) (io m) * 2 <= j → regs_of m' j = regs_of m j) → Q () m') →
  returns ioapic_mask_all m Q.
Proof.
  intros Hb Hmax HQ. set (max := last_entry (IOAPIC m) (io m)) in *.
  assert (Hm0 : 0 <= max) by (apply Z.land_nonneg; right; done).
  unfold ioapic_mask_all. apply returns_bind, returns_ioapic_read; [lia|done|].
  intros m1 B1 R1. fold (last_entry (IOAPIC m) (io m)). fold max.
  rewrite (wrap_small 16) by lia. apply returns_bind, returns_on_ks, returns_modify.
  apply (returns_for_range (λ k m', IOAPIC m' = IOAPIC m ∧
    (∀ i, 0 <= i < k → entry_off (regs_of m') i) ∧
    (∀ j, IOREDTBL + k * 2 <= j → regs_of m' j = regs_of m j))).
  - lia.
  - split; [done|]. split; [lia|]. intros j _. apply R1.
  - intros k m2 Hk (B & Hoff & Hr). rewrite wrap_small by lia.
    apply returns_ioapic_disable; [lia|by rewrite B|]. intros m3 B3 K3 Hk3 R3. split_and!.
    + congruence.
    + intros i Hi. destruct (Z.eq_dec i k) as [->|]; [done|]. specialize (Hoff i ltac:(lia)).
      unfold entry_off, entry_masked, entry_vector, entry_dest in *.
      rewrite !R3 by (unfold IOREDTBL; lia). done.
    + intros j Hj. unfold IOREDTBL in *. rewrite R3 by lia. apply Hr. lia.
  - intros m2 (B & Hoff & Hr). by apply HQ.
Qed.

(** C26: [ioapic_init addr] maps the controller, reads the number [max] of the
    last entry from the version register, and masks the entries below [max],
    each with the vector of its line. Entry [max] itself, the last of the
    table, is left as it was. *)
Theorem ioapic_init_masks addr m :
  let base := P2V addr in
  let max := last_entry base (io m) in
  0 <= addr < 2 ^ 32 → base < 2 ^ 64 - 16 → max < 120 →
  returns (store_page local_page (with_address (ROUND_DOWN addr PAGE_SIZE));;
    mmu_map_page local_page base (Z.lor PRESENT RW)) (ks m) (λ _ _, True) →
  returns (ioapic_init addr) m (λ _ m',
    IOAPIC m' = base ∧
    (∀ i, 0 <= i < max → entry_off (regs_of m') i) ∧
    (∀ j, IOREDTBL + max * 2 <= j → regs_of m' j = regs_at base (io m) j)).
Proof.
  intros base max Haddr Hb Hmax Hmap%returns_bind_inv. unfold ioapic_init. fold base.
  apply returns_bind, returns_on_ks. eapply returns_mono; [exact Hmap|]. intros [] k1 Hmap1.
  apply returns_bind, returns_on_ks. eapply returns_mono; [exact Hmap1|]. intros [] k2 _.
  ret_step. ret_step. apply returns_mask_all.
  - cbn [IOAPIC set_IOAPIC]. split; [|done]. apply Z.lor_nonneg. split; [lia|done].
  - done.
  - intros m' B Hoff Hr. split_and!; [done|done|]. intros j Hj. rewrite Hr by done. done.
Qed.
End spec.
End ioapic.
