(* ===== verification/Rtc.v ===== *)
(** The real-time clock, [drivers/rtc.c]: its registers in binary-coded
    decimal, the broken-down time, and the seconds since 1970 that
    [rtc_time] makes of it, against the calendar. *)

From S2P Require Import Prelude Io.

Open Scope Z_scope.

Definition RTC_BASE : Z := 0x70.
Definition RTC_DATA : Z := 0x71.
Definition RTC_SEC : Z := 0x00.
Definition RTC_MIN : Z := 0x02.
Definition RTC_HOUR : Z := 0x04.
Definition RTC_DAY : Z := 0x07.
Definition RTC_MON : Z := 0x08.
Definition RTC_YEAR : Z := 0x09.

(** [struct time]: 16-bit fields. *)
Record time := Time { year : Z; month : Z; day : Z; hour : Z; minute : Z; second : Z }.

(** The table has eleven initialisers; the twelfth entry is 0. *)
Definition months : list Z := [0; 31; 59; 90; 120; 151; 181; 212; 243; 304; 334; 0].

(** What the loop adds to [day] for a year. *)
Definition year_days (i : Z) : Z :=
  if nz (i mod 4) then 365
  else if nz (i mod 400) then 366
  else if nz (i mod 100) then 365
  else 366.

(** [for (i = 1970; i < year; i++) day += ...;] on 32-bit numbers. *)
Fixpoint add_years (n : nat) (i day : Z) : Z :=
  match n with
  | O => day
  | S n => add_years n (i + 1) (u32 (day + year_days i))
  end.

Section rtc.
Context `{Devices}.

Definition rtc_read (b : Z) : M trace Z :=
  outb RTC_BASE b;;
  in_ ← inb RTC_DATA;
  let out := u32 (Z.land (Z.shiftr in_ 4) 0x0F * 10) in
  mret (u32 (out + Z.land in_ 0x0F)).

Definition rtc_time : M trace (Z * time) :=
  sec ← rtc_read RTC_SEC;
  min ← rtc_read RTC_MIN;
  hr ← rtc_read RTC_HOUR;
  dy ← rtc_read RTC_DAY;
  mon ← rtc_read RTC_MON;
  yr ← rtc_read RTC_YEAR;
  let yr := if yr <? 70 then u32 (yr + 100) else yr in
  let yr := u32 (yr + 1900) in
  let tm := Time (u16 yr) (u16 mon) (u16 dy) (u16 hr) (u16 min) (u16 sec) in
  let d := add_years (Z.to_nat (yr - 1970)) 1970 dy in
  match months !! Z.to_nat (u32 (mon - 1)) with
  | None => throw (OutOfBounds (u32 (mon - 1)))
  | Some before =>
      let d := u32 (u32 (d + before) + 1) in
      let t := u32 (d * 24) in
      let t := u64 (u64 (t + hr) * 60) in
      let t := u64 (u64 (t + min) * 60) in
      mret (u64 (t + sec), tm)
  end.
End rtc.

(** ** The calendar *)

Definition leap (y : Z) : bool := (y mod 4 =? 0) && (negb (y mod 100 =? 0) || (y mod 400 =? 0)).
Definition month_length (y m : Z) : Z :=
  if m =? 2 then (if leap y then 29 else 28)
  else if bool_decide (m ∈ [4; 6; 9; 11]) then 30 else 31.
Definition sum_up (f : Z → Z) (a b : Z) : Z := foldr (λ i s, f i + s) 0 (seqZ a (b - a)).

(** Days from the first of January 1970 to a date of the Gregorian calendar. *)
Definition civil_days (y m d : Z) : Z :=
  sum_up (λ i, if leap i then 366 else 365) 1970 y + sum_up (month_length y) 1 m + (d - 1).

(** The days that [rtc_time] is ahead of the calendar. *)
Definition drift (y m : Z) : Z :=
  2 + (if m =? 10 then 31 else if m =? 11 then 30 else if m =? 12 then -334 else 0)
  - (if leap y && (2 <? m) then 1 else 0).

Lemma sum_up_snoc f a b : a <= b → sum_up f a (b + 1) = sum_up f a b + f b.
Proof.
  intros Hab. unfold sum_up. rewrite seqZ_snoc, foldr_app by done. cbn.
  generalize (seqZ a (b - a)). intros l. induction l as [|x l IH]; cbn; lia.
Qed.

Lemma sum_up_bounds f lo hi a b : a <= b → (∀ i, lo <= f i <= hi) →
  lo * (b - a) <= sum_up f a b <= hi * (b - a).
Proof.
  intros Hab Hf. unfold sum_up. rewrite <- (Z2Nat.id (b - a)) by lia.
  generalize (Z.to_nat (b - a)) as n. clear Hab. intros n. revert a. induction n as [|n IH]; intros a.
  - rewrite seqZ_nil by lia. cbn [foldr]. lia.
  - rewrite (seqZ_cons a) by lia. replace (Z.pred (Z.of_nat (S n))) with (Z.of_nat n) by lia.
    cbn [foldr]. specialize (IH (Z.succ a)). specialize (Hf a). lia.
Qed.

Lemma year_days_leap y : 1970 <= y < 2100 → year_days y = if leap y then 366 else 365.
Proof.
  intros Hy. unfold year_days, leap, nz.
  destruct (Z.eqb_spec (y mod 4) 0), (Z.eqb_spec (y mod 400) 0), (Z.eqb_spec (y mod 100) 0);
    cbn; try done; exfalso; dlia.
Qed.

(** The loop computes the days of the years, without overflow. *)
Lemma add_years_spec n i d : 0 <= d < 2 ^ 31 → 1970 <= i → i + Z.of_nat n <= 2100 →
  d + 366 * Z.of_nat n < 2 ^ 31 →
  add_years n i d = d + sum_up (λ i, if leap i then 366 else 365) i (i + Z.of_nat n).
Proof.
  revert i d. induction n as [|n IH]; intros i d Hd Hi Hn Hb; cbn [add_years].
  - unfold sum_up. replace (i + Z.of_nat 0 - i) with 0 by lia. rewrite seqZ_nil by lia. cbn [foldr]. lia.
  - rewrite year_days_leap by lia.
    assert (365 <= (if leap i then 366 else 365) <= 366) by (destruct (leap i); lia).
    rewrite wrap_small by lia. rewrite IH by lia.
    unfold sum_up. replace (i + 1 + Z.of_nat n - (i + 1)) with (Z.of_nat n) by lia.
    replace (i + Z.of_nat (S n) - i) with (Z.succ (Z.of_nat n)) by lia.
    rewrite (seqZ_cons i) by lia. rewrite Z.pred_succ. cbn [foldr]. unfold Z.succ. lia.
Qed.

(** The month table against the calendar. *)
Lemma months_drift y m : 1 <= m <= 12 →
  ∃ k, months !! Z.to_nat (u32 (m - 1)) = Some k ∧
    k = sum_up (month_length y) 1 m + drift y m - 2 ∧ 0 <= k <= 334.
Proof.
  intros Hm. rewrite wrap_small by lia.
  assert (C : m = 1 ∨ m = 2 ∨ m = 3 ∨ m = 4 ∨ m = 5 ∨ m = 6 ∨ m = 7 ∨ m = 8 ∨ m = 9 ∨
    m = 10 ∨ m = 11 ∨ m = 12) by lia.
  destruct_or! C; subst m; eexists; (split; [reflexivity|]);
    unfold sum_up, drift, month_length; destruct (leap y); split; (reflexivity || lia).
Qed.

Section spec.
Context `{Devices}.

(** A number below 100 in binary-coded decimal. *)
Definition bcd (x : Z) : Z := x / 10 * 16 + x mod 10.

(** The clock answers the register that was selected last. *)
Definition clock_shows (clock : Z → Z) : Prop :=
  ∀ t b, dev_in (Out 8 RTC_BASE b :: t) 8 RTC_DATA = clock b.

Lemma rtc_read_spec clock b x t (Q : Z → trace → Prop) :
  clock_shows clock → 0 <= b < 256 → clock b = bcd x → 0 <= x < 100 →
  (∀ t', Q x t') → returns (rtc_read b) t Q.
Proof.
  intros Hc Hb Hx Hr HQ. unfold rtc_read. ret_step. unfold outb. ret_step. ret_step.
  unfold returns, inb, port_in. rewrite (wrap_small 16 RTC_BASE), (wrap_small 8 b) by (done || lia).
  change (u16 RTC_DATA) with RTC_DATA. rewrite Hc, Hx.
  assert (E : u32 (u32 (Z.land (Z.shiftr (u8 (bcd x)) 4) 0x0F * 10) + Z.land (u8 (bcd x)) 0x0F) = x).
  { change 0x0F with (2 ^ 4 - 1). rewrite field_spec, land_low by lia. unfold bcd, wrap. dlia. }
  rewrite E. apply HQ.
Qed.

(** The date that the registers show: a two-digit year of 1970 to 2069. *)
Record date_shown (clock : Z → Z) (y m d h mi s : Z) : Prop := {
  sh_sec : clock RTC_SEC = bcd s;
  sh_min : clock RTC_MIN = bcd mi;
  sh_hour : clock RTC_HOUR = bcd h;
  sh_day : clock RTC_DAY = bcd d;
  sh_mon : clock RTC_MON = bcd m;
  sh_year : clock RTC_YEAR = bcd (y mod 100);
}.

(** C23: For every date from 1970 to 2069 that the clock shows, [rtc_time] fills
    in the date, and returns the seconds from 1970 to it plus a drift in whole
    days: two days too many, because the day of the month is counted from 1
    and increased again; one less after February of a leap year; and the
    errors of a month table that lacks September's end: 31 days too many in
    October, 30 in November, and 334 too few in December. *)
Theorem rtc_time_drift clock y m d h mi s t :
  clock_shows clock → date_shown clock y m d h mi s →
  1970 <= y < 2070 → 1 <= m <= 12 → 1 <= d <= 31 → 0 <= h < 24 → 0 <= mi < 60 → 0 <= s < 60 →
  returns rtc_time t (λ r _,
    r = (((civil_days y m d + drift y m) * 24 + h) * 3600 + mi * 60 + s, Time y m d h mi s)).
Proof.
  intros Hc [Ss Smi Sh Sd Sm Sy] Hy Hm Hd Hh Hmi Hs. unfold rtc_time.
  assert (0 <= y mod 100 < 100) by (apply Z.mod_pos_bound; lia).
  apply returns_bind, (rtc_read_spec clock _ s); [done|done|done|lia|intros t1].
  apply returns_bind, (rtc_read_spec clock _ mi); [done|done|done|lia|intros t2].
  apply returns_bind, (rtc_read_spec clock _ h); [done|done|done|lia|intros t3].
  apply returns_bind, (rtc_read_spec clock _ d); [done|done|done|lia|intros t4].
  apply returns_bind, (rtc_read_spec clock _ m); [done|done|done|lia|intros t5].
  apply returns_bind, (rtc_read_spec clock _ (y mod 100)); [done|done|done|lia|intros t6].
  assert (E : u32 ((if y mod 100 <? 70 then u32 (y mod 100 + 100) else y mod 100) + 1900) = y).
  { destruct (Z.ltb_spec (y mod 100) 70).
    - rewrite (wrap_small 32 (y mod 100 + 100)) by lia. rewrite wrap_small by lia. dlia.
    - rewrite wrap_small by lia. dlia. }
  rewrite E. destruct (months_drift y m Hm) as (k & -> & Hk & Hk0).
  rewrite add_years_spec by lia. replace (1970 + Z.of_nat (Z.to_nat (y - 1970))) with y by lia.
  set (D := sum_up _ 1970 y) in *.
  assert (HD : 365 * (y - 1970) <= D <= 366 * (y - 1970)).
  { apply sum_up_bounds; [lia|]. intros i. destruct (leap i); lia. }
  unfold civil_days. fold D. rewrite !(wrap_small 16) by lia.
  rewrite (wrap_small 32 (d + D + k)), (wrap_small 32 (d + D + k + 1)) by lia.
  rewrite (wrap_small 32 ((d + D + k + 1) * 24)) by lia.
  rewrite (wrap_small 64 ((d + D + k + 1) * 24 + h)) by lia.
  rewrite (wrap_small 64 (((d + D + k + 1) * 24 + h) * 60)) by lia.
  rewrite (wrap_small 64 (((d + D + k + 1) * 24 + h) * 60 + mi)) by lia.
  rewrite (wrap_small 64 ((((d + D + k + 1) * 24 + h) * 60 + mi) * 60)) by lia.
  rewrite wrap_small by lia. unfold returns, mret, M_ret. f_equal. lia.
Qed.
End spec.
