(* ===== verification/Drivers.v ===== *)
(** Small drivers: the serial port ([drivers/uart.c]), the PCI configuration
    space ([drivers/pci.c]) and the configuration table ([config.c]). *)

From S2P Require Import Prelude Kernel State Io Term Machine.

Open Scope Z_scope.

Definition COM1 : Z := 0x3F8.
Definition PCI_CONFIG_ADDRESS : Z := 0xCF8.
Definition PCI_CONFIG_DATA : Z := 0xCFC.
Definition CONFIG_MAX : Z := 128.
Definition CONFIG_SSE : Z := 1.
Definition CONFIG_CPU_COUNT : Z := 2.
Definition CONFIG_BOOTTIME : Z := 7.

Section drivers.
Context `{Devices}.

(** ** uart.c *)

Definition uart_init : M mach () :=
  on_tr (outb (COM1 + 1) 0x00);;
  on_tr (outb (COM1 + 3) 0x80);;
  on_tr (outb (COM1 + 0) 0x03);;
  on_tr (outb (COM1 + 1) 0x00);;
  on_tr (outb (COM1 + 3) 0x03);;
  on_tr (outb (COM1 + 2) 0xC7);;
  on_tr (outb (COM1 + 4) 0x00).

(** [while((inb(COM1 + 5) & 0x20) == 0);] *)
Fixpoint uart_wait (fuel : nat) : M mach () :=
  match fuel with
  | O => throw NoFuel
  | S fuel =>
      v ← on_tr (inb (COM1 + 5));
      if Z.land v 0x20 =? 0 then uart_wait fuel else skip
  end.

Definition uart_putc (fuel : nat) (c : Z) : M mach () :=
  uart_wait fuel;; on_tr (outb COM1 c).

Fixpoint uart_chars (fuel : nat) (s : list Z) : M mach () :=
  match s with
  | [] => skip
  | c :: s => uart_putc fuel c;; uart_chars fuel s
  end.

Definition uart_write (fuel : nat) (s : list Z) : M mach () :=
  l ← gets uart_lock;
  if (l : bool) then throw Deadlock else
  modify (set_uart_lock true);;
  uart_chars fuel s;;
  modify (set_uart_lock false).

(** ** pci.c *)

Definition pci_read_word (bus slot func offset : Z) : M mach Z :=
  let addr := Z.lor (Z.lor (Z.lor (Z.lor (u32 (Z.shiftl bus 16)) (u32 (Z.shiftl slot 11)))
    (u32 (Z.shiftl func 8))) (Z.land offset 0xFC)) (u32 (Z.shiftl 1 31)) in
  on_tr (outd PCI_CONFIG_ADDRESS addr);;
  v ← on_tr (ind PCI_CONFIG_DATA);
  mret (u16 (Z.shiftr v (Z.land offset 2 * 8))).

(** ** config.c *)

Definition config_set (config value : Z) : M mach Z :=
  if (CONFIG_MAX <? config) || (config <? 0) then mret (-1)
  else
    (* the two arguments that the format asks for are not passed *)
    m_log "[config] config %d := %#x\n" [];;
    if config <? CONFIG_MAX then
      modify (λ m, set_sysconfig (λ i, if i =? config then value else sysconfig m i) m);;
      mret 0
    else throw (OutOfBounds config).

(** The result and what is stored at [value]. *)
Definition config_get (config : Z) : M mach (Z * option Z) :=
  if (CONFIG_MAX <? config) || (config <? 0) then mret (-1, None)
  else if config <? CONFIG_MAX then v ← gets (λ m, sysconfig m config); mret (0, Some v)
  else throw (OutOfBounds config).

(** ** Specifications *)

(** The transmitter becomes ready within [fuel] polls, whatever happened
    before: polled after [t], its status register has bit 5 set in time. *)
Fixpoint ready_within (fuel : nat) (t : trace) : bool :=
  match fuel with
  | O => false
  | S fuel =>
      let v := u8 (dev_in t 8 (COM1 + 5)) in
      negb (Z.land v 0x20 =? 0) || ready_within fuel (In 8 (COM1 + 5) v :: t)
  end.

Definition only_polls (t t' : trace) : Prop := ∃ vs, t' = (In 8 (COM1 + 5) <$> vs) ++ t.

Lemma returns_uart_wait fuel m (Q : () → mach → Prop) :
  ready_within fuel (io m) = true →
  (∀ t, only_polls (io m) t → Q () (set_io t m)) → returns (uart_wait fuel) m Q.
Proof.
  intros Hr HQ. assert (G : ∀ t, ready_within fuel t = true → only_polls (io m) t →
    returns (uart_wait fuel) (set_io t m) Q).
  { clear Hr. induction fuel as [|fuel IH]; intros t Hr Hp; [done|]. cbn [uart_wait ready_within] in *.
    ret_step. apply returns_on_tr. unfold returns at 1, inb, port_in. rewrite io_set_io, set_io_set_io.
    change (u16 (COM1 + 5)) with (COM1 + 5).
    set (v := wrap 8 _) in *. assert (Hp' : only_polls (io m) (In 8 (COM1 + 5) v :: t)).
    { destruct Hp as [vs ->]. by exists (v :: vs). }
    destruct (Z.land v 0x20 =? 0); [by apply IH|]. apply returns_ret. by apply HQ. }
  specialize (G (io m) Hr). replace (set_io (io m) m) with m in G by by destruct m as [? []].
  apply G. by exists [].
Qed.

(** Polling writes nothing. *)
Lemma written_polls t t' p : only_polls t t' → written t' p = written t p.
Proof.
  intros [vs ->]. induction vs as [|v vs IH]; [done|]. unfold written in *. by cbn.
Qed.

Lemma uart_chars_spec fuel s m :
  (∀ t, ready_within fuel t = true) → Forall (λ c, 0 <= c < 256) s →
  returns (uart_chars fuel s) m (λ _ m', written (io m') COM1 = written (io m) COM1 ++ s ∧
    m' = set_io (io m') m).
Proof.
  intros Hr. revert m. induction s as [|c s IH]; intros m Hs; cbn [uart_chars].
  - ret_step. rewrite app_nil_r. by destruct m as [? []].
  - apply Forall_cons in Hs as [Hc Hs]. unfold uart_putc. do 2 ret_step.
    apply returns_uart_wait; [done|]. intros t Ht. apply returns_on_tr. unfold outb. ret_step.
    eapply returns_mono; [by apply IH|]. intros [] m' [Hw Hm]. rewrite Hw, Hm. split; [|done].
    rewrite !io_set_io. change (u16 COM1) with COM1. rewrite wrap_small by lia.
    rewrite written_cons, Z.eqb_refl, <- app_assoc. by rewrite (written_polls _ _ COM1 Ht).
Qed.

Lemma returns_uart_write fuel s m :
  (∀ t, ready_within fuel t = true) → Forall (λ c, 0 <= c < 256) s → uart_lock m = false →
  returns (uart_write fuel s) m (λ _ m',
    written (io m') COM1 = written (io m) COM1 ++ s ∧ m' = set_io (io m') m).
Proof.
  intros Hr Hs Hl. unfold uart_write. do 2 ret_step. rewrite Hl. do 3 ret_step.
  eapply returns_mono; [by apply uart_chars_spec|]. intros [] m' [Hw Hm]. ret_step.
  split; [exact Hw|]. rewrite Hm. destruct m as [? []]. cbn in Hl. by subst.
Qed.

(** When the transmitter always becomes ready, [uart_write] ends, sends
    exactly the bytes of the string, in order, to the data port, releases the
    lock, and changes nothing else. *)
Theorem uart_write_sends fuel s m :
  (∀ t, ready_within fuel t = true) → Forall (λ c, 0 <= c < 256) s → uart_lock m = false →
  returns (uart_write fuel s) m (λ _ m',
    written (io m') COM1 = written (io m) COM1 ++ s ∧ m' = set_io (io m') m).
Proof. apply returns_uart_write. Qed.

(** The configuration table maps the keys below 128 to values: [config_set]
    of such a key returns 0 and changes its value only, and [config_get]
    returns the value in the table; other keys are refused with -1, except 128
    itself, which [config_set] writes and [config_get] reads one past the end
    of the table. *)
Theorem config_roundtrip k v m :
  if (0 <=? k) && (k <? 128) then
    returns (config_set k v) m (λ r m', r = 0 ∧ ∀ j, 0 <= j < 128 →
      config_get j m' = Ok (0, Some (if j =? k then v else sysconfig m j)) m')
  else if k =? 128 then
    faults (config_set k v) m (OutOfBounds 128) ∧ faults (config_get k) m (OutOfBounds 128)
  else config_set k v m = Ok (-1) m ∧ config_get k m = Ok (-1, None) m.
Proof.
  unfold config_set, config_get, CONFIG_MAX.
  destruct ((0 <=? k) && (k <? 128)) eqn:Ek.
  - replace ((128 <? k) || (k <? 0)) with false by lia. replace (k <? 128) with true by lia.
    ret_step. apply returns_on_ks, returns_modify. ret_steps. split; [done|]. intros j Hj.
    replace ((128 <? j) || (j <? 0)) with false by lia. by replace (j <? 128) with true by lia.
  - destruct (Z.eqb_spec k 128) as [->|Hk]; [split; by eexists|].
    by replace ((128 <? k) || (k <? 0)) with true by lia.
Qed.
End drivers.
