(* ===== verification/Console.v ===== *)
(** Printing: [printf], [pprintf] and [kernel_log] of [lib/vsnprintf.c], which
    send what [vsnprintf] makes of a format to the serial port and the
    console. *)

From S2P Require Import Prelude Kernel State Lib Printf PrintfSpec PrintfRender Io Term TermSpec.
From S2P Require Import TermRefine Desc Machine Drivers.

Open Scope Z_scope.

(** A [char*] handed to a string function: the bytes before the first NUL;
    without one the function runs past the end of the buffer. *)
Definition c_string (b : list Z) : M mach (list Z) :=
  match find_nul b with
  | Some k => mret (take (Z.to_nat k) b)
  | None => throw (OutOfBounds (Z.of_nat (length b)))
  end.

Section console.
Context `{Devices}.

(** The static [buf], cleared, with the formatted text. *)
Definition format_buf (fuel : nat) (fmt : list Z) (ap : list varg) : M mach (Z * list Z) := λ m,
  match vsnprintf fuel (replicate 256 0) 256 fmt ap with
  | Ok r s => Ok (r, f_out s) m
  | Err f _ => Err f m
  end.

(** [fuel] bounds the formatting, [ufuel] the polling of the serial port for
    one character. *)
Definition printf (fuel ufuel : nat) (fmt : list Z) (ap : list varg) : M mach Z :=
  '(r, buf) ← format_buf fuel fmt ap;
  s ← c_string buf; uart_write ufuel s;;
  s ← c_string buf; on_scr (vga_puts s);;
  mret r.

Definition pprintf (fuel ufuel : nat) (color : Z) (fmt : list Z) (ap : list varg) : M mach Z :=
  '(r, buf) ← format_buf fuel fmt ap;
  s ← c_string buf; on_scr (vga_pretty s color);;
  s ← c_string buf; uart_write ufuel s;;
  mret r.

Definition kernel_log (fuel ufuel : nat) (fmt : list Z) (ap : list varg) : M mach Z :=
  '(r, buf) ← format_buf fuel fmt ap;
  s ← c_string buf; uart_write ufuel s;;
  mret r.

(** ** Specification *)

Lemma c_string_text t n m : cstring t → (0 < n)%nat → c_string (t ++ replicate n 0) m = Ok t m.
Proof.
  intros Ht Hn. destruct n as [|n]; [lia|]. unfold c_string. cbn [replicate].
  by rewrite find_nul_app, Nat2Z.id, take_app_length by done.
Qed.

(** A text that the reference renderer makes of a format, short enough for
    half of the buffer. *)
Definition formats (fuel : nat) (fmt : list Z) (ap : list varg) (t : list Z) : Prop :=
  cstring fmt ∧ render fuel 0 0 fmt ap = Some t ∧ 2 * Z.of_nat (length t) < 256.

Lemma format_buf_run fuel fmt ap t m : formats fuel fmt ap t →
  ∃ n, (0 < n)%nat ∧ format_buf fuel fmt ap m = Ok (Z.of_nat (length t), t ++ replicate n 0) m.
Proof.
  intros (Hf & Hr & Hl). exists (256 - length t)%nat. split; [lia|]. unfold format_buf.
  destruct (vsnprintf_text fuel (replicate 256 0) 256 fmt ap t) as (s' & -> & ->);
    [lia|by rewrite length_replicate|done|done|done|].
  by rewrite drop_replicate.
Qed.

Lemma written_app_other t0 t p : Forall (λ e, match e with Out _ q _ => q ≠ p | _ => True end) t →
  written (t ++ t0) p = written t0 p.
Proof.
  induction 1 as [|e t He Ht IH]; [done|]. cbn [app]. rewrite written_cons, IH.
  destruct e; rewrite ?(proj2 (Z.eqb_neq _ _)) by done; by rewrite app_nil_r.
Qed.

(** The transmitter always becomes ready. *)
Definition uart_ready (ufuel : nat) : Prop := ∀ t, ready_within ufuel t = true.

Lemma plain_bytes t : Forall plain t → Forall (λ c, 0 <= c < 256) t.
Proof. intros Ht. eapply Forall_impl; [exact Ht|]. intros c [? _]. lia. Qed.

Lemma shows_tio u t S : shows t S → shows (put_tio u t) S.
Proof. by destruct 1; split. Qed.

(** What both devices show after a text: the serial line has got its bytes, and
    the console shows the screen with the text printed. *)
Record printed_text (t : list Z) (S : screen) (m m' : mach) : Prop := {
  pt_serial : written (io m') COM1 = written (io m) COM1 ++ t;
  pt_screen : shows (scr m') (foldl (spec_put (u8 (attrib (scr m)))) S t);
  pt_attrib : attrib (scr m') = attrib (scr m);
  pt_locks : tlock (scr m') = false ∧ uart_lock m' = false;
  pt_rest : m' = set_scr (scr m') m;
}.

(** C12: [printf], from a format and arguments to the devices: when the text
    that the reference renderer makes of them is shorter than half of the
    static buffer and consists of printable characters and newlines, the
    serial port is sent exactly the text, the console, which showed a screen,
    shows that screen with the text printed, both locks are released, nothing
    else changes, and the result is the length of the text. [kernel_log]
    sends the same bytes to the serial port and leaves the screen alone. *)
Theorem printf_prints fuel ufuel fmt ap t S m :
  uart_ready ufuel → formats fuel fmt ap t → cstring t → Forall plain t →
  shows (scr m) S → 0 <= attrib (scr m) < 2 ^ 16 → tlock (scr m) = false → uart_lock m = false →
  returns (printf fuel ufuel fmt ap) m (λ r m', r = Z.of_nat (length t) ∧ printed_text t S m m') ∧
  returns (kernel_log fuel ufuel fmt ap) m (λ r m', r = Z.of_nat (length t) ∧
    written (io m') COM1 = written (io m) COM1 ++ t ∧ shows (scr m') S ∧ m' = set_scr (scr m') m).
Proof.
  intros Hu Hf Ht Hp Hs Ha Htl Hul. destruct (format_buf_run fuel fmt ap t m Hf) as (n & Hn & E).
  assert (Hw : returns (uart_write ufuel t) m (λ _ m',
    written (io m') COM1 = written (io m) COM1 ++ t ∧ m' = set_io (io m') m)).
  { apply returns_uart_write; [done|by apply plain_bytes|done]. }
  split; unfold printf, kernel_log; rewrite returns_eq, (bind_ok _ _ _ _ _ E), <- returns_eq; cbv iota.
  - apply returns_bind. unfold returns at 1. rewrite c_string_text by done. ret_step.
    ret_use Hw. intros [] m1 [Hw1 Hm1]. ret_step. unfold returns at 1. rewrite c_string_text by done.
    ret_step. apply returns_zoom.
    assert (Es : scr m1 = put_tio (io m1) (scr m)) by by rewrite Hm1.
    apply (returns_puts t (scr m1) S);
      [rewrite Es; by apply shows_tio|by rewrite Es|by rewrite Es|done|].
    rewrite Es. intros t' Hs' (A & L & W). ret_step. split; [done|]. cbn [attrib tlock put_tio tio] in *. split.
    + change (io (set_scr t' m1)) with (tio t'). by rewrite W, Hw1.
    + exact Hs'.
    + exact A.
    + split; [exact (eq_trans L Htl)|]. by rewrite Hm1.
    + by rewrite Hm1.
  - apply returns_bind. unfold returns at 1. rewrite c_string_text by done. ret_step.
    ret_use Hw. intros [] m1 [Hw1 Hm1]. ret_step. split; [done|]. split; [done|].
    rewrite Hm1 at 1 3. split; [by apply shows_tio|]. done.
Qed.
End console.
