(* ===== verification/Acpi.v ===== *)
(** The ACPI tables, [acpi.c]: the root pointer, the table of tables and the
    interrupt controllers of the MADT. The bytes of the firmware's tables are
    not the repository's: they are the class [Firmware], read at the virtual
    addresses that the code uses. *)

From S2P Require Import Prelude Kernel State Paging Frame Mmu Lib Io Term Machine Lapic Ioapic Drivers.

Open Scope Z_scope.

Class Firmware := fw : Z → Z.

(** [sizeof] of the packed headers. *)
Definition sizeof_acpi_header : Z := 36.
Definition sizeof_madt_header : Z := 44.

Section acpi.
Context `{MMU, Layout, Devices, Asm, Firmware}.

Definition fw8 (a : Z) : Z := u8 (fw (u64 a)).
Definition fw32 (a : Z) : Z := fw8 a + fw8 (a + 1) * 2 ^ 8 + fw8 (a + 2) * 2 ^ 16 + fw8 (a + 3) * 2 ^ 24.
Definition fw64 (a : Z) : Z := fw32 a + fw32 (a + 4) * 2 ^ 32.

(** The fields of [struct rsdp_header] and [struct acpi_header]. *)
Definition rsdp_rev (h : Z) : Z := fw8 (h + 15).
Definition rsdt_ptr (h : Z) : Z := fw32 (h + 16).
Definition xsdt_ptr (h : Z) : Z := fw64 (h + 24).
Definition table_length (t : Z) : Z := fw32 (t + 4).
Definition tableptr (r i : Z) : Z := fw32 (r + sizeof_acpi_header + 4 * i).
Definition signature (t : Z) : list Z := [fw8 t; fw8 (t + 1); fw8 (t + 2); fw8 (t + 3)].

(** The fields of the entries of the MADT: [struct acpi_lapic],
    [struct acpi_ioapic], [struct acpi_iso] and [struct acpi_x2apic]. *)
Definition lapic_proc_id (l : Z) : Z := fw8 (l + 2).
Definition lapic_apic_id (l : Z) : Z := fw8 (l + 3).
Definition lapic_flags (l : Z) : Z := fw32 (l + 4).
Definition ioapic_id (l : Z) : Z := fw8 (l + 2).
Definition ioapic_addr (l : Z) : Z := fw32 (l + 4).
Definition iso_bus_src (o : Z) : Z := fw8 (o + 2).
Definition iso_irq_src (o : Z) : Z := fw8 (o + 3).
Definition iso_gsi (o : Z) : Z := fw8 (o + 4).
Definition x2apic_id (x : Z) : Z := fw32 (x + 4).
Definition x2apic_flags (x : Z) : Z := fw32 (x + 8).

(** The sum of twenty signed [char]s, as a [char]. *)
Definition acpi_checksum (ptr : Z) : Z :=
  s8 (foldr (λ i sum, sum + s8 (fw8 (ptr + i))) 0 (seqZ 0 20)).

(** One entry of the MADT, of type [type]: what it adds to [num_lapics]. *)
Definition madt_entry (type entries : Z) : M mach Z :=
  if type =? 0 then
    m_log "[acpi] lapic: processor id %d\tapic id %d\tflags:%d\n"
      [AInt (lapic_proc_id entries); AInt (lapic_apic_id entries); AInt (lapic_flags entries)];;
    mret 1
  else if type =? 1 then
    m_log "[acpi] ioapic: id %d\taddress:0x%x\n" [AInt (ioapic_id entries); AInt (ioapic_addr entries)];;
    ioapic_init (ioapic_addr entries);;
    mret 0
  else if type =? 2 then
    m_log "[acpi] irq src %d bus src %d gsi %d\n"
      [AInt (iso_irq_src entries); AInt (iso_bus_src entries); AInt (iso_gsi entries)];;
    ioapic_remap (iso_irq_src entries) (iso_gsi entries) 0;;
    mret 0
  else if type =? 9 then
    m_log "[acpi] x2apic: processor id %d\tflags: %d\n" [AInt (x2apic_id entries); AInt (x2apic_flags entries)];;
    mret 1
  else
    m_log "[acpi] unsupported field: %d\n" [AInt type];;
    mret 0.

(** [type] and [len] are read through a [char*]: they are signed. *)
Fixpoint madt_loop (fuel : nat) (madt entries num : Z) : M mach Z :=
  match fuel with
  | O => throw NoFuel
  | S fuel =>
      if entries <? u64 (u64 (table_length madt - sizeof_madt_header) + madt) then
        n ← madt_entry (s8 (fw8 entries)) entries;
        madt_loop fuel madt (u64 (entries + s8 (fw8 (entries + 1)))) (num + n)
      else mret num
  end.

Definition acpi_parse_madt (fuel : nat) (madt : Z) : M mach Z :=
  madt_loop fuel madt (u64 (madt + sizeof_madt_header)) 0.

(** [while (ptr < P2V(0xFFFFF))]: the address of the signature, or the first
    one past the area. *)
Fixpoint find_rsdp (fuel : nat) (ptr : Z) : M mach Z :=
  match fuel with
  | O => throw NoFuel
  | S fuel =>
      if ptr <? P2V 0x000FFFFF then
        if fw64 ptr =? 0x2052545020445352 then mret ptr else find_rsdp fuel (u64 (ptr + 16))
      else mret ptr
  end.

(** [temp.address = ROUND_DOWN(t); mmu_map_page(&temp, ...); assert(...)]. *)
Definition map_table (t : Z) (expr : string) : M mach () :=
  let page := ROUND_DOWN (P2V t) PAGE_SIZE in
  on_ks (store_page local_page (with_address (ROUND_DOWN t PAGE_SIZE)));;
  on_ks (mmu_map_page local_page page (Z.lor PRESENT RW));;
  pg ← on_ks (load_page local_page);
  m_assert (data pg =? page) expr.

(** One round of the loop over the tables. *)
Definition acpi_table (fuel : nat) (r i cpu_count : Z) : M mach Z :=
  let entry := P2V (tableptr r i) in
  map_table (tableptr r i) "(size_t) temp.data == ROUND_DOWN(P2V(r->tableptrs[i]), PAGE_SIZE)";;
  m_log "[acpi] entry %s found\n" [AStr (text_of (signature entry))];;
  if strncmp (signature entry) (chars "APIC") 4 =? 0 then acpi_parse_madt fuel entry
  else mret cpu_count.

Fixpoint acpi_tables (fuel n : nat) (r i cpu_count : Z) : M mach Z :=
  match n with
  | O => mret cpu_count
  | S n => c ← acpi_table fuel r i cpu_count; acpi_tables fuel n r (i + 1) c
  end.

Definition acpi_init (fuel : nat) : M mach Z :=
  (* 4097 rounds: 64 KB in steps of 16 bytes *)
  h ← find_rsdp 4097 (P2V 0x000E0000);
  m_assert (acpi_checksum h =? 0) "acpi_checksum((char*) h) == 0";;
  m_log "[acpi] version %d table detected\n" [AInt (rsdp_rev h)];;
  let r := if rsdp_rev h =? 0 then rsdt_ptr h else xsdt_ptr h in
  map_table (rsdt_ptr h) "(size_t) temp.data == ROUND_DOWN(P2V(h->rsdt_ptr), PAGE_SIZE)";;
  let r := P2V r in
  cpu_count ← acpi_tables fuel (Z.to_nat (u64 (table_length r - sizeof_acpi_header) / 4)) r 0 0;
  config_set CONFIG_CPU_COUNT cpu_count;;
  mret cpu_count.

(** ** The MADT *)

(** Contiguous entries from an address: types below 128, lengths from 1 to
    127, as both are read through signed characters. *)
Fixpoint entries_at (a : Z) (es : list (Z * Z)) : Prop :=
  match es with
  | [] => True
  | (ty, len) :: es =>
      fw8 a = ty ∧ fw8 (a + 1) = len ∧ 0 <= ty < 128 ∧ 0 < len < 128 ∧ entries_at (a + len) es
  end.

Definition total_length (es : list (Z * Z)) : Z := foldr (λ e s, e.2 + s) 0 es.

Lemma total_length_nonneg a es : entries_at a es → 0 <= total_length es.
Proof.
  revert a. induction es as [|[ty len] es IH]; intros a He; cbn in *; [lia|].
  destruct He as (_ & _ & _ & ? & He). specialize (IH _ He). unfold total_length in IH. lia.
Qed.

(** The processors among the entries that start less than [room] bytes in. *)
Fixpoint processors (room : Z) (es : list (Z * Z)) : Z :=
  match es with
  | [] => 0
  | (ty, len) :: es =>
      if 0 <? room then (if (ty =? 0) || (ty =? 9) then 1 else 0) + processors (room - len) es else 0
  end.

Section madt.
(** What is to hold around the initialisation of an I/O controller. *)
Context (I : mach → Prop).
Context (I_ks : ∀ m l, I m → I (set_ks (put_klog l (ks m)) m)).
Context (I_io : ∀ m t, I m → I (set_io t m)).

Lemma I_log fmt args m (Q : () → mach → Prop) :
  I m → (∀ m', I m' → Q () m') → returns (m_log fmt args) m Q.
Proof. intros Hm HQ. apply returns_on_ks, returns_modify, HQ. by apply I_ks. Qed.

Lemma I_ioapic_write reg data m (Q : () → mach → Prop) :
  I m → (∀ m', I m' → Q () m') → returns (ioapic_write reg data) m Q.
Proof.
  intros Hm HQ. unfold ioapic_write. do 3 ret_step. apply returns_on_tr, returns_modify.
  apply returns_on_tr, returns_modify, HQ. rewrite set_io_set_io. by apply I_io.
Qed.

Lemma I_ioapic_remap src gsi cpu m (Q : Z → mach → Prop) :
  I m → (∀ n m', I m' → Q n m') → returns (ioapic_remap src gsi cpu) m Q.
Proof.
  intros Hm HQ. unfold ioapic_remap. do 2 ret_step. destruct (negb (nz (IOAPIC m))); [by apply HQ|].
  ret_step. apply I_log; [done|]. intros m1 J1. ret_step. apply I_ioapic_write; [done|].
  intros m2 J2. ret_step. apply I_ioapic_write; [done|]. intros m3 J3. by apply HQ.
Qed.

Lemma madt_entry_spec ty a m (Q : Z → mach → Prop) :
  I m → (ty = 1 → ∀ m, I m → returns (ioapic_init (fw32 (a + 4))) m (λ _ m', I m')) →
  (∀ m', I m' → Q (if (ty =? 0) || (ty =? 9) then 1 else 0) m') →
  returns (madt_entry ty a) m Q.
Proof.
  intros Hm Hinit HQ. unfold madt_entry.
  destruct (Z.eqb_spec ty 0); [ret_step; apply I_log; [done|]; intros m1 J1; by apply HQ|].
  destruct (Z.eqb_spec ty 1) as [->|].
  { ret_step. apply I_log; [done|]. intros m1 J1. ret_step.
    eapply returns_mono; [by apply Hinit|]. intros [] m2 J2. by apply HQ. }
  destruct (Z.eqb_spec ty 2) as [->|].
  { ret_step. apply I_log; [done|]. intros m1 J1. ret_step. apply I_ioapic_remap; [done|].
    intros ? m2 J2. by apply HQ. }
  destruct (Z.eqb_spec ty 9) as [->|]; ret_step; (apply I_log; [done|]); intros m1 J1; by apply HQ.
Qed.

(** The I/O controllers of the entries, by address. *)
Fixpoint ioapics (a : Z) (es : list (Z * Z)) : list Z :=
  match es with
  | [] => []
  | (ty, len) :: es => if ty =? 1 then fw32 (a + 4) :: ioapics (a + len) es else ioapics (a + len) es
  end.

Lemma madt_loop_spec fuel madt a es room num m (Q : Z → mach → Prop) :
  I m → entries_at a es → (length es < fuel)%nat → 0 <= a → a + total_length es < 2 ^ 64 →
  u64 (u64 (table_length madt - sizeof_madt_header) + madt) = a + room → room <= total_length es →
  (∀ x, x ∈ ioapics a es → ∀ m, I m → returns (ioapic_init x) m (λ _ m', I m')) →
  (∀ m', I m' → Q (num + processors room es) m') →
  returns (madt_loop fuel madt a num) m Q.
Proof.
  revert a es room num m. induction fuel as [|fuel IH]; intros a es room num m Hm He Hf Ha Hb Hend Hroom Hio HQ;
    [lia|]. cbn [madt_loop]. rewrite Hend.
  destruct es as [|[ty len] es].
  - cbn in Hroom. replace (a <? a + room) with false by lia. ret_step. specialize (HQ m Hm).
    cbn in HQ. by rewrite Z.add_0_r in HQ.
  - cbn [entries_at total_length foldr snd length] in *. destruct He as (Ety & Elen & Hty & Hlen & He).
    cbn [processors] in HQ. destruct (Z.ltb_spec 0 room) as [Hr|Hr].
    + replace (a <? a + room) with true by lia. rewrite Ety, Elen, !sgn_small by lia.
      fold (total_length es) in *. pose proof (total_length_nonneg _ _ He).
      ret_step. apply madt_entry_spec; [done| |].
      { intros ->. apply Hio. cbn. by left. }
      intros m1 J1. rewrite wrap_small by lia.
      apply (IH (a + len) es (room - len)); try (done || lia).
      * intros x Hx. apply Hio. cbn. destruct (ty =? 1); [by right|done].
      * intros m' Hm'. specialize (HQ m' Hm'). by rewrite Z.add_assoc in HQ.
    + replace (a <? a + room) with false by lia. ret_step. specialize (HQ m Hm).
      by rewrite Z.add_0_r in HQ.
Qed.
End madt.

(** C18: [acpi_parse_madt], on a table whose entries fill its length, ends and
    counts the processors among the entries that start more than 44 bytes
    before its end: the length of the header is subtracted twice, so entries
    in the last 44 bytes are missed. It initialises the I/O controllers on the
    way, with whatever invariant their initialisation keeps. *)
Theorem acpi_parse_madt_counts (I : mach → Prop) fuel madt es m :
  (∀ m l, I m → I (set_ks (put_klog l (ks m)) m)) → (∀ m t, I m → I (set_io t m)) →
  (∀ x, x ∈ ioapics (madt + 44) es → ∀ m, I m → returns (ioapic_init x) m (λ _ m', I m')) →
  0 <= madt → madt + table_length madt < 2 ^ 64 → 44 <= table_length madt →
  entries_at (madt + 44) es → total_length es = table_length madt - 44 → (length es < fuel)%nat →
  I m →
  returns (acpi_parse_madt fuel madt) m (λ n m', n = processors (total_length es - 44) es ∧ I m').
Proof.
  intros Iks Iio Hio Hm Hb Hl He Ht Hf HI. unfold acpi_parse_madt, sizeof_madt_header.
  rewrite (wrap_small 64 (madt + 44)) by lia.
  apply (madt_loop_spec I Iks Iio fuel madt (madt + 44) es (total_length es - 44)); try (done || lia).
  rewrite (wrap_small 64 (table_length madt - sizeof_madt_header)) by (unfold sizeof_madt_header; lia).
  unfold sizeof_madt_header. rewrite wrap_small by lia. lia.
Qed.
End acpi.
