(* ===== verification/Syscall.v ===== *)
(** The [syscall] instruction, [syscall.c]: the model-specific registers that
    [syscall_init] programs, decoded as the processor reads them, and the
    handler. *)

From S2P Require Import Prelude Kernel State Io Term Machine Trap Desc.

Open Scope Z_scope.

Definition IA32_EFER : Z := 0xC0000080.
Definition IA32_EFER_SCE : Z := 0.
Definition IA32_STAR : Z := 0xC0000081.
Definition IA32_LSTAR : Z := 0xC0000082.
Definition IA32_FMASK : Z := 0xC0000084.

(** [struct syscall]. *)
Record syscall := SyscallFrame {
  s_rax : Z; s_rdi : Z; s_rsi : Z; s_rdx : Z; s_rip : Z; s_rflags : Z; s_rbx : Z; s_rbp : Z;
  s_r12 : Z; s_r13 : Z; s_r14 : Z; s_r15 : Z; s_rsp : Z;
}.

Section syscall.
Context `{Devices, Asm}.

(** [Some v]: the handler does not return, it jumps to [sys_exit_buf] with
    [v]. A [%s] gets the caller's pointer as it is. *)
Definition syscall_handler (r : syscall) : M mach (option Z) :=
  m_printf "SYSCALL %d\n" [AInt (s_rax r)];;
  (if s_rax r =? 1 then m_printf "sys_write: %s\n" [AInt (s_rsi r)] else skip);;
  if s_rax r =? 60 then
    m_printf "sys_exit\n" [];;
    mret (Some (s_rip r))
  else mret None.

Definition syscall_init : M mach () :=
  let cs := 0x800000000 in
  EFER ← on_tr (readmsr IA32_EFER);
  on_tr (writemsr IA32_EFER (Z.lor EFER (Z.shiftl 1 IA32_EFER_SCE)));;
  on_tr (writemsr IA32_STAR cs);;
  on_tr (writemsr IA32_FMASK 0x200);;
  on_tr (writemsr IA32_LSTAR syscall_entry).

(** ** The processor's side *)

(** The value last written to a model-specific register. *)
Fixpoint msr (t : trace) (reg : Z) : option Z :=
  match t with
  | [] => None
  | Msr r v :: t => if r =? reg then Some v else msr t reg
  | _ :: t => msr t reg
  end.

(** The selectors that [syscall] and [sysret] load. *)
Definition syscall_cs (star : Z) : Z := star / 2 ^ 32 mod 2 ^ 16.
Definition syscall_ss (star : Z) : Z := star / 2 ^ 32 mod 2 ^ 16 + 8.
Definition sysret_cs (star : Z) : Z := Z.lor (star / 2 ^ 48 mod 2 ^ 16 + 16) 3.
Definition sysret_ss (star : Z) : Z := Z.lor (star / 2 ^ 48 mod 2 ^ 16 + 8) 3.

(** C30: [syscall_init] enables the instruction and keeps the other bits of
    EFER; [syscall] enters [syscall_entry] with interrupts masked, in the
    kernel's code and data segments (entries 1 and 2 of the table that
    [gdt_init] loads). The half of STAR that [sysret] uses is left 0: it would
    return to the data segment in entry 2 as code, and to entry 1 as stack,
    not to the user segments in entries 3 and 4. *)
Theorem syscall_init_spec m :
  0 <= syscall_entry < 2 ^ 64 →
  returns syscall_init m (λ _ m', ∃ efer star,
    msr (io m') IA32_EFER = Some efer ∧ Z.testbit efer 0 = true ∧
    (∀ i, 0 < i < 64 → Z.testbit efer i = Z.testbit (u64 (dev_msr (io m) IA32_EFER)) i) ∧
    msr (io m') IA32_LSTAR = Some syscall_entry ∧ msr (io m') IA32_FMASK = Some 0x200 ∧
    msr (io m') IA32_STAR = Some star ∧
    syscall_cs star = 8 * 1 ∧ syscall_ss star = 8 * 2 ∧
    sysret_cs star / 8 = 2 ∧ sysret_ss star / 8 = 1).
Proof.
  intros He. unfold returns, syscall_init.
  set (v := u64 (Z.lor (u64 (dev_msr (io m) IA32_EFER)) (Z.shiftl 1 IA32_EFER_SCE))).
  exists v, 0x800000000. cbn [IA32_EFER_SCE] in v. split; [reflexivity|].
  assert (B : ∀ i, 0 <= i < 64 → Z.testbit v i =
    Z.testbit (u64 (dev_msr (io m) IA32_EFER)) i || (i =? 0)).
  { intros i Hi. unfold v. unfold wrap at 1. rewrite Z.mod_pow2_bits_low, Z.lor_spec by lia.
    destruct (Z.eqb_spec i 0) as [->|Hi0]; [done|]. f_equal.
    change (Z.shiftl 1 IA32_EFER_SCE) with (2 ^ 0). by rewrite Z.pow2_bits_false by lia. }
  split; [by rewrite B, orb_true_r by lia|]. split.
  { intros i Hi. rewrite B by lia. replace (i =? 0) with false by lia. apply orb_false_r. }
  split; [|by split_and!]. cbn [msr]. by rewrite <- (wrap_small 64 syscall_entry) at 2.
Qed.
End syscall.
