(* ===== verification/Boot.v ===== *)
(** The kernel's entry, [main] of [src/kernel.c], over the components, and what
    every run of it guarantees: no interrupt is enabled before everything is
    in place. *)

From S2P Require Import Prelude Kernel KList State Paging Bytes Frame FrameSpec FrameInit PmmInit Mmu.
From S2P Require Import Lib Io Term TermSpec Desc Machine Lapic Trap TrapSpec Pic Ioapic Rtc Drivers Acpi Syscall.

Open Scope Z_scope.

(** [sse42_enabled] of [sse.asm]: what the processor answers. *)
Class Cpu := sse42_enabled : Z.

Section boot.
Context `{MMU, Layout, Image, Devices, Firmware, Asm, Symbols, Cpu}.

(** [main] up to the clock. *)
Definition main_devices : M mach () :=
  let sse := sse42_enabled in
  config_set CONFIG_SSE sse;;
  (if negb (nz sse) then m_log "[init] No SSE4.2 support!\n" [] else skip);;
  on_scr vga_clear;;
  on_tb gdt_init;;
  on_tb idt_init;;
  pic_init;;
  trap_init;;
  pit_init 100;;
  syscall_init;;
  '(epoch, boot_time) ← on_tr rtc_time;
  config_set CONFIG_BOOTTIME epoch;;
  m_printf "%4d/%2d/%2d %2d:%2d:%2d\n"
    [AInt (year boot_time); AInt (month boot_time); AInt (day boot_time);
     AInt (hour boot_time); AInt (minute boot_time); AInt (second boot_time)].

(** The memory managers. *)
Definition main_memory : M mach () :=
  b ← on_ks (load8 (P2V 0x6FF0));
  let memlen := u8 (b / sizeof_memory_map) in
  on_ks (pmm_init (P2V 0x7000) memlen);;
  on_ks mmu_init;;
  m_printf "[init] early kernel boot success!\n" [].

(** The firmware's tables and the local interrupt controller; the entry code
    of the other processors. *)
Definition main_processors (fuel : nat) : M mach () :=
  n ← acpi_init fuel;
  m_printf "[init] %d processors detected\n" [AInt n];;
  pic_disable;;
  lapic_init fuel;;
  m_printf "Everything is good to go!\n" [];;
  on_ks (store_page local_page (with_address 0x8000));;
  on_ks (mmu_map_page local_page 0x8000 (Z.lor PRESENT RW));;
  on_ks (memcpy 0x8000 ap_entry_start (u64 (ap_entry_end - ap_entry_start))).

(** It returns where the C code enters its idle loop. *)
Definition main (fuel : nat) : M mach () :=
  main_devices;; main_memory;; main_processors fuel;; on_tr interrupts_enable.

(** ** What the stages keep *)

(** An event that neither enables interrupts nor writes to one of the two
    8259A controllers. *)
Definition quiet (e : event) : Prop :=
  match e with
  | Sti => False
  | Out _ p _ => p ≠ PIC1_CMD ∧ p ≠ PIC1_DATA ∧ p ≠ PIC2_CMD ∧ p ≠ PIC2_DATA
  | _ => True
  end.
Definition adds (ok : event → Prop) (t t' : trace) : Prop := ∃ n, t' = n ++ t ∧ Forall ok n.

#[local] Instance adds_preorder ok : PreOrder (adds ok).
Proof.
  split.
  - intros t. exists []. by split; [|constructor].
  - intros t1 t2 t3 (n & -> & Hn) (n' & -> & Hn'). exists (n' ++ n).
    rewrite <- app_assoc, Forall_app. done.
Qed.

Lemma adds_one (ok : event → Prop) t e : ok e → adds ok t (e :: t).
Proof. intros He. exists [e]. by repeat constructor. Qed.
Lemma adds_refl (ok : event → Prop) t : adds ok t t.
Proof. reflexivity. Qed.
#[local] Hint Resolve adds_refl : keeps.

(** The trace grows by such events, and the tables and masks stay. *)
Definition steady (m m' : mach) : Prop :=
  adds quiet (io m) (io m') ∧ handlers m' = handlers m ∧ tb m' = tb m ∧ irqmask m' = irqmask m.
(** Only: no interrupt is enabled. *)
Definition silent (m m' : mach) : Prop := adds (λ e, e ≠ Sti) (io m) (io m').

#[local] Instance steady_preorder : PreOrder steady.
Proof.
  split; [by split|]. intros m1 m2 m3 (A1 & B1 & C1 & D1) (A2 & B2 & C2 & D2).
  split_and!; [by etrans|congruence..].
Qed.
#[local] Instance silent_preorder : PreOrder silent.
Proof. split; [intros m; apply adds_refl|]. intros m1 m2 m3 A B. unfold silent in *. by etrans. Qed.

Lemma steady_silent {A} (c : M mach A) : keeps steady c → keeps silent c.
Proof.
  intros Hc m. destruct (Hc m) as [(n & En & Hn) _]. exists n. split; [done|].
  eapply Forall_impl; [exact Hn|]. by intros [] ? [=].
Qed.

(** Ports outside the controllers. *)
Definition calm (c : Z) : Prop := c ≠ PIC1_CMD ∧ c ≠ PIC1_DATA ∧ c ≠ PIC2_CMD ∧ c ≠ PIC2_DATA.

Lemma adds_out w p v : calm (u16 p) → keeps (adds quiet) (modify (cons (Out w (u16 p) v))).
Proof. intros Hp t. by apply adds_one. Qed.
Lemma adds_in p : keeps (adds quiet) (inb p).
Proof. intros t. by apply adds_one. Qed.
Lemma adds_mmio_write a v : keeps (adds quiet) (mmio_write a v).
Proof. intros t. by apply adds_one. Qed.
Lemma adds_mmio_read a : keeps (adds quiet) (mmio_read a).
Proof. intros t. by apply adds_one. Qed.
Lemma adds_msr r v : keeps (adds quiet) (writemsr r v).
Proof. intros t. by apply adds_one. Qed.
Lemma adds_readmsr r : keeps (adds quiet) (readmsr r).
Proof. intros t. apply adds_refl. Qed.

Lemma steady_tr {A} (c : M trace A) : keeps (adds quiet) c → keeps steady (on_tr c).
Proof. intros Hc. eapply keeps_zoom; [exact Hc|]. by intros m t Ht. Qed.
Lemma steady_ks {A} (c : M kstate A) : keeps steady (on_ks c).
Proof. eapply keeps_zoom; [apply keeps_any|]. intros m k _. split; [apply adds_refl|done]. Qed.

(** A change of a field that [steady] does not watch. *)
Lemma steady_modify (f : mach → mach) :
  (∀ m, io (f m) = io m ∧ handlers (f m) = handlers m ∧ tb (f m) = tb m ∧ irqmask (f m) = irqmask m) →
  keeps steady (modify f).
Proof. intros Hf m. destruct (Hf m) as (E & ? & ? & ?). split; [|done]. cbn. rewrite E. apply adds_refl. Qed.

Lemma steady_m_log fmt args : keeps steady (m_log fmt args).
Proof. apply steady_ks. Qed.
Lemma steady_m_printf fmt args : keeps steady (m_printf fmt args).
Proof. apply steady_ks. Qed.
Lemma steady_m_assert e x : keeps steady (m_assert e x).
Proof. apply steady_ks. Qed.
#[local] Hint Resolve steady_ks steady_m_log steady_m_printf steady_m_assert : keeps.
#[local] Hint Resolve steady_tr adds_in adds_mmio_write adds_mmio_read adds_msr adds_readmsr : keeps.

(** Single steps that the program text leaves. *)
Ltac steady_steps := keeps_steps; try (apply steady_modify; done);
  try (apply steady_tr; apply adds_out; repeat split; discriminate).

(** *** The components *)

Lemma steady_config_set k v : keeps steady (config_set k v).
Proof. unfold config_set. steady_steps. Qed.

Lemma adds_rtc_read b : keeps (adds quiet) (rtc_read b).
Proof. unfold rtc_read. keeps_steps; apply adds_out; repeat split; discriminate. Qed.

Lemma adds_rtc_time : keeps (adds quiet) rtc_time.
Proof.
  unfold rtc_time. do 6 (apply (keeps_bind (adds quiet)); [apply adds_rtc_read|intros ?]).
  keeps_steps.
Qed.

Lemma steady_lapic_write i v : keeps steady (lapic_write i v).
Proof. unfold lapic_write. steady_steps. Qed.
Lemma steady_lapic_read i : keeps steady (lapic_read i).
Proof. unfold lapic_read. steady_steps. Qed.
#[local] Hint Resolve steady_config_set adds_rtc_time steady_lapic_write steady_lapic_read : keeps.

Lemma steady_icr_wait fuel : keeps steady (icr_wait fuel).
Proof. induction fuel as [|fuel IH]; cbn [icr_wait]; steady_steps. Qed.
#[local] Hint Resolve steady_icr_wait : keeps.

Lemma steady_timer_config mode count div : keeps steady (lapic_timer_config mode count div).
Proof. unfold lapic_timer_config. steady_steps. Qed.
#[local] Hint Resolve steady_timer_config : keeps.

Lemma steady_lapic_init fuel : keeps steady (lapic_init fuel).
Proof. unfold lapic_init. steady_steps. Qed.

Lemma steady_ioapic_write r v : keeps steady (ioapic_write r v).
Proof. unfold ioapic_write. steady_steps. Qed.
Lemma steady_ioapic_read r : keeps steady (ioapic_read r).
Proof. unfold ioapic_read. steady_steps. Qed.
#[local] Hint Resolve steady_lapic_init steady_ioapic_write steady_ioapic_read : keeps.

Lemma steady_ioapic_init a : keeps steady (ioapic_init a).
Proof. unfold ioapic_init, ioapic_mask_all, ioapic_disable. steady_steps. Qed.
Lemma steady_ioapic_remap s g c : keeps steady (ioapic_remap s g c).
Proof. unfold ioapic_remap. steady_steps. Qed.
#[local] Hint Resolve steady_ioapic_init steady_ioapic_remap : keeps.

Lemma steady_madt_entry t e : keeps steady (madt_entry t e).
Proof. unfold madt_entry. steady_steps. Qed.
#[local] Hint Resolve steady_madt_entry : keeps.

Lemma steady_madt_loop fuel madt e n : keeps steady (madt_loop fuel madt e n).
Proof. revert e n. induction fuel as [|fuel IH]; intros e n; cbn [madt_loop]; steady_steps. Qed.

Lemma steady_find_rsdp fuel p : keeps steady (find_rsdp fuel p).
Proof. revert p. induction fuel as [|fuel IH]; intros p; cbn [find_rsdp]; steady_steps. Qed.

Lemma steady_map_table t x : keeps steady (map_table t x).
Proof. unfold map_table. steady_steps. Qed.
#[local] Hint Resolve steady_madt_loop steady_find_rsdp steady_map_table : keeps.

Lemma steady_acpi_tables fuel n r i c : keeps steady (acpi_tables fuel n r i c).
Proof.
  revert i c. induction n as [|n IH]; intros i c; cbn [acpi_tables]; steady_steps.
  unfold acpi_table, acpi_parse_madt. steady_steps.
Qed.
#[local] Hint Resolve steady_acpi_tables : keeps.

Lemma steady_acpi_init fuel : keeps steady (acpi_init fuel).
Proof. unfold acpi_init. steady_steps. Qed.
#[local] Hint Resolve steady_acpi_init : keeps.

Lemma steady_syscall_init : keeps steady syscall_init.
Proof. unfold syscall_init. steady_steps. Qed.

(** The console's operations only move the cursor. *)
Lemma steady_vga_clear : keeps steady (on_scr vga_clear).
Proof.
  eapply (keeps_zoom _ (λ t t', tio t' = tio t)).
  - assert (PreOrder (λ t t' : term, tio t' = tio t)) by (split; [done|]; intros ??? A B; congruence).
    unfold vga_clear. keeps_steps; try done.
    all: intros t; unfold vga_store; by destruct ((0 <=? _) && _).
  - intros m t Ht. unfold steady, io. cbn. rewrite Ht. split; [apply adds_refl|done].
Qed.
#[local] Hint Resolve steady_syscall_init steady_vga_clear : keeps.

(** *** The stages *)

Lemma silent_pic_setmask v : keeps silent (pic_setmask v).
Proof.
  unfold pic_setmask. keeps_steps.
  - intros m. apply adds_refl.
  - intros m. by apply adds_one.
  - intros m. by apply adds_one.
Qed.

Lemma silent_pic_init : keeps silent pic_init.
Proof.
  unfold pic_init. keeps_steps; try apply silent_pic_setmask; intros m; by apply adds_one.
Qed.

Lemma silent_trap_register n h : keeps silent (trap_register n h).
Proof.
  unfold trap_register. keeps_steps.
  - intros m. apply adds_refl.
  - apply steady_silent, steady_m_printf.
  - unfold halt_catch_fire. keeps_steps. intros m. by apply adds_one.
Qed.

Lemma silent_tb {A} (c : M tables A) : keeps silent (on_tb c).
Proof. eapply keeps_zoom; [apply keeps_any|]. intros m t _. apply adds_refl. Qed.
#[local] Hint Resolve silent_pic_setmask silent_pic_init silent_trap_register silent_tb : keeps.

Lemma silent_trap_init : keeps silent trap_init.
Proof. unfold trap_init. keeps_steps. intros m. apply adds_refl. Qed.

Lemma silent_pit_init f : keeps silent (pit_init f).
Proof.
  unfold pit_init. keeps_steps; apply steady_silent, steady_tr || apply steady_silent;
    auto with keeps nocore; apply adds_out; repeat split; discriminate.
Qed.
#[local] Hint Resolve silent_trap_init silent_pit_init : keeps.

Lemma silent_main_devices : keeps silent main_devices.
Proof.
  unfold main_devices. keeps_steps; apply steady_silent; auto with keeps nocore.
Qed.

Lemma steady_main_memory : keeps steady main_memory.
Proof. unfold main_memory. steady_steps. Qed.

Lemma silent_main_processors fuel : keeps silent (main_processors fuel).
Proof.
  unfold main_processors, pic_disable. keeps_steps; apply steady_silent; auto with keeps nocore.
Qed.

(** The two controllers as the trace leaves them, from any initial state. *)
Definition pics_programmed (m : mach) : Prop := ∀ c0 c1,
  waits (master c0 m) = Ready ∧ waits (slave c1 m) = Ready ∧
  base_vector (master c0 m) = 0x20 ∧ base_vector (slave c1 m) = 0x28.
Definition pics_masked (m : mach) : Prop :=
  ∀ c0 c1 i, 0 <= i < 16 → line_masked c0 c1 m i = true.

Lemma chips_quiet t t' c : adds quiet t t' →
  chip_run PIC1_CMD PIC1_DATA c t' = chip_run PIC1_CMD PIC1_DATA c t ∧
  chip_run PIC2_CMD PIC2_DATA c t' = chip_run PIC2_CMD PIC2_DATA c t.
Proof.
  intros (n & -> & Hn). induction Hn as [|e n He Hn IH]; [done|].
  destruct e; cbn [app chip_run]; try exact IH. destruct He as (? & ? & ? & ?).
  by rewrite !(proj2 (Z.eqb_neq _ _)).
Qed.

Lemma steady_chips m m' : steady m m' →
  ∀ c, master c m' = master c m ∧ slave c m' = slave c m.
Proof. intros [Ha _] c. split; by apply chips_quiet. Qed.

(** What is in place once the device stage is over. *)
Record installed (m : mach) : Prop := {
  in_handlers : ∀ n, handlers m n = boot_handlers n;
  in_gates : ∀ n, 0 <= n < 256 → gate_for init_gate (tb m) (vectors n) n;
  in_tables : idtr (tb m) = Some idt_addr ∧ sys_base (gdt (tb m) 6) (gdt (tb m) 7) = system_tss_addr;
  in_pics : pics_programmed m;
}.

Lemma installed_steady m m' : steady m m' → installed m → installed m'.
Proof.
  intros Hs [Hh Hg Ht Hp]. pose proof (steady_chips _ _ Hs) as Hc. destruct Hs as (_ & Eh & Et & _).
  split; rewrite ?Eh, ?Et; [done..|]. intros c0 c1.
  rewrite (proj1 (Hc c0)), (proj2 (Hc c1)). apply Hp.
Qed.

Definition same_tables (m m' : mach) : Prop := tb m' = tb m.
#[local] Instance same_tables_preorder : PreOrder same_tables.
Proof. split; [done|]. intros m1 m2 m3 A B. unfold same_tables in *. congruence. Qed.

Lemma same_tables_pic_init : keeps same_tables pic_init.
Proof.
  unfold pic_init, pic_setmask. keeps_steps; try (intros m; done).
Qed.

Lemma pic_init_trace m : ∃ t, pic_init m = (mask ← gets irqmask;
    if negb (mask =? 0xFFFF) then pic_setmask mask else skip) (set_io t m) ∧
  pics_programmed (set_io t m).
Proof. eexists. split; [reflexivity|]. intros c0 c1. split_and!; reflexivity. Qed.

Lemma setmask_programmed v m : pics_programmed m →
  returns (pic_setmask v) m (λ _ m', pics_programmed m' ∧
    ∀ c0 c1, pic_in_step c0 c1 m' ∧ irqmask m' = u16 v).
Proof.
  intros Hp. unfold returns. rewrite setmask_run. set (m' := set_irqmask _ _).
  assert (G : ∀ c0 c1, pic_in_step c0 c1 m' ∧ irqmask m' = u16 v ∧
    base_vector (master c0 m') = 0x20 ∧ base_vector (slave c1 m') = 0x28).
  { intros c0 c1. destruct (Hp c0 c1) as (W1 & W2 & B1 & B2).
    pose proof (setmask_in_step c0 c1 v m W1 W2) as Hs. unfold returns in Hs.
    rewrite setmask_run in Hs. fold m' in Hs. by rewrite B1, B2 in Hs. }
  split; intros c0 c1; destruct (G c0 c1) as (Hi & Hm & ? & ?); [|done].
  destruct Hi as (? & ? & _). done.
Qed.

Lemma pic_init_programmed m : ends pic_init m (λ _ m', pics_programmed m').
Proof.
  destruct (pic_init_trace m) as (t & E & Hp). unfold ends. rewrite E.
  fold (ends (mask ← gets irqmask; if negb (mask =? 0xFFFF) then pic_setmask mask else skip)
    (set_io t m) (λ _ m', pics_programmed m')).
  eapply ends_run; [reflexivity|]. destruct (negb _); [|by apply ends_ret].
  apply returns_ends. ret_use setmask_programmed; [done|]. by intros ? ? [? _].
Qed.

Lemma pic_disable_masks m : pics_programmed m →
  returns pic_disable m (λ _ m', pics_programmed m' ∧ pics_masked m').
Proof.
  intros Hp. unfold pic_disable. ret_use setmask_programmed; [done|]. intros _ m' [Hp' Hs].
  split; [done|]. intros c0 c1 i Hi. destruct (Hs c0 c1) as [(_ & _ & _ & ->) ->]; [|done].
  change (u16 0xFFFF) with (Z.ones 16). rewrite Z.testbit_ones by lia. lia.
Qed.

Lemma ends_on_tb {A} (c : M tables A) m (Q : A → mach → Prop) :
  ends c (tb m) (λ a t, Q a (set_tb t m)) → ends (on_tb c) m Q.
Proof. unfold ends, on_tb, zoom. by destruct (c (tb m)). Qed.

(** The addresses that the linker gives are addresses. *)
Definition symbols_ok : Prop :=
  (∀ n, 0 <= n < 256 → 0 <= vectors n < 2 ^ 64) ∧ 0 <= system_tss_addr < 2 ^ 64.

Definition tss_loaded (m : mach) : Prop :=
  sys_base (gdt (tb m) 6) (gdt (tb m) 7) = system_tss_addr.
Definition gates_loaded (m : mach) : Prop :=
  (∀ n, 0 <= n < 256 → gate_for init_gate (tb m) (vectors n) n) ∧ idtr (tb m) = Some idt_addr.

Lemma gdt_init_loads m : symbols_ok → ends (on_tb gdt_init) m (λ _ m', tss_loaded m').
Proof.
  intros [_ Ht]. apply ends_on_tb, returns_ends. ret_use returns_gdt_init; [done|].
  intros _ t (E & _). exact E.
Qed.

Lemma idt_init_loads m : symbols_ok → tss_loaded m →
  ends (on_tb idt_init) m (λ _ m', tss_loaded m' ∧ gates_loaded m').
Proof.
  intros [Hv _] Hl. apply ends_on_tb, returns_ends. ret_use returns_idt_init; [done|].
  intros _ t (Hg & _ & Hgdt & Hi). unfold tss_loaded, gates_loaded. cbn [tb set_tb].
  rewrite Hgdt. done.
Qed.

Lemma pit_init_handlers f m : f ≠ 0 → (∀ n, handlers m n = boot_handlers n ∨ n = 0x20) →
  ends (pit_init f) m (λ _ m', (∀ n, handlers m' n = boot_handlers n) ∧ tb m' = tb m ∧
    adds quiet (io m) (io m')).
Proof.
  intros Hf Hh. destruct (pit_init_run f m Hf) as (h & l & E & Hn). unfold ends. rewrite E.
  split_and!; [|done|].
  - intros n. cbn. rewrite Hn. unfold boot_handlers. destruct (Z.eqb_spec n 0x20); [done|].
    destruct (Hh n) as [Hb|?]; [|done]. rewrite Hb. unfold boot_handlers.
    by rewrite (proj2 (Z.eqb_neq n 0x20)).
  - cbn. unfold pit_events. repeat (etrans; [|apply adds_one; repeat split; done || discriminate]).
    done.
Qed.

Lemma pics_programmed_adds m m' : adds quiet (io m) (io m') → pics_programmed m → pics_programmed m'.
Proof.
  intros Ha Hp c0 c1. specialize (Hp c0 c1). unfold master, slave in *.
  by rewrite (proj1 (chips_quiet _ _ c0 Ha)), (proj2 (chips_quiet _ _ c1 Ha)).
Qed.

#[local] Opaque vga_clear gdt_init idt_init pic_init trap_init pit_init syscall_init rtc_time config_set.
Lemma main_devices_installed m : symbols_ok → ends main_devices m (λ _ m', installed m').
Proof.
  intros Hsym. unfold main_devices. cbv zeta.
  do 3 (apply ends_skip; intros _ ?).
  eapply ends_use; [by apply gdt_init_loads|]. cbv beta. intros _ m1 Htss.
  eapply ends_use; [by apply idt_init_loads|]. cbv beta. intros _ m2 [Htss2 Hg2].
  eapply (ends_use _ _ _ (λ _ m', pics_programmed m' ∧ tb m' = tb m2)).
  { pose proof (pic_init_programmed m2) as Hp.
    pose proof (keeps_ends _ _ m2 same_tables_pic_init) as Hk.
    unfold ends in *. destruct (pic_init m2); [by split|done]. }
  intros _ m3 [Hp Et]. destruct (trap_init_run m3) as (h & E & Hh).
  eapply ends_run; [exact E|].
  eapply ends_use; [apply (pit_init_handlers 100 (set_handlers h m3)); [done|]|].
  { intros n. cbn. rewrite Hh. unfold boot_handlers. destruct (Z.eqb_spec n 0x20); [by right|by left]. }
  cbv beta. intros _ m4 (Hb & Et4 & Ha).
  assert (Hin : installed m4).
  { assert (E4 : tb m4 = tb m2) by (rewrite Et4; exact Et).
    destruct Hg2 as [Hg2 Hi2]. split.
    - exact Hb.
    - by rewrite E4.
    - by rewrite E4.
    - by eapply pics_programmed_adds. }
  eapply ends_mono; [apply (keeps_ends steady)|].
  - keeps_steps.
  - cbv beta. intros _ m5 Hs. by eapply installed_steady.
Qed.

(** The rest of the controllers. *)
Record running (m : mach) : Prop := {
  ru_installed : installed m;
  ru_masked : pics_masked m;
  ru_lapic : lapic_up m = 1;
  ru_timer : lreg m TIMER = Some (2 ^ 17 + 0x20);
}.

Lemma pics_masked_steady m m' : steady m m' → pics_masked m → pics_masked m'.
Proof.
  intros Hs Hm c0 c1 i Hi. specialize (Hm c0 c1 i Hi). unfold line_masked in *.
  pose proof (steady_chips _ _ Hs) as Hc. by rewrite (proj1 (Hc c0)), (proj2 (Hc c1)).
Qed.

Definition same_lapic (m m' : mach) : Prop := lapic_up m' = lapic_up m ∧ same_lregs m m'.
#[local] Instance same_lapic_preorder : PreOrder same_lapic.
Proof.
  split; [by split|]. intros m1 m2 m3 [A B] [C D]. split; [congruence|].
  intros j. by rewrite (D j), (B j).
Qed.
Lemma same_lapic_ks {A} (c : M kstate A) : keeps same_lapic (on_ks c).
Proof. eapply keeps_zoom; [apply keeps_any|]. by intros m k _. Qed.

Lemma lapic_init_up fuel m :
  ends (lapic_init fuel) m (λ _ m', lapic_up m' = 1 ∧ lreg m' TIMER = Some (2 ^ 17 + 0x20)).
Proof.
  unfold lapic_init. do 19 (apply ends_skip; intros ? ?).
  eapply ends_run; [reflexivity|].
  apply (ends_keeps same_lapic); [apply same_lapic_ks|]. intros _ m1 [U1 _].
  eapply ends_use; [apply returns_ends, (timer_config_spec _ _ _ _
    (λ _ m', lapic_up m' = 1 ∧ lreg m' TIMER = Some (2 ^ 17 + 0x20)))|].
  { intros m2 Hl Hu. split; [by rewrite Hu, U1|]. rewrite Hl. reflexivity. }
  cbv beta. intros _ m2 [U2 L2]. eapply ends_mono; [apply (keeps_ends same_lapic), same_lapic_ks|].
  cbv beta. intros _ m3 [U3 L3]. by rewrite U3, (L3 TIMER).
Qed.

Lemma main_processors_running fuel m : installed m → ends (main_processors fuel) m (λ _ m', running m').
Proof.
  intros Hin. unfold main_processors.
  apply (ends_keeps steady); [apply steady_acpi_init|]. intros n m1 S1.
  apply (ends_keeps steady); [apply steady_m_printf|]. intros _ m2 S2.
  assert (Hin2 : installed m2) by (eapply installed_steady; [etrans; [exact S1|exact S2]|done]).
  apply (ends_use _ _ _ (λ _ m', installed m' ∧ pics_masked m')).
  { apply returns_ends. pose proof (pic_disable_masks m2 (in_pics _ Hin2)) as Hd.
    unfold pic_disable, returns in *. rewrite setmask_run in *. destruct Hd as [Hp Hm]. split; [|done].
    destruct Hin2. by split. }
  intros _ m3 [Hin3 Hm3].
  apply (ends_use _ _ _ (λ _ m', installed m' ∧ pics_masked m' ∧
    lapic_up m' = 1 ∧ lreg m' TIMER = Some (2 ^ 17 + 0x20))).
  { pose proof (lapic_init_up fuel m3) as Hu. pose proof (keeps_ends _ _ m3 (steady_lapic_init fuel)) as Hk.
    unfold ends in *. destruct (lapic_init fuel m3); [|done]. split_and!; [|by eapply pics_masked_steady|apply Hu..].
    by eapply installed_steady. }
  intros _ m4 (Hin4 & Hm4 & U4 & L4).
  eapply ends_mono; [apply (keeps_ends (λ m m', steady m m' ∧ same_lapic m m'))|].
  - assert (PreOrder (λ m m', steady m m' ∧ same_lapic m m')).
    { split; [by split|]. intros ??? [] []. split; by etrans. }
    keeps_steps; intros m0; split; apply steady_ks || apply same_lapic_ks.
  - cbv beta. intros _ m5 [S5 [U5 L5]]. split; [by eapply installed_steady|by eapply pics_masked_steady| |].
    + by rewrite U5.
    + by rewrite (L5 TIMER).
Qed.

Lemma enable_last (c : M mach ()) m :
  silent m (final_state (c m)) → ends c m (λ _ m', running m') →
  match (c ≫= λ _, on_tr interrupts_enable) m with
  | Ok _ m' => running m' ∧ ∃ t, io m' = Sti :: t ++ io m ∧ Sti ∉ t
  | Err _ m' => ∃ t, io m' = t ++ io m ∧ Sti ∉ t
  end.
Proof.
  intros Hs Hr. assert (Hn : ∀ t, Forall (λ e, e ≠ Sti) t → Sti ∉ t).
  { intros t Ht Hin. by eapply Forall_forall in Ht. }
  unfold mbind, M_bind, ends, silent in *. destruct (c m) as [[] m1|f m1]; cbn in *.
  - destruct Hs as (t & Et & Ht). split.
    + destruct Hr as [[Hh Hg Ht' Hp] Hm Hu Hl]. split; [by split|done..].
    + exists t. split; [|by apply Hn]. change (Sti :: io m1 = Sti :: t ++ io m). by rewrite Et.
  - destruct Hs as (t & Et & Ht). exists t. split; [done|by apply Hn].
Qed.

(** C16: Whatever the devices, the firmware and the memory hold, [main] enables
    interrupts only when everything is in place. If it stops at a fault on the
    way, no interrupt has been enabled. If it reaches the idle loop, the last
    thing it did was to enable them, once, and by then every vector has a
    gate to its handler and the table is loaded, the task segment is
    described, the trap table holds exactly the timer, the page fault and the
    breakpoint, both interrupt controllers are initialised at vectors 0x20 and
    0x28 with all sixteen lines masked, and the local controller is up with
    its timer running periodically on vector 0x20. *)
Theorem main_enables_last fuel m :
  symbols_ok →
  match main fuel m with
  | Ok _ m' => running m' ∧ ∃ t, io m' = Sti :: t ++ io m ∧ Sti ∉ t
  | Err _ m' => ∃ t, io m' = t ++ io m ∧ Sti ∉ t
  end.
Proof.
  intros Hsym. set (c := main_devices;; main_memory;; main_processors fuel).
  assert (E : main fuel m = (c ≫= λ _, on_tr interrupts_enable) m).
  { unfold main, c, mbind, M_bind. destruct (main_devices m) as [? m1|]; [|done].
    by destruct (main_memory m1). }
  assert (Hs : keeps silent c).
  { unfold c. keeps_steps; [apply silent_main_devices|apply steady_silent, steady_main_memory|
      apply silent_main_processors]. }
  specialize (Hs m).
  assert (Hr : ends c m (λ _ m', running m')).
  { unfold c. eapply ends_use; [by apply main_devices_installed|]. cbv beta. intros _ m1 H1'.
    apply (ends_keeps steady); [apply steady_main_memory|]. intros _ m2 S2.
    apply main_processors_running. by eapply installed_steady. }
  rewrite E. clearbody c. by apply enable_last.
Qed.
End boot.
