(* ===== verification/LibDemo.v ===== *)
(** Runs of the C library and of [vsnprintf] on concrete strings, and the
    instances that show the hypotheses of their theorems can hold. *)

From S2P Require Import Prelude Lib Printf PrintfSpec PrintfRender PrintfSafe.

Open Scope Z_scope.

(** ** Strings *)

Definition is_cstring (s : list Z) : bool := forallb (λ c, (0 <? c) && (c <? 256)) s.

Lemma is_cstring_spec s : is_cstring s = true → cstring s.
Proof.
  intros H. induction s as [|c s IH]; [constructor|]. cbn in H.
  apply andb_prop in H as [Hc Hs]. constructor; [lia|by apply IH].
Qed.

Example strncmp_runs :
  strncmp (chars "APIC") (chars "APIX") 4 = -1 ∧ strncmp (chars "APIC") (chars "APIC!") 4 = 0 ∧
  strncmp (chars "b") (chars "") 4 = 1.
Proof. split_and!; reflexivity. Qed.

Lemma strncmp_spec_witness :
  (strncmp (chars "APIC") (chars "FACP") 4 = 0 ∧ take 4 (chars "APIC") = take 4 (chars "FACP")) ∨
  (∃ k, (k < 4)%nat ∧ take k (chars "APIC") = take k (chars "FACP") ∧
     (k <= length (chars "APIC"))%nat ∧ (k <= length (chars "FACP"))%nat ∧
     byte_at (drop k (chars "APIC")) ≠ byte_at (drop k (chars "FACP")) ∧
     strncmp (chars "APIC") (chars "FACP") 4 =
       if byte_at (drop k (chars "APIC")) <? byte_at (drop k (chars "FACP")) then -1 else 1).
Proof. apply strncmp_spec; apply is_cstring_spec; reflexivity. Defined.

(** ** Numbers *)

Lemma strrev_spec_witness :
  cstring (chars "abc") ∧
  returns strrev (chars "abc" ++ 0 :: [7]) (λ n b, n = 3 ∧ b = chars "cba" ++ 0 :: [7]).
Proof.
  split; [by apply is_cstring_spec|].
  apply (strrev_spec (chars "abc") [7]); [by apply is_cstring_spec|discriminate].
Defined.

Lemma ulltostr_spec_witness :
  returns (ulltostr 0xBEEF 16 16) (replicate 20 9) (λ n b', ∃ ds,
    Forall (λ d, 0 <= d < 16) ds ∧ n = Z.of_nat (length ds) ∧ 0 < n <= 16 ∧
    b' = (digit_char <$> reverse ds) ++ 0 :: drop (S (length ds)) (replicate 20 9) ∧
    low_value 16 ds = 0xBEEF mod 16 ^ 16 ∧
    (0 < 0xBEEF < 16 ^ 16 → ∃ d ds', reverse ds = d :: ds' ∧ 0 < d)).
Proof. apply (ulltostr_spec 0xBEEF 16 16 (replicate 20 9)); cbn; lia. Defined.

(** ** Formats *)

(** What a format prints: the first bytes of a zeroed buffer. *)
Definition printed (size : Z) (fmt : string) (ap : list varg) : option (list Z) :=
  match vsnprintf 100 (replicate (Z.to_nat size) 0) size (chars fmt) ap with
  | Ok n s => Some (take (Z.to_nat n) (f_out s))
  | Err _ _ => None
  end.

Example vsnprintf_runs :
  printed 64 "%d of %#x" [VInt 42; VInt 0xBEEF] = Some (chars "42 of 0x000000000000BEEF") ∧
  printed 64 "%s: %4d" [VStr (chars "cpu"); VInt 7] = Some (chars "cpu: 0007") ∧
  printed 64 "%o" [VInt 8] = Some (chars "10").
Proof. split_and!; vm_compute; reflexivity. Qed.

(** A converted argument gets half of the room that is left. *)
Example vsnprintf_truncates :
  printed 32 "a text of more than sixteen" [] = Some (chars "a text of more than sixteen") ∧
  printed 32 "%s" [VStr (chars "a text of more than sixteen")] = Some (chars "a text of more t").
Proof. split; vm_compute; reflexivity. Qed.

Lemma vsnprintf_renders_witness :
  render 100 0 0 (chars "rip %#x") [VInt 0xBEEF] = Some (chars "rip 0x000000000000BEEF") ∧
  ∃ s', vsnprintf 100 (replicate 64 9) 64 (chars "rip %#x") [VInt 0xBEEF] =
      Ok (Z.of_nat (length (chars "rip 0x000000000000BEEF"))) s' ∧
    f_out s' = chars "rip 0x000000000000BEEF" ++
      drop (length (chars "rip 0x000000000000BEEF")) (replicate 64 9).
Proof.
  assert (R : render 100 0 0 (chars "rip %#x") [VInt 0xBEEF] = Some (chars "rip 0x000000000000BEEF"))
    by (vm_compute; reflexivity).
  split; [exact R|].
  apply (vsnprintf_renders 100 (replicate 64 9) 64 (chars "rip %#x") [VInt 0xBEEF]);
    [lia|reflexivity|apply is_cstring_spec; reflexivity|exact R|reflexivity].
Defined.


Lemma vsnprintf_unknown_diverges_witness :
  conversion (ch "p") = false ∧
  ∀ fuel, ∃ s', vsnprintf fuel (replicate 8 0) 8 (chars "%p") [] = Err NoFuel s'.
Proof.
  split; [reflexivity|].
  apply (vsnprintf_unknown_diverges (replicate 8 0) 8 (chars "p") []); try discriminate; reflexivity.
Defined.
