(* ===== verification/DeviceDemo.v ===== *)
(** Concrete instances of the theorems about the console and the descriptor
    tables. *)

From S2P Require Import Prelude Kernel Lib Io Term TermSpec TermRefine Desc.

Open Scope Z_scope.

(** ** Console *)

(** A console with the cursor at a cell. *)
Definition console (x y : Z) : term := Term (λ _, 0) 0x07 x y false [].

Lemma console_ok x y : 0 <= x <= 158 → Z.even x = true → 0 <= y <= 24 → cursor_ok (console x y).
Proof. intros. unfold cursor_ok, console. cbn. split_and!; (done || lia). Qed.

Example vga_puts_run :
  match vga_puts (chars "hi") (console 0 0) with
  | Ok _ t => (cell t 0 0, cell t 0 1, tx t, ty t) = ((ch "h", 7), (ch "i", 7), 4, 0)
  | Err _ _ => False
  end.
Proof. vm_compute. reflexivity. Qed.

Lemma vga_putc_prints_witness :
  let t := console 158 24 in
  let printed := λ r k, if (r =? ty t) && (k =? tx t / 2) then (ch "A", u8 (attrib t)) else cell t r k in
  returns (vga_putc (ch "A")) t (λ _ t',
    tio t' = cursor_events (tx t') (ty t') ++ tio t ∧
    if (ty t =? 24) && (tx t =? 158) then
      tx t' = 0 ∧ ty t' = 24 ∧
      (∀ r k, 0 <= r < 24 → 0 <= k < 80 → cell t' r k = printed (r + 1) k) ∧
      (∀ k, 0 <= k < 80 → cell t' 24 k = (0, u8 (attrib t)))
    else
      80 * ty t' + tx t' / 2 = 80 * ty t + tx t / 2 + 1 ∧ tx t' <= 158 ∧
      (∀ r k, 0 <= r <= 24 → 0 <= k < 80 → cell t' r k = printed r k)).
Proof.
  apply (vga_putc_prints (console 158 24) (ch "A"));
    [apply console_ok; (done || lia)|split; [discriminate|reflexivity]|discriminate|discriminate|discriminate].
Defined.

Lemma vga_puts_safe_witness :
  returns (vga_puts (chars "kernel panic")) (console 150 24) (λ _ t', cursor_ok t' ∧ tlock t' = false).
Proof.
  apply (vga_puts_safe (console 150 24) (chars "kernel panic"));
    [apply console_ok; (done || lia)|reflexivity|].
  repeat (constructor; [split; discriminate|]). constructor.
Defined.

Lemma vga_tab_loses_character_witness :
  returns (vga_putc 9;; vga_putc (ch "A")) (console 150 24) (λ _ t',
    tx t' = 2 ∧ ty t' = 24 ∧ ∀ k, 0 <= k < 80 → cell t' 24 k = (0, u8 0x07)).
Proof.
  apply (vga_tab_loses_character (console 150 24) (ch "A"));
    [apply console_ok; (done || lia)|reflexivity|reflexivity|split; [discriminate|reflexivity]|discriminate|discriminate|discriminate].
Defined.

Definition empty_screen (x y : Z) : screen := Screen (λ _ _, (0, 0)) y x.

Lemma console_shows x y : 0 <= x < 80 → 0 <= y < 25 → shows (console (2 * x) y) (empty_screen x y).
Proof. intros. by split. Qed.

(** Two lines at the bottom of the screen: the first one has scrolled up. *)
Lemma vga_puts_refines_witness :
  let S := foldl (spec_put 0x07) (empty_screen 0 24) (chars "a" ++ 10 :: chars "b") in
  returns (vga_puts (chars "a" ++ 10 :: chars "b")) (console 0 24) (λ _ t',
    shows t' S ∧ kept (console 0 24) t') ∧
  grid S 23 0 = (ch "a", 7) ∧ grid S 24 0 = (ch "b", 7) ∧ (col S, row S) = (1, 24).
Proof.
  split; [|vm_compute; done].
  apply (vga_puts_refines _ (console 0 24)).
  - by apply (console_shows 0 24).
  - cbn. lia.
  - done.
  - repeat (constructor; [split_and!; discriminate || reflexivity|]). constructor.
Defined.

(** ** Descriptor tables *)

(** Handlers 16 bytes apart, in the higher half. *)
#[local] Instance demo_symbols : Symbols := {|
  vectors := λ n, 0xFFFFFFFF80001000 + 16 * n;
  system_tss_addr := 0xFFFFFFFF80123456;
  idt_addr := 0xFFFFFFFF80200000;
  gdt_addr := 0xFFFFFFFF80201000;
|}.

Definition zero_tables : tables :=
  Tables (λ _, IdtDescriptor 0 0 0 0 0 0) (λ _, 0) (λ _, 0) (λ _, 0) None None.

Lemma idt_init_spec_witness :
  returns idt_init zero_tables (λ _ t',
    (∀ n, 0 <= n < 256 → gate_for init_gate t' (vectors n) n) ∧
    (∀ i, 0 <= i < 3 → tss_rsp t' i = 0xFFFF80000000A000 ∧ tss_ist t' i = 0xFFFF80000000A000) ∧
    gdt t' = gdt zero_tables ∧ idtr t' = Some idt_addr).
Proof. apply (idt_init_spec zero_tables). intros n Hn. cbn. lia. Defined.

Lemma gdt_init_spec_witness :
  returns gdt_init zero_tables (λ _ t',
    let g := gdt t' in
    sys_base (g 6) (g 7) = system_tss_addr ∧ sys_limit (g 6) = 103 ∧
    seg_kind (g 6) = 9 ∧ seg_dpl (g 6) = 0 ∧ seg_present (g 6) = true ∧
    (∀ i, i ∈ [(1, 0x1A, 0); (2, 0x12, 0); (3, 0x1A, 3); (4, 0x12, 3)] →
       seg_kind (g i.1.1) = i.1.2 ∧ seg_dpl (g i.1.1) = i.2 ∧ seg_present (g i.1.1) = true ∧
       seg_long (g i.1.1) = (i.1.2 =? 0x1A)) ∧
    g 0 = 0 ∧ g 8 = 0 ∧ g 9 = 0 ∧ gdtr t' = Some (79, gdt_addr) ∧ idt t' = idt zero_tables).
Proof. apply (gdt_init_spec zero_tables). cbn. lia. Defined.
