(* ===== verification/BoardDemo.v ===== *)
(** A small board for the trap, interrupt-controller, clock and firmware
    theorems: devices that answer, a memory in which the controllers can be
    mapped, and the instances of the theorems on it. *)

From S2P Require Import Prelude Kernel KList State Paging Frame FrameSpec FrameRefine FrameMark Demo Mmu MmuDemo.
From S2P Require Import Lib Printf PrintfSpec PrintfRender TermRefine Console Io Term Desc DeviceDemo Machine Lapic Trap TrapSpec Pic Ioapic Rtc Drivers Acpi Syscall.

Open Scope Z_scope.

(** ** The board *)

(** The clock shows 29 February 2016, 23:59:58. *)
Definition board_clock (b : Z) : Z :=
  if b =? RTC_SEC then 0x58 else if b =? RTC_MIN then 0x59 else if b =? RTC_HOUR then 0x23 else
  if b =? RTC_DAY then 0x29 else if b =? RTC_MON then 0x02 else 0x16.

(** A port read of the clock's data register answers the selected register;
    the serial port is ready; the version register of the I/O controller
    says that entry 23 is the last; the local controller is idle. *)
#[local] Instance board : Devices := {|
  dev_in t w p :=
    if p =? RTC_DATA then match t with Out _ _ b :: _ => board_clock b | _ => 0 end else 0x60;
  dev_mmio t a := if a =? 0xFFFFFFFFFEC00010 then 0x00170011 else 0;
  dev_msr t r := 0xFEE00900;
|}.

(** Page 6 of the small machine stands for the local [struct page]. *)
#[local] Instance board_asm : Asm := {|
  stack_trace _ := skip;
  local_page := 0x1180;
  syscall_entry := 0xFFFFFFFF80002000;
|}.

(** A handler that returns an error. *)
#[local] Instance board_handlers : Handlers := λ _ _, mret 5.

Definition machine : mach :=
  Mach vm (console 0 0) zero_tables (λ n, if n =? 0x30 then h_other 0 else h_null) irqmask_init 0 0 0
    (λ _, 0) false false 0.

Definition frame_for (n : Z) : registers :=
  Registers 0 0 0 0 0 0 0 0 0 0 0 0 0 0 0 n 0 0 KERNEL_CS 0 0 0.

(** ** Traps *)


Lemma timer_interrupt_ticks_witness :
  returns (trap_init;; pit_init 100) machine (λ _ m1,
    (∃ lo hi, written (io m1) 0x40 = written (io machine) 0x40 ++ [lo; hi] ∧
       0 <= lo < 256 ∧ 0 <= hi < 256 ∧ lo + 256 * hi = 1193180 / 100) ∧
    ∀ r m2, int_no r = 0x20 → handlers m2 = handlers m1 →
      returns (trap r) m2 (λ _ m3,
        timer_ticks m3 = u64 (timer_ticks m2 + 1) ∧ handlers m3 = handlers m2 ∧
        io m3 = eoi_events m2 0x20 (io m2))).
Proof. apply (timer_interrupt_ticks 100 machine). lia. Defined.

(** ** Interrupt controllers *)

Definition reset_chip : chip := Chip 0 0 0 0 Ready.


Definition pic_ready : chip := Chip 0x20 0xFB 4 3 Ready.
Definition pic_ready' : chip := Chip 0x28 0xFF 2 3 Ready.

Lemma pic_enable_unmasks_witness :
  pic_in_step pic_ready pic_ready' machine ∧
  returns (pic_enable 4) machine (λ _ m', pic_in_step pic_ready pic_ready' m' ∧
    ∀ i, 0 <= i < 16 → line_masked pic_ready pic_ready' m' i =
      negb (i =? 4) && line_masked pic_ready pic_ready' machine i).
Proof.
  assert (S : pic_in_step pic_ready pic_ready' machine).
  { split_and!; [done|done|done|done|]. intros i Hi.
    assert (C : i ∈ seqZ 0 16) by (apply elem_of_seqZ; lia). clear Hi. revert i C.
    apply Forall_forall. apply (bool_decide_unpack _). by vm_compute. }
  split; [exact S|]. apply (pic_enable_unmasks pic_ready pic_ready' machine 4 S). lia.
Defined.

Lemma ioapic_init_masks_witness :
  returns (ioapic_init 0xFEC00000) machine (λ _ m',
    IOAPIC m' = P2V 0xFEC00000 ∧
    (∀ i, 0 <= i < 23 → entry_off (regs_of (0, λ _, 0) m') i) ∧
    (∀ j, IOREDTBL + 23 * 2 <= j →
       regs_of (0, λ _, 0) m' j = regs_at (0, λ _, 0) (P2V 0xFEC00000) (io machine) j)).
Proof.
  assert (E : last_entry (P2V 0xFEC00000) (io machine) = 23) by (vm_compute; reflexivity).
  pose proof (ioapic_init_masks (0, λ _, 0) 0xFEC00000 machine) as T. cbv zeta in T. rewrite E in T.
  apply T; [lia|vm_compute; reflexivity|lia|vm_compute; exact Logic.I].
Defined.

Lemma lapic_init_programs_witness :
  returns (lapic_init 1) machine (λ _ m',
    lapic_up m' = 1 ∧
    lreg m' LAPIC_SIV = Some 0x1FF ∧ lreg m' LAPIC_TPR = Some 0 ∧
    lreg m' LAPIC_LINT0 = Some 0x10000 ∧ lreg m' LAPIC_LINT1 = Some 0x10000 ∧
    lreg m' TIMER = Some (2 ^ 17 + 0x20) ∧ lreg m' INIT_COUNT = Some 0x10000 ∧
    lreg m' DIVIDE_CONF = Some 0x0A ∧
    lreg m' LAPIC_ERR = Some 0 ∧ lreg m' LAPIC_LINTERR = lreg machine LAPIC_LINTERR).
Proof. apply (lapic_init_programs 1 machine); [reflexivity|vm_compute; exact Logic.I]. Defined.

(** ** Clock and serial port *)

(** The drift on that day: two days too many, one too few. *)
Lemma rtc_time_drift_witness :
  drift 2016 2 = 2 ∧
  returns rtc_time [] (λ r _,
    r = (((civil_days 2016 2 29 + drift 2016 2) * 24 + 23) * 3600 + 59 * 60 + 58, Time 2016 2 29 23 59 58)).
Proof.
  split; [reflexivity|]. apply (rtc_time_drift board_clock 2016 2 29 23 59 58 []); try lia.
  - intros t b. reflexivity.
  - split; reflexivity.
Defined.

(** 1456790398 is that moment in the calendar. *)
Example civil_days_value : (civil_days 2016 2 29 * 24 + 23) * 3600 + 59 * 60 + 58 = 1456790398.
Proof. vm_compute. reflexivity. Qed.

Lemma uart_write_sends_witness :
  returns (uart_write 1 (chars "ok")) machine (λ _ m',
    written (io m') COM1 = written (io machine) COM1 ++ chars "ok" ∧ m' = set_io (io m') machine).
Proof.
  apply (uart_write_sends 1 (chars "ok") machine); [reflexivity| |reflexivity].
  repeat (constructor; [split; [discriminate|reflexivity]|]). constructor.
Defined.

Lemma printf_prints_witness :
  let t := chars "page 0x000000000000001F: 42" in
  returns (Console.printf 20 1 (chars "page %#x: %d") [VInt 0x1F; VInt 42]) machine (λ r m',
    r = Z.of_nat (length t) ∧ printed_text t (empty_screen 0 0) machine m') ∧
  returns (Console.kernel_log 20 1 (chars "page %#x: %d") [VInt 0x1F; VInt 42]) machine (λ r m',
    r = Z.of_nat (length t) ∧ written (io m') COM1 = written (io machine) COM1 ++ t ∧
    shows (scr m') (empty_screen 0 0) ∧ m' = set_scr (scr m') machine).
Proof.
  apply (printf_prints 20 1 (chars "page %#x: %d") [VInt 0x1F; VInt 42] (chars "page 0x000000000000001F: 42")).
  - intros t. reflexivity.
  - split_and!; [|by vm_compute|by vm_compute].
    repeat (constructor; [split; reflexivity|]). constructor.
  - repeat (constructor; [split; reflexivity|]). constructor.
  - repeat (constructor; [split_and!; discriminate || reflexivity|]). constructor.
  - by apply (console_shows 0 0).
  - cbn. lia.
  - reflexivity.
  - reflexivity.
Defined.

(** ** Firmware tables and system calls *)

(** An interrupt-controller table with four processors; the last two entries
    are processors and lie in its last 44 bytes. *)
Definition madt_entries : list (Z * Z) := [(0, 8); (0, 8); (2, 10); (4, 6); (9, 16); (0, 8)].
Definition madt_bytes : list Z :=
  chars "APIC" ++ [100; 0; 0; 0] ++ replicate 36 0 ++
  (madt_entries ≫= λ e, e.1 :: e.2 :: replicate (Z.to_nat e.2 - 2) 0).
#[local] Instance board_fw : Firmware := λ a, nth (Z.to_nat (a - 0x5000)) madt_bytes 0.

Lemma acpi_parse_madt_counts_witness :
  returns (acpi_parse_madt 10 0x5000) machine (λ n m', n = processors 12 madt_entries ∧ True) ∧
  processors 12 madt_entries = 2.
Proof.
  split; [|reflexivity].
  apply (acpi_parse_madt_counts (λ _, True) 10 0x5000 madt_entries machine); try done.
  - intros x Hx. replace (ioapics (0x5000 + 44) madt_entries) with (@nil Z) in Hx by (vm_compute; reflexivity).
    set_solver.
  - vm_compute. lia.
Defined.

Lemma syscall_init_spec_witness :
  returns syscall_init machine (λ _ m', ∃ efer star,
    msr (io m') IA32_EFER = Some efer ∧ Z.testbit efer 0 = true ∧
    (∀ i, 0 < i < 64 → Z.testbit efer i = Z.testbit (u64 (dev_msr (io machine) IA32_EFER)) i) ∧
    msr (io m') IA32_LSTAR = Some syscall_entry ∧ msr (io m') IA32_FMASK = Some 0x200 ∧
    msr (io m') IA32_STAR = Some star ∧
    syscall_cs star = 8 * 1 ∧ syscall_ss star = 8 * 2 ∧
    sysret_cs star / 8 = 2 ∧ sysret_ss star / 8 = 1).
Proof. apply (syscall_init_spec machine). split; [discriminate|reflexivity]. Defined.
