(* ===== verification/X86.v ===== *)
(** The processor as the assembly of the repository uses it: sixteen
    registers, the zero flag, byte-addressed memory, the system registers, the
    trace of device accesses, and the instructions that occur in the routines of
    [AsmLib], [AsmSys], [AsmCpu], [AsmTrap] and [AsmTrace]. A routine is its list of instructions, with
    labels in place; [run] executes it until it leaves. *)

From S2P Require Import Prelude Io.

Open Scope Z_scope.

(** ** State *)

Inductive reg : Set :=
  RAX | RCX | RDX | RBX | RSP | RBP | RSI | RDI | R8 | R9 | R10 | R11 | R12 | R13 | R14 | R15.

#[global] Instance reg_eq_dec : EqDecision reg.
Proof. solve_decision. Defined.

(** Segment selectors, control registers, what [cpuid] answers for a leaf (in [eax],
    [ebx], [ecx], [edx]), the flags register (the zero flag is kept in [cpu]; of the
    other arithmetic flags a comparison sets the carry flag, bit 0, and the rest
    change only when the register is loaded), the limit and base of the descriptor
    tables, the task register, and the accesses to devices and model-specific
    registers. *)
Inductive sreg : Set := CS | DS | ES | FS | GS | SS.

#[global] Instance sreg_eq_dec : EqDecision sreg.
Proof. solve_decision. Defined.

Inductive creg : Set := CR0 | CR4.

#[global] Instance creg_eq_dec : EqDecision creg.
Proof. solve_decision. Defined.

Record system := System {
  x_segs : sreg → Z;
  x_crs : creg → Z;
  x_cpuid : Z → Z * Z * Z * Z;
  x_flags : Z;
  x_idtr : option (Z * Z);
  x_gdtr : option (Z * Z);
  x_tr : Z;
  x_dev : trace;
}.

(** Memory as the routine sees it; an address that is not in it is not
    mapped. The direction flag is clear, as the calling convention asks. *)
Record cpu := Cpu { regs : reg → Z; zf : bool; mem : gmap Z Z; sys : system }.

Definition upd (f : reg → Z) (r : reg) (v : Z) : reg → Z := λ r', if decide (r = r') then v else f r'.
Definition set_reg (r : reg) (v : Z) (s : cpu) : cpu := Cpu (upd (regs s) r v) (zf s) (mem s) (sys s).
Definition set_zf (b : bool) (s : cpu) : cpu := Cpu (regs s) b (mem s) (sys s).
Definition set_mem (m : gmap Z Z) (s : cpu) : cpu := Cpu (regs s) (zf s) m (sys s).
Definition set_sys (f : system → system) (s : cpu) : cpu := Cpu (regs s) (zf s) (mem s) (f (sys s)).

Definition set_seg (r : sreg) (v : Z) (y : system) : system :=
  System (λ r', if decide (r = r') then v else x_segs y r') (x_crs y) (x_cpuid y) (x_flags y) (x_idtr y) (x_gdtr y) (x_tr y) (x_dev y).
Definition set_cr (c : creg) (v : Z) (y : system) : system :=
  System (x_segs y) (λ c', if decide (c = c') then v else x_crs y c') (x_cpuid y) (x_flags y) (x_idtr y) (x_gdtr y) (x_tr y) (x_dev y).
Definition set_flags (v : Z) (y : system) : system :=
  System (x_segs y) (x_crs y) (x_cpuid y) v (x_idtr y) (x_gdtr y) (x_tr y) (x_dev y).
Definition set_idtr (v : option (Z * Z)) (y : system) : system :=
  System (x_segs y) (x_crs y) (x_cpuid y) (x_flags y) v (x_gdtr y) (x_tr y) (x_dev y).
Definition set_gdtr (v : option (Z * Z)) (y : system) : system :=
  System (x_segs y) (x_crs y) (x_cpuid y) (x_flags y) (x_idtr y) v (x_tr y) (x_dev y).
Definition set_tr (v : Z) (y : system) : system :=
  System (x_segs y) (x_crs y) (x_cpuid y) (x_flags y) (x_idtr y) (x_gdtr y) v (x_dev y).
Definition set_dev (v : trace) (y : system) : system :=
  System (x_segs y) (x_crs y) (x_cpuid y) (x_flags y) (x_idtr y) (x_gdtr y) (x_tr y) v.

Lemma upd_eq f r v : upd f r v r = v.
Proof. unfold upd. by rewrite decide_True. Qed.
Lemma upd_ne f r r' v : r ≠ r' → upd f r v r' = f r'.
Proof. intros. unfold upd. by rewrite decide_False. Qed.

(** ** Memory accesses of [n] bytes, little-endian *)

Fixpoint load_n (n : nat) (m : gmap Z Z) (a : Z) : option Z :=
  match n with
  | O => Some 0
  | S n => b ← m !! (u64 a); v ← load_n n m (a + 1); Some (b + 256 * v)
  end.
Fixpoint store_n (n : nat) (a v : Z) (m : gmap Z Z) : option (gmap Z Z) :=
  match n with
  | O => Some m
  | S n =>
      match m !! (u64 a) with
      | Some _ => store_n n (a + 1) (v / 256) (<[u64 a := v mod 256]> m)
      | None => None
      end
  end.

Definition load (n : nat) (a : Z) : M cpu Z := λ s,
  match load_n n (mem s) a with Some v => Ok v s | None => Err (PageFault a) s end.
Definition store (n : nat) (a v : Z) : M cpu () := λ s,
  match store_n n a v (mem s) with Some m => Ok () (set_mem m s) | None => Err (PageFault a) s end.

(** ** Instructions *)

Inductive operand : Set := Rg (r : reg) | Im (z : Z).

#[global] Instance operand_eq_dec : EqDecision operand.
Proof. solve_decision. Defined.

Inductive instr : Set :=
  | LABEL (l : string)
  | MOV (d : reg) (x : operand)
  | LD (d base : reg) (disp : Z)          (* mov d, [base+disp] *)
  | ST (base : reg) (disp : Z) (x : reg)  (* mov [base+disp], x *)
  | MOV_AL (z : Z)
  | ADD (d : reg) (x : operand) | SUB (d : reg) (x : operand) | XOR (d : reg) (x : reg)
  | INC (d : reg) | DEC (d : reg) | SHR (d : reg) (k : Z) | TEST (d x : reg) | TEST_AL
  | LODSB | STOSB | REP_MOVSB
  | REP_STOS (k : nat)                    (* units of [k] bytes: rep stosb, stosw, stosd *)
  | JZ (l : string) | JNZ (l : string) | JMP (l : string)
  | PUSH (x : operand) | POP (d : reg)
  | CALL (f : string) | CLI
  | CPUID | HLT | TEST_ECX (z : Z) | AND_AX (z : Z) | OR_AX (z : Z)
  | RD_CR (d : reg) (c : creg) | WR_CR (c : creg) (x : reg)
  | CMP (d x : reg) | JB (l : string) | JA (l : string) | CMOVNE (d x : reg)
  | OUT (w : Z) | IN (w : Z)              (* out dx, al/ax/eax; in al/ax/eax, dx *)
  | WRMSR | RDMSR | PUSHF
  | LIDT (base : reg) | LGDT (base : reg) | LTR
  | MOV_SEG (d : sreg)                    (* mov d, ax *)
  | MOV_AX (z : Z) | AND_EAX (z : Z) | OR (d x : reg) | SHL (d : reg) (k : Z)
  | ST16 (base : reg) (disp z : Z)        (* mov word [base+disp], z *)
  | RET | JMP_REG (x : reg) | JMP_MEM (base : reg) (disp : Z) | IRETQ.

(** Where an instruction goes on: at the next one, at itself (a [rep] prefix),
    at a label, or outside the routine. *)
Inductive next : Set := Next | Again | Goto (l : string) | Leave (rip : Z).

(** What the routines call: the C function with the call and its return, as
    one step. *)
Class Callees := callee : string → M cpu ().

Section exec.
Context `{Callees, Devices}.

Definition get (r : reg) : M cpu Z := gets (λ s, regs s r).
Definition put (r : reg) (v : Z) : M cpu () := modify (set_reg r (u64 v)).
Definition operand_value (x : operand) : M cpu Z :=
  match x with Rg r => get r | Im z => mret (u64 z) end.
(** An arithmetic result and its zero flag. *)
Definition result (d : reg) (v : Z) : M cpu next :=
  put d v;; modify (set_zf (u64 v =? 0));; mret Next.
(** The same for the low 16 bits of [rax]. *)
Definition result_ax (v : Z) : M cpu next :=
  a ← get RAX; put RAX (a / 2 ^ 16 * 2 ^ 16 + u16 v);; modify (set_zf (u16 v =? 0));; mret Next.
Definition put_al (b : Z) : M cpu () := v ← get RAX; put RAX (v / 256 * 256 + u8 b).
Definition get_al : M cpu Z := v ← get RAX; mret (u8 v).

(** The flags with the zero flag in its place. *)
Definition flags_image (s : cpu) : Z :=
  if zf s then Z.setbit (x_flags (sys s)) 6 else Z.clearbit (x_flags (sys s)) 6.
Definition put_sys (f : system → system) : M cpu () := modify (set_sys f).
(** An access to a device. *)
Definition on_dev {A} (m : M trace A) : M cpu A :=
  zoom (λ s, x_dev (sys s)) (λ t, set_sys (set_dev t)) m.
(** The operand of [lidt] and [lgdt]: a 16-bit limit and a 64-bit base. *)
Definition table_at (a : Z) : M cpu (Z * Z) :=
  limit ← load 2 a; base ← load 8 (u64 (a + 2)); mret (limit, base).

(** [hlt] stops for good, since no interrupt comes. Segment registers are loaded
    without a look at the descriptor, and [ltr] does not mark the task segment as
    busy. *)
Definition exec (i : instr) : M cpu next :=
  match i with
  | LABEL _ => mret Next
  | CLI => modify (λ s, set_sys (set_flags (Z.clearbit (x_flags (sys s)) 9)) s);; mret Next
  | CPUID => leaf ← get RAX; r ← gets (λ s, x_cpuid (sys s) (u32 leaf));
      let '(a, b, c, d) := r in put RAX (u32 a);; put RBX (u32 b);; put RCX (u32 c);; put RDX (u32 d);; mret Next
  | HLT => throw Halted
  | TEST_ECX z => v ← get RCX; modify (set_zf (Z.land (u32 v) z =? 0));; mret Next
  | AND_AX z => a ← get RAX; result_ax (Z.land (u16 a) z)
  | OR_AX z => a ← get RAX; result_ax (Z.lor (u16 a) z)
  | RD_CR d c => v ← gets (λ s, x_crs (sys s) c); put d v;; mret Next
  | WR_CR c x => v ← get x; put_sys (set_cr c v);; mret Next
  | CMP d x => a ← get d; v ← get x; modify (set_zf (a =? v));;
      modify (λ s, set_sys (set_flags
        ((if a <? v then Z.setbit else Z.clearbit) (x_flags (sys s)) 0)) s);; mret Next
  | JB l => fl ← gets (λ s, x_flags (sys s)); mret (if Z.testbit fl 0 then Goto l else Next)
  | JA l => fl ← gets (λ s, x_flags (sys s)); b ← gets zf;
      mret (if Z.testbit fl 0 || b then Next else Goto l)
  | CMOVNE d x => b ← gets zf; v ← get x; (if b : bool then mret () else put d v);; mret Next
  | OUT w => port ← get RDX; v ← get RAX;
      on_dev (modify (cons (Out w (u16 port) (wrap w v))));; mret Next
  | IN w => port ← get RDX; v ← on_dev (port_in w port); a ← get RAX;
      (* a 32-bit result clears the upper half, a shorter one is merged *)
      put RAX (if w =? 32 then v else a / 2 ^ w * 2 ^ w + v);; mret Next
  | WRMSR => r ← get RCX; hi ← get RDX; lo ← get RAX;
      on_dev (writemsr (u32 r) (2 ^ 32 * u32 hi + u32 lo));; mret Next
  | RDMSR => r ← get RCX; v ← on_dev (readmsr (u32 r));
      put RAX (u32 v);; put RDX (v / 2 ^ 32);; mret Next
  | PUSHF => v ← gets flags_image; a ← get RSP; store 8 (u64 (a - 8)) v;; put RSP (a - 8);; mret Next
  | LIDT base => a ← get base; d ← table_at a; put_sys (set_idtr (Some d));; mret Next
  | LGDT base => a ← get base; d ← table_at a; put_sys (set_gdtr (Some d));; mret Next
  | LTR => v ← get RAX; put_sys (set_tr (u16 v));; mret Next
  | MOV_SEG d => v ← get RAX; put_sys (set_seg d (u16 v));; mret Next
  | MOV_AX z => a ← get RAX; put RAX (a / 2 ^ 16 * 2 ^ 16 + u16 z);; mret Next
  | AND_EAX z => a ← get RAX; result RAX (Z.land (u32 a) (u32 z))
  | OR d x => a ← get d; v ← get x; result d (Z.lor a v)
  | SHL d k => a ← get d; result d (Z.shiftl a k)
  | ST16 base disp z => a ← get base; store 2 (u64 (a + disp)) z;; mret Next
  | MOV d x => v ← operand_value x; put d v;; mret Next
  | LD d base disp => a ← get base; v ← load 8 (u64 (a + disp)); put d v;; mret Next
  | ST base disp x => a ← get base; v ← get x; store 8 (u64 (a + disp)) v;; mret Next
  | MOV_AL z => put_al z;; mret Next
  | ADD d x => a ← get d; v ← operand_value x; result d (a + v)
  | SUB d x => a ← get d; v ← operand_value x; result d (a - v)
  | XOR d x => a ← get d; v ← get x; result d (Z.lxor a v)
  | INC d => a ← get d; result d (a + 1)
  | DEC d => a ← get d; result d (a - 1)
  | SHR d k => a ← get d; result d (Z.shiftr a k)
  | TEST d x => a ← get d; v ← get x; modify (set_zf (Z.land a v =? 0));; mret Next
  | TEST_AL => v ← get_al; modify (set_zf (v =? 0));; mret Next
  | LODSB => a ← get RSI; b ← load 1 a; put_al b;; put RSI (a + 1);; mret Next
  | STOSB => a ← get RDI; b ← get_al; store 1 a b;; put RDI (a + 1);; mret Next
  | REP_STOS k =>
      n ← get RCX;
      if n =? 0 then mret Next
      else a ← get RDI; v ← get RAX; store k a v;; put RDI (a + Z.of_nat k);; put RCX (n - 1);; mret Again
  | REP_MOVSB =>
      n ← get RCX;
      if n =? 0 then mret Next
      else a ← get RSI; b ← load 1 a; d ← get RDI; store 1 d b;;
        put RSI (a + 1);; put RDI (d + 1);; put RCX (n - 1);; mret Again
  | JZ l => b ← gets zf; mret (if b : bool then Goto l else Next)
  | JNZ l => b ← gets zf; mret (if b : bool then Next else Goto l)
  | JMP l => mret (Goto l)
  | PUSH x => v ← operand_value x; a ← get RSP; store 8 (u64 (a - 8)) v;; put RSP (a - 8);; mret Next
  | POP d => a ← get RSP; v ← load 8 a; put RSP (a + 8);; put d v;; mret Next
  | CALL f => callee f;; mret Next
  | RET => a ← get RSP; v ← load 8 a; put RSP (a + 8);; mret (Leave v)
  | JMP_REG x => v ← get x; mret (Leave v)
  | JMP_MEM base disp => a ← get base; v ← load 8 (u64 (a + disp)); mret (Leave v)
  | IRETQ =>
      (* rip, cs, rflags, rsp, ss *)
      a ← get RSP; v ← load 8 a; cs ← load 8 (u64 (a + 8)); fl ← load 8 (u64 (a + 16));
      sp ← load 8 (u64 (a + 24)); ss ← load 8 (u64 (a + 32));
      put RSP sp;; modify (set_zf (Z.testbit fl 6));;
      put_sys (λ y, set_seg CS (u16 cs) (set_seg SS (u16 ss) (set_flags fl y)));; mret (Leave v)
  end.

Definition routine : Set := list instr.

Fixpoint find_label (l : string) (p : routine) : option nat :=
  match p with
  | [] => None
  | LABEL l' :: p => if String.eqb l l' then Some O else S <$> find_label l p
  | _ :: p => S <$> find_label l p
  end.

(** The result is the address at which execution goes on outside. *)
Fixpoint run (p : routine) (fuel pc : nat) : M cpu Z :=
  match fuel with
  | O => throw NoFuel
  | S fuel =>
      match p !! pc with
      | None => throw (OutOfBounds (Z.of_nat pc))
      | Some i =>
          n ← exec i;
          match n with
          | Next => run p fuel (S pc)
          | Again => run p fuel pc
          | Goto l => match find_label l p with Some k => run p fuel k | None => throw (BadPointer 0) end
          | Leave rip => mret rip
          end
      end
  end.

(** One instruction of a run. *)
Definition goes_on (p : routine) (fuel pc : nat) (Q : Z → cpu → Prop) (n : next) (s : cpu) : Prop :=
  match n with
  | Next => returns (run p fuel (S pc)) s Q
  | Again => returns (run p fuel pc) s Q
  | Goto l => match find_label l p with Some k => returns (run p fuel k) s Q | None => False end
  | Leave rip => Q rip s
  end.

Lemma returns_step p fuel pc i s Q :
  p !! pc = Some i → returns (exec i) s (goes_on p fuel pc Q) → returns (run p (S fuel) pc) s Q.
Proof.
  intros Hi He. cbn [run]. rewrite Hi. apply returns_bind. eapply returns_mono; [exact He|].
  intros n s' Hn. destruct n as [| |l|rip]; cbn in *; [done|done| |done]. by destruct (find_label l p).
Qed.
End exec.

(** Steps through the meaning of one instruction. *)
Ltac x_step :=
  lazymatch goal with
  | |- returns (get _) _ _ => apply returns_gets; cbv beta
  | |- returns (put _ _) _ _ => apply returns_modify; cbv beta
  | |- returns get_al _ _ => unfold get_al
  | |- returns (put_al _) _ _ => unfold put_al
  | |- returns (result _ _) _ _ => unfold result
  | |- returns (result_ax _) _ _ => unfold result_ax
  | |- returns (put_sys _) _ _ => apply returns_modify; cbv beta
  | |- returns (operand_value (Rg _)) _ _ => unfold operand_value
  | |- returns (operand_value (Im _)) _ _ => unfold operand_value
  | |- _ => ret_step
  end.
Ltac x_steps := repeat x_step.

(** ** Words in memory *)

(** The 64-bit word [v] lies at [a]; [room]: the bytes from [a] on are mapped. *)
Definition word (m : gmap Z Z) (a v : Z) : Prop :=
  0 <= v < 2 ^ 64 ∧ ∀ k, 0 <= k < 8 → m !! (a + k) = Some (v / 2 ^ (8 * k) mod 256).
Definition room (m : gmap Z Z) (a n : Z) : Prop := ∀ k, 0 <= k < n → is_Some (m !! (a + k)).
(** Nothing outside [[a, b)] has changed. *)
Definition only_range (a b : Z) (m m' : gmap Z Z) : Prop :=
  (∀ x, x < a ∨ b <= x → m' !! x = m !! x) ∧ ∀ x, is_Some (m !! x) → is_Some (m' !! x).

Lemma load_n_bytes n m a v :
  0 <= a → a + Z.of_nat n <= 2 ^ 64 → 0 <= v →
  (∀ k, 0 <= k < Z.of_nat n → m !! (a + k) = Some (v / 2 ^ (8 * k) mod 256)) →
  load_n n m a = Some (v mod 2 ^ (8 * Z.of_nat n)).
Proof.
  revert a v. induction n as [|n IH]; intros a v Ha Hb Hv Hm; cbn [load_n].
  { by rewrite Z.mod_1_r. }
  rewrite wrap_small by lia. pose proof (Hm 0 ltac:(lia)) as H0'. rewrite Z.add_0_r, Z.mul_0_r, Z.div_1_r in H0'.
  rewrite H0'. cbn. rewrite (IH (a + 1) (v / 256)).
  - cbn. f_equal. replace (8 * Z.of_nat (S n)) with (8 + 8 * Z.of_nat n) by lia.
    rewrite Z.pow_add_r by lia. change (2 ^ 8) with 256.
    rewrite Z.rem_mul_r by lia. done.
  - lia.
  - lia.
  - apply Z.div_pos; lia.
  - intros k Hk. replace (a + 1 + k) with (a + (k + 1)) by lia. rewrite Hm by lia.
    rewrite Z.div_div by lia. replace (8 * (k + 1)) with (8 + 8 * k) by lia. by rewrite Z.pow_add_r by lia.
Qed.

Lemma store_n_bytes n a v m :
  0 <= a → a + Z.of_nat n <= 2 ^ 64 → room m a (Z.of_nat n) →
  ∃ m', store_n n a v m = Some m' ∧ only_range a (a + Z.of_nat n) m m' ∧
    ∀ k, 0 <= k < Z.of_nat n → m' !! (a + k) = Some (v / 2 ^ (8 * k) mod 256).
Proof.
  revert a v m. induction n as [|n IH]; intros a v m Ha Hb Hm; cbn [store_n].
  { exists m. split; [done|]. split; [by split|]. lia. }
  rewrite wrap_small by lia. pose proof (Hm 0 ltac:(lia)) as [b Hb0]. rewrite Z.add_0_r in Hb0. rewrite Hb0.
  destruct (IH (a + 1) (v / 256) (<[a := v mod 256]> m)) as (m' & E & [Ho Hs] & Hk); [lia|lia| |].
  { intros k Hk. rewrite lookup_insert_ne by lia. replace (a + 1 + k) with (a + (k + 1)) by lia. apply Hm. lia. }
  exists m'. split; [done|]. split; [split|].
  - intros x Hx. rewrite Ho by lia. by rewrite lookup_insert_ne by lia.
  - intros x Hx. apply Hs. rewrite lookup_insert. by case_decide.
  - intros k Hk'. destruct (Z.eq_dec k 0) as [->|].
    + rewrite Z.add_0_r, Z.mul_0_r, Z.div_1_r. rewrite Ho by lia. by rewrite lookup_insert_eq.
    + replace (a + k) with (a + 1 + (k - 1)) by lia. rewrite Hk by lia. rewrite Z.div_div by lia.
      do 2 f_equal. replace (8 * k) with (8 + 8 * (k - 1)) by lia. by rewrite Z.pow_add_r by lia.
Qed.

(** Bytes in memory. *)
Definition bytes_at (m : gmap Z Z) (a : Z) (bs : list Z) : Prop :=
  ∀ i b, bs !! i = Some b → m !! (a + Z.of_nat i) = Some b.

Lemma word_agree m m' a v : word m a v → (∀ k, 0 <= k < 8 → m' !! (a + k) = m !! (a + k)) → word m' a v.
Proof. intros [Hv Hm] He. split; [done|]. intros k Hk. by rewrite He, Hm. Qed.

Lemma word_room m a v : word m a v → room m a 8.
Proof. intros [_ Hm] k Hk. by rewrite Hm. Qed.

Lemma word_only_range a b m m' c v : only_range a b m m' → word m c v → c + 8 <= a ∨ b <= c → word m' c v.
Proof. intros [Ho _] Hw Hc. eapply word_agree; [done|]. intros k Hk. apply Ho. lia. Qed.

Lemma room_only_range a b m m' c n : only_range a b m m' → room m c n → room m' c n.
Proof. intros [_ Hs] Hr k Hk. by apply Hs, Hr. Qed.

Lemma only_range_trans a b c d m1 m2 m3 :
  only_range a b m1 m2 → only_range c d m2 m3 → only_range (Z.min a c) (Z.max b d) m1 m3.
Proof.
  intros [O1 S1] [O2 S2]. split; [|auto]. intros x Hx. rewrite O2 by lia. apply O1. lia.
Qed.

Lemma only_range_weaken a b c d m m' : only_range a b m m' → c <= a → b <= d → only_range c d m m'.
Proof. intros [Ho Hs] ??. split; [|done]. intros x Hx. apply Ho. lia. Qed.

Lemma only_range_refl a b m : only_range a b m m.
Proof. by split. Qed.

Lemma returns_load s a v (Q : Z → cpu → Prop) :
  0 <= a <= 2 ^ 64 - 8 → word (mem s) a v → Q v s → returns (load 8 a) s Q.
Proof.
  intros Ha [Hv Hm] HQ. unfold returns, load.
  rewrite (load_n_bytes 8 (mem s) a v) by (done || lia || (apply Hm; lia)).
  rewrite Z.mod_small by lia. done.
Qed.

Lemma returns_load1 s a v (Q : Z → cpu → Prop) :
  0 <= a < 2 ^ 64 → mem s !! a = Some v → 0 <= v < 256 → Q v s → returns (load 1 a) s Q.
Proof.
  intros Ha Hm Hv HQ. assert (E : load_n 1 (mem s) a = Some v).
  { cbn [load_n]. rewrite wrap_small by lia. rewrite Hm. unfold mbind, option_bind. f_equal. lia. }
  unfold returns, load. by rewrite E.
Qed.

Lemma returns_store s a v (Q : () → cpu → Prop) :
  0 <= a <= 2 ^ 64 - 8 → room (mem s) a 8 → 0 <= v < 2 ^ 64 →
  (∀ m, only_range a (a + 8) (mem s) m → word m a v → Q () (set_mem m s)) → returns (store 8 a v) s Q.
Proof.
  intros Ha Hr Hv HQ. destruct (store_n_bytes 8 a v (mem s)) as (m & E & Ho & Hk); [lia|lia|done|].
  unfold returns, store. rewrite E. apply HQ; [done|]. by split.
Qed.

(** The low [n] bytes of [v], and what a store of [n] bytes leaves. *)
Definition le_bytes (n : nat) (v : Z) : list Z := (λ i, v / 2 ^ (8 * Z.of_nat i) mod 256) <$> seq 0 n.

Lemma returns_store_n n s a v (Q : () → cpu → Prop) :
  0 <= a → a + Z.of_nat n <= 2 ^ 64 → room (mem s) a (Z.of_nat n) →
  (∀ m, only_range a (a + Z.of_nat n) (mem s) m → bytes_at m a (le_bytes n v) → Q () (set_mem m s)) →
  returns (store n a v) s Q.
Proof.
  intros Ha He Hr HQ. destruct (store_n_bytes n a v (mem s)) as (m & E & Ho & Hk); [done..|].
  unfold returns, store. rewrite E. apply HQ; [done|]. intros i b Hi. unfold le_bytes in Hi.
  rewrite list_lookup_fmap in Hi. destruct (seq 0 n !! i) as [j|] eqn:Hj; [|done].
  apply lookup_seq in Hj as [-> Hj]. cbn in Hi. injection Hi as <-. apply Hk. lia.
Qed.

Lemma returns_store1 s a v (Q : () → cpu → Prop) :
  0 <= a < 2 ^ 64 → is_Some (mem s !! a) → 0 <= v < 256 →
  Q () (set_mem (<[a := v]> (mem s)) s) → returns (store 1 a v) s Q.
Proof.
  intros Ha [b Hb] Hv HQ. unfold returns, store. cbn [store_n]. rewrite wrap_small by lia. rewrite Hb.
  by rewrite Z.mod_small by lia.
Qed.

(** Several words. *)
Definition words_at (m : gmap Z Z) (a : Z) (ws : list Z) : Prop :=
  ∀ i w, ws !! i = Some w → word m (a + 8 * Z.of_nat i) w.

Lemma words_at_split m a xs ys :
  words_at m a (xs ++ ys) ↔ words_at m a xs ∧ words_at m (a + 8 * Z.of_nat (length xs)) ys.
Proof.
  split.
  - intros Hw. split.
    + intros i w Hi. apply Hw. by apply lookup_app_l_Some.
    + intros i w Hi. replace (a + 8 * Z.of_nat (length xs) + 8 * Z.of_nat i)
        with (a + 8 * Z.of_nat (length xs + i)) by lia.
      apply Hw. rewrite lookup_app_r by lia. by replace (length xs + i - length xs)%nat with i by lia.
  - intros [Hx Hy] i w Hi. apply lookup_app_Some in Hi as [Hi|[Hle Hi]]; [by apply Hx|].
    replace (a + 8 * Z.of_nat i) with
      (a + 8 * Z.of_nat (length xs) + 8 * Z.of_nat (i - length xs)) by lia. by apply Hy.
Qed.

Lemma words_at_only m m' a b c ws :
  only_range a b m m' → words_at m c ws → c + 8 * Z.of_nat (length ws) <= a ∨ b <= c → words_at m' c ws.
Proof.
  intros Ho Hw Hc i w Hi. pose proof (lookup_lt_Some _ _ _ Hi).
  eapply word_only_range; [exact Ho|by apply Hw|]. lia.
Qed.

Lemma words_at_agree m m' a ws : words_at m a ws → (∀ x, a <= x → m' !! x = m !! x) → words_at m' a ws.
Proof. intros Hw He i w Hi. eapply word_agree; [by apply Hw|]. intros k Hk. apply He. lia. Qed.

(** ** Blocks of pushes and pops *)

Section blocks.
Context `{Callees, Devices}.

(** Registers hold 64-bit values. *)
Definition bounded (s : cpu) : Prop := ∀ r, 0 <= regs s r < 2 ^ 64.
Definition value_of (s : cpu) (x : operand) : Z := match x with Rg r => regs s r | Im z => u64 z end.

Lemma value_of_bounds s x : bounded s → 0 <= value_of s x < 2 ^ 64.
Proof. intros Hb. destruct x; [apply Hb|apply wrap_bounds; lia]. Qed.

Record pushed (xs : list operand) (s s' : cpu) : Prop := {
  pu_regs : ∀ r, r ≠ RSP → regs s' r = regs s r;
  pu_rsp : regs s' RSP = regs s RSP - 8 * Z.of_nat (length xs);
  pu_words : ∀ i x, xs !! i = Some x → word (mem s') (regs s RSP - 8 * (Z.of_nat i + 1)) (value_of s x);
  pu_mem : only_range (regs s RSP - 8 * Z.of_nat (length xs)) (regs s RSP) (mem s) (mem s');
}.

Lemma pushed_bounded xs s s' : pushed xs s s' → bounded s → 8 * Z.of_nat (length xs) <= regs s RSP → bounded s'.
Proof.
  intros P Hb Hr r. destruct (decide (r = RSP)) as [->|Hne].
  - rewrite (pu_rsp _ _ _ P). specialize (Hb RSP). lia.
  - rewrite (pu_regs _ _ _ P) by done. apply Hb.
Qed.

Lemma exec_push p fuel pc x s Q :
  p !! pc = Some (PUSH x) → bounded s → 8 <= regs s RSP → room (mem s) (regs s RSP - 8) 8 →
  (∀ m, only_range (regs s RSP - 8) (regs s RSP) (mem s) m → word m (regs s RSP - 8) (value_of s x) →
    returns (run p fuel (S pc)) (Cpu (upd (regs s) RSP (regs s RSP - 8)) (zf s) m (sys s)) Q) →
  returns (run p (S fuel) pc) s Q.
Proof.
  intros Hi Hb Hr Hm HQ. pose proof (Hb RSP) as Hs. eapply returns_step; [exact Hi|]. cbn [exec].
  apply returns_bind. assert (returns (operand_value x) s (λ v s', v = value_of s x ∧ s' = s)) as Hv
    by by destruct x. eapply returns_mono; [exact Hv|]. intros v s' [-> ->]. x_steps.
  rewrite wrap_small by lia. eapply returns_store; [lia|done|by apply value_of_bounds|].
  intros m Ho Hw. x_steps. cbn [goes_on]. unfold set_reg, set_mem. cbn [regs zf mem].
  rewrite (wrap_small 64 (_ - 8)) by lia. apply HQ; [|done].
  eapply only_range_weaken; [exact Ho|lia|lia].
Qed.

(** A register set to a 64-bit value. *)
Lemma bounded_upd s r v z m y : bounded s → 0 <= v < 2 ^ 64 → bounded (Cpu (upd (regs s) r v) z m y).
Proof. intros Hb Hv r'. cbn. unfold upd. case_decide; [done|apply Hb]. Qed.

Lemma exec_pushf p fuel pc s Q :
  p !! pc = Some PUSHF → bounded s → 0 <= flags_image s < 2 ^ 64 → 8 <= regs s RSP → room (mem s) (regs s RSP - 8) 8 →
  (∀ m, only_range (regs s RSP - 8) (regs s RSP) (mem s) m → word m (regs s RSP - 8) (flags_image s) →
    returns (run p fuel (S pc)) (Cpu (upd (regs s) RSP (regs s RSP - 8)) (zf s) m (sys s)) Q) →
  returns (run p (S fuel) pc) s Q.
Proof.
  intros Hi Hb Hfl Hr Hm HQ. pose proof (Hb RSP) as Hs. eapply returns_step; [exact Hi|]. cbn [exec]. x_steps.
  rewrite wrap_small by lia. eapply returns_store; [lia|done|done|].
  intros m Ho Hw. x_steps. cbn [goes_on]. unfold set_reg, set_mem. cbn [regs zf mem sys].
  rewrite (wrap_small 64 (_ - 8)) by lia. apply HQ; [|done].
  eapply only_range_weaken; [exact Ho|lia|lia].
Qed.

(** What [iretq] does with the five words of its frame. *)
Lemma exec_iretq p fuel pc s (rip cs fl sp ss : Z) (Q : Z → cpu → Prop) :
  p !! pc = Some IRETQ → bounded s → regs s RSP + 40 < 2 ^ 64 →
  words_at (mem s) (regs s RSP) [rip; cs; fl; sp; ss] →
  Q rip (set_sys (λ y, set_seg CS (u16 cs) (set_seg SS (u16 ss) (set_flags fl y)))
    (set_zf (Z.testbit fl 6) (set_reg RSP sp s))) →
  returns (run p (S fuel) pc) s Q.
Proof.
  intros Hi Hb Hr Hw HQ. pose proof (Hb RSP). eapply returns_step; [exact Hi|]. cbn [exec]. x_steps.
  rewrite !(wrap_small 64 (regs s RSP + _)) by lia.
  pose proof (Hw 0%nat _ eq_refl) as W0. rewrite Z.add_0_r in W0.
  pose proof (Hw 1%nat _ eq_refl) as W1. pose proof (Hw 2%nat _ eq_refl) as W2.
  pose proof (Hw 3%nat _ eq_refl) as W3. pose proof (Hw 4%nat _ eq_refl) as W4.
  eapply returns_load; [lia|exact W0|]. x_steps. eapply returns_load; [lia|exact W1|]. x_steps.
  eapply returns_load; [lia|exact W2|]. x_steps. eapply returns_load; [lia|exact W3|]. x_steps.
  eapply returns_load; [lia|exact W4|]. x_steps. cbn [goes_on].
  rewrite (wrap_small 64 sp) by apply W3. exact HQ.
Qed.

Lemma returns_pushes p xs fuel pc s Q :
  take (length xs) (drop pc p) = PUSH <$> xs → Rg RSP ∉ xs → bounded s →
  8 * Z.of_nat (length xs) <= regs s RSP →
  room (mem s) (regs s RSP - 8 * Z.of_nat (length xs)) (8 * Z.of_nat (length xs)) →
  (∀ s', pushed xs s s' → returns (run p fuel (pc + length xs)) s' Q) →
  returns (run p (length xs + fuel) pc) s Q.
Proof.
  revert pc s. induction xs as [|x xs IH]; intros pc s Hp Hn Hb Hr Hm HQ.
  { replace pc with (pc + length (@nil operand))%nat by (cbn; lia). apply HQ.
    split; [done|cbn; lia|done|apply only_range_refl]. }
  cbn [length] in *. assert (Hpc : p !! pc = Some (PUSH x)).
  { destruct (drop pc p) as [|i q] eqn:E; [done|]. cbn in Hp. injection Hp as -> _.
    rewrite <- (Nat.add_0_r pc), <- lookup_drop, E. done. }
  apply not_elem_of_cons in Hn as [Hx Hn]. pose proof (Hb RSP) as Hs.
  change (S (length xs) + fuel)%nat with (S (length xs + fuel)).
  apply (exec_push p _ pc x s); [done|done|lia| |].
  { intros k Hk. replace (regs s RSP - 8 + k) with
      (regs s RSP - 8 * Z.of_nat (S (length xs)) + (8 * Z.of_nat (length xs) + k)) by lia. apply Hm. lia. }
  intros m Ho Hw. set (s1 := Cpu _ _ _ _).
  assert (E1 : regs s1 RSP = regs s RSP - 8) by apply upd_eq.
  assert (E2 : ∀ r, r ≠ RSP → regs s1 r = regs s r) by (intros r Hne; by apply upd_ne).
  assert (Ev : ∀ y, y ∈ xs → value_of s1 y = value_of s y).
  { intros [r|z] Hy; [|done]. apply E2. by intros ->. }
  apply IH; [|done| |lia| |].
  - replace (S pc) with (pc + 1)%nat by lia. rewrite <- drop_drop. destruct (drop pc p); [done|].
    cbn in *. by injection Hp.
  - intros r. destruct (decide (r = RSP)) as [->|Hne]; [lia|]. rewrite E2 by done. apply Hb.
  - eapply room_only_range; [exact Ho|]. intros k Hk. rewrite E1.
    replace (regs s RSP - 8 - 8 * Z.of_nat (length xs) + k) with
      (regs s RSP - 8 * Z.of_nat (S (length xs)) + k) by lia. apply Hm. lia.
  - intros s' [P1 P2 P3 P4]. replace (S pc + length xs)%nat with (pc + S (length xs))%nat by lia.
    apply HQ. split.
    + intros r Hne. rewrite P1 by done. by apply E2.
    + rewrite P2, E1. cbn [length]. lia.
    + intros [|i] y Hy; cbn in Hy.
      * injection Hy as <-. eapply word_only_range; [exact P4| |lia].
        replace (regs s RSP - 8 * (Z.of_nat 0 + 1)) with (regs s RSP - 8) by lia. done.
      * rewrite <- Ev by (by eapply list_elem_of_lookup_2). specialize (P3 i y Hy). rewrite E1 in P3.
        by replace (regs s RSP - 8 * (Z.of_nat (S i) + 1)) with (regs s RSP - 8 - 8 * (Z.of_nat i + 1)) by lia.
    + rewrite E1 in P4. eapply only_range_weaken; [exact (only_range_trans _ _ _ _ _ _ _ Ho P4)|cbn [length]; lia|cbn [length]; lia].
Qed.

Record popped (rs : list reg) (vs : list Z) (s s' : cpu) : Prop := {
  po_regs : ∀ r, r ≠ RSP → r ∉ rs → regs s' r = regs s r;
  po_rsp : regs s' RSP = regs s RSP + 8 * Z.of_nat (length rs);
  po_vals : ∀ i r v, rs !! i = Some r → vs !! i = Some v → regs s' r = v;
  po_mem : mem s' = mem s;
}.

Lemma returns_pops p rs vs fuel pc s Q :
  take (length rs) (drop pc p) = POP <$> rs → NoDup rs → RSP ∉ rs → length vs = length rs →
  0 <= regs s RSP → regs s RSP + 8 * Z.of_nat (length rs) < 2 ^ 64 →
  (∀ i v, vs !! i = Some v → word (mem s) (regs s RSP + 8 * Z.of_nat i) v) →
  (∀ s', popped rs vs s s' → returns (run p fuel (pc + length rs)) s' Q) →
  returns (run p (length rs + fuel) pc) s Q.
Proof.
  revert vs pc s. induction rs as [|r rs IH]; intros vs pc s Hp Hnd Hn Hl Hs Hr Hw HQ.
  { replace pc with (pc + length (@nil reg))%nat by (cbn; lia). apply HQ. by split; [done|cbn; lia|..]. }
  destruct vs as [|v vs]; [done|]. cbn [length] in *. apply NoDup_cons in Hnd as [Hr' Hnd].
  apply not_elem_of_cons in Hn as [Hne Hn]. assert (Hpc : p !! pc = Some (POP r)).
  { destruct (drop pc p) as [|i q] eqn:E; [done|]. cbn in Hp. injection Hp as -> _.
    rewrite <- (Nat.add_0_r pc), <- lookup_drop, E. done. }
  change (S (length rs) + fuel)%nat with (S (length rs + fuel)).
  pose proof (Hw O v eq_refl) as Hw0. rewrite Z.add_0_r in Hw0.
  eapply returns_step; [exact Hpc|]. cbn [exec]. x_steps.
  eapply returns_load; [lia|exact Hw0|]. x_steps. cbn [goes_on].
  rewrite (wrap_small 64 v) by apply Hw0. rewrite (wrap_small 64 (_ + 8)) by lia.
  set (s1 := set_reg r v _).
  assert (E1 : regs s1 RSP = regs s RSP + 8) by (unfold s1, set_reg; cbn; by rewrite upd_ne, upd_eq).
  assert (E2 : regs s1 r = v) by apply upd_eq.
  assert (E3 : ∀ r', r' ≠ RSP → r' ≠ r → regs s1 r' = regs s r').
  { intros r' ??. unfold s1, set_reg. cbn. by rewrite !upd_ne. }
  apply (IH vs); [|done|done|lia|lia|lia| |].
  - replace (S pc) with (pc + 1)%nat by lia. rewrite <- drop_drop. destruct (drop pc p); [done|].
    cbn in *. by injection Hp.
  - intros i w Hi. rewrite E1. change (mem s1) with (mem s).
    replace (regs s RSP + 8 + 8 * Z.of_nat i) with (regs s RSP + 8 * Z.of_nat (S i)) by lia. by apply Hw.
  - intros s' [P1 P2 P3 P4]. replace (S pc + length rs)%nat with (pc + S (length rs))%nat by lia.
    apply HQ. split.
    + intros r' H1' [H2' H3']%not_elem_of_cons. rewrite P1 by done. by apply E3.
    + rewrite P2, E1. cbn [length]. lia.
    + intros [|i] r' w Hi Hv; cbn in *.
      * simplify_eq. rewrite P1 by done. done.
      * by eapply P3.
    + by rewrite P4.
Qed.

(** The calling convention: [f], called with [ok], gives back the registers
    that it must preserve and the stack above its frame. *)
Definition respects_abi (f : string) (ok : cpu → Prop) : Prop :=
  ∀ t, ok t → bounded t → returns (callee f) t (λ _ t', bounded t' ∧
    (∀ r, r ∈ [RSP; RBX; RBP; R12; R13; R14; R15] → regs t' r = regs t r) ∧
    (∀ x, regs t RSP <= x → mem t' !! x = mem t !! x)).
End blocks.
