(* ===== verification/AsmLib.v ===== *)
(** The assembly routines of [src/lib/] on the processor of [X86]:
    [strlen.asm], [strcpy.asm], [strncpy.asm], [memcpy.asm], [memset.asm] and
    [setjmp.asm]. *)

From S2P Require Import Prelude Io X86.

Open Scope Z_scope.

(** ** The code *)

Definition strlen_asm : routine :=
  [XOR RAX RAX; MOV RCX (Rg RAX); MOV RSI (Rg RDI);
   LABEL ".loop"; LODSB; TEST_AL; JZ ".done"; INC RCX; JMP ".loop";
   LABEL ".done"; MOV RAX (Rg RCX); RET].

Definition strcpy_asm : routine :=
  [XOR RAX RAX; MOV RCX (Rg RAX);
   LABEL ".l1"; LODSB; TEST_AL; JZ ".done"; STOSB; JMP ".l1";
   LABEL ".done"; RET].

Definition strncpy_asm : routine :=
  [PUSH (Rg RBP); MOV RBP (Rg RSP); SUB RSP (Im 8); ST RSP (-8) RDI; XOR RAX RAX;
   LABEL ".l1"; LODSB; TEST_AL; JZ ".done"; STOSB; DEC RDX; TEST RDX RDX; JNZ ".l1";
   LABEL ".done"; MOV RCX (Rg RDX); MOV_AL 0; REP_STOS 1;
   LD RAX RSP (-8); ADD RSP (Im 8); MOV RSP (Rg RBP); POP RBP; RET].

Definition memcpy_asm : routine := [MOV RCX (Rg RDX); REP_MOVSB; RET].
Definition memset_asm : routine := [MOV RAX (Rg RSI); MOV RCX (Rg RDX); REP_STOS 1; RET].
Definition memsetw_asm : routine := [MOV RAX (Rg RSI); MOV RCX (Rg RDX); SHR RCX 1; REP_STOS 2; RET].
Definition memsetd_asm : routine := [MOV RAX (Rg RSI); MOV RCX (Rg RDX); SHR RCX 2; REP_STOS 4; RET].

Definition setjmp_asm : routine :=
  [POP RSI; XOR RAX RAX; ST RDI 0x00 RBX; ST RDI 0x08 RSP; PUSH (Rg RSI); ST RDI 0x10 RBP;
   ST RDI 0x18 R12; ST RDI 0x20 R13; ST RDI 0x28 R14; ST RDI 0x30 R15; ST RDI 0x38 RSI; RET].

Definition longjmp_asm : routine :=
  [MOV RAX (Rg RSI); LD RBX RDI 0x00; LD RSP RDI 0x08; LD RBP RDI 0x10; LD R12 RDI 0x18;
   LD R13 RDI 0x20; LD R14 RDI 0x28; LD R15 RDI 0x30; JMP_MEM RDI 0x38].

(** A string: bytes that are not zero, then a zero. *)
Definition string_at (m : gmap Z Z) (a : Z) (bs : list Z) : Prop :=
  Forall (λ b, 0 < b < 256) bs ∧ bytes_at m a (bs ++ [0]).

(** What the calling convention asks a routine to give back. *)
Definition callee_saved : list reg := [RBX; RBP; R12; R13; R14; R15].
Definition scratch : list reg := [RAX; RCX; RDX; RSI; RDI; R8; R9; R10; R11].
Definition returns_to (s t : cpu) (ret target : Z) : Prop :=
  target = ret ∧ regs t RSP = regs s RSP + 8 ∧ ∀ r, r ∈ callee_saved → regs t r = regs s r.

(** Registers after updates. *)
Ltac x_regs :=
  cbn [regs mem zf sys set_reg set_zf set_mem set_sys]; repeat first [rewrite upd_eq | rewrite upd_ne by done].

(** Bytes of memory. *)
Lemma bytes_at_nil m a : bytes_at m a [].
Proof. intros i b Hi. done. Qed.
Lemma bytes_at_cons m a b bs : bytes_at m a (b :: bs) ↔ m !! a = Some b ∧ bytes_at m (a + 1) bs.
Proof.
  split.
  - intros Hb. split; [rewrite <- (Z.add_0_r a); by apply (Hb O)|].
    intros i c Hi. replace (a + 1 + Z.of_nat i) with (a + Z.of_nat (S i)) by lia. by apply Hb.
  - intros [H0' Hb] [|i] c Hi; cbn in Hi; [simplify_eq; by rewrite Z.add_0_r|].
    replace (a + Z.of_nat (S i)) with (a + 1 + Z.of_nat i) by lia. by apply Hb.
Qed.
Lemma bytes_at_app m a xs ys :
  bytes_at m a (xs ++ ys) ↔ bytes_at m a xs ∧ bytes_at m (a + Z.of_nat (length xs)) ys.
Proof.
  revert a. induction xs as [|x xs IH]; intros a; cbn [app length].
  { rewrite Z.add_0_r. split; [by split; [apply bytes_at_nil|]|by intros [_ ?]]. }
  rewrite !bytes_at_cons, IH. replace (a + 1 + Z.of_nat (length xs)) with (a + Z.of_nat (S (length xs))) by lia. tauto.
Qed.
Lemma bytes_at_only c d m m' a bs :
  only_range c d m m' → bytes_at m a bs → a + Z.of_nat (length bs) <= c ∨ d <= a → bytes_at m' a bs.
Proof.
  intros [Ho _] Hb Hd i b Hi. pose proof (lookup_lt_Some _ _ _ Hi). rewrite Ho by lia. by apply Hb.
Qed.
Lemma only_range_insert a b v m : a <= b < a + 1 → is_Some (m !! b) → only_range a (a + 1) m (<[b := v]> m).
Proof.
  intros Hb Hs. split.
  - intros x Hx. by rewrite lookup_insert_ne by lia.
  - intros x Hx. rewrite lookup_insert. by case_decide.
Qed.
Lemma room_cons m a n : 0 <= n → room m a (Z.succ n) → is_Some (m !! a) ∧ room m (a + 1) n.
Proof.
  intros Hn Hr. split; [rewrite <- (Z.add_0_r a); apply Hr; lia|].
  intros k Hk. replace (a + 1 + k) with (a + (k + 1)) by lia. apply Hr. lia.
Qed.
(** A byte stored at [a], and the rest of a copy behind it. *)
Lemma only_range_step a n v m m' :
  0 <= n → is_Some (m !! a) → only_range (a + 1) (a + 1 + n) (<[a := v]> m) m' →
  only_range a (a + Z.succ n) m m' ∧ m' !! a = Some v.
Proof.
  intros Hn Hs Ho. split.
  - eapply only_range_weaken; [exact (only_range_trans _ _ _ _ _ _ _ (only_range_insert a a v m ltac:(lia) Hs) Ho)|lia|lia].
  - rewrite (proj1 Ho) by lia. by rewrite lookup_insert_eq.
Qed.

(** A register that is not among those that have changed. *)
Ltac x_same := intros; unfold scratch in *; x_regs; rewrite ?upd_ne by set_solver; done.
Ltac x_kept H := intros ?r ?Hr; unfold scratch in *; x_regs; rewrite ?upd_ne by set_solver; rewrite H by set_solver; x_same.

Section lib.
Context `{Callees, Devices}.

(** ** Single instructions *)

Lemma exec_lodsb p fuel pc s b Q :
  p !! pc = Some LODSB → mem s !! regs s RSI = Some b → 0 <= b < 256 → 0 <= regs s RSI < 2 ^ 64 - 1 →
  0 <= regs s RAX < 256 →
  returns (run p fuel (S pc)) (set_reg RSI (regs s RSI + 1) (set_reg RAX b s)) Q →
  returns (run p (S fuel) pc) s Q.
Proof.
  intros Hi Hm Hb Hs Ha HQ. eapply returns_step; [exact Hi|]. cbn [exec]. x_steps.
  eapply returns_load1; [lia|exact Hm|done|]. x_steps. cbn [goes_on].
  rewrite (Z.div_small (regs s RAX)), Z.mul_0_l, Z.add_0_l, (wrap_small 8 b) by lia.
  rewrite (wrap_small 64 b), (wrap_small 64 (_ + 1)) by lia. exact HQ.
Qed.

Lemma exec_stosb p fuel pc s Q :
  p !! pc = Some STOSB → is_Some (mem s !! regs s RDI) → 0 <= regs s RDI < 2 ^ 64 - 1 → 0 <= regs s RAX < 256 →
  returns (run p fuel (S pc)) (set_reg RDI (regs s RDI + 1) (set_mem (<[regs s RDI := regs s RAX]> (mem s)) s)) Q →
  returns (run p (S fuel) pc) s Q.
Proof.
  intros Hi Hm Hs Ha HQ. eapply returns_step; [exact Hi|]. cbn [exec]. x_steps.
  rewrite (wrap_small 8 (regs s RAX)) by lia.
  apply returns_store1; [lia|done|done|]. x_steps. cbn [goes_on].
  rewrite (wrap_small 64 (_ + 1)) by lia. exact HQ.
Qed.

Lemma exec_test_al p fuel pc s Q :
  p !! pc = Some TEST_AL → 0 <= regs s RAX < 256 →
  returns (run p fuel (S pc)) (set_zf (regs s RAX =? 0) s) Q → returns (run p (S fuel) pc) s Q.
Proof.
  intros Hi Ha HQ. eapply returns_step; [exact Hi|]. cbn [exec]. x_steps. cbn [goes_on].
  by rewrite (wrap_small 8 (regs s RAX)) by lia.
Qed.

Lemma exec_jz p fuel pc l k s Q :
  p !! pc = Some (JZ l) → find_label l p = Some k →
  returns (run p fuel (if zf s then k else S pc)) s Q → returns (run p (S fuel) pc) s Q.
Proof.
  intros Hi Hl HQ. eapply returns_step; [exact Hi|]. cbn [exec]. x_steps.
  destruct (zf s); cbn; by rewrite ?Hl.
Qed.

Lemma exec_jnz p fuel pc l k s Q :
  p !! pc = Some (JNZ l) → find_label l p = Some k →
  returns (run p fuel (if zf s then S pc else k)) s Q → returns (run p (S fuel) pc) s Q.
Proof.
  intros Hi Hl HQ. eapply returns_step; [exact Hi|]. cbn [exec]. x_steps.
  destruct (zf s); cbn; by rewrite ?Hl.
Qed.

Lemma exec_jmp p fuel pc l k s Q :
  p !! pc = Some (JMP l) → find_label l p = Some k → returns (run p fuel k) s Q →
  returns (run p (S fuel) pc) s Q.
Proof. intros Hi Hl HQ. eapply returns_step; [exact Hi|]. cbn [exec]. x_steps. cbn. by rewrite Hl. Qed.

Lemma exec_label p fuel pc l s Q :
  p !! pc = Some (LABEL l) → returns (run p fuel (S pc)) s Q → returns (run p (S fuel) pc) s Q.
Proof. intros Hi HQ. by eapply returns_step. Qed.

Lemma exec_mov p fuel pc d x s Q :
  p !! pc = Some (MOV d (Rg x)) → 0 <= regs s x < 2 ^ 64 →
  returns (run p fuel (S pc)) (set_reg d (regs s x) s) Q → returns (run p (S fuel) pc) s Q.
Proof.
  intros Hi Hx HQ. eapply returns_step; [exact Hi|]. cbn [exec]. x_steps. cbn [goes_on].
  by rewrite (wrap_small 64 (regs s x)).
Qed.

Lemma exec_clear p fuel pc d s Q :
  p !! pc = Some (XOR d d) →
  returns (run p fuel (S pc)) (set_zf true (set_reg d 0 s)) Q → returns (run p (S fuel) pc) s Q.
Proof.
  intros Hi HQ. eapply returns_step; [exact Hi|]. cbn [exec]. x_steps. cbn [goes_on].
  rewrite Z.lxor_nilpotent. exact HQ.
Qed.

Lemma exec_ret p fuel pc s ret (Q : Z → cpu → Prop) :
  p !! pc = Some RET → word (mem s) (regs s RSP) ret → 0 <= regs s RSP → regs s RSP + 8 < 2 ^ 64 →
  Q ret (set_reg RSP (regs s RSP + 8) s) → returns (run p (S fuel) pc) s Q.
Proof.
  intros Hi Hw H0' Hr HQ. eapply returns_step; [exact Hi|]. cbn [exec]. x_steps.
  eapply returns_load; [lia|exact Hw|]. x_steps. cbn [goes_on]. by rewrite (wrap_small 64 (_ + 8)) by lia.
Qed.

Lemma exec_pop p fuel pc d v s Q :
  p !! pc = Some (POP d) → word (mem s) (regs s RSP) v → 0 <= regs s RSP → regs s RSP + 8 < 2 ^ 64 →
  returns (run p fuel (S pc)) (set_reg d v (set_reg RSP (regs s RSP + 8) s)) Q → returns (run p (S fuel) pc) s Q.
Proof.
  intros Hi Hw Hp1 Hp2 HQ. eapply returns_step; [exact Hi|]. cbn [exec]. x_steps.
  eapply returns_load; [lia|exact Hw|]. x_steps. cbn [goes_on].
  rewrite (wrap_small 64 v) by apply Hw. by rewrite (wrap_small 64 (_ + 8)) by lia.
Qed.

Lemma exec_st p fuel pc base disp x s Q :
  p !! pc = Some (ST base disp x) → 0 <= regs s base + disp <= 2 ^ 64 - 8 → 0 <= regs s x < 2 ^ 64 →
  room (mem s) (regs s base + disp) 8 →
  (∀ m, only_range (regs s base + disp) (regs s base + disp + 8) (mem s) m →
    word m (regs s base + disp) (regs s x) → returns (run p fuel (S pc)) (set_mem m s) Q) →
  returns (run p (S fuel) pc) s Q.
Proof.
  intros Hi Ha Hx Hr HQ. eapply returns_step; [exact Hi|]. cbn [exec]. x_steps.
  rewrite wrap_small by lia. apply returns_store; [done|done|done|]. intros m Ho Hw. x_steps. cbn. by apply HQ.
Qed.

Lemma exec_ld p fuel pc d base disp v s Q :
  p !! pc = Some (LD d base disp) → 0 <= regs s base + disp <= 2 ^ 64 - 8 →
  word (mem s) (regs s base + disp) v →
  returns (run p fuel (S pc)) (set_reg d v s) Q → returns (run p (S fuel) pc) s Q.
Proof.
  intros Hi Ha Hw HQ. eapply returns_step; [exact Hi|]. cbn [exec]. x_steps.
  rewrite wrap_small by lia. eapply returns_load; [done|exact Hw|]. x_steps. cbn [goes_on].
  by rewrite (wrap_small 64 v) by apply Hw.
Qed.

(** The end of a routine that has left alone all but the scratch registers. *)
Lemma exec_leave p fuel pc s t ret (P : cpu → Prop) :
  p !! pc = Some RET → (∀ r, r ∉ scratch → regs t r = regs s r) →
  word (mem t) (regs s RSP) ret → 0 <= regs s RSP → regs s RSP + 8 < 2 ^ 64 →
  P (set_reg RSP (regs s RSP + 8) t) →
  returns (run p (S fuel) pc) t (λ target u, returns_to s u ret target ∧ P u).
Proof.
  intros Hi Hrt Hw H1 H2 HP. assert (Hsp : regs t RSP = regs s RSP) by by apply Hrt, (bool_decide_unpack _).
  eapply exec_ret; [exact Hi|by rewrite Hsp|lia|lia|]. rewrite Hsp. split; [|exact HP].
  split; [done|]. split; [by x_regs|]. intros r Hr. unfold callee_saved, scratch in *. x_regs.
  rewrite upd_ne by set_solver. apply Hrt. set_solver.
Qed.

(** ** strlen *)

Lemma string_cons m a b bs : string_at m a (b :: bs) → m !! a = Some b ∧ 0 < b < 256 ∧ string_at m (a + 1) bs.
Proof.
  intros [Hf Hb]. apply Forall_cons in Hf as [Hb0 Hf].
  split; [|split; [done|split; [done|]]].
  - specialize (Hb 0%nat b eq_refl). by rewrite Z.add_0_r in Hb.
  - intros i c Hi. replace (a + 1 + Z.of_nat i) with (a + Z.of_nat (S i)) by lia. by apply Hb.
Qed.

Lemma string_nil m a : string_at m a [] → m !! a = Some 0.
Proof. intros [_ Hb]. specialize (Hb 0%nat 0 eq_refl). by rewrite Z.add_0_r in Hb. Qed.

(** The loop of [strlen], from its label to the instruction behind it. *)
Lemma strlen_loop bs : ∀ s fuel Q,
  string_at (mem s) (regs s RSI) bs → 0 <= regs s RSI → regs s RSI + Z.of_nat (length bs) < 2 ^ 64 - 1 →
  0 <= regs s RCX → regs s RCX + Z.of_nat (length bs) < 2 ^ 64 → 0 <= regs s RAX < 256 →
  (∀ t, mem t = mem s → regs t RCX = regs s RCX + Z.of_nat (length bs) →
    (∀ r, r ∉ [RAX; RCX; RSI] → regs t r = regs s r) → returns (run strlen_asm fuel 9) t Q) →
  returns (run strlen_asm (6 * length bs + 4 + fuel) 3) s Q.
Proof.
  induction bs as [|b bs IH]; intros s fuel Q Hs Ha1 Ha2 Hc1 Hc2 Hax HQ.
  - change (6 * length (@nil Z) + 4 + fuel)%nat with (S (S (S (S fuel)))). cbn [length] in *.
    eapply exec_label; [reflexivity|].
    eapply exec_lodsb; [reflexivity|by apply string_nil|lia|lia|done|].
    eapply exec_test_al; [reflexivity|by x_regs|]. eapply exec_jz; [reflexivity..|]. x_regs.
    apply HQ; [done|x_regs; cbn; lia|]. intros r Hr. x_regs. rewrite !upd_ne by set_solver. done.
  - apply string_cons in Hs as (Hm & Hb & Hs). cbn [length] in *.
    replace (6 * S (length bs) + 4 + fuel)%nat with (S (S (S (S (S (S (6 * length bs + 4 + fuel)))))))%nat by lia.
    eapply exec_label; [reflexivity|].
    eapply exec_lodsb; [reflexivity|exact Hm|lia|lia|done|].
    eapply exec_test_al; [reflexivity|x_regs; lia|]. eapply exec_jz; [reflexivity..|]. x_regs.
    rewrite (proj2 (Z.eqb_neq b 0)) by lia.
    eapply returns_step; [reflexivity|]. cbn [exec]. x_steps. cbn [goes_on]. x_regs.
    rewrite !(wrap_small 64 (regs s RCX + 1)) by lia.
    eapply exec_jmp; [reflexivity..|]. apply IH; x_regs; [done|lia..|].
    intros t Hmt Hct Hrt. apply HQ; [by rewrite Hmt|rewrite Hct; lia|].
    x_kept Hrt.
Qed.

(** [strlen] returns the number of bytes before the terminator, leaves
    memory alone, and keeps to the calling convention. *)
Theorem strlen_asm_spec s bs ret fuel :
  string_at (mem s) (regs s RDI) bs → 0 <= regs s RDI → regs s RDI + Z.of_nat (length bs) < 2 ^ 64 - 1 →
  word (mem s) (regs s RSP) ret → 0 <= regs s RSP → regs s RSP + 8 < 2 ^ 64 →
  (6 * length bs + 10 <= fuel)%nat →
  returns (run strlen_asm fuel 0) s (λ target t,
    returns_to s t ret target ∧ regs t RAX = Z.of_nat (length bs) ∧ mem t = mem s).
Proof.
  intros Hs Ha1 Ha2 Hw Hp1 Hp2 Hf.
  replace fuel with (S (S (S (6 * length bs + 4 + S (S (S (fuel - 6 * length bs - 10)))))))%nat by lia.
  eapply exec_clear; [reflexivity|].
  eapply exec_mov; [reflexivity|x_regs; lia|]. eapply exec_mov; [reflexivity|x_regs; lia|].
  apply strlen_loop with (bs := bs); x_regs; [done|lia..|].
  intros t Hm Hc Hr. eapply exec_label; [reflexivity|].
  eapply exec_mov; [reflexivity|lia|].
  eapply exec_leave; [reflexivity|x_kept Hr|x_regs; by rewrite Hm|done|done|]. x_regs. by rewrite Hc.
Qed.

(** ** strcpy *)

Lemma strcpy_loop bs : ∀ s fuel Q,
  let len := Z.of_nat (length bs) in
  string_at (mem s) (regs s RSI) bs → 0 <= regs s RSI → regs s RSI + len < 2 ^ 64 - 1 →
  room (mem s) (regs s RDI) len → 0 <= regs s RDI → regs s RDI + len < 2 ^ 64 →
  regs s RSI + len + 1 <= regs s RDI ∨ regs s RDI + len <= regs s RSI → 0 <= regs s RAX < 256 →
  (∀ t, bytes_at (mem t) (regs s RDI) bs → only_range (regs s RDI) (regs s RDI + len) (mem s) (mem t) →
    regs t RAX = 0 → (∀ r, r ∉ [RAX; RDI; RSI] → regs t r = regs s r) → returns (run strcpy_asm fuel 8) t Q) →
  returns (run strcpy_asm (6 * length bs + 4 + fuel) 2) s Q.
Proof.
  induction bs as [|b bs IH]; intros s fuel Q len Hs Ha1 Ha2 Hr Hd1 Hd2 Hd Hax HQ; subst len; cbn [length] in *.
  - change (6 * 0 + 4 + fuel)%nat with (S (S (S (S fuel)))). eapply exec_label; [reflexivity|].
    eapply exec_lodsb; [reflexivity|by apply string_nil|lia|lia|done|].
    eapply exec_test_al; [reflexivity|by x_regs|]. eapply exec_jz; [reflexivity..|]. x_regs.
    apply HQ; [apply bytes_at_nil|apply only_range_refl|by x_regs|].
    x_same.
  - apply string_cons in Hs as (Hm & Hb & Hs). rewrite Nat2Z.inj_succ in *.
    apply room_cons in Hr as [Hr0 Hr]; [|lia].
    replace (6 * S (length bs) + 4 + fuel)%nat with (S (S (S (S (S (S (6 * length bs + 4 + fuel)))))))%nat by lia.
    eapply exec_label; [reflexivity|].
    eapply exec_lodsb; [reflexivity|exact Hm|lia|lia|done|].
    eapply exec_test_al; [reflexivity|x_regs; lia|]. eapply exec_jz; [reflexivity..|]. x_regs.
    rewrite (proj2 (Z.eqb_neq b 0)) by lia.
    eapply exec_stosb; [reflexivity|by x_regs|x_regs; lia|x_regs; lia|]. x_regs.
    eapply exec_jmp; [reflexivity..|].
    pose proof (only_range_insert _ _ b (mem s) (conj (Z.le_refl _) (Z.lt_succ_diag_r (regs s RDI))) Hr0) as Ho.
    apply IH; x_regs; [|lia|lia| |lia|lia|lia|lia|].
    { destruct Hs as [Hf Hs]. split; [done|]. eapply bytes_at_only; [exact Ho|exact Hs|]. rewrite length_app. cbn. lia. }
    { by eapply room_only_range. }
    intros t Hbt Hot Hat Hrt. apply (only_range_step _ _ _ _ _ (Zle_0_nat _) Hr0) in Hot as [Hot Hmt].
    apply HQ; [by apply bytes_at_cons|exact Hot|done|].
    x_kept Hrt.
Qed.

(** [strcpy] copies the bytes before the terminator, and nothing else: it
    writes no terminator behind them, and returns zero where C's function
    returns the destination. *)
Theorem strcpy_asm_spec s bs ret fuel :
  let len := Z.of_nat (length bs) in
  string_at (mem s) (regs s RSI) bs → 0 <= regs s RSI → regs s RSI + len < 2 ^ 64 - 1 →
  room (mem s) (regs s RDI) len → 0 <= regs s RDI → regs s RDI + len < 2 ^ 64 →
  regs s RSI + len + 1 <= regs s RDI ∨ regs s RDI + len <= regs s RSI →
  word (mem s) (regs s RSP) ret → 0 <= regs s RSP → regs s RSP + 8 < 2 ^ 64 →
  regs s RSP + 8 <= regs s RDI ∨ regs s RDI + len <= regs s RSP →
  (6 * length bs + 8 <= fuel)%nat →
  returns (run strcpy_asm fuel 0) s (λ target t,
    returns_to s t ret target ∧ bytes_at (mem t) (regs s RDI) bs ∧
    only_range (regs s RDI) (regs s RDI + len) (mem s) (mem t) ∧ regs t RAX = 0).
Proof.
  intros len Hs Ha1 Ha2 Hr Hd1 Hd2 Hd Hw Hp1 Hp2 Hpd Hf.
  replace fuel with (S (S (6 * length bs + 4 + S (S (fuel - 6 * length bs - 8)))))%nat by lia.
  eapply exec_clear; [reflexivity|]. eapply exec_mov; [reflexivity|x_regs; lia|].
  apply strcpy_loop with (bs := bs); x_regs; [done..|lia|].
  intros t Hbt Hot Hat Hrt. eapply exec_label; [reflexivity|].
  eapply exec_leave; [reflexivity|x_kept Hrt|eapply word_only_range; [exact Hot|exact Hw|lia]|done|done|]. by x_regs.
Qed.

(** ** memset and memcpy *)

(** [n] times the low [k] bytes of [v]. *)
Definition fill_bytes (k n : nat) (v : Z) : list Z := concat (replicate n (le_bytes k v)).

Lemma length_fill_bytes k n v : length (fill_bytes k n v) = (n * k)%nat.
Proof.
  unfold fill_bytes. induction n as [|n IH]; [done|]. cbn [replicate concat]. rewrite length_app, IH.
  unfold le_bytes. rewrite length_fmap, length_seq. lia.
Qed.

Lemma fill_bytes_1 n v : fill_bytes 1 n v = replicate n (u8 v).
Proof.
  unfold fill_bytes. induction n as [|n IH]; [done|]. cbn [replicate concat]. rewrite IH. unfold le_bytes. cbn.
  by rewrite Z.div_1_r.
Qed.

Lemma exec_rep_stos p pc k n : p !! pc = Some (REP_STOS k) → ∀ s fuel Q,
  let len := Z.of_nat (n * k) in
  regs s RCX = Z.of_nat n → Z.of_nat n < 2 ^ 64 → room (mem s) (regs s RDI) len →
  0 <= regs s RDI → regs s RDI + len < 2 ^ 64 →
  (∀ t, bytes_at (mem t) (regs s RDI) (fill_bytes k n (regs s RAX)) →
    only_range (regs s RDI) (regs s RDI + len) (mem s) (mem t) →
    (∀ r, r ∉ [RCX; RDI] → regs t r = regs s r) → returns (run p fuel (S pc)) t Q) →
  returns (run p (n + 1 + fuel) pc) s Q.
Proof.
  intros Hi. induction n as [|n IH]; intros s fuel Q len Hc Hn Hr Hd1 Hd2 HQ; subst len.
  - change (0 + 1 + fuel)%nat with (S fuel). eapply returns_step; [exact Hi|]. cbn [exec]. x_steps.
    rewrite Hc. cbn [Z.eqb Z.of_nat]. x_steps. cbn [goes_on].
    apply HQ; [apply bytes_at_nil|apply only_range_refl|done].
  - change (S n + 1 + fuel)%nat with (S (n + 1 + fuel)). eapply returns_step; [exact Hi|]. cbn [exec]. x_steps.
    rewrite Hc, (proj2 (Z.eqb_neq (Z.of_nat (S n)) 0)) by lia. x_steps.
    apply returns_store_n; [lia|lia|intros i Hi'; apply Hr; lia|]. intros m Hom Hbm. x_steps. cbn [goes_on].
    rewrite (wrap_small 64 (regs s RDI + _)), (wrap_small 64 (Z.of_nat _ - 1)) by lia.
    apply IH; x_regs; [lia|lia| |lia|lia|].
    { eapply room_only_range; [exact Hom|]. intros i Hi'. rewrite <- Z.add_assoc. apply Hr. lia. }
    intros t Hbt Hot Hrt. apply HQ; [| |x_kept Hrt].
    + unfold fill_bytes. cbn [replicate concat]. apply bytes_at_app. split.
      * eapply bytes_at_only; [exact Hot|exact Hbm|]. unfold le_bytes. rewrite length_fmap, length_seq. lia.
      * unfold le_bytes at 1. by rewrite length_fmap, length_seq.
    + eapply only_range_weaken; [exact (only_range_trans _ _ _ _ _ _ _ Hom Hot)|lia|lia].
Qed.

Lemma exec_rep_movsb p pc bs : p !! pc = Some REP_MOVSB → ∀ s fuel Q,
  let n := Z.of_nat (length bs) in
  regs s RCX = n → Forall (λ b, 0 <= b < 256) bs → bytes_at (mem s) (regs s RSI) bs →
  0 <= regs s RSI → regs s RSI + n < 2 ^ 64 →
  room (mem s) (regs s RDI) n → 0 <= regs s RDI → regs s RDI + n < 2 ^ 64 →
  regs s RSI + n <= regs s RDI ∨ regs s RDI <= regs s RSI →
  (∀ t, bytes_at (mem t) (regs s RDI) bs → only_range (regs s RDI) (regs s RDI + n) (mem s) (mem t) →
    (∀ r, r ∉ [RCX; RSI; RDI] → regs t r = regs s r) → returns (run p fuel (S pc)) t Q) →
  returns (run p (length bs + 1 + fuel) pc) s Q.
Proof.
  intros Hi. induction bs as [|b bs IH]; intros s fuel Q n Hc Hf Hs Ha1 Ha2 Hr Hd1 Hd2 Hd HQ; subst n; cbn [length] in *.
  - change (0 + 1 + fuel)%nat with (S fuel). eapply returns_step; [exact Hi|]. cbn [exec]. x_steps.
    rewrite Hc. cbn [Z.eqb Z.of_nat]. x_steps. cbn [goes_on].
    apply HQ; [apply bytes_at_nil|apply only_range_refl|done].
  - rewrite Nat2Z.inj_succ in *. apply room_cons in Hr as [Hr0 Hr]; [|lia].
    apply Forall_cons in Hf as [Hb Hf]. apply bytes_at_cons in Hs as [Hm Hs].
    change (S (length bs) + 1 + fuel)%nat with (S (length bs + 1 + fuel)). eapply returns_step; [exact Hi|].
    cbn [exec]. x_steps. rewrite Hc, (proj2 (Z.eqb_neq (Z.succ _) 0)) by lia. x_steps.
    eapply returns_load1; [lia|exact Hm|lia|]. x_steps.
    apply returns_store1; [lia|done|lia|]. x_steps. cbn [goes_on].
    rewrite (wrap_small 64 (regs s RDI + 1)), (wrap_small 64 (regs s RSI + 1)), (wrap_small 64 (Z.succ _ - 1)) by lia.
    pose proof (only_range_insert _ _ b (mem s) (conj (Z.le_refl _) (Z.lt_succ_diag_r (regs s RDI))) Hr0) as Ho.
    apply IH; x_regs; [lia|done| |lia|lia|by eapply room_only_range|lia|lia|lia|].
    { eapply bytes_at_only; [exact Ho|exact Hs|]. lia. }
    intros t Hbt Hot Hrt. apply (only_range_step _ _ _ _ _ (Zle_0_nat _) Hr0) in Hot as [Hot Hmt].
    apply HQ; [by apply bytes_at_cons|exact Hot|].
    x_kept Hrt.
Qed.

(** The three variants: [RCX] is the number of units when [rep stos] begins. *)
Lemma memset_runs p pc k n v len s s0 ret fuel :
  p !! pc = Some (REP_STOS k) → p !! S pc = Some RET → len = Z.of_nat (n * k) →
  regs s RCX = Z.of_nat n → Z.of_nat n < 2 ^ 64 → regs s RAX = v → mem s = mem s0 →
  (∀ r, r ∉ [RAX; RCX] → regs s r = regs s0 r) →
  0 <= regs s0 RDI → regs s0 RDI + len < 2 ^ 64 → room (mem s0) (regs s0 RDI) len →
  word (mem s0) (regs s0 RSP) ret → 0 <= regs s0 RSP → regs s0 RSP + 8 < 2 ^ 64 →
  regs s0 RSP + 8 <= regs s0 RDI ∨ regs s0 RDI + len <= regs s0 RSP → (n + 2 <= fuel)%nat →
  returns (run p fuel pc) s (λ target t,
    returns_to s0 t ret target ∧ bytes_at (mem t) (regs s0 RDI) (fill_bytes k n v) ∧
    only_range (regs s0 RDI) (regs s0 RDI + len) (mem s0) (mem t)).
Proof.
  intros Hi1 Hi2 -> Hc Hn Hv Hm Hrs Hd1 Hd2 Hr Hw Hp1 Hp2 Hpd Hf.
  assert (Edi : regs s RDI = regs s0 RDI) by (apply Hrs; set_solver).
  replace fuel with (n + 1 + S (fuel - n - 2))%nat by lia.
  eapply exec_rep_stos; rewrite ?Edi, ?Hm, ?Hv; [done..|]. intros t Hbt Hot Hrt.
  eapply exec_leave with (s := s0); [done| |eapply word_only_range; [exact Hot|exact Hw|lia]|done|done|by x_regs].
  intros r Hr'. unfold scratch in Hr'. rewrite Hrt by set_solver. apply Hrs. set_solver.
Qed.

(** [memset] fills [n] bytes with the low byte of its second argument, and
    keeps to the calling convention. *)
Theorem memset_asm_spec s n ret fuel :
  regs s RDX = Z.of_nat n → 0 <= regs s RSI < 2 ^ 64 → 0 <= regs s RDI → regs s RDI + Z.of_nat n < 2 ^ 64 →
  room (mem s) (regs s RDI) (Z.of_nat n) →
  word (mem s) (regs s RSP) ret → 0 <= regs s RSP → regs s RSP + 8 < 2 ^ 64 →
  regs s RSP + 8 <= regs s RDI ∨ regs s RDI + Z.of_nat n <= regs s RSP → (n + 4 <= fuel)%nat →
  returns (run memset_asm fuel 0) s (λ target t,
    returns_to s t ret target ∧ bytes_at (mem t) (regs s RDI) (replicate n (u8 (regs s RSI))) ∧
    only_range (regs s RDI) (regs s RDI + Z.of_nat n) (mem s) (mem t)).
Proof.
  intros Hn Hv Hd1 Hd2 Hr Hw Hp1 Hp2 Hpd Hf. do 2 (destruct fuel as [|fuel]; [lia|]).
  eapply exec_mov; [reflexivity|lia|]. eapply exec_mov; [reflexivity|x_regs; lia|].
  rewrite <- fill_bytes_1.
  apply memset_runs; x_regs; [reflexivity..|lia|done|lia|done|done|x_same|done|done|done|done|done|done|done|lia].
Qed.

(** [memsetw] and [memsetd] take their count in bytes and fill its whole
    units with the low two or four bytes of their second argument; the odd
    bytes at the end stay as they are. *)
Theorem memsetw_asm_spec s n ret fuel :
  regs s RDX = Z.of_nat n → Z.of_nat n < 2 ^ 64 → 0 <= regs s RSI < 2 ^ 64 →
  0 <= regs s RDI → regs s RDI + Z.of_nat n < 2 ^ 64 → room (mem s) (regs s RDI) (Z.of_nat n) →
  word (mem s) (regs s RSP) ret → 0 <= regs s RSP → regs s RSP + 8 < 2 ^ 64 →
  regs s RSP + 8 <= regs s RDI ∨ regs s RDI + Z.of_nat n <= regs s RSP → (n + 5 <= fuel)%nat →
  let filled k t :=
    bytes_at (mem t) (regs s RDI) (fill_bytes k (n / k) (regs s RSI)) ∧
    only_range (regs s RDI) (regs s RDI + Z.of_nat (n / k * k)) (mem s) (mem t) in
  returns (run memsetw_asm fuel 0) s (λ target t, returns_to s t ret target ∧ filled 2%nat t) ∧
  returns (run memsetd_asm fuel 0) s (λ target t, returns_to s t ret target ∧ filled 4%nat t).
Proof.
  intros Hn Hnb Hv Hd1 Hd2 Hr Hw Hp1 Hp2 Hpd Hf filled. do 3 (destruct fuel as [|fuel]; [lia|]).
  pose proof (Nat.Div0.mul_div_le n 2). pose proof (Nat.Div0.mul_div_le n 4).
  split.
  all: eapply exec_mov; [reflexivity|lia|]; eapply exec_mov; [reflexivity|x_regs; lia|].
  all: eapply returns_step; [reflexivity|]; cbn [exec]; x_steps; cbn [goes_on]; x_regs; rewrite Hn.
  all: rewrite !Z.shiftr_div_pow2 by lia.
  1: change (2 ^ 1) with (Z.of_nat 2). 2: change (2 ^ 2) with (Z.of_nat 4).
  all: rewrite <- !Nat2Z.inj_div, !(wrap_small 64 (Z.of_nat (n / _))) by lia.
  all: apply memset_runs; x_regs; [reflexivity..|done|lia|done|done|x_same|done|lia| |done|done|done|lia|lia].
  all: intros i Hi; apply Hr; lia.
Qed.

(** [memcpy] copies [n] bytes, upwards: right when the ranges do not
    overlap, and also when the destination starts below the source, which is
    how the console scrolls. *)
Theorem memcpy_asm_spec s bs ret fuel :
  let n := Z.of_nat (length bs) in
  regs s RDX = n → Forall (λ b, 0 <= b < 256) bs → bytes_at (mem s) (regs s RSI) bs →
  0 <= regs s RSI → regs s RSI + n < 2 ^ 64 →
  room (mem s) (regs s RDI) n → 0 <= regs s RDI → regs s RDI + n < 2 ^ 64 →
  regs s RSI + n <= regs s RDI ∨ regs s RDI <= regs s RSI →
  word (mem s) (regs s RSP) ret → 0 <= regs s RSP → regs s RSP + 8 < 2 ^ 64 →
  regs s RSP + 8 <= regs s RDI ∨ regs s RDI + n <= regs s RSP → (length bs + 3 <= fuel)%nat →
  returns (run memcpy_asm fuel 0) s (λ target t,
    returns_to s t ret target ∧ bytes_at (mem t) (regs s RDI) bs ∧
    only_range (regs s RDI) (regs s RDI + n) (mem s) (mem t)).
Proof.
  intros n Hn Hf Hs Ha1 Ha2 Hr Hd1 Hd2 Hd Hw Hp1 Hp2 Hpd Hfu.
  replace fuel with (S (length bs + 1 + S (fuel - length bs - 3)))%nat by lia.
  eapply exec_mov; [reflexivity|lia|].
  apply exec_rep_movsb; [reflexivity|x_regs; done..|]. x_regs.
  intros t Hbt Hot Hrt.
  eapply exec_leave; [reflexivity|x_kept Hrt|eapply word_only_range; [exact Hot|exact Hw|lia]|done|done|]. by x_regs.
Qed.

(** ** strncpy *)

(** The loop up to ".done", for [n >= 1]: [k] bytes have been copied, [n - k]
    are left to fill. *)
Lemma strncpy_loop n : ∀ bs s fuel Q,
  Forall (λ b, 0 < b < 256) bs → bytes_at (mem s) (regs s RSI) (take (S n) (bs ++ [0])) →
  regs s RDX = Z.of_nat (S n) → 0 <= regs s RAX < 256 →
  0 <= regs s RSI → regs s RSI + Z.of_nat (S n) < 2 ^ 64 →
  room (mem s) (regs s RDI) (Z.of_nat (S n)) → 0 <= regs s RDI → regs s RDI + Z.of_nat (S n) < 2 ^ 64 →
  regs s RSI + Z.of_nat (S n) <= regs s RDI ∨ regs s RDI + Z.of_nat (S n) <= regs s RSI →
  (8 * S n + 4 <= fuel)%nat →
  (∀ t fuel', (fuel <= fuel' + 8 * S n + 4)%nat →
    let k := Nat.min (S n) (length bs) in
    bytes_at (mem t) (regs s RDI) (take (S n) bs) →
    only_range (regs s RDI) (regs s RDI + Z.of_nat k) (mem s) (mem t) →
    regs t RDI = regs s RDI + Z.of_nat k → regs t RDX = Z.of_nat (S n - k) → 0 <= regs t RAX < 256 →
    (∀ r, r ∉ [RAX; RDX; RSI; RDI] → regs t r = regs s r) → returns (run strncpy_asm fuel' 13) t Q) →
  returns (run strncpy_asm fuel 5) s Q.
Proof.
  induction n as [|n IH]; intros bs s fuel Q Hf Hs Hn Hax Ha1 Ha2 Hr Hd1 Hd2 Hd Hfu HQ.
  all: do 8 (destruct fuel as [|fuel]; [lia|]).
  all: eapply exec_label; [reflexivity|].
  all: destruct bs as [|b bs]; cbn [app take] in Hs; apply bytes_at_cons in Hs as [Hm Hs].
  1,3: eapply exec_lodsb; [reflexivity|exact Hm|lia|lia|done|];
    eapply exec_test_al; [reflexivity|by x_regs|]; eapply exec_jz; [reflexivity..|]; x_regs;
    cbn [length] in HQ; rewrite Nat.min_0_r in HQ;
    apply HQ; [lia|apply bytes_at_nil|rewrite Z.add_0_r; apply only_range_refl|x_regs; lia|x_regs; lia|by x_regs|x_same].
  all: apply Forall_cons in Hf as [Hb Hf].
  all: rewrite Nat2Z.inj_succ in *; apply room_cons in Hr as [Hr0 Hr]; [|lia].
  all: eapply exec_lodsb; [reflexivity|exact Hm|lia|lia|done|].
  all: eapply exec_test_al; [reflexivity|x_regs; lia|]; eapply exec_jz; [reflexivity..|]; x_regs.
  all: rewrite (proj2 (Z.eqb_neq b 0)) by lia.
  all: eapply exec_stosb; [reflexivity|by x_regs|x_regs; lia|x_regs; lia|]; x_regs.
  all: eapply returns_step; [reflexivity|]; cbn [exec]; x_steps; cbn [goes_on].
  all: eapply returns_step; [reflexivity|]; cbn [exec]; x_steps; cbn [goes_on]; x_regs.
  all: rewrite !(wrap_small 64 (regs s RDX - 1)), Z.land_diag by lia.
  all: eapply exec_jnz; [reflexivity..|]; x_regs; rewrite Hn.
  all: pose proof (only_range_insert _ _ b (mem s) (conj (Z.le_refl _) (Z.lt_succ_diag_r (regs s RDI))) Hr0) as Ho.
  - apply HQ; [lia| |by destruct bs|x_regs; by destruct bs|x_regs; by destruct bs|by x_regs; lia|x_same].
    cbn. apply bytes_at_cons. split; [by x_regs; rewrite lookup_insert_eq|apply bytes_at_nil].
  - rewrite (proj2 (Z.eqb_neq (Z.succ _ - 1) 0)) by lia.
    apply (IH bs); x_regs; [done| |lia|lia|lia|lia| |lia|lia|lia|lia|].
    { eapply bytes_at_only; [exact Ho|exact Hs|]. rewrite length_take. lia. }
    { eapply room_only_range; [exact Ho|]. by rewrite Nat2Z.inj_succ in Hr. }
    intros t fuel' Hfu' Hbt Hot Hdt Hct Hat Hrt.
    apply (only_range_step _ _ _ _ _ (Zle_0_nat _) Hr0) in Hot as [Hot Hmt].
    apply HQ; cbn [length]; rewrite ?Nat2Z.inj_min in *; [lia|by apply bytes_at_cons| | |lia|done|x_kept Hrt].
    + rewrite Nat2Z.inj_succ. eapply only_range_weaken; [exact Hot|lia|lia].
    + lia.
Qed.

(** From ".done" to the return. *)
Lemma strncpy_end s j dst bp ret fuel :
  regs s RDX = Z.of_nat j → 0 <= regs s RAX < 256 →
  room (mem s) (regs s RDI) (Z.of_nat j) → 0 <= regs s RDI → regs s RDI + Z.of_nat j < 2 ^ 64 →
  8 <= regs s RSP → regs s RSP + 24 < 2 ^ 64 → regs s RBP = regs s RSP + 8 →
  word (mem s) (regs s RSP - 8) dst → word (mem s) (regs s RSP + 8) bp → word (mem s) (regs s RSP + 16) ret →
  regs s RSP + 24 <= regs s RDI ∨ regs s RDI + Z.of_nat j <= regs s RSP - 8 → (j + 9 <= fuel)%nat →
  returns (run strncpy_asm fuel 13) s (λ target t,
    target = ret ∧ regs t RSP = regs s RSP + 24 ∧ regs t RBP = bp ∧ regs t RAX = dst ∧
    (∀ r, r ∉ [RSP; RBP; RAX; RCX; RDI] → regs t r = regs s r) ∧
    bytes_at (mem t) (regs s RDI) (replicate j 0) ∧
    only_range (regs s RDI) (regs s RDI + Z.of_nat j) (mem s) (mem t)).
Proof.
  intros Hj Hax Hr Hd1 Hd2 Hp1 Hp2 Hbp W1 W2 W3 Hd Hfu.
  replace fuel with (S (S (S (j + 1 + S (S (S (S (S (fuel - j - 9)))))))))%nat by lia.
  eapply exec_label; [reflexivity|]. eapply exec_mov; [reflexivity|lia|].
  eapply returns_step; [reflexivity|]. cbn [exec]. x_steps. cbn [goes_on]. x_regs.
  rewrite (Z.div_small (regs s RAX)) by lia. change (u64 (0 * 256 + u8 0)) with 0.
  eapply exec_rep_stos with (n := j); [reflexivity|by x_regs|lia|x_regs; by rewrite ?Nat.mul_1_r..|]. x_regs.
  rewrite Nat.mul_1_r, fill_bytes_1. change (u8 0) with 0. intros t Hbt Hot Hrt.
  assert (Hsp : regs t RSP = regs s RSP) by (rewrite Hrt by set_solver; by x_regs).
  eapply exec_ld; [reflexivity|rewrite Hsp; lia|rewrite Hsp; eapply word_only_range; [exact Hot|exact W1|lia]|].
  eapply returns_step; [reflexivity|]. cbn [exec]. x_steps. cbn [goes_on]. x_regs. rewrite Hsp.
  change (u64 8) with 8. rewrite !(wrap_small 64 (regs s RSP + 8)) by lia.
  assert (Hbp' : regs t RBP = regs s RSP + 8) by (rewrite Hrt by set_solver; by x_regs).
  eapply exec_mov; [reflexivity|x_regs; lia|]. x_regs. rewrite Hbp'.
  eapply exec_pop; [reflexivity|x_regs; eapply word_only_range; [exact Hot|exact W2|lia]|x_regs; lia|x_regs; lia|]. x_regs.
  eapply exec_ret; [reflexivity|x_regs|x_regs; lia|x_regs; lia|].
  { replace (regs s RSP + 8 + 8) with (regs s RSP + 16) by lia. eapply word_only_range; [exact Hot|exact W3|lia]. }
  x_regs. split; [done|]. split; [lia|]. split; [done|]. split; [done|]. split; [|done].
  intros r Hr'. rewrite !upd_ne by set_solver. rewrite Hrt by set_solver. x_same.
Qed.

(** Memory after a routine that writes its destination and its stack frame. *)
Definition only_ranges (a b c d : Z) (m m' : gmap Z Z) : Prop :=
  ∀ x, (x < a ∨ b <= x) → (x < c ∨ d <= x) → m' !! x = m !! x.

(** [strncpy] with a length [n] of at least one copies the string up to
    its terminator or [n] bytes, fills the rest of the [n] bytes with zeros,
    returns the destination, and keeps to the calling convention; of a source
    that is not terminated it reads [n] bytes. It writes the destination and
    the 24 bytes below the return address: the last 8 of them, where it keeps
    the destination, are below its stack pointer. *)
Theorem strncpy_asm_spec s bs n ret fuel :
  bounded s → regs s RDX = Z.of_nat (S n) →
  Forall (λ b, 0 < b < 256) bs → bytes_at (mem s) (regs s RSI) (take (S n) (bs ++ [0])) →
  regs s RSI + Z.of_nat (S n) < 2 ^ 64 →
  room (mem s) (regs s RDI) (Z.of_nat (S n)) → regs s RDI + Z.of_nat (S n) < 2 ^ 64 →
  regs s RSI + Z.of_nat (S n) <= regs s RDI ∨ regs s RDI + Z.of_nat (S n) <= regs s RSI →
  word (mem s) (regs s RSP) ret → room (mem s) (regs s RSP - 24) 24 → 24 <= regs s RSP → regs s RSP + 8 < 2 ^ 64 →
  regs s RSP + 8 <= regs s RDI ∨ regs s RDI + Z.of_nat (S n) <= regs s RSP - 24 →
  regs s RSP + 8 <= regs s RSI ∨ regs s RSI + Z.of_nat (S n) <= regs s RSP - 24 →
  (9 * S n + 18 <= fuel)%nat →
  returns (run strncpy_asm fuel 0) s (λ target t,
    returns_to s t ret target ∧ regs t RAX = regs s RDI ∧
    bytes_at (mem t) (regs s RDI) (take (S n) bs ++ replicate (S n - length bs) 0) ∧
    only_ranges (regs s RDI) (regs s RDI + Z.of_nat (S n)) (regs s RSP - 24) (regs s RSP) (mem s) (mem t)).
Proof.
  intros Hb Hn Hf Hs Ha2 Hr Hd2 Hd Hw Hrs Hp1 Hp2 Hpd Hps Hfu.
  pose proof (Hb RSI). pose proof (Hb RDI). pose proof (Hb RBP). pose proof (Hb RSP).
  set (N := Z.of_nat (S n)) in *. do 5 (destruct fuel as [|fuel]; [lia|]).
  eapply exec_push; [reflexivity|done|lia| |].
  { intros k Hk. replace (regs s RSP - 8 + k) with (regs s RSP - 24 + (16 + k)) by lia. apply Hrs. lia. }
  cbn [value_of]. intros m1 Ho1 Hbp. set (s1 := Cpu _ _ _ _).
  assert (E1 : regs s1 RSP = regs s RSP - 8) by apply upd_eq.
  assert (N1 : ∀ r, r ≠ RSP → regs s1 r = regs s r) by (intros; by apply upd_ne).
  eapply exec_mov; [reflexivity|lia|].
  eapply returns_step; [reflexivity|]. cbn [exec]. x_steps. cbn [goes_on].
  change (u64 8) with 8. x_regs. rewrite E1, !(wrap_small 64 (regs s RSP - 8 - 8)) by lia.
  eapply exec_st; [reflexivity|x_regs; lia|x_regs; rewrite N1 by done; lia| |].
  { x_regs. eapply room_only_range; [exact Ho1|]. intros k Hk.
    replace (regs s RSP - 8 - 8 + -8 + k) with (regs s RSP - 24 + k) by lia. apply Hrs. lia. }
  x_regs. rewrite N1 by done. intros m2 Ho2 Hdst.
  replace (regs s RSP - 8 - 8 + -8) with (regs s RSP - 24) in * by lia.
  pose proof (only_range_trans _ _ _ _ _ _ _ Ho1 Ho2) as Ho12.
  eapply only_range_weaken with (c := regs s RSP - 24) (d := regs s RSP) in Ho12; [|lia|lia].
  pose proof (word_only_range _ _ _ _ _ _ Ho2 Hbp ltac:(lia)) as Hbp2.
  pose proof (word_only_range _ _ _ _ _ _ Ho12 Hw ltac:(lia)) as Hw2.
  eapply exec_clear; [reflexivity|].
  apply (strncpy_loop n bs); x_regs; rewrite ?N1 by done; [done| |done|lia|lia|lia| |lia|lia|lia|lia|].
  { eapply bytes_at_only; [exact Ho12|exact Hs|]. rewrite length_take. lia. }
  { by eapply room_only_range. }
  intros t fuel' Hfu' Hbt Hot Hdt Hct Hat Hrt. set (k := (S n `min` length bs)%nat) in *.
  assert (Hk : Z.of_nat k <= N) by lia.
  assert (Hsp : regs t RSP = regs s RSP - 16) by (rewrite Hrt by set_solver; x_regs; lia).
  ret_use (strncpy_end t (S n - k) (regs s RDI) (regs s RBP) ret); rewrite ?Hsp, ?Hdt;
    [done|done| |lia|lia|lia|lia|rewrite Hrt by set_solver; x_regs; lia| | | |lia|lia|].
  { intros i Hi. replace (regs s RDI + Z.of_nat k + i) with (regs s RDI + (Z.of_nat k + i)) by lia.
    eapply room_only_range; [exact Hot|eapply room_only_range; [exact Ho12|exact Hr]|lia]. }
  { replace (regs s RSP - 16 - 8) with (regs s RSP - 24) by lia.
    eapply word_only_range; [exact Hot|exact Hdst|lia]. }
  { replace (regs s RSP - 16 + 8) with (regs s RSP - 8) by lia.
    eapply word_only_range; [exact Hot|exact Hbp2|lia]. }
  { replace (regs s RSP - 16 + 16) with (regs s RSP) by lia.
    eapply word_only_range; [exact Hot|exact Hw2|lia]. }
  intros target u (-> & Hspu & Hbpu & Haxu & Hru & Hbu & Hou).
  split; [|split; [done|split]].
  - split; [done|]. split; [lia|]. intros r Hr'. destruct (decide (r = RBP)) as [->|Hne]; [done|].
    unfold callee_saved in Hr'. rewrite Hru by set_solver. rewrite Hrt by set_solver. x_regs.
    rewrite !upd_ne by set_solver. apply N1. set_solver.
  - apply bytes_at_app. rewrite length_take. fold k. split.
    + eapply bytes_at_only; [exact Hou|exact Hbt|]. rewrite length_take. lia.
    + replace (S n - length bs)%nat with (S n - k)%nat by lia. done.
  - intros x Hx1 Hx2. rewrite (proj1 Hou), (proj1 Hot) by lia. apply Ho12. lia.
Qed.

(** ** setjmp and longjmp *)

(** [struct jmp_buf], as [setjmp] called from [s] fills it. *)
Definition jmp_words (s : cpu) (ret : Z) : list Z :=
  [regs s RBX; regs s RSP + 8; regs s RBP; regs s R12; regs s R13; regs s R14; regs s R15; ret].

Lemma words_at_snoc m m' a b ws w :
  only_range b (b + 8) m m' → words_at m a ws → b = a + 8 * Z.of_nat (length ws) → word m' b w →
  words_at m' a (ws ++ [w]).
Proof.
  intros Ho Hw Hb Hbw. apply words_at_split. split.
  - eapply words_at_only; [exact Ho|exact Hw|lia].
  - intros [|i] v Hi; [|done]. cbn in Hi. simplify_eq. by replace (_ + 8 * Z.of_nat 0) with
      (a + 8 * Z.of_nat (length ws)) by lia.
Qed.

(** A word stored again changes nothing. *)
Lemma word_again a v m m' : only_range a (a + 8) m m' → word m a v → word m' a v → m' = m.
Proof.
  intros [Ho _] [_ Hm] [_ Hm']. apply map_eq. intros x. destruct (decide (a <= x < a + 8)) as [Hx|]; [|apply Ho; lia].
  replace x with (a + (x - a)) by lia. by rewrite Hm, Hm' by lia.
Qed.

(** The next word of the buffer. *)
Lemma exec_save p fuel pc base disp x s m0 ws Q :
  p !! pc = Some (ST base disp x) → words_at (mem s) (regs s base) ws →
  only_range (regs s base) (regs s base + 64) m0 (mem s) → bounded s →
  disp = 8 * Z.of_nat (length ws) → (length ws < 8)%nat → regs s base + 64 < 2 ^ 64 → room m0 (regs s base) 64 →
  (∀ m, only_range (regs s base) (regs s base + 64) m0 m → words_at m (regs s base) (ws ++ [regs s x]) →
    returns (run p fuel (S pc)) (set_mem m s) Q) →
  returns (run p (S fuel) pc) s Q.
Proof.
  intros Hi Hw Ho Hb Hdi Hl Ha Hr HQ. pose proof (Hb base). pose proof (Hb x).
  eapply exec_st; [exact Hi|lia|lia| |].
  { intros k Hk. apply Ho. replace (regs s base + disp + k) with (regs s base + (disp + k)) by lia. apply Hr. lia. }
  intros m Hom Hwm. apply HQ; [|by eapply words_at_snoc; [exact Hom|exact Hw|lia|]].
  eapply only_range_weaken; [exact (only_range_trans _ _ _ _ _ _ _ Ho Hom)|lia|lia].
Qed.

Lemma longjmp_loads u s ret fuel :
  bounded u → bounded s → regs s RSP + 8 < 2 ^ 64 → regs u RDI + 64 < 2 ^ 64 →
  words_at (mem u) (regs u RDI) (jmp_words s ret) → (9 <= fuel)%nat →
  returns (run longjmp_asm fuel 0) u (λ target w,
    returns_to s w ret target ∧ regs w RAX = regs u RSI ∧ mem w = mem u).
Proof.
  intros Hb Hbs Hp Hd Hw Hf. pose proof (Hb RDI). pose proof (Hb RSI). do 9 (destruct fuel as [|fuel]; [lia|]).
  assert (W : ∀ i v, jmp_words s ret !! i = Some v → word (mem u) (regs u RDI + 8 * Z.of_nat i) v) by exact Hw.
  eapply exec_mov; [reflexivity|lia|].
  eapply exec_ld; [reflexivity|x_regs; lia|x_regs; apply (W 0%nat); reflexivity|].
  eapply exec_ld; [reflexivity|x_regs; lia|x_regs; apply (W 1%nat); reflexivity|].
  eapply exec_ld; [reflexivity|x_regs; lia|x_regs; apply (W 2%nat); reflexivity|].
  eapply exec_ld; [reflexivity|x_regs; lia|x_regs; apply (W 3%nat); reflexivity|].
  eapply exec_ld; [reflexivity|x_regs; lia|x_regs; apply (W 4%nat); reflexivity|].
  eapply exec_ld; [reflexivity|x_regs; lia|x_regs; apply (W 5%nat); reflexivity|].
  eapply exec_ld; [reflexivity|x_regs; lia|x_regs; apply (W 6%nat); reflexivity|].
  eapply returns_step; [reflexivity|]. cbn [exec]. x_steps. x_regs. rewrite wrap_small by lia.
  eapply returns_load; [lia|x_regs; apply (W 7%nat); reflexivity|]. x_steps. cbn [goes_on]. x_regs.
  split; [|done]. split; [done|]. split; [by x_regs|].
  intros r Hr. unfold callee_saved in Hr. rewrite !elem_of_cons, elem_of_nil in Hr.
  destruct_or!; subst; by x_regs.
Qed.

Ltac x_save W O Hb :=
  eapply exec_save; [reflexivity|exact W|exact O|exact Hb|done|cbn; lia|done|done|];
  clear W O; let m := fresh "m" in intros m O W.

(** C36: [setjmp] returns zero to its caller, keeps to the calling convention
    and writes only the buffer. While the buffer stays as it is, [longjmp] from
    any state goes back to where [setjmp] returned, with the registers that a
    callee preserves and the stack pointer as they were there, and with its
    second argument as the result: also when that is zero, which the caller
    cannot tell from the return of [setjmp] (C's function returns one then). *)
Theorem setjmp_longjmp s ret fuel :
  bounded s → word (mem s) (regs s RSP) ret → 8 <= regs s RSP → regs s RSP + 8 < 2 ^ 64 →
  room (mem s) (regs s RDI) 64 → regs s RDI + 64 < 2 ^ 64 →
  regs s RSP + 8 <= regs s RDI ∨ regs s RDI + 64 <= regs s RSP → (12 <= fuel)%nat →
  returns (run setjmp_asm fuel 0) s (λ target t,
    returns_to s t ret target ∧ regs t RAX = 0 ∧
    only_ranges (regs s RDI) (regs s RDI + 64) (regs s RSP) (regs s RSP) (mem s) (mem t) ∧
    ∀ u fuel', bounded u → regs u RDI = regs s RDI →
      (∀ x, regs s RDI <= x < regs s RDI + 64 → mem u !! x = mem t !! x) → (9 <= fuel')%nat →
      returns (run longjmp_asm fuel' 0) u (λ target' w,
        returns_to s w ret target' ∧ regs w RAX = regs u RSI ∧ mem w = mem u)).
Proof.
  intros Hb Hw Hp1 Hp2 Hr Hd Hdis Hfu. pose proof (Hb RDI) as BDI. pose proof (Hb RSP) as BSP.
  do 12 (destruct fuel as [|fuel]; [lia|]). clear Hfu.
  eapply returns_step; [reflexivity|]. cbn [exec]. x_steps.
  eapply returns_load; [lia|exact Hw|]. x_steps. cbn [goes_on].
  rewrite (wrap_small 64 ret) by apply Hw. rewrite (wrap_small 64 (_ + 8)) by lia.
  eapply exec_clear; [reflexivity|]. set (s1 := set_zf _ _).
  assert (Hb1 : bounded s1).
  { intros r. unfold s1, set_reg, set_zf, upd. cbn. destruct Hw as [Hv _]. repeat case_decide; lia || apply Hb. }
  assert (E1 : regs s1 RSP = regs s RSP + 8) by (unfold s1; by x_regs).
  eapply exec_save with (ws := []) (m0 := mem s); [reflexivity|by intros ? ? ?|apply only_range_refl|done|done|cbn; lia|done|done|].
  intros m1 Ho1 Hw1.
  eapply exec_save with (m0 := mem s); [reflexivity|exact Hw1|exact Ho1|exact Hb1|done|cbn; lia|done|done|].
  intros m2 Ho2 Hw2. change (regs s1 RDI) with (regs s RDI) in *. change (set_mem m2 (set_mem m1 s1)) with (set_mem m2 s1).
  change (regs (set_mem m1 s1) RDI) with (regs s RDI) in *.
  pose proof (word_only_range _ _ _ _ _ _ Ho2 Hw ltac:(lia)) as Hret.
  eapply exec_push; [reflexivity|exact Hb1|change (8 <= regs s1 RSP); lia| |].
  { change (room m2 (regs s1 RSP - 8) 8). rewrite E1. replace (_ + 8 - 8) with (regs s RSP) by lia. by eapply word_room. }
  change (regs (set_mem m2 s1)) with (regs s1). rewrite E1. replace (_ + 8 - 8) with (regs s RSP) by lia.
  intros m3 Ho3 Hw3. change (value_of _ _) with ret in Hw3. change (mem (set_mem m2 s1)) with m2 in Ho3.
  rewrite (word_again (regs s RSP) ret m2 m3) by done. clear m3 Ho3 Hw3.
  set (s2 := Cpu _ _ _ _).
  assert (E2 : regs s2 RSP = regs s RSP) by apply upd_eq.
  assert (N2 : ∀ r, r ∉ [RAX; RSI] → regs s2 r = regs s r).
  { intros r Hr'. destruct (decide (r = RSP)) as [->|Hne]; [done|]. unfold s2, s1. x_regs. rewrite !upd_ne by set_solver. done. }
  assert (Hb2 : bounded s2).
  { intros r. destruct (decide (r = RSP)) as [->|Hne]; [rewrite E2; lia|]. unfold s2. x_regs. apply Hb1. }
  do 6 x_save Hw2 Ho2 Hb2. rename Ho2 into Ho8, Hw2 into Hw8.
  match type of Hw8 with words_at ?m _ _ => rename m into m8 end.
  change (regs (set_mem _ _) RDI) with (regs s RDI) in *.
  change (set_mem m8 _) with (set_mem m8 s2).
  eapply exec_leave with (s := s); [reflexivity|intros r Hr'; apply N2; unfold scratch in *; set_solver
    |eapply word_only_range; [exact Ho8|exact Hw|lia]|lia|lia|].
  split; [by unfold s2, s1; x_regs|]. split; [intros x Hx _; by apply Ho8|].
  intros u fuel' Hbu Hdu Hmu Hfu. apply longjmp_loads; [done|done|lia|lia| |done]. rewrite Hdu.
  assert (words_at m8 (regs s RDI) (jmp_words s ret)) as W.
  { replace (jmp_words s ret) with (([] ++ [regs s1 RBX]) ++ [regs (set_mem m1 s1) RSP]
      ++ [regs s2 RBP; regs s2 R12; regs s2 R13; regs s2 R14; regs s2 R15; regs s2 RSI]); [exact Hw8|].
    unfold jmp_words, s2, s1. x_regs. done. }
  intros i w Hi. pose proof (lookup_lt_Some _ _ _ Hi) as Hl. cbn in Hl. eapply word_agree; [by apply W|].
  intros k Hk. apply Hmu. lia.
Qed.
End lib.
