(* ===== verification/AsmSys.v ===== *)
(** The assembly routines that reach the devices and the system registers:
    [src/common_x86_64.asm] and [exec_user] of [src/exec.asm]. The models of
    the C code take the first for events of the trace ([Io]) and for the
    loaded tables ([Desc]); here they are what the processor does. *)

From S2P Require Import Prelude Io Desc X86 AsmLib.

Open Scope Z_scope.

(** ** The code *)

Definition out_asm (w : Z) : routine := [MOV RDX (Rg RDI); MOV RAX (Rg RSI); OUT w; RET].
Definition in_asm (w : Z) : routine := [MOV RDX (Rg RDI); XOR RAX RAX; IN w; RET].

Definition writemsr_asm : routine :=
  [MOV RAX (Rg RSI); MOV RDX (Rg RSI); AND_EAX (-1); SHR RDX 32; MOV RCX (Rg RDI); WRMSR; RET].
Definition readmsr_asm : routine :=
  [PUSH (Rg RBP); XOR RAX RAX; MOV RDX (Rg RAX); MOV RCX (Rg RDI); RDMSR; SHL RDX 32; OR RAX RDX;
   POP RBP; RET].

Definition idt_flush_asm : routine :=
  [PUSH (Rg RBP); MOV RBP (Rg RSP); SUB RSP (Im 10); ST16 RSP 0 0xFFF; ST RSP 2 RDI; LIDT RSP;
   ADD RSP (Im 10); MOV RSP (Rg RBP); POP RBP; RET].

(** [gdt_flush] up to its [iretq], which goes on at the label [.flush], the
    address [flush]; and from there. *)
Definition gdt_flush_asm (flush : Z) : routine :=
  [LGDT RDI; PUSH (Im 0x10); PUSH (Rg RSP); PUSHF; PUSH (Im 0x08); MOV RAX (Im flush); PUSH (Rg RAX); IRETQ].
Definition gdt_flush_tail : routine :=
  [POP RAX; MOV_SEG ES; MOV_SEG DS; MOV_SEG GS; MOV_SEG FS; MOV_AX 0x30; LTR; RET].

Definition exec_user_asm : routine :=
  [XOR RAX RAX; MOV_AX 0x23; MOV_SEG DS; MOV_SEG ES; MOV_SEG FS; MOV_SEG GS; MOV RBP (Rg RCX);
   PUSH (Rg RAX); PUSH (Rg RCX); PUSHF; PUSH (Im (Z.lor 0x18 3)); PUSH (Rg RDX); IRETQ].

Section system.
Context `{Callees, Devices}.

Lemma returns_on_dev {A} (m : M trace A) s (Q : A → cpu → Prop) :
  returns m (x_dev (sys s)) (λ a t, Q a (set_sys (set_dev t) s)) → returns (on_dev m) s Q.
Proof. exact (returns_zoom _ _ m s Q). Qed.

(** A routine that has restored the stack and the frame pointer. *)
Lemma frame_restored s t :
  regs t RSP = regs s RSP → regs t RBP = regs s RBP →
  (∀ r, r ∉ RSP :: RBP :: scratch → regs t r = regs s r) → ∀ r, r ∉ scratch → regs t r = regs s r.
Proof.
  intros Hsp Hbp Hr r Hn. destruct (decide (r = RSP)) as [->|]; [done|].
  destruct (decide (r = RBP)) as [->|]; [done|]. apply Hr. set_solver.
Qed.

(** ** Ports and model-specific registers *)

(** [outb], [outw] and [outd] write the low bits of their second argument
    to the port, as [Io] has it, and keep to the calling convention. *)
Theorem out_asm_spec w s ret fuel :
  bounded s → word (mem s) (regs s RSP) ret → regs s RSP + 8 < 2 ^ 64 → (4 <= fuel)%nat →
  returns (run (out_asm w) fuel 0) s (λ target t,
    returns_to s t ret target ∧ mem t = mem s ∧
    x_dev (sys t) = Out w (u16 (regs s RDI)) (wrap w (regs s RSI)) :: x_dev (sys s)).
Proof.
  intros Hb Hw Hr Hf. pose proof (Hb RDI). pose proof (Hb RSI). pose proof (Hb RSP).
  do 4 (destruct fuel as [|fuel]; [lia|]).
  eapply exec_mov; [reflexivity|lia|]. eapply exec_mov; [reflexivity|x_regs; lia|].
  eapply returns_step; [reflexivity|]. cbn [exec]. x_steps. apply returns_on_dev, returns_modify. x_steps. cbn [goes_on].
  eapply exec_leave with (s := s); [reflexivity|x_same|x_regs; exact Hw|lia|done|]. by x_regs.
Qed.

Lemma returns_port_in w port t (Q : Z → trace → Prop) :
  (let v := wrap w (dev_in t w (u16 port)) in Q v (In w (u16 port) v :: t)) → returns (port_in w port) t Q.
Proof. done. Qed.

Lemma in_asm_runs w s ret fuel :
  0 < w <= 32 → bounded s → word (mem s) (regs s RSP) ret → regs s RSP + 8 < 2 ^ 64 → (4 <= fuel)%nat →
  returns (run (in_asm w) fuel 0) s (λ target t,
    returns_to s t ret target ∧ mem t = mem s ∧
    port_in w (regs s RDI) (x_dev (sys s)) = Ok (regs t RAX) (x_dev (sys t))).
Proof.
  intros Hwd Hb Hw Hr Hf. pose proof (Hb RDI). pose proof (Hb RSP).
  do 4 (destruct fuel as [|fuel]; [lia|]).
  eapply exec_mov; [reflexivity|lia|]. eapply exec_clear; [reflexivity|].
  eapply returns_step; [reflexivity|]. cbn [exec]. x_steps. apply returns_on_dev, returns_port_in. intros v. x_steps. cbn [goes_on].
  assert (Hv : 0 <= v < 2 ^ w) by (apply wrap_bounds; lia). assert (2 ^ w <= 2 ^ 32) by (apply Z.pow_le_mono_r; lia).
  eapply exec_leave with (s := s); [reflexivity|x_same|x_regs; exact Hw|lia|done|]. x_regs. split; [done|].
  rewrite Z.div_0_l, Z.mul_0_l, Z.add_0_l by lia. unfold port_in. fold v.
  rewrite (wrap_small 64 (if w =? 32 then v else v)) by (destruct (w =? 32); lia). by destruct (w =? 32).
Qed.

(** [inb], [inw] and [ind] return what the device answers, as [Io] has it;
    the caller of [ind] takes the low 16 bits. *)
Theorem in_asm_spec s ret fuel :
  bounded s → word (mem s) (regs s RSP) ret → regs s RSP + 8 < 2 ^ 64 → (4 <= fuel)%nat →
  let answers m f w := returns (run (in_asm w) fuel 0) s (λ target t,
    returns_to s t ret target ∧ mem t = mem s ∧
    m (regs s RDI) (x_dev (sys s)) = Ok (f (regs t RAX)) (x_dev (sys t))) in
  answers inb (λ v, v) 8 ∧ answers inw (λ v, v) 16 ∧ answers ind (λ v, u16 v) 32.
Proof.
  intros Hb Hw Hr Hf answers. unfold answers.
  split_and!; (eapply returns_mono; [apply (in_asm_runs _ s ret); [lia|done..]|]);
    intros target t (Hret & Hm & Hp); split_and!; try done.
  unfold ind, mbind, M_bind. by rewrite Hp.
Qed.

Lemma msr_halves v : 0 <= v < 2 ^ 64 →
  u64 (2 ^ 32 * u32 (u64 (Z.shiftr v 32)) + u32 (u64 (Z.land (u32 v) (u32 (-1))))) = u64 v.
Proof.
  intros Hv. change (u32 (-1)) with (2 ^ 32 - 1). rewrite land_low, Z.shiftr_div_pow2 by lia.
  rewrite (Z.mod_small (u32 v)) by (apply wrap_bounds; lia).
  assert (0 <= u32 v < 2 ^ 32) by (apply wrap_bounds; lia).
  rewrite (wrap_small 64 (u32 v)), wrap_wrap, (wrap_small 64 (v / _)), (wrap_small 32 (v / _)) by dlia.
  f_equal. unfold wrap. by rewrite <- Z.div_mod.
Qed.

Lemma msr_joined v : 0 <= v < 2 ^ 64 →
  u64 (Z.lor (u64 (u32 v)) (u64 (Z.shiftl (u64 (v / 2 ^ 32)) 32))) = v.
Proof.
  intros Hv. assert (0 <= u32 v < 2 ^ 32) by (apply wrap_bounds; lia).
  rewrite (wrap_small 64 (u32 v)), (wrap_small 64 (v / _)), Z.shiftl_mul_pow2 by dlia.
  rewrite (wrap_small 64 (_ * _)), lor_add by dlia. rewrite wrap_small; unfold wrap; dlia.
Qed.

(** [writemsr] writes the 64 bits of its second argument, which it splits
    into the halves that [wrmsr] takes, to the register with the number in the
    low 32 bits of the first; [readmsr] puts the halves of [rdmsr] together. *)
Theorem msr_asm_spec s ret fuel :
  bounded s → word (mem s) (regs s RSP) ret → room (mem s) (regs s RSP - 8) 8 → 8 <= regs s RSP →
  regs s RSP + 8 < 2 ^ 64 → (9 <= fuel)%nat →
  returns (run writemsr_asm fuel 0) s (λ target t,
    returns_to s t ret target ∧ mem t = mem s ∧
    writemsr (u32 (regs s RDI)) (regs s RSI) (x_dev (sys s)) = Ok () (x_dev (sys t))) ∧
  returns (run readmsr_asm fuel 0) s (λ target t,
    returns_to s t ret target ∧ only_range (regs s RSP - 8) (regs s RSP) (mem s) (mem t) ∧
    readmsr (u32 (regs s RDI)) (x_dev (sys s)) = Ok (regs t RAX) (x_dev (sys t))).
Proof.
  intros Hb Hw Hrm Hr0 Hr Hf. pose proof (Hb RDI). pose proof (Hb RSI). pose proof (Hb RSP). pose proof (Hb RBP).
  do 9 (destruct fuel as [|fuel]; [lia|]). split.
  - eapply exec_mov; [reflexivity|lia|]. eapply exec_mov; [reflexivity|x_regs; lia|].
    eapply returns_step; [reflexivity|]. cbn [exec]. x_steps. cbn [goes_on].
    eapply returns_step; [reflexivity|]. cbn [exec]. x_steps. cbn [goes_on]. x_regs.
    eapply exec_mov; [reflexivity|x_regs; lia|].
    eapply returns_step; [reflexivity|]. cbn [exec]. x_steps. apply returns_on_dev, returns_modify. x_steps. cbn [goes_on].
    eapply exec_leave with (s := s); [reflexivity|x_same|x_regs; exact Hw|lia|done|]. x_regs. split; [done|].
    unfold writemsr, modify. cbn [x_dev set_dev]. by rewrite msr_halves.
  - eapply exec_push; [reflexivity|done|lia|done|]. cbn [value_of]. intros m Ho Hbp. set (s1 := Cpu _ _ _ _).
    eapply exec_clear; [reflexivity|]. eapply exec_mov; [reflexivity|x_regs; lia|].
    eapply exec_mov; [reflexivity|x_regs; unfold s1; x_regs; lia|].
    eapply returns_step; [reflexivity|]. cbn [exec]. x_steps. apply returns_on_dev, returns_gets. cbv beta. x_steps. cbn [goes_on].
    eapply returns_step; [reflexivity|]. cbn [exec]. x_steps. cbn [goes_on].
    eapply returns_step; [reflexivity|]. cbn [exec]. x_steps. cbn [goes_on]. unfold s1. x_regs.
    eapply exec_pop; [reflexivity|x_regs; exact Hbp|x_regs; lia|x_regs; lia|]. x_regs.
    replace (regs s RSP - 8 + 8) with (regs s RSP) by lia.
    eapply exec_leave with (s := s); [reflexivity| |x_regs; eapply word_only_range; [exact Ho|exact Hw|lia]|lia|done|].
    + apply frame_restored; [by x_regs..|x_same].
    + x_regs. split; [done|]. unfold readmsr, gets. by rewrite msr_joined by (apply wrap_bounds; lia).
Qed.

(** ** Descriptor tables *)

Lemma returns_load_bytes n s a v (Q : Z → cpu → Prop) :
  0 <= a → a + Z.of_nat n <= 2 ^ 64 → 0 <= v → bytes_at (mem s) a (le_bytes n v) →
  Q (v mod 2 ^ (8 * Z.of_nat n)) s → returns (load n a) s Q.
Proof.
  intros Ha He Hv Hb HQ. unfold returns, load. rewrite (load_n_bytes n (mem s) a v); [done|done|done|done|].
  intros k Hk. replace (a + k) with (a + Z.of_nat (Z.to_nat k)) by lia. apply Hb.
  unfold le_bytes. rewrite list_lookup_fmap, lookup_seq_lt by lia. cbn. by rewrite Z2Nat.id by lia.
Qed.

(** A limit and a base lie at [a]. *)
Definition table_in (m : gmap Z Z) (a limit base : Z) : Prop :=
  0 <= limit < 2 ^ 16 ∧ bytes_at m a (le_bytes 2 limit) ∧ word m (a + 2) base.

Lemma returns_table_at s a limit base (Q : Z * Z → cpu → Prop) :
  0 <= a → a + 10 <= 2 ^ 64 → table_in (mem s) a limit base → Q (limit, base) s → returns (table_at a) s Q.
Proof.
  intros Ha He (Hl & Hb & Hw) HQ. unfold table_at. x_steps.
  eapply returns_load_bytes; [lia|lia| |exact Hb|]; [lia|]. x_steps. rewrite wrap_small by lia.
  eapply returns_load; [lia|exact Hw|]. x_steps. by rewrite Z.mod_small by lia.
Qed.

(** [idt_flush] loads the interrupt descriptor table with its argument as
    base and the limit of 256 gates of 16 bytes, from the stack, and keeps to
    the calling convention. *)
Theorem idt_flush_asm_spec s ret fuel :
  bounded s → word (mem s) (regs s RSP) ret → room (mem s) (regs s RSP - 18) 18 → 18 <= regs s RSP →
  regs s RSP + 8 < 2 ^ 64 → (10 <= fuel)%nat →
  returns (run idt_flush_asm fuel 0) s (λ target t,
    returns_to s t ret target ∧ only_range (regs s RSP - 18) (regs s RSP) (mem s) (mem t) ∧
    sys t = set_idtr (Some (256 * 16 - 1, regs s RDI)) (sys s)).
Proof.
  intros Hb Hw Hrm Hr0 Hr Hf. pose proof (Hb RDI). pose proof (Hb RSP). pose proof (Hb RBP).
  do 10 (destruct fuel as [|fuel]; [lia|]).
  eapply exec_push; [reflexivity|done|lia| |].
  { intros k Hk. replace (regs s RSP - 8 + k) with (regs s RSP - 18 + (10 + k)) by lia. apply Hrm. lia. }
  cbn [value_of]. intros m1 Ho1 Hbp. set (s1 := Cpu _ _ _ _).
  eapply exec_mov; [reflexivity|unfold s1; x_regs; lia|].
  eapply returns_step; [reflexivity|]. cbn [exec]. x_steps. cbn [goes_on]. unfold s1. x_regs.
  change (u64 10) with 10. rewrite !(wrap_small 64 (_ - 10)) by lia. rewrite <- !Z.sub_add_distr. change (8 + 10) with 18.
  eapply returns_step; [reflexivity|]. cbn [exec]. x_steps. x_regs. rewrite Z.add_0_r, (wrap_small 64 (_ - 18)) by lia.
  apply returns_store_n; [lia|x_regs; lia|x_regs|x_regs].
  { eapply room_only_range; [exact Ho1|]. intros k Hk. apply Hrm. lia. }
  intros m2 Ho2 Hlim. x_steps. cbn [goes_on].
  eapply exec_st; [reflexivity|x_regs; lia|x_regs; lia|x_regs|].
  { do 2 (eapply room_only_range; [done|]). intros k Hk.
    replace (regs s RSP - 18 + 2 + k) with (regs s RSP - 18 + (2 + k)) by lia. apply Hrm. lia. }
  x_regs. intros m3 Ho3 Hbase.
  assert (Ho : only_range (regs s RSP - 18) (regs s RSP) (mem s) m3).
  { eapply only_range_weaken; [exact (only_range_trans _ _ _ _ _ _ _ (only_range_trans _ _ _ _ _ _ _ Ho1 Ho2) Ho3)|lia|lia]. }
  assert (Hbp3 : word m3 (regs s RSP - 8) (regs s RBP)).
  { eapply word_only_range; [exact Ho3| |lia]. eapply word_only_range; [exact Ho2|exact Hbp|lia]. }
  assert (Htab : table_in m3 (regs s RSP - 18) 0xFFF (regs s RDI)).
  { split; [lia|]. split; [|exact Hbase]. eapply bytes_at_only; [exact Ho3|exact Hlim|cbn; lia]. }
  eapply returns_step; [reflexivity|]. cbn [exec]. x_steps. x_regs.
  eapply returns_table_at; [lia|lia|exact Htab|]. x_steps. cbn [goes_on].
  eapply returns_step; [reflexivity|]. cbn [exec]. x_steps. cbn [goes_on]. x_regs. change (u64 10) with 10.
  rewrite !(wrap_small 64 (_ - 18 + 10)) by lia.
  eapply exec_mov; [reflexivity|x_regs; lia|]. x_regs.
  eapply exec_pop; [reflexivity|x_regs; exact Hbp3|x_regs; lia|x_regs; lia|]. x_regs.
  replace (regs s RSP - 8 + 8) with (regs s RSP) by lia.
  eapply exec_leave with (s := s); [reflexivity| |x_regs; eapply word_only_range; [exact Ho|exact Hw|lia]|lia|done|by x_regs].
  apply frame_restored; [by x_regs..|x_same].
Qed.

Lemma flags_image_bounds s : 0 <= x_flags (sys s) < 2 ^ 64 → 0 <= flags_image s < 2 ^ 64.
Proof.
  intros Hf. unfold flags_image. destruct (zf s).
  - rewrite Z.setbit_spec'. apply lor_bounds; [lia|done|]. split; [apply Z.pow_nonneg; lia|by apply Z.pow_lt_mono_r].
  - rewrite Z.clearbit_spec'. set (b := Z.ldiff _ _). set (c := Z.land (x_flags (sys s)) (2 ^ 6)).
    assert (Hdis : Z.land b c = 0).
    { unfold b, c. rewrite (Z.land_comm (x_flags _) (2 ^ 6)), Z.land_assoc, Z.land_ldiff. apply Z.land_0_l. }
    assert (Hsum : b + c = x_flags (sys s)) by (rewrite <- Z.add_lor_land, Hdis, Z.add_0_r; apply Z.lor_ldiff_and).
    assert (0 <= b) by (apply Z.ldiff_nonneg; lia). assert (0 <= c) by (apply Z.land_nonneg; lia). lia.
Qed.

(** The words [ws] have been pushed on the stack that began at [a], in the
    memory [m0] that has room for [n] bytes there. *)
Record stacked (a n : Z) (m0 : gmap Z Z) (ws : list Z) (t : cpu) : Prop := {
  sk_rsp : regs t RSP = a - 8 * Z.of_nat (length ws);
  sk_words : words_at (mem t) (regs t RSP) ws;
  sk_mem : only_range (a - 8 * Z.of_nat (length ws)) a m0 (mem t);
  sk_bounded : bounded t;
  sk_room : room m0 (a - n) n ∧ n <= a;
}.

Lemma stacked_push a n m0 ws t v m :
  stacked a n m0 ws t → 8 * (Z.of_nat (length ws) + 1) <= n → 
  only_range (regs t RSP - 8) (regs t RSP) (mem t) m → word m (regs t RSP - 8) v →
  stacked a n m0 (v :: ws) (Cpu (upd (regs t) RSP (regs t RSP - 8)) (zf t) m (sys t)).
Proof.
  intros [S1 S2 S3 S4 [S5 S6]] Hn Ho Hw. pose proof (S4 RSP) as Hsp. split; cbn [regs mem length]; rewrite ?upd_eq.
  - lia.
  - apply (words_at_split m _ [v] ws). split.
    + intros [|i] w Hi; [|done]. cbn in Hi. simplify_eq. by rewrite Z.add_0_r.
    + replace (regs t RSP - 8 + 8 * Z.of_nat (length [v])) with (regs t RSP) by (cbn; lia).
      eapply words_at_only; [exact Ho|exact S2|lia].
  - eapply only_range_weaken; [exact (only_range_trans _ _ _ _ _ _ _ S3 Ho)|lia|lia].
  - apply bounded_upd; [done|]. lia.
  - done.
Qed.

Lemma stacked_room a n m0 ws t :
  stacked a n m0 ws t → 8 * (Z.of_nat (length ws) + 1) <= n → 8 <= regs t RSP ∧ room (mem t) (regs t RSP - 8) 8.
Proof.
  intros [S1 S2 S3 S4 [S5 S6]] Hn. split; [lia|]. eapply room_only_range; [exact S3|].
  intros k Hk. replace (regs t RSP - 8 + k) with (a - n + (n - 8 * (Z.of_nat (length ws) + 1) + k)) by lia. apply S5. lia.
Qed.

Lemma stacked_reg a n m0 ws t r v :
  stacked a n m0 ws t → r ≠ RSP → 0 <= v < 2 ^ 64 → stacked a n m0 ws (set_reg r v t).
Proof.
  intros [S1 S2 S3 S4 S5] Hr Hv. split; cbn [regs mem set_reg]; rewrite ?upd_ne by done; try done.
  by apply bounded_upd.
Qed.

Lemma exec_stack p fuel pc x a n m0 ws t Q :
  stacked a n m0 ws t → p !! pc = Some (PUSH x) → 8 * (Z.of_nat (length ws) + 1) <= n →
  (∀ m, let u := Cpu (upd (regs t) RSP (regs t RSP - 8)) (zf t) m (sys t) in
    stacked a n m0 (value_of t x :: ws) u → returns (run p fuel (S pc)) u Q) →
  returns (run p (S fuel) pc) t Q.
Proof.
  intros HS Hi Hn HQ. destruct (stacked_room _ _ _ _ _ HS Hn) as [Hr Hm].
  eapply exec_push; [exact Hi|apply HS|done|done|]. intros m Ho Hw. apply HQ. by apply stacked_push.
Qed.

Lemma exec_stack_flags p fuel pc a n m0 ws t Q :
  stacked a n m0 ws t → p !! pc = Some PUSHF → 0 <= x_flags (sys t) < 2 ^ 64 → 8 * (Z.of_nat (length ws) + 1) <= n →
  (∀ m, let u := Cpu (upd (regs t) RSP (regs t RSP - 8)) (zf t) m (sys t) in
    stacked a n m0 (flags_image t :: ws) u → returns (run p fuel (S pc)) u Q) →
  returns (run p (S fuel) pc) t Q.
Proof.
  intros HS Hi Hf Hn HQ. destruct (stacked_room _ _ _ _ _ HS Hn) as [Hr Hm].
  eapply exec_pushf; [exact Hi|apply HS|by apply flags_image_bounds|done|done|].
  intros m Ho Hw. apply HQ. by apply stacked_push.
Qed.

Lemma gdt_flush_tail_runs t ret fuel :
  bounded t → word (mem t) (regs t RSP) 0x10 → word (mem t) (regs t RSP + 8) ret → regs t RSP + 16 < 2 ^ 64 →
  (8 <= fuel)%nat →
  returns (run gdt_flush_tail fuel 0) t (λ target u,
    target = ret ∧ regs u RSP = regs t RSP + 16 ∧ (∀ r, r ∉ [RSP; RAX] → regs u r = regs t r) ∧ mem u = mem t ∧
    sys u = set_tr 0x30 (set_seg FS 0x10 (set_seg GS 0x10 (set_seg DS 0x10 (set_seg ES 0x10 (sys t)))))).
Proof.
  intros Hb W1 W2 Hr Hf. pose proof (Hb RSP). do 8 (destruct fuel as [|fuel]; [lia|]).
  eapply exec_pop; [reflexivity|exact W1|lia|lia|].
  do 4 (eapply returns_step; [reflexivity|]; cbn [exec]; x_steps; cbn [goes_on]; x_regs).
  eapply returns_step; [reflexivity|]; cbn [exec]; x_steps; cbn [goes_on]. x_regs.
  eapply returns_step; [reflexivity|]; cbn [exec]; x_steps; cbn [goes_on]. x_regs.
  eapply exec_ret; [reflexivity|x_regs; exact W2|x_regs; lia|x_regs; lia|]. x_regs.
  split; [done|]. split; [lia|]. split; [x_same|]. split; [done|]. reflexivity.
Qed.

(** [gdt_flush] loads the global descriptor table with the limit and the
    base that its argument points to. Its [iretq] goes to the label [.flush] with
    the kernel's code segment; from there the other segment registers get the
    kernel's data segment and the task register its descriptor, and the
    caller goes on with its flags, its stack and the registers that it owns. *)
Theorem gdt_flush_asm_spec s flush limit base ret fuel fuel' :
  bounded s → 0 <= x_flags (sys s) < 2 ^ 64 → 0 <= flush < 2 ^ 64 →
  table_in (mem s) (regs s RDI) limit base → regs s RDI + 10 <= 2 ^ 64 →
  word (mem s) (regs s RSP) ret → room (mem s) (regs s RSP - 40) 40 → 40 <= regs s RSP → regs s RSP + 8 < 2 ^ 64 →
  (8 <= fuel)%nat → (8 <= fuel')%nat →
  returns (run (gdt_flush_asm flush) fuel 0) s (λ target t, target = flush ∧
    returns (run gdt_flush_tail fuel' 0) t (λ target' u,
      returns_to s u ret target' ∧ only_range (regs s RSP - 40) (regs s RSP) (mem s) (mem u) ∧
      x_gdtr (sys u) = Some (limit, base) ∧ x_tr (sys u) = 0x30 ∧ x_flags (sys u) = flags_image s ∧
      ∀ r, x_segs (sys u) r = if decide (r = CS) then 0x08 else 0x10)).
Proof.
  intros Hb Hfl Hfls Htab Hdi Hw Hrm Hr0 Hr Hf Hf'. pose proof (Hb RDI). pose proof (Hb RSP).
  pose proof (flags_image_bounds s Hfl) as Hfi.
  do 8 (destruct fuel as [|fuel]; [lia|]).
  eapply returns_step; [reflexivity|]. cbn [exec]. x_steps.
  eapply returns_table_at; [lia|lia|exact Htab|]. x_steps. cbn [goes_on]. set (s0 := set_sys _ s).
  assert (S0 : stacked (regs s RSP) 40 (mem s) [] s0).
  { split; [by cbn; lia|by intros i w ?|cbn; apply only_range_refl|exact Hb|done]. }
  eapply exec_stack; [exact S0|reflexivity|cbn; lia|]. intros m1 s1 S1.
  eapply exec_stack; [exact S1|reflexivity|cbn; lia|]. intros m2 s2 S2.
  eapply exec_stack_flags; [exact S2|reflexivity|done|cbn; lia|]. intros m3 s3 S3.
  eapply exec_stack; [exact S3|reflexivity|cbn; lia|]. intros m4 s4 S4.
  eapply returns_step; [reflexivity|]. cbn [exec]. x_steps. cbn [goes_on].
  rewrite (wrap_small 64 flush), (wrap_small 64 flush) by lia. set (s5 := set_reg RAX flush s4).
  assert (S5 : stacked (regs s RSP) 40 (mem s) [0x08; flags_image s; regs s RSP - 8; 0x10] s5).
  { apply (stacked_reg _ _ _ _ _ RAX flush) in S4; [|done|done]. unfold value_of, s1 in S4. cbn [regs] in S4.
    by rewrite upd_eq in S4. }
  eapply exec_stack; [exact S5|reflexivity|cbn; lia|]. intros m6 s6 S6.
  assert (E : value_of s5 (Rg RAX) = flush) by (unfold s5; cbn; by x_regs). rewrite E in S6.
  eapply exec_iretq; [reflexivity|apply S6|rewrite (sk_rsp _ _ _ _ _ S6); cbn; lia|exact (sk_words _ _ _ _ _ S6)|].
  split; [done|]. set (t := set_sys _ _).
  assert (Et : regs t RSP = regs s RSP - 8) by (unfold t; by x_regs).
  assert (Er : ∀ r, r ∉ [RSP; RAX] → regs t r = regs s r).
  { intros r Hr'. unfold t, s6, s5, s4, s3, s2, s1. x_regs. by rewrite !upd_ne by set_solver. }
  ret_use (gdt_flush_tail_runs t ret fuel'); rewrite ?Et.
  - change (regs t) with (upd (regs s6) RSP (regs s RSP - 8)). apply (bounded_upd s6 RSP _ true (mem t) (sys t)); [apply S6|lia].
  - replace (regs s RSP - 8) with (regs s6 RSP + 8 * Z.of_nat 4) by (rewrite (sk_rsp _ _ _ _ _ S6); cbn; lia).
    exact (sk_words _ _ _ _ _ S6 4%nat 0x10 eq_refl).
  - replace (regs s RSP - 8 + 8) with (regs s RSP) by lia. eapply word_only_range; [exact (sk_mem _ _ _ _ _ S6)|exact Hw|lia].
  - lia.
  - done.
  - intros target u (-> & Hsp & Hru & Hmu & Hsu). split; [|split_and!].
    + split; [done|]. split; [lia|]. intros r Hr'. unfold callee_saved in Hr'. rewrite Hru by set_solver. apply Er. set_solver.
    + rewrite Hmu. exact (sk_mem _ _ _ _ _ S6).
    + by rewrite Hsu.
    + by rewrite Hsu.
    + by rewrite Hsu.
    + rewrite Hsu. by intros [].
Qed.

(** ** User mode *)

(** [exec_user] leaves for the entry point in its third argument with the
    stack in its fourth, the segments of user mode at privilege level 3, and
    interrupts enabled or not as they were; it does not return, and uses 40
    bytes of the kernel's stack. *)
Theorem exec_user_asm_spec s fuel :
  bounded s → 0 <= x_flags (sys s) < 2 ^ 64 → room (mem s) (regs s RSP - 40) 40 → 40 <= regs s RSP →
  (13 <= fuel)%nat →
  returns (run exec_user_asm fuel 0) s (λ target t,
    target = regs s RDX ∧ regs t RSP = regs s RCX ∧ regs t RBP = regs s RCX ∧
    (∀ r, r ∉ [RSP; RBP; RAX] → regs t r = regs s r) ∧
    (∀ r, x_segs (sys t) r = if decide (r = CS) then 0x1B else 0x23) ∧
    Z.testbit (x_flags (sys t)) 9 = Z.testbit (x_flags (sys s)) 9 ∧
    only_range (regs s RSP - 40) (regs s RSP) (mem s) (mem t)).
Proof.
  intros Hb Hfl Hrm Hr0 Hf. pose proof (Hb RCX). pose proof (Hb RDX). pose proof (Hb RSP).
  do 13 (destruct fuel as [|fuel]; [lia|]).
  eapply exec_clear; [reflexivity|].
  do 5 (eapply returns_step; [reflexivity|]; cbn [exec]; x_steps; cbn [goes_on]; x_regs).
  eapply exec_mov; [reflexivity|x_regs; lia|]. x_regs. set (s0 := set_reg RBP _ _).
  assert (S0 : stacked (regs s RSP) 40 (mem s) [] s0).
  { split; [unfold s0; x_regs; cbn; lia|by intros i w ?|cbn; rewrite Z.sub_0_r; apply only_range_refl| |done].
    intros r. unfold s0, set_reg, set_zf, set_sys, upd. cbn [regs]. repeat case_decide; done || apply Hb. }
  eapply exec_stack; [exact S0|reflexivity|cbn; lia|]. intros m1 s1 S1.
  eapply exec_stack; [exact S1|reflexivity|cbn; lia|]. intros m2 s2 S2.
  eapply exec_stack_flags; [exact S2|reflexivity|done|cbn; lia|]. intros m3 s3 S3.
  eapply exec_stack; [exact S3|reflexivity|cbn; lia|]. intros m4 s4 S4.
  eapply exec_stack; [exact S4|reflexivity|cbn; lia|]. intros m5 s5 S5.
  assert (S5' : stacked (regs s RSP) 40 (mem s) [regs s RDX; 0x1B; Z.setbit (x_flags (sys s)) 6; regs s RCX; 0x23] s5)
    by exact S5.
  eapply exec_iretq; [reflexivity|apply S5|rewrite (sk_rsp _ _ _ _ _ S5); cbn; lia|exact (sk_words _ _ _ _ _ S5')|].
  split; [done|]. split; [by x_regs|]. split; [reflexivity|]. split; [|split_and!].
  - intros r Hr'. unfold s5, s4, s3, s2, s1, s0. x_regs. by rewrite !upd_ne by set_solver.
  - by intros [].
  - exact (Z.setbit_neq (x_flags (sys s)) 6 9 ltac:(done) ltac:(done)).
  - exact (sk_mem _ _ _ _ _ S5).
Qed.

(** ** The descriptors that the selectors select *)

Context `{Symbols}.

(** The selector [sel] is within the table [t], and its descriptor is a present
    segment of the kind and privilege. *)
Definition selects (t : tables) (sel kind dpl : Z) : Prop :=
  let g := gdt t (sel / 8) in
  (∀ limit base, gdtr t = Some (limit, base) → 8 * (sel / 8) + 7 <= limit) ∧
  seg_kind g = kind ∧ seg_dpl g = dpl ∧ seg_present g = true.

Lemma gdt_selects t i kind dpl :
  gdtr t = Some (79, gdt_addr) → 0 <= i < 10 →
  seg_kind (gdt t i) = kind → seg_dpl (gdt t i) = dpl → seg_present (gdt t i) = true →
  ∀ rpl, 0 <= rpl < 8 → selects t (8 * i + rpl) kind dpl.
Proof.
  intros Hg Hi Hk Hd Hp rpl Hr. unfold selects. replace ((8 * i + rpl) / 8) with i by dlia.
  split; [|done]. intros limit base E. rewrite Hg in E. injection E as <- <-. lia.
Qed.

(** C24: [gdt_init] and [gdt_flush], which it calls with the limit and the base
    of its table in memory: afterwards the descriptor table register has the
    table that [gdt_init] has filled, the code segment register selects
    the kernel's 64-bit code and the other five the kernel's data, present and
    of privilege 0, within the limit of the table, and the task register
    selects the descriptor of the task segment. *)
Theorem segments_loaded t :
  0 <= system_tss_addr < 2 ^ 64 →
  returns gdt_init t (λ _ t', ∀ s flush ret fuel fuel',
    table_in (mem s) (regs s RDI) (80 - 1) gdt_addr → regs s RDI + 10 <= 2 ^ 64 →
    bounded s → 0 <= x_flags (sys s) < 2 ^ 64 → 0 <= flush < 2 ^ 64 →
    word (mem s) (regs s RSP) ret → room (mem s) (regs s RSP - 40) 40 → 40 <= regs s RSP → regs s RSP + 8 < 2 ^ 64 →
    (8 <= fuel)%nat → (8 <= fuel')%nat →
    returns (run (gdt_flush_asm flush) fuel 0) s (λ target u, target = flush ∧
      returns (run gdt_flush_tail fuel' 0) u (λ target' v,
        returns_to s v ret target' ∧ x_gdtr (sys v) = gdtr t' ∧
        (∀ r, selects t' (x_segs (sys v) r) (if decide (r = CS) then 0x1A else 0x12) 0) ∧
        let tr := x_tr (sys v) / 8 in
        sys_base (gdt t' tr) (gdt t' (tr + 1)) = system_tss_addr ∧ sys_limit (gdt t' tr) = 103 ∧
        seg_kind (gdt t' tr) = 9 ∧ seg_present (gdt t' tr) = true))).
Proof.
  intros Ha. eapply returns_mono; [by apply returns_gdt_init|].
  intros _ t' (Hbase & Hlim & Hkind & _ & Hpres & Hseg & _ & _ & _ & Hg & _) s flush ret fuel fuel'.
  intros Htab Hdi Hb Hfl Hfls Hw Hrm Hr0 Hr Hf Hf'.
  eapply returns_mono; [by apply (gdt_flush_asm_spec s flush 79 gdt_addr ret fuel fuel')|].
  intros target u [-> Htail]. split; [done|]. eapply returns_mono; [exact Htail|].
  intros target' v (Hret & _ & Hgd & Htr & _ & Hsg). split; [done|]. split; [by rewrite Hgd, Hg|].
  rewrite Htr. change (0x30 / 8) with 6. split; [|done]. intros r. rewrite Hsg.
  destruct (Hseg (1, 0x1A, 0)) as (K1 & D1 & P1 & _); [set_solver|].
  destruct (Hseg (2, 0x12, 0)) as (K2 & D2 & P2 & _); [set_solver|]. cbn in *.
  destruct (decide (r = CS)); [by apply (gdt_selects t' 1 _ _ Hg ltac:(lia) K1 D1 P1 0)|].
  by apply (gdt_selects t' 2 _ _ Hg ltac:(lia) K2 D2 P2 0).
Qed.

(** After [gdt_init] the selectors that [exec_user] loads select the user's
    code and data segments, of privilege 3, with the requested privilege 3. *)
Theorem user_segments t :
  0 <= system_tss_addr < 2 ^ 64 →
  returns gdt_init t (λ _ t', ∀ s fuel,
    bounded s → 0 <= x_flags (sys s) < 2 ^ 64 → room (mem s) (regs s RSP - 40) 40 → 40 <= regs s RSP →
    (13 <= fuel)%nat →
    returns (run exec_user_asm fuel 0) s (λ target u, target = regs s RDX ∧ regs u RSP = regs s RCX ∧
      ∀ r, selects t' (x_segs (sys u) r) (if decide (r = CS) then 0x1A else 0x12) 3 ∧ x_segs (sys u) r mod 4 = 3)).
Proof.
  intros Ha. eapply returns_mono; [by apply returns_gdt_init|].
  intros _ t' (_ & _ & _ & _ & _ & Hseg & _ & _ & _ & Hg & _) s fuel Hb Hfl Hrm Hr0 Hf.
  eapply returns_mono; [by apply (exec_user_asm_spec s fuel)|].
  intros target u (Ht & Hsp & _ & _ & Hsg & _). split; [done|]. split; [done|]. intros r. rewrite Hsg.
  destruct (Hseg (3, 0x1A, 3)) as (K1 & D1 & P1 & _); [set_solver|].
  destruct (Hseg (4, 0x12, 3)) as (K2 & D2 & P2 & _); [set_solver|]. cbn in *.
  destruct (decide (r = CS)); split; [|done| |done].
  - by apply (gdt_selects t' 3 _ _ Hg ltac:(lia) K1 D1 P1 3).
  - by apply (gdt_selects t' 4 _ _ Hg ltac:(lia) K2 D2 P2 3).
Qed.
End system.
