(* ===== verification/AsmCpu.v ===== *)
(** The remaining routines of [src/common_x86_64.asm], [src/exec.asm] and the
    feature test of [src/sse.asm]: what the processor can do, and how it
    stops. *)

From S2P Require Import Prelude Io X86 AsmLib.

Open Scope Z_scope.

(** ** The code *)

Definition sse42_enabled_asm : routine :=
  [MOV RAX (Im 1); CPUID; XOR RAX RAX; TEST_ECX (Z.shiftl 1 20); JZ ".fail";
   RD_CR RAX CR0; AND_AX 0xFFFB; OR_AX 0x2; WR_CR CR0 RAX;
   RD_CR RAX CR4; OR_AX (Z.shiftl 3 9); WR_CR CR4 RAX; MOV RAX (Im 1); RET;
   LABEL ".fail"; MOV RAX (Im 0); RET].

Definition x2apic_enabled_asm : routine :=
  [MOV RAX (Im 1); CPUID; TEST_ECX (Z.shiftl 1 21); MOV RAX (Rg RCX); RET].

Definition halt_catch_fire_asm : routine :=
  [LABEL "halt_catch_fire"; CLI; HLT; JMP "halt_catch_fire"].

Definition execat_asm : routine := [JMP_REG RDX; RET].
Definition exit_asm : routine := [ADD RBP (Im 16); MOV RSP (Rg RBP); RET].

(** ** Sixteen bits of a register *)

Definition low16 (a v : Z) : Z := a / 2 ^ 16 * 2 ^ 16 + u16 v.

Lemma testbit_low16 a v i : 0 <= i → Z.testbit (low16 a v) i = if i <? 16 then Z.testbit v i else Z.testbit a i.
Proof.
  intros Hi. unfold low16. pose proof (wrap_bounds 16 v ltac:(lia)).
  rewrite Z.add_comm, <- (lor_add 16), Z.lor_spec by lia. unfold wrap. destruct (Z.ltb_spec i 16).
  - by rewrite Z.mod_pow2_bits_low, Z.mul_pow2_bits_low, orb_false_r by lia.
  - rewrite Z.mod_pow2_bits_high, Z.mul_pow2_bits, Z.div_pow2_bits by lia. cbn [orb]. f_equal. lia.
Qed.

Lemma low16_bounds a v : 0 <= a < 2 ^ 64 → 0 <= low16 a v < 2 ^ 64.
Proof. intros Ha. unfold low16. pose proof (wrap_bounds 16 v ltac:(lia)). dlia. Qed.

(** [and ax] and [or ax]: one bit cleared, bits set. *)
Lemma low16_clear a k : 0 <= k < 16 → low16 a (Z.land (u16 a) (Z.ldiff (Z.ones 16) (2 ^ k))) = Z.clearbit a k.
Proof.
  intros Hk. apply Z.bits_inj'. intros i Hi. rewrite testbit_low16, Z.clearbit_eqb by lia.
  destruct (Z.ltb_spec i 16).
  - rewrite Z.land_spec, Z.ldiff_spec, Z.ones_spec_low, Z.pow2_bits_eqb by lia. unfold wrap.
    by rewrite Z.mod_pow2_bits_low by lia.
  - replace (k =? i) with false by lia. by rewrite andb_true_r.
Qed.

Lemma low16_set a k : 0 <= k < 16 → low16 a (Z.lor (u16 a) (2 ^ k)) = Z.setbit a k.
Proof.
  intros Hk. apply Z.bits_inj'. intros i Hi. rewrite testbit_low16, Z.setbit_eqb by lia.
  destruct (Z.ltb_spec i 16).
  - rewrite Z.lor_spec, Z.pow2_bits_eqb by lia. unfold wrap. rewrite Z.mod_pow2_bits_low by lia. apply orb_comm.
  - by replace (k =? i) with false by lia.
Qed.

Lemma low16_set2 a j k : 0 <= j < 16 → 0 <= k < 16 →
  low16 a (Z.lor (u16 a) (Z.lor (2 ^ j) (2 ^ k))) = Z.setbit (Z.setbit a j) k.
Proof.
  intros Hj Hk. rewrite <- (low16_set a j), <- (low16_set (low16 _ _) k) by lia.
  apply Z.bits_inj'. intros i Hi. rewrite !testbit_low16 by lia. destruct (Z.ltb_spec i 16); [|done].
  rewrite !Z.lor_spec. unfold wrap. rewrite !Z.mod_pow2_bits_low, testbit_low16 by lia.
  replace (i <? 16) with true by lia. rewrite Z.lor_spec, Z.mod_pow2_bits_low by lia. apply orb_assoc.
Qed.

Section processor.
Context `{Callees, Devices}.

(** ** The feature tests *)

(** [cpuid] with leaf 1, which overwrites [rbx] as well. *)
Lemma exec_cpuid p fuel pc s a b c d Q :
  p !! pc = Some (MOV RAX (Im 1)) → p !! S pc = Some CPUID → x_cpuid (sys s) 1 = (a, b, c, d) →
  (∀ t, regs t RAX = u32 a → regs t RBX = u32 b → regs t RCX = u32 c → regs t RDX = u32 d →
    (∀ r, r ∉ [RAX; RBX; RCX; RDX] → regs t r = regs s r) → mem t = mem s → sys t = sys s →
    returns (run p fuel (S (S pc))) t Q) →
  returns (run p (S (S fuel)) pc) s Q.
Proof.
  intros H1 H2 Hc HQ. eapply returns_step; [exact H1|]. cbn [exec]. x_steps. cbn [goes_on].
  eapply returns_step; [exact H2|]. cbn [exec]. x_steps. cbn [sys set_reg]. x_regs.
  change (u32 (u64 (u64 1))) with 1. rewrite Hc. x_steps. cbn [goes_on].
  assert (E : ∀ v, u64 (u32 v) = u32 v) by (intros v; apply wrap_small; pose proof (wrap_bounds 32 v ltac:(lia)); lia).
  rewrite !E. apply HQ; try by x_regs. intros r Hr. x_regs. by rewrite !upd_ne by set_solver.
Qed.

Lemma test_ecx c k : 0 <= k < 32 → (Z.land (u32 (u32 c)) (Z.shiftl 1 k) =? 0) = negb (Z.testbit c k).
Proof.
  intros Hk. rewrite wrap_wrap, Z.shiftl_1_l by lia. apply negb_sym.
  symmetry. change (nz (Z.land (u32 c) (2 ^ k)) = Z.testbit c k). rewrite land_pow2_testbit by lia.
  unfold wrap. by rewrite Z.mod_pow2_bits_low by lia.
Qed.

Lemma exec_rd_cr p fuel pc d c s Q :
  p !! pc = Some (RD_CR d c) → 0 <= x_crs (sys s) c < 2 ^ 64 →
  returns (run p fuel (S pc)) (set_reg d (x_crs (sys s) c) s) Q → returns (run p (S fuel) pc) s Q.
Proof.
  intros Hi Hc HQ. eapply returns_step; [exact Hi|]. cbn [exec]. x_steps. cbn [goes_on]. by rewrite wrap_small by lia.
Qed.

(** An operation [f] on [ax]. *)
Lemma exec_ax p fuel pc i f s Q :
  p !! pc = Some i → exec i = (a ← get RAX; result_ax (f (u16 a))) → 0 <= regs s RAX < 2 ^ 64 →
  (∀ z, returns (run p fuel (S pc)) (set_zf z (set_reg RAX (low16 (regs s RAX) (f (u16 (regs s RAX)))) s)) Q) →
  returns (run p (S fuel) pc) s Q.
Proof.
  intros Hi He Ha HQ. eapply returns_step; [exact Hi|]. rewrite He. x_steps. cbn [goes_on].
  change (_ / _ * _ + _) with (low16 (regs s RAX) (f (u16 (regs s RAX)))).
  rewrite (wrap_small 64) by by apply low16_bounds. apply HQ.
Qed.

(** What a routine that has executed [cpuid] leaves of its caller: everything
    but [rbx], which the calling convention asks it to keep. *)
Definition returns_without_rbx (s t : cpu) (ret target b : Z) : Prop :=
  target = ret ∧ regs t RSP = regs s RSP + 8 ∧ regs t RBX = u32 b ∧
  ∀ r, r ∈ [RBP; R12; R13; R14; R15] → regs t r = regs s r.

Lemma exec_ret_cpuid p fuel pc s t ret b (P : cpu → Prop) :
  p !! pc = Some RET → bounded s → word (mem s) (regs s RSP) ret → regs s RSP + 8 < 2 ^ 64 → mem t = mem s →
  regs t RBX = u32 b → (∀ r, r ∈ [RSP; RBP; R12; R13; R14; R15] → regs t r = regs s r) →
  P (set_reg RSP (regs s RSP + 8) t) →
  returns (run p (S fuel) pc) t (λ target t, returns_without_rbx s t ret target b ∧ P t).
Proof.
  intros Hi Hb Hw Hr Hm Hbx Hk HP. pose proof (Hb RSP). assert (E : regs t RSP = regs s RSP) by (apply Hk; set_solver).
  eapply exec_ret; [exact Hi|rewrite Hm, E; exact Hw|lia|lia|]. rewrite E. split; [|exact HP].
  split; [done|]. x_regs. split; [done|]. split; [done|]. intros r Hr'. rewrite upd_ne by set_solver. apply Hk. set_solver.
Qed.

(** [sse42_enabled] tells whether bit 20 of the features is set; if so it
    clears the emulation bit of [CR0] and sets the monitoring bit, and sets the
    two bits of [CR4] that enable the instructions and their exceptions. *)
Theorem sse42_enabled_asm_spec s a b c d ret fuel :
  x_cpuid (sys s) 1 = (a, b, c, d) → bounded s → (∀ r, 0 <= x_crs (sys s) r < 2 ^ 64) →
  word (mem s) (regs s RSP) ret → regs s RSP + 8 < 2 ^ 64 → (14 <= fuel)%nat →
  returns (run sse42_enabled_asm fuel 0) s (λ target t,
    returns_without_rbx s t ret target b ∧ mem t = mem s ∧ regs t RAX = Z.b2z (Z.testbit c 20) ∧
    if Z.testbit c 20 then
      x_crs (sys t) CR0 = Z.setbit (Z.clearbit (x_crs (sys s) CR0) 2) 1 ∧
      x_crs (sys t) CR4 = Z.setbit (Z.setbit (x_crs (sys s) CR4) 9) 10
    else sys t = sys s).
Proof.
  intros Hc Hb Hcr Hw Hr Hf. do 14 (destruct fuel as [|fuel]; [lia|]).
  eapply exec_cpuid; [reflexivity..|exact Hc|]. intros t Ha Hbx Hcx Hd Hk Hm Hs.
  eapply exec_clear; [reflexivity|]. eapply returns_step; [reflexivity|]. cbn [exec]. x_steps. cbn [goes_on]. x_regs.
  rewrite Hcx, test_ecx by lia. eapply exec_jz; [reflexivity..|]. cbn [zf set_zf].
  destruct (Z.testbit c 20) eqn:E; cbn [negb Z.b2z].
  - eapply exec_rd_cr; [reflexivity|cbn; rewrite Hs; apply Hcr|]. cbn [sys set_zf set_reg]. rewrite Hs.
    pose proof (low16_bounds _ (Z.land (u16 (x_crs (sys s) CR0)) 0xFFFB) (Hcr CR0)) as B1.
    pose proof (low16_bounds _ (Z.lor (u16 (x_crs (sys s) CR4)) (Z.shiftl 3 9)) (Hcr CR4)) as B3.
    eapply (exec_ax _ _ _ _ (λ v, Z.land v 0xFFFB)); [reflexivity..|x_regs; apply Hcr|]. x_regs. intros z1.
    change 0xFFFB with (Z.ldiff (Z.ones 16) (2 ^ 2)) in *. rewrite low16_clear in * by lia.
    pose proof (low16_bounds _ (Z.lor (u16 (Z.clearbit (x_crs (sys s) CR0) 2)) 2) B1) as B2.
    eapply (exec_ax _ _ _ _ (λ v, Z.lor v 2)); [reflexivity..|x_regs; exact B1|]. x_regs. intros z2.
    rewrite (low16_set _ 1) in * by lia.
    eapply returns_step; [reflexivity|]; cbn [exec]; x_steps; cbn [goes_on]. x_regs.
    eapply exec_rd_cr; [reflexivity|cbn; rewrite Hs; apply Hcr|]. cbn [sys set_zf set_reg set_sys set_cr x_crs].
    rewrite decide_False by done. rewrite Hs.
    eapply (exec_ax _ _ _ _ (λ v, Z.lor v (Z.shiftl 3 9))); [reflexivity..|x_regs; apply Hcr|]. x_regs. intros z3.
    change (Z.shiftl 3 9) with (Z.lor (2 ^ 9) (2 ^ 10)) in *. rewrite low16_set2 in * by lia.
    do 2 (eapply returns_step; [reflexivity|]; cbn [exec]; x_steps; cbn [goes_on]). x_regs.
    eapply exec_ret_cpuid; [reflexivity|done|exact Hw|done|done|done| |by split_and!].
    intros r Hr'. x_regs. rewrite !upd_ne by set_solver. apply Hk. set_solver.
  - eapply exec_label; [reflexivity|]. eapply returns_step; [reflexivity|]; cbn [exec]; x_steps; cbn [goes_on].
    eapply exec_ret_cpuid; [reflexivity|done|exact Hw|done|done|done| |by split_and!].
    intros r Hr'. x_regs. rewrite !upd_ne by set_solver. apply Hk. set_solver.
Qed.

(** [x2apic_enabled] returns the whole word of features, not its bit 21. *)
Theorem x2apic_enabled_asm_spec s a b c d ret fuel :
  x_cpuid (sys s) 1 = (a, b, c, d) → bounded s →
  word (mem s) (regs s RSP) ret → regs s RSP + 8 < 2 ^ 64 → (5 <= fuel)%nat →
  returns (run x2apic_enabled_asm fuel 0) s (λ target t,
    returns_without_rbx s t ret target b ∧ mem t = mem s ∧ regs t RAX = u32 c ∧ sys t = sys s).
Proof.
  intros Hc Hb Hw Hr Hf. do 5 (destruct fuel as [|fuel]; [lia|]).
  eapply exec_cpuid; [reflexivity..|exact Hc|]. intros t Ha Hbx Hcx Hd Hk Hm Hs.
  eapply returns_step; [reflexivity|]. cbn [exec]. x_steps. cbn [goes_on].
  eapply exec_mov; [reflexivity|x_regs; rewrite Hcx; pose proof (wrap_bounds 32 c ltac:(lia)); lia|]. x_regs.
  eapply exec_ret_cpuid; [reflexivity|done|exact Hw|done|done|done| |by split_and!].
  intros r Hr'. x_regs. rewrite !upd_ne by set_solver. apply Hk. set_solver.
Qed.

(** ** Stopping and leaving *)

(** [halt_catch_fire] stops with interrupts disabled and all else as it was. *)
Theorem halt_catch_fire_asm_spec s fuel :
  (3 <= fuel)%nat → ∃ t, run halt_catch_fire_asm fuel 0 s = Err Halted t ∧
    Z.testbit (x_flags (sys t)) 9 = false ∧ regs t = regs s ∧ mem t = mem s ∧ x_dev (sys t) = x_dev (sys s).
Proof.
  intros Hf. do 3 (destruct fuel as [|fuel]; [lia|]). eexists. split; [reflexivity|].
  split; [by apply Z.clearbit_eq|done].
Qed.

(** [execat] goes on at its third argument, with everything as it was. *)
Theorem execat_asm_spec s fuel :
  (1 <= fuel)%nat → returns (run execat_asm fuel 0) s (λ target t, target = regs s RDX ∧ t = s).
Proof. intros Hf. destruct fuel as [|fuel]; [lia|]. done. Qed.

(** [exit] takes the word 16 bytes above the frame pointer for its return
    address. *)
Theorem exit_asm_spec s ret fuel :
  bounded s → regs s RBP + 24 < 2 ^ 64 → word (mem s) (regs s RBP + 16) ret → (3 <= fuel)%nat →
  returns (run exit_asm fuel 0) s (λ target t, target = ret ∧ regs t RSP = regs s RBP + 24 ∧
    mem t = mem s ∧ sys t = sys s ∧ ∀ r, r ∉ [RSP; RBP] → regs t r = regs s r).
Proof.
  intros Hb Hr Hw Hf. pose proof (Hb RBP). do 3 (destruct fuel as [|fuel]; [lia|]).
  eapply returns_step; [reflexivity|]. cbn [exec]. x_steps. cbn [goes_on]. change (u64 16) with 16.
  rewrite (wrap_small 64 (regs s RBP + 16)) by lia. eapply exec_mov; [reflexivity|x_regs; lia|]. x_regs.
  eapply exec_ret; [reflexivity|x_regs; exact Hw|x_regs; lia|x_regs; lia|]. x_regs.
  split; [done|]. split; [lia|]. split; [done|]. split; [done|]. intros r Hr'. by rewrite !upd_ne by set_solver.
Qed.
End processor.
