(* ===== verification/AsmTrap.v ===== *)
(** The entry points of [src/vectors.asm]: the code of each vector,
    [trap_handler], and the entry of the [syscall] instruction, on the
    processor of [X86]. *)

From S2P Require Import Prelude Kernel KList State Paging Frame Io Term Desc Machine Lapic Trap Syscall X86.

Open Scope Z_scope.

(** ** The code *)

(** [vector0] to [vector255]: all but these push a zero where the processor
    pushes an error code for some exceptions. *)
Definition pushes_zero (n : Z) : bool := negb (bool_decide (n ∈ [8; 10; 11; 12; 13; 14; 16])).
Definition vector (n : Z) : routine :=
  (if pushes_zero n then [PUSH (Im 0)] else []) ++ [PUSH (Im n); JMP "trap_handler"].

(** The registers in the order of [struct registers]. *)
Definition frame_regs : list reg :=
  [RAX; RCX; RDX; RBX; RBP; RSI; RDI; R8; R9; R10; R11; R12; R13; R14; R15].
Definition trap_handler_asm : routine :=
  [LABEL "trap_handler"; CLI] ++ (PUSH <$> (Rg <$> reverse frame_regs)) ++
  [MOV RDI (Rg RSP); CALL "trap"] ++ (POP <$> frame_regs) ++ [ADD RSP (Im 16); IRETQ].

(** [struct syscall], and the path of the [syscall] instruction. *)
Definition syscall_regs : list reg := [RAX; RDI; RSI; RDX; RCX; R11; RBX; RBP; R12; R13; R14; R15].
Definition syscall_entry_asm : routine :=
  [PUSH (Rg RSP)] ++ (PUSH <$> (Rg <$> reverse syscall_regs)) ++
  [MOV RDI (Rg RSP); CALL "syscall_handler"] ++ (POP <$> syscall_regs) ++ [POP RSP; JMP_REG RCX].

(** The exceptions for which the processor pushes an error code. *)
Definition has_error_code (n : Z) : bool := bool_decide (n ∈ [8; 10; 11; 12; 13; 14; 17]).

(** [struct registers] in memory, and what the processor has pushed when it
    enters the vector. *)
Definition frame_words (r : registers) : list Z :=
  [rax r; rcx r; rdx r; rbx r; rbp r; rsi r; rdi r; r8 r; r9 r; r10 r; r11 r; r12 r; r13 r; r14 r; r15 r;
   int_no r; err_no r; rip r; cs r; rflags r; rsp r; ss r].

(** The frame that the C code gets: the registers as they are at the vector,
    then the words that lie on the stack. *)
Definition trap_frame (n : Z) (s : cpu) (ws : list Z) : registers :=
  let rest := (if pushes_zero n then [0] else []) ++ ws in
  let w i := nth i rest 0 in
  Registers (regs s RAX) (regs s RCX) (regs s RDX) (regs s RBX) (regs s RBP) (regs s RSI) (regs s RDI)
    (regs s R8) (regs s R9) (regs s R10) (regs s R11) (regs s R12) (regs s R13) (regs s R14) (regs s R15)
    n (w 0%nat) (w 1%nat) (w 2%nat) (w 3%nat) (w 4%nat) (w 5%nat).

Section trap.
Context `{Callees, Devices}.

(** [f] is called with a pointer to the words [ws]. *)
Definition called_with (ws : list Z) (t : cpu) : Prop :=
  regs t RDI = regs t RSP ∧ words_at (mem t) (regs t RDI) ws.

Lemma exec_jump p fuel pc l k s Q :
  p !! pc = Some (JMP l) → find_label l p = Some k → returns (run p fuel k) s Q →
  returns (run p (S fuel) pc) s Q.
Proof. intros Hi Hl HQ. eapply returns_step; [exact Hi|]. cbn [exec]. x_steps. cbn. by rewrite Hl. Qed.

Lemma exec_nop p fuel pc i s Q :
  p !! pc = Some i → exec i = mret Next → returns (run p fuel (S pc)) s Q → returns (run p (S fuel) pc) s Q.
Proof. intros Hi He HQ. eapply returns_step; [exact Hi|]. by rewrite He. Qed.

(** What pushes leave, read upwards. *)
Lemma pushed_words xs s s' : pushed xs s s' → words_at (mem s') (regs s' RSP) (reverse (value_of s <$> xs)).
Proof.
  intros P i w Hi. pose proof (lookup_lt_Some _ _ _ Hi) as Hlt. rewrite length_reverse, length_fmap in Hlt.
  rewrite reverse_lookup in Hi by by rewrite length_fmap. rewrite length_fmap, list_lookup_fmap in Hi.
  destruct (xs !! (length xs - S i)%nat) as [x|] eqn:E; [|done]. cbn in Hi. injection Hi as <-.
  pose proof (pu_words _ _ _ P _ _ E) as Hw. rewrite (pu_rsp _ _ _ P).
  replace (regs s RSP - 8 * Z.of_nat (length xs) + 8 * Z.of_nat i) with
    (regs s RSP - 8 * (Z.of_nat (length xs - S i) + 1)) by lia. done.
Qed.

(** Every register but the stack pointer is in the frame. *)
Lemma frame_regs_all r : r ≠ RSP → ∃ i, frame_regs !! i = Some r.
Proof. intros Hr. apply list_elem_of_lookup. destruct r; try done; apply (bool_decide_unpack _); vm_compute; reflexivity. Qed.

Lemma regs_pushed rs s : reverse (value_of s <$> (Rg <$> reverse rs)) = regs s <$> rs.
Proof. rewrite <- !fmap_reverse, reverse_involutive, <- list_fmap_compose. done. Qed.

(** The registers [rs] saved on the stack, a C function called with a pointer
    to them and to the words above, and the registers restored. *)
Lemma returns_around_call p rs f rest F pc fuel s Q :
  take (length rs) (drop pc p) = PUSH <$> (Rg <$> reverse rs) →
  p !! (pc + length rs)%nat = Some (MOV RDI (Rg RSP)) → p !! S (pc + length rs) = Some (CALL f) →
  take (length rs) (drop (S (S (pc + length rs))) p) = POP <$> rs → NoDup rs → RSP ∉ rs →
  bounded s → 8 * Z.of_nat (length rs) <= regs s RSP →
  room (mem s) (regs s RSP - 8 * Z.of_nat (length rs)) (8 * Z.of_nat (length rs)) →
  words_at (mem s) (regs s RSP) rest → F `prefix_of` (regs s <$> rs) ++ rest → respects_abi f (called_with F) →
  (∀ t, bounded t → regs t RSP = regs s RSP → (∀ r, r ∈ rs → regs t r = regs s r) →
    (∀ x, regs s RSP <= x → mem t !! x = mem s !! x) →
    returns (run p fuel (S (S (pc + length rs)) + length rs)) t Q) →
  returns (run p (length rs + S (S (length rs + fuel))) pc) s Q.
Proof.
  intros Hp1 Hp2 Hp3 Hp4 Hnd Hsp Hb Hr Hroom Hrest [tl EF] Hcall HQ. set (ys := Rg <$> reverse rs).
  assert (Hl : length ys = length rs) by (unfold ys; by rewrite length_fmap, length_reverse).
  rewrite <- Hl at 1. apply returns_pushes with (s := s);
    [by rewrite Hl| |done|by rewrite Hl|by rewrite Hl|].
  { unfold ys. intros (r & E & Hr')%list_elem_of_fmap. injection E as <-. by apply Hsp, elem_of_reverse. }
  rewrite Hl. intros s2 P2. pose proof (pushed_bounded _ _ _ P2 Hb ltac:(lia)) as Hb2.
  pose proof (pushed_words _ _ _ P2) as W2. pose proof (pu_rsp _ _ _ P2) as E2. unfold ys in W2.
  rewrite regs_pushed in W2. rewrite Hl in E2. pose proof (pu_mem _ _ _ P2) as M2.
  assert (W : words_at (mem s2) (regs s2 RSP) ((regs s <$> rs) ++ rest)).
  { apply words_at_split. split; [exact W2|]. rewrite length_fmap, E2.
    replace (regs s RSP - _ + _) with (regs s RSP) by lia. eapply words_at_only; [exact M2|exact Hrest|lia]. }
  eapply returns_step; [exact Hp2|]. cbn [exec]. x_steps. cbn [goes_on].
  rewrite (wrap_small 64 (regs s2 RSP)) by apply Hb2. set (s3 := set_reg RDI (regs s2 RSP) s2).
  assert (E3 : regs s3 RSP = regs s2 RSP) by by apply upd_ne.
  eapply returns_step; [exact Hp3|]. cbn [exec]. x_steps. ret_use Hcall.
  { split; [by unfold s3; cbn; rewrite upd_eq, upd_ne|]. unfold s3 at 2, set_reg. cbn. rewrite upd_eq.
    rewrite EF in W. by apply words_at_split in W as [? _]. }
  { by apply bounded_upd. }
  intros _ t (Hbt & Ht & Hmt). x_steps. cbn [goes_on].
  assert (Et : regs t RSP = regs s2 RSP) by (rewrite Ht by set_solver; done).
  apply returns_pops with (s := t) (vs := regs s <$> rs); [exact Hp4|done|done|by rewrite length_fmap|apply Hbt| | |].
  { pose proof (Hb RSP). lia. }
  { rewrite Et. intros i v Hi. eapply word_agree; [by apply W2|]. intros k Hk. apply Hmt. lia. }
  intros t1 [Q1 Q2 Q3 Q4].
  assert (Eall : ∀ r, r ∈ rs → regs t1 r = regs s r).
  { intros r [i Hi]%list_elem_of_lookup. apply (Q3 i); [done|]. by rewrite list_lookup_fmap, Hi. }
  apply HQ; [|lia|done|].
  - intros r. destruct (decide (r = RSP)) as [->|Hne]; [pose proof (Hb RSP); lia|].
    destruct (decide (r ∈ rs)); [rewrite Eall by done; apply Hb|rewrite Q1 by done; apply Hbt].
  - intros x Hx. rewrite Q4, Hmt by lia. apply M2. lia.
Qed.

(** From the vector to [iretq]: [xs] are the words that the vector pushes. *)
Lemma returns_trap_handler xs n s ws fuel (F : list Z) :
  xs = [Im n] ∨ xs = [Im 0; Im n] → 0 <= n < 256 → bounded s → length ws = 6%nat →
  words_at (mem s) (regs s RSP) ws → 136 <= regs s RSP → regs s RSP + 48 < 2 ^ 64 →
  room (mem s) (regs s RSP - 136) 136 →
  F = take 22 ((regs s <$> frame_regs) ++ reverse (value_of s <$> xs) ++ ws) →
  respects_abi "trap" (called_with F) → (39 <= fuel)%nat →
  returns (run ((PUSH <$> xs) ++ [JMP "trap_handler"] ++ trap_handler_asm) fuel 0) s (λ target t,
    F !! 17%nat = Some target ∧ F !! 20%nat = Some (regs t RSP) ∧
    (∃ cs ss, F !! 18%nat = Some cs ∧ x_segs (sys t) CS = u16 cs ∧ F !! 19%nat = Some (x_flags (sys t)) ∧
      F !! 21%nat = Some ss ∧ x_segs (sys t) SS = u16 ss) ∧
    (∀ r, r ≠ RSP → regs t r = regs s r) ∧ (∀ x, regs s RSP <= x → mem t !! x = mem s !! x)).
Proof.
  intros Hxs Hn Hb Hlen Hws Hr1 Hr2 Hroom EF Hcall Hfuel. set (p := _ ++ _).
  assert (Hlx : (1 <= length xs <= 2)%nat) by (destruct Hxs as [-> | ->]; cbn; lia).
  assert (∃ k, fuel = (length xs + S (S (S (15 + S (S (15 + S (S k)))))))%nat) as [k ->]
    by (exists (fuel - length xs - 37)%nat; lia). clear Hfuel.
  apply returns_pushes with (s := s) (pc := O); [by destruct Hxs as [-> | ->]|destruct Hxs as [-> | ->]; set_solver|done|lia| |].
  { intros j Hj. replace (regs s RSP - 8 * Z.of_nat (length xs) + j)
      with (regs s RSP - 136 + (136 - 8 * Z.of_nat (length xs) + j)) by lia. apply Hroom. lia. }
  intros s1 P1. pose proof (pushed_bounded _ _ _ P1 Hb ltac:(lia)) as Hb1.
  pose proof (pushed_words _ _ _ P1) as W1. pose proof (pu_rsp _ _ _ P1) as E1. pose proof (pu_mem _ _ _ P1) as M1.
  set (rest := reverse (value_of s <$> xs) ++ ws) in *.
  assert (Hrest : words_at (mem s1) (regs s1 RSP) rest).
  { apply words_at_split. split; [exact W1|]. rewrite length_reverse, length_fmap.
    replace (regs s1 RSP + _) with (regs s RSP) by lia. eapply words_at_only; [exact M1|exact Hws|lia]. }
  apply exec_jump with (l := "trap_handler"%string) (k := S (length xs)); [by destruct Hxs as [-> | ->]..|].
  apply exec_nop with (i := LABEL "trap_handler"); [by destruct Hxs as [-> | ->]|done|].
  apply returns_step with (i := CLI); [by destruct Hxs as [-> | ->]|].
  cbn [exec]. x_steps. cbn [goes_on]. set (s1' := set_sys _ s1).
  apply (returns_around_call p frame_regs "trap" rest F); [by destruct Hxs as [-> | ->]..|
    by apply (bool_decide_unpack _)|by apply (bool_decide_unpack _)|exact Hb1| | |exact Hrest| |exact Hcall|].
  { change (8 * 15 <= regs s1 RSP). lia. }
  { change (room (mem s1) (regs s1 RSP - 120) 120). eapply room_only_range; [exact M1|]. intros j Hj.
    replace (regs s1 RSP - 120 + j) with (regs s RSP - 136 + (16 - 8 * Z.of_nat (length xs) + j)) by lia. apply Hroom. lia. }
  { rewrite EF. replace (regs s1' <$> frame_regs) with (regs s <$> frame_regs); [apply prefix_take|].
    cbn. by rewrite !(pu_regs _ _ _ P1) by done. }
  intros t Hbt Hsp Hregs Hmem. change (regs s1' RSP) with (regs s1 RSP) in *.
  assert (Eall : ∀ r, r ≠ RSP → regs t r = regs s r).
  { intros r Hr. destruct (frame_regs_all r Hr) as [i Hi]. rewrite Hregs by (by eapply list_elem_of_lookup_2).
    by apply (pu_regs _ _ _ P1). }
  assert (∃ r0 r1 a b c d e tl, rest = [r0; r1] ++ [a; b; c; d; e] ++ tl) as (r0 & r1 & a & b & c & d & e & tl & Er).
  { unfold rest. destruct ws as [|w0 [|w1 [|w2 [|w3 [|w4 [|w5 [|]]]]]]]; try done.
    destruct Hxs as [-> | ->]; cbn; eauto 10. }
  rewrite Er in Hrest. apply words_at_split in Hrest as [_ Hrest]. apply words_at_split in Hrest as [Hrest _].
  apply returns_step with (i := ADD RSP (Im 16)); [by destruct Hxs as [-> | ->]|].
  cbn [exec]. x_steps. cbn [goes_on]. rewrite Hsp.
  change (u64 16) with 16. rewrite !(wrap_small 64 (regs s1 RSP + 16)) by lia. set (s4 := set_zf _ _).
  assert (E4 : regs s4 RSP = regs s1 RSP + 16) by apply upd_eq.
  apply (exec_iretq _ _ _ s4 a b c d e); [by destruct Hxs as [-> | ->]| |lia| |].
  { apply (bounded_upd t RSP (regs s1 RSP + 16) true (mem t) (sys t)); [done|lia]. }
  { rewrite E4. eapply words_at_agree; [exact Hrest|]. intros x Hx. cbn in Hx. apply Hmem. lia. }
  rewrite EF, Er. split; [done|]. split; [by cbn; rewrite upd_eq|]. split; [by exists b, e|]. split.
  - intros r Hr. cbn. rewrite !upd_ne by done. by apply Eall.
  - intros x Hx. cbn. rewrite Hmem by lia. apply M1. lia.
Qed.

Lemma vector_cases n :
  (pushes_zero n = negb (has_error_code n) ∧ n ≠ 16 ∧ n ≠ 17) ∨ n = 16 ∨ n = 17.
Proof.
  destruct (Z.eq_dec n 16); [by right; left|]. destruct (Z.eq_dec n 17); [by right; right|].
  left. split; [|done]. unfold pushes_zero, has_error_code. f_equal.
  apply bool_decide_ext. rewrite !elem_of_cons, !elem_of_nil. tauto.
Qed.

(** What the processor pushes for vector [n]: an error code for some
    exceptions, then the return address, code segment, flags, stack pointer
    and stack segment. *)
Definition pushed_by_cpu (n err : Z) (hw : list Z) : list Z := (if has_error_code n then [err] else []) ++ hw.

(** C15: The entry code of an interrupt, from [vector]<n> through
    [trap_handler] to [iretq], around a [trap] that keeps to the calling
    convention. [trap] is called with a pointer to a [struct registers]
    that holds the interrupted registers and the vector. For every vector but
    16 and 17 it also holds what the processor has pushed, with a zero where
    there is no error code; every register is restored, and execution goes on
    at the interrupted instruction with the interrupted stack, flags and code
    and stack segments. The table of
    vectors takes 16 (floating point error) for an exception with an error code
    and 17 (alignment check) for one without: there the frame is off by one
    word, and [iretq] goes to the code segment selector, or to the error
    code. *)
Theorem vector_restores n s err rip0 cs0 flags0 rsp0 ss0 above fuel :
  let ws := pushed_by_cpu n err [rip0; cs0; flags0; rsp0; ss0] in
  0 <= n < 256 → bounded s → words_at (mem s) (regs s RSP) (ws ++ [above]) →
  136 <= regs s RSP → regs s RSP + 56 < 2 ^ 64 → room (mem s) (regs s RSP - 136) 136 →
  let F := trap_frame n s (ws ++ [above]) in
  respects_abi "trap" (called_with (frame_words F)) → (39 <= fuel)%nat →
  returns (run (vector n ++ trap_handler_asm) fuel 0) s (λ target t,
    int_no F = n ∧ (∀ r, r ≠ RSP → regs t r = regs s r) ∧
    (∀ x, regs s RSP <= x → mem t !! x = mem s !! x) ∧
    (n ≠ 16 → n ≠ 17 →
       err_no F = (if has_error_code n then err else 0) ∧ rip F = rip0 ∧ cs F = cs0 ∧
       rflags F = flags0 ∧ rsp F = rsp0 ∧ ss F = ss0 ∧ target = rip0 ∧ regs t RSP = rsp0 ∧
       x_segs (sys t) CS = u16 cs0 ∧ x_flags (sys t) = flags0 ∧ x_segs (sys t) SS = u16 ss0) ∧
    (n = 16 → err_no F = rip0 ∧ rip F = cs0 ∧ target = cs0) ∧
    (n = 17 → err_no F = 0 ∧ rip F = err ∧ target = err)).
Proof.
  intros ws Hn Hb Hws Hr1 Hr2 Hroom F Hcall Hfuel.
  assert (Ep : vector n ++ trap_handler_asm = (PUSH <$> (if pushes_zero n then [Im 0; Im n] else [Im n])) ++
    [JMP "trap_handler"] ++ trap_handler_asm) by (unfold vector; by destruct (pushes_zero n)).
  assert (En : u64 n = n) by (apply wrap_small; lia). rewrite Ep.
  ret_use (returns_trap_handler _ n s (take 6 (ws ++ [above])) _ (frame_words F)).
  - destruct (pushes_zero n); auto.
  - done.
  - done.
  - unfold ws, pushed_by_cpu. by destruct (has_error_code n).
  - intros i w Hi. apply lookup_take_Some in Hi as [Hi _]. by apply Hws.
  - done.
  - lia.
  - done.
  - unfold F, trap_frame, ws, pushed_by_cpu.
    destruct (pushes_zero n), (has_error_code n); cbn; rewrite ?En; reflexivity.
  - exact Hcall.
  - done.
  - intros target t (Ht & Hsp & (cs & ss & Hcs & Ecs & Hfl & Hss & Ess) & Hregs & Hmem). cbn in Ht, Hsp, Hcs, Hfl, Hss.
    injection Hcs as <-. injection Hfl as Hfl. injection Hss as <-. injection Ht as <-. injection Hsp as Hsp.
    rewrite <- Hsp, Ecs, Ess, <- Hfl. split; [done|]. split; [done|]. split; [done|].
    unfold F, trap_frame, ws, pushed_by_cpu. destruct (vector_cases n) as [(-> & N16 & N17)|[-> | ->]].
    + split; [|lia]. intros _ _. by destruct (has_error_code n).
    + split; [lia|]. split; [done|lia].
    + split; [lia|]. split; [lia|done].
Qed.

(** [struct syscall] in memory, and as the handler finds it: the system call's
    number and arguments, the return address and the flags (in RCX and R11),
    the registers that a callee preserves, and the stack pointer. *)
Definition syscall_words (r : syscall) : list Z :=
  [s_rax r; s_rdi r; s_rsi r; s_rdx r; s_rip r; s_rflags r; s_rbx r; s_rbp r; s_r12 r; s_r13 r; s_r14 r; s_r15 r; s_rsp r].
Definition syscall_frame (s : cpu) : syscall :=
  SyscallFrame (regs s RAX) (regs s RDI) (regs s RSI) (regs s RDX) (regs s RCX) (regs s R11) (regs s RBX) (regs s RBP)
    (regs s R12) (regs s R13) (regs s R14) (regs s R15) (regs s RSP).
Lemma syscall_words_frame s : syscall_words (syscall_frame s) = (regs s <$> syscall_regs) ++ [regs s RSP].
Proof. reflexivity. Qed.

(** The entry of the [syscall] instruction around a [syscall_handler] that
    keeps to the calling convention. The handler is called with a pointer to
    a [struct syscall]; afterwards every register is restored but R8, R9 and
    R10, which the code does not save, and execution goes on at the address in
    RCX with the caller's stack. The code jumps there: the [sysret] behind
    the jump, which would leave the kernel's privilege level, is not reached. *)
Theorem syscall_entry_returns s fuel :
  bounded s → 104 <= regs s RSP → regs s RSP + 8 < 2 ^ 64 → room (mem s) (regs s RSP - 104) 104 →
  respects_abi "syscall_handler" (called_with (syscall_words (syscall_frame s))) → (29 <= fuel)%nat →
  returns (run syscall_entry_asm fuel 0) s (λ target t,
    target = regs s RCX ∧ (∀ r, r ∉ [R8; R9; R10] → regs t r = regs s r) ∧
    (∀ x, regs s RSP <= x → mem t !! x = mem s !! x)).
Proof.
  rewrite syscall_words_frame. intros Hb Hr1 Hr2 Hroom Hcall Hfuel. pose proof (Hb RSP) as Hsp.
  assert (∃ k, fuel = S (12 + S (S (12 + S (S k))))%nat) as [k ->] by (exists (fuel - 29)%nat; lia). clear Hfuel.
  eapply exec_push; [reflexivity|done|lia| |].
  { intros j Hj. replace (regs s RSP - 8 + j) with (regs s RSP - 104 + (96 + j)) by lia. apply Hroom. lia. }
  cbn [value_of]. intros m Ho Hw. set (s1 := Cpu _ _ _ _).
  assert (E1 : regs s1 RSP = regs s RSP - 8) by apply upd_eq.
  assert (N1 : ∀ r, r ≠ RSP → regs s1 r = regs s r) by (intros r Hne; by apply upd_ne).
  apply (returns_around_call _ syscall_regs "syscall_handler" [regs s RSP] ((regs s <$> syscall_regs) ++ [regs s RSP]));
    [reflexivity..|by apply (bool_decide_unpack _)|by apply (bool_decide_unpack _)|apply bounded_upd; [done|lia]| | | | |done|].
  { change (8 * 12 <= regs s1 RSP). lia. }
  { change (room m (regs s1 RSP - 96) 96). eapply room_only_range; [exact Ho|]. intros j Hj. rewrite E1.
    replace (regs s RSP - 8 - 96 + j) with (regs s RSP - 104 + j) by lia. apply Hroom. lia. }
  { intros [|i] w Hi; [|done]. cbn in Hi. injection Hi as <-. by rewrite E1, Z.add_0_r. }
  { replace (regs s1 <$> syscall_regs) with (regs s <$> syscall_regs); [done|reflexivity]. }
  intros t Hbt Et Hregs Hmem. rewrite E1 in *.
  assert (Eall : ∀ r, r ∉ [RSP; R8; R9; R10] → regs t r = regs s r).
  { intros r Hr. rewrite Hregs; [apply N1; set_solver|].
    destruct r; try (by apply (bool_decide_unpack _)); exfalso; apply Hr; by apply (bool_decide_unpack _). }
  eapply returns_step; [reflexivity|]. cbn [exec]. x_steps.
  eapply returns_load; [lia|rewrite Et; eapply word_agree; [exact Hw|intros j Hj; apply Hmem; lia]|]. x_steps. cbn [goes_on].
  rewrite (wrap_small 64 (regs s RSP)) by apply Hb.
  eapply returns_step; [reflexivity|]. cbn [exec]. x_steps. cbn [goes_on].
  cbn [regs set_reg mem]. rewrite !upd_ne by done. split; [by apply Eall; apply (bool_decide_unpack _)|]. split.
  - intros r Hr. destruct (decide (r = RSP)) as [->|Hne]; [by rewrite upd_eq|].
    rewrite !upd_ne by done. apply Eall. set_solver.
  - intros x Hx. rewrite Hmem by lia. apply Ho. lia.
Qed.
End trap.
