(* ===== verification/AsmTrace.v ===== *)
(** [stack_trace] of [src/stack_trace.asm], which the exception handlers of
    [src/interrupts.c] call: the walk along the saved frame pointers. *)

From S2P Require Import Prelude Io X86 AsmLib.

Open Scope Z_scope.

(** [fmt] is the address of [stack_trace_fmt], [kstart] and [kend] those of the
    linker's [_kernel_start] and [_kernel_end]. *)
Definition stack_trace_asm (fmt kstart kend : Z) : routine :=
  [PUSH (Rg RBP); MOV RBP (Rg RSP); SUB RSP (Im 16); MOV RCX (Im (-1));
   MOV RAX (Rg RBP); TEST RDI RDI; CMOVNE RAX RDI;
   LABEL ".l1"; ADD RCX (Im 1); ST RSP 0 RAX; ST RSP 8 RCX;
   MOV RDI (Im fmt); MOV RSI (Rg RCX); LD RDX RAX 8;
   MOV R8 (Im kstart); CMP RDX R8; JB ".exit"; MOV R8 (Im kend); CMP RDX R8; JA ".exit";
   CALL "printf"; LD RCX RSP 8; LD RAX RSP 0; LD RAX RAX 0; JMP ".l1";
   LABEL ".exit"; XOR RAX RAX; MOV RSP (Rg RBP); POP RBP; RET].

Section trace.
Context `{Callees, Devices}.

Lemma exec_cmp p fuel pc d x s Q :
  p !! pc = Some (CMP d x) →
  (∀ t, regs t = regs s → mem t = mem s → x_dev (sys t) = x_dev (sys s) →
    zf t = (regs s d =? regs s x) → Z.testbit (x_flags (sys t)) 0 = (regs s d <? regs s x) →
    returns (run p fuel (S pc)) t Q) →
  returns (run p (S fuel) pc) s Q.
Proof.
  intros Hi HQ. eapply returns_step; [exact Hi|]. cbn [exec]. x_steps. cbn [goes_on]. apply HQ; try done.
  cbn [sys set_sys set_flags x_flags set_zf]. by destruct (_ <? _); [apply Z.setbit_eq|apply Z.clearbit_eq].
Qed.

Lemma exec_jb p fuel pc l k s Q :
  p !! pc = Some (JB l) → find_label l p = Some k →
  returns (run p fuel (if Z.testbit (x_flags (sys s)) 0 then k else S pc)) s Q → returns (run p (S fuel) pc) s Q.
Proof.
  intros Hi Hl HQ. eapply returns_step; [exact Hi|]. cbn [exec]. x_steps.
  destruct (Z.testbit _ _); cbn; by rewrite ?Hl.
Qed.

Lemma exec_ja p fuel pc l k s Q :
  p !! pc = Some (JA l) → find_label l p = Some k →
  returns (run p fuel (if Z.testbit (x_flags (sys s)) 0 || zf s then S pc else k)) s Q →
  returns (run p (S fuel) pc) s Q.
Proof.
  intros Hi Hl HQ. eapply returns_step; [exact Hi|]. cbn [exec]. x_steps.
  destruct (_ || _); cbn; by rewrite ?Hl.
Qed.

Lemma exec_imm p fuel pc d z s Q :
  p !! pc = Some (MOV d (Im z)) →
  returns (run p fuel (S pc)) (set_reg d (u64 z) s) Q → returns (run p (S fuel) pc) s Q.
Proof.
  intros Hi HQ. eapply returns_step; [exact Hi|]. cbn [exec]. x_steps. cbn [goes_on]. by rewrite wrap_wrap.
Qed.

(** A chain of frames from the frame pointer [bp] on: the saved frame pointer at
    [bp], the return address behind it. The return addresses [rs] are in the
    kernel, the next one is not. Frames lie at or above [low]. *)
Definition in_kernel (kstart kend r : Z) : Prop := kstart <= r <= kend.
Fixpoint chain (kstart kend low : Z) (m : gmap Z Z) (bp : Z) (rs : list Z) : Prop :=
  low <= bp <= 2 ^ 64 - 16 ∧
  match rs with
  | [] => ∃ r, word m (bp + 8) r ∧ ¬ in_kernel kstart kend r
  | r :: rs => word m (bp + 8) r ∧ in_kernel kstart kend r ∧
      ∃ next, word m bp next ∧ chain kstart kend low m next rs
  end.

Lemma chain_agree kstart kend low m m' bp rs :
  chain kstart kend low m bp rs → (∀ x, low <= x → m' !! x = m !! x) → chain kstart kend low m' bp rs.
Proof.
  intros Hc He. assert (Hw : ∀ a v, low <= a → word m a v → word m' a v).
  { intros a v Ha Hv. eapply word_agree; [exact Hv|]. intros k Hk. apply He. lia. }
  revert bp Hc. induction rs as [|r rs IH]; cbn; intros bp [Hb Hc]; (split; [done|]).
  - destruct Hc as (r & Hr & Hn). exists r. split; [apply Hw; [lia|done]|done].
  - destruct Hc as (Hr & Hk & next & Hn & Hc). split; [apply Hw; [lia|done]|]. split; [done|].
    exists next. split; [apply Hw; [lia|done]|by apply IH].
Qed.

Lemma chain_low kstart kend low low' m bp rs :
  low' <= low → chain kstart kend low m bp rs → chain kstart kend low' m bp rs.
Proof.
  intros Hl. revert bp. induction rs as [|r rs IH]; cbn; intros bp [Hb Hc]; (split; [lia|done || idtac]).
  destruct Hc as (Hr & Hk & next & Hn & Hc). eauto 10.
Qed.

(** [printf], called for the line of depth [i] and return address [r], keeps to
    the calling convention, and sends [line i r] to the devices. *)
Definition prints (fmt : Z) (line : Z → Z → trace) (i r : Z) : Prop :=
  ∀ t, regs t RDI = fmt → regs t RSI = i → regs t RDX = r → bounded t →
    returns (callee "printf") t (λ _ t', bounded t' ∧
      (∀ r, r ∈ RSP :: callee_saved → regs t' r = regs t r) ∧
      (∀ x, regs t RSP <= x → mem t' !! x = mem t !! x) ∧
      x_dev (sys t') = line i r ++ x_dev (sys t)).

(** The lines of a trace, on the devices' history [t]. *)
Fixpoint lines (line : Z → Z → trace) (i : Z) (rs : list Z) (t : trace) : trace :=
  match rs with [] => t | r :: rs => lines line (i + 1) rs (line i r ++ t) end.

Context (fmt kstart kend : Z) (line : Z → Z → trace).
Hypothesis fmt_bounds : 0 <= fmt < 2 ^ 64.
Hypothesis kernel_bounds : 0 <= kstart ∧ kend < 2 ^ 64 ∧ 0 <= kend ∧ kstart < 2 ^ 64.
Abbreviation code := (stack_trace_asm fmt kstart kend).

(** Behind the two comparisons, with the line's arguments in place. *)
Record at_line (s : cpu) (bp i r : Z) (t : cpu) : Prop := {
  al_bounded : bounded t;
  al_regs : ∀ r, r ∈ RSP :: callee_saved → regs t r = regs s r;
  al_mem : only_range (regs s RSP) (regs s RSP + 16) (mem s) (mem t);
  al_bp : word (mem t) (regs s RSP) bp;
  al_depth : word (mem t) (regs s RSP + 8) i;
  al_args : regs t RDI = fmt ∧ regs t RSI = i ∧ regs t RDX = r;
  al_dev : x_dev (sys t) = x_dev (sys s);
}.

Lemma stack_trace_head s bp i r fuel Q :
  bounded s → regs s RAX = bp → u64 (regs s RCX + 1) = i → room (mem s) (regs s RSP) 16 →
  regs s RSP + 16 <= bp → bp <= 2 ^ 64 - 16 → word (mem s) (bp + 8) r →
  (∀ t fuel', at_line s bp i r t → (fuel <= fuel')%nat →
    returns (run code fuel' (if bool_decide (kstart <= r ∧ r <= kend) then 20 else 25)) t Q) →
  returns (run code (13 + fuel) 7) s Q.
Proof.
  intros Hb Hax Hcx Hrm Hlo Hhi Hw HQ. pose proof (Hb RSP). pose proof (Hb RAX). rewrite <- Hax in *.
  assert (0 <= i < 2 ^ 64) by (rewrite <- Hcx; apply wrap_bounds; lia).
  cbn [Nat.add]. eapply exec_label; [reflexivity|].
  eapply returns_step; [reflexivity|]. cbn [exec]. x_steps. cbn [goes_on]. change (u64 1) with 1. rewrite Hcx.
  eapply exec_st; [reflexivity|x_regs; lia|x_regs; lia|x_regs; by rewrite Z.add_0_r; intros k Hk; apply Hrm; lia|].
  x_regs. rewrite Z.add_0_r. intros m1 Ho1 Hw1.
  eapply exec_st; [reflexivity|x_regs; lia|x_regs; lia| |].
  { x_regs. eapply room_only_range; [exact Ho1|]. intros k Hk. rewrite <- Z.add_assoc. apply Hrm. lia. }
  x_regs. intros m2 Ho2 Hw2.
  assert (Ho : only_range (regs s RSP) (regs s RSP + 16) (mem s) m2).
  { eapply only_range_weaken; [exact (only_range_trans _ _ _ _ _ _ _ Ho1 Ho2)|lia|lia]. }
  assert (Hr2 : word m2 (regs s RAX + 8) r) by (eapply word_only_range; [exact Ho|exact Hw|lia]).
  eapply exec_imm; [reflexivity|]. rewrite (wrap_small 64 fmt) by lia. eapply exec_mov; [reflexivity|x_regs; lia|]. x_regs.
  eapply exec_ld; [reflexivity|x_regs; lia|x_regs; exact Hr2|]. x_regs. set (s1 := set_reg RDX r _).
  (* what holds behind either comparison *)
  assert (Hat : ∀ t, 0 <= regs t R8 < 2 ^ 64 → (∀ r', r' ≠ R8 → regs t r' = regs s1 r') → mem t = m2 →
    x_dev (sys t) = x_dev (sys s) → at_line s (regs s RAX) i r t).
  { intros t H8 Er Em Ed. split; rewrite ?Em; [|intros r' Hr'|exact Ho| |exact Hw2| |exact Ed].
    - intros r'. destruct (decide (r' = R8)) as [->|Hne]; [done|]. rewrite Er by done. unfold s1.
      cbn [regs set_reg set_mem set_zf]. unfold upd. destruct Hr2 as [Hrb _]. repeat case_decide; lia || apply Hb.
    - unfold callee_saved in *. rewrite Er by set_solver. unfold s1. x_regs. by rewrite !upd_ne by set_solver.
    - eapply word_only_range; [exact Ho2|exact Hw1|lia].
    - rewrite !Er by done. unfold s1. by x_regs. }
  eapply exec_imm; [reflexivity|]. rewrite (wrap_small 64 kstart) by lia.
  eapply exec_cmp; [reflexivity|]. cbn [regs set_reg mem sys]. intros t1 Er1 Em1 Ed1 _ Hcf1.
  change (upd (regs s1) R8 kstart RDX) with r in Hcf1. change (upd (regs s1) R8 kstart R8) with kstart in Hcf1.
  eapply exec_jb; [reflexivity..|]. rewrite Hcf1. destruct (Z.ltb_spec r kstart) as [Hlt|Hge].
  { specialize (HQ t1). rewrite bool_decide_false in HQ by lia. apply HQ; [|lia]. apply Hat; [|intros|done|done]; rewrite Er1.
    - rewrite upd_eq. lia.
    - by rewrite upd_ne by done. }
  eapply exec_imm; [reflexivity|]. rewrite (wrap_small 64 kend) by lia.
  eapply exec_cmp; [reflexivity|]. cbn [regs set_reg mem sys]. rewrite Er1. intros t2 Er2 Em2 Ed2 Hz2 Hcf2.
  change (upd (upd (regs s1) R8 kstart) R8 kend RDX) with r in *.
  change (upd (upd (regs s1) R8 kstart) R8 kend R8) with kend in *.
  assert (Hat2 : at_line s (regs s RAX) i r t2).
  { apply Hat; [|intros r' Hr'|by rewrite Em2|by rewrite Ed2]; rewrite Er2; [rewrite upd_eq; lia|by rewrite !upd_ne by done]. }
  eapply exec_ja; [reflexivity..|]. rewrite Hcf2, Hz2. specialize (HQ t2).
  destruct (Z.ltb_spec r kend) as [Hlt|Hge2], (Z.eqb_spec r kend) as [Heq|Hne]; cbn [orb].
  1-3: rewrite bool_decide_true in HQ by lia; apply HQ; [exact Hat2|lia].
  rewrite bool_decide_false in HQ by lia. apply HQ; [exact Hat2|lia].
Qed.

Definition all_print : Prop := ∀ i r, in_kernel kstart kend r → prints fmt line i r.

(** The loop, from its label to the label [.exit]. *)
Lemma stack_trace_loop rs : ∀ s bp i fuel F Q,
  all_print → bounded s → regs s RAX = bp → u64 (regs s RCX + 1) = i → 0 <= i → i + Z.of_nat (length rs) < 2 ^ 64 →
  room (mem s) (regs s RSP) 16 → chain kstart kend (regs s RSP + 16) (mem s) bp rs →
  (18 * length rs + 13 + fuel <= F)%nat →
  (∀ t fuel', bounded t → (∀ r, r ∈ RSP :: callee_saved → regs t r = regs s r) →
    (∀ x, regs s RSP + 16 <= x → mem t !! x = mem s !! x) →
    x_dev (sys t) = lines line i rs (x_dev (sys s)) → (fuel <= fuel')%nat →
    returns (run code fuel' 25) t Q) →
  returns (run code F 7) s Q.
Proof.
  induction rs as [|r rs IH]; intros s bp i fuel F Q Hpr Hb Hax Hcx Hi Hir Hrm Hc HF HQ; cbn [chain length lines] in *.
  - destruct Hc as [Hbp (r & Hr & Hk)]. replace F with (13 + (F - 13))%nat by lia.
    eapply stack_trace_head; [done..|lia|lia|exact Hr|]. intros t fuel' T Hf'.
    rewrite bool_decide_false by exact Hk. apply HQ; [apply T|apply T| |apply T|lia].
    intros x Hx. apply (al_mem _ _ _ _ _ T). lia.
  - destruct Hc as (Hbp & Hr & Hk & next & Hn & Hc). replace F with (13 + (F - 13))%nat by lia.
    eapply stack_trace_head; [done..|lia|lia|exact Hr|]. intros t fuel' [Tb Tr Tm Twb Twd (Ta1 & Ta2 & Ta3) Td] Hf'.
    rewrite bool_decide_true by exact Hk. pose proof (Hb RSP).
    assert (Etr : regs t RSP = regs s RSP) by (apply Tr; set_solver).
    destruct fuel' as [|[|[|[|[|fuel']]]]]; [lia..|]. eapply returns_step; [reflexivity|]. cbn [exec]. x_steps.
    eapply returns_mono; [by apply (Hpr i r)|]. intros [] t' (Ub & Ur & Um & Ud). x_steps. cbn [goes_on].
    rewrite Etr in Um. rewrite Td in Ud.
    assert (Er : ∀ r', r' ∈ RSP :: callee_saved → regs t' r' = regs s r') by (intros; rewrite Ur, Tr; done).
    assert (Esp : regs t' RSP = regs s RSP) by (apply Er; set_solver).
    assert (Hm : ∀ x, regs s RSP + 16 <= x → mem t' !! x = mem s !! x).
    { intros x Hx. rewrite Um by lia. apply Tm. lia. }
    assert (Hw : ∀ a v, regs s RSP <= a → word (mem t) a v → word (mem t') a v).
    { intros a v Ha Hv. eapply word_agree; [exact Hv|]. intros k Hk'. apply Um. lia. }
    assert (Hwi : word (mem t') (regs s RSP + 8) i) by (apply Hw; [lia|done]).
    assert (Hwb : word (mem t') (regs s RSP) bp) by (apply Hw; [lia|done]).
    assert (Hwn : word (mem t') bp next).
    { eapply word_agree; [exact Hn|]. intros k Hk'. apply Hm. lia. }
    eapply exec_ld; [reflexivity|rewrite Esp; lia|rewrite Esp; exact Hwi|].
    eapply exec_ld; [reflexivity|x_regs; rewrite Esp; lia|x_regs; rewrite Esp, Z.add_0_r; exact Hwb|].
    eapply exec_ld; [reflexivity|x_regs; lia|x_regs; rewrite Z.add_0_r; exact Hwn|].
    eapply exec_jmp; [reflexivity..|]. set (u := set_reg RAX next _).
    assert (Eu : ∀ r', r' ∈ RSP :: callee_saved → regs u r' = regs s r').
    { intros r' Hr'. unfold u, callee_saved in *. x_regs. rewrite !upd_ne by set_solver. by apply Er. }
    assert (Eus : regs u RSP = regs s RSP) by (apply Eu; set_solver).
    eapply (IH u next (i + 1) fuel); [done| |done| |lia|lia| | |lia|].
    + destruct Hwn, Hwb, Hwi. by repeat apply bounded_upd.
    + change (regs u RCX) with i. by rewrite wrap_small by lia.
    + change (mem u) with (mem t'). rewrite Eus. intros k Hk'.
      destruct (Z_lt_ge_dec k 8); [by apply (word_room _ _ _ Hwb); lia|].
      replace (regs s RSP + k) with (regs s RSP + 8 + (k - 8)) by lia. apply (word_room _ _ _ Hwi). lia.
    + rewrite Eus. by eapply chain_agree.
    + intros t2 f2 B2 R2 M2 D2 F2. apply HQ; [done| | | |done].
      * intros r' Hr'. rewrite R2 by done. by apply Eu.
      * intros x Hx. rewrite M2 by lia. by apply Hm.
      * rewrite D2. change (x_dev (sys u)) with (x_dev (sys t')). by rewrite Ud.
Qed.

(** What is traced: from the frame in [rdi] on, or, when it is null, from the
    routine's own frame on, whose return address is [ret]. *)
Definition traced (s : cpu) (ret : Z) (rs : list Z) : Prop :=
  if regs s RDI =? 0 then
    match rs with
    | [] => ¬ in_kernel kstart kend ret
    | r :: rs => r = ret ∧ in_kernel kstart kend r ∧ chain kstart kend (regs s RSP) (mem s) (regs s RBP) rs
    end
  else chain kstart kend (regs s RSP) (mem s) (regs s RDI) rs.

(** The way out, from the label [.exit]. *)
Lemma stack_trace_end s m t rs ret fuel :
  bounded t → 24 <= regs s RSP → regs s RSP + 8 < 2 ^ 64 → regs t RBP = regs s RSP - 8 →
  (∀ r, r ∈ [RBX; R12; R13; R14; R15] → regs t r = regs s r) →
  (∀ x, regs s RSP <= x → m !! x = mem s !! x) → (∀ x, regs s RSP - 8 <= x → mem t !! x = m !! x) →
  word m (regs s RSP - 8) (regs s RBP) → word (mem s) (regs s RSP) ret →
  x_dev (sys t) = lines line 0 rs (x_dev (sys s)) →
  returns (run code (5 + fuel) 25) t (λ target t, returns_to s t ret target ∧
    regs t RAX = 0 ∧ x_dev (sys t) = lines line 0 rs (x_dev (sys s)) ∧
    (∀ x, regs s RSP <= x → mem t !! x = mem s !! x)).
Proof.
  intros Hb Hlo Hhi Ebp Er Hm1 Hm2 Hw Hr Hd. cbn [Nat.add].
  eapply exec_label; [reflexivity|]. eapply exec_clear; [reflexivity|].
  eapply exec_mov; [reflexivity|x_regs; lia|]. x_regs. rewrite Ebp.
  eapply exec_pop; [reflexivity|x_regs|x_regs; lia|x_regs; lia|].
  { eapply word_agree; [exact Hw|]. intros k Hk. apply Hm2. lia. }
  x_regs. replace (regs s RSP - 8 + 8) with (regs s RSP) by lia.
  eapply exec_ret; [reflexivity|x_regs|x_regs; lia|x_regs; lia|].
  { eapply word_agree; [exact Hr|]. intros k Hk. rewrite Hm2, Hm1 by lia. done. }
  x_regs. split; [|split; [done|split; [done|]]].
  - split; [done|]. split; [done|]. intros r Hr'. unfold callee_saved in Hr'. x_regs.
    destruct (decide (r = RBP)) as [->|Hne]; [by x_regs|]. rewrite !upd_ne by set_solver. apply Er. set_solver.
  - intros x Hx. cbn. rewrite Hm2, Hm1 by lia. done.
Qed.

(** [stack_trace] prints one line for every frame of the chain that returns
    into the kernel, in order, and comes back with zero. *)
Theorem stack_trace_asm_spec s rs ret fuel :
  all_print → bounded s → 24 <= regs s RSP → regs s RSP + 8 < 2 ^ 64 → Z.of_nat (length rs) < 2 ^ 64 →
  room (mem s) (regs s RSP - 24) 24 → word (mem s) (regs s RSP) ret → traced s ret rs →
  returns (run code (25 + 18 * length rs + fuel) 0) s (λ target t, returns_to s t ret target ∧
    regs t RAX = 0 ∧ x_dev (sys t) = lines line 0 rs (x_dev (sys s)) ∧
    (∀ x, regs s RSP <= x → mem t !! x = mem s !! x)).
Proof.
  intros Hpr Hb Hlo Hhi Hlen Hrm Hret Ht. pose proof (Hb RDI).
  set (F := (18 * length rs + fuel)%nat). replace (25 + 18 * length rs + fuel)%nat with (25 + F)%nat by (unfold F; lia).
  cbn [Nat.add]. apply (exec_push code _ 0 (Rg RBP)); [reflexivity|done|lia| |].
  { intros k Hk. replace (regs s RSP - 8 + k) with (regs s RSP - 24 + (16 + k)) by lia. apply Hrm. lia. }
  intros m Ho Hw. cbn [value_of] in Hw.
  eapply exec_mov; [reflexivity|x_regs; lia|]. x_regs.
  eapply returns_step; [reflexivity|]. cbn [exec]. x_steps. cbn [goes_on]. x_regs.
  rewrite (wrap_small 64 (_ - u64 16)) by (change (u64 16) with 16; lia).
  change (u64 16) with 16. replace (regs s RSP - 8 - 16) with (regs s RSP - 24) by lia.
  eapply exec_imm; [reflexivity|]. eapply exec_mov; [reflexivity|x_regs; lia|]. x_regs.
  eapply returns_step; [reflexivity|]. cbn [exec]. x_steps. cbn [goes_on]. x_regs. rewrite Z.land_diag.
  eapply returns_step; [reflexivity|]. cbn [exec]. x_steps. cbn [zf set_zf].
  set (s1 := set_zf _ _).
  assert (Hm : ∀ x, regs s RSP <= x → m !! x = mem s !! x) by (intros x Hx; apply Ho; lia).
  assert (Hb1 : bounded s1) by (repeat (apply bounded_upd; [|lia || (apply wrap_bounds; lia)]); exact Hb).
  assert (Hrest : ∀ t bp, bounded t → regs t RAX = bp → (∀ r, r ≠ RAX → regs t r = regs s1 r) → mem t = m →
    sys t = sys s → chain kstart kend (regs s RSP - 8) m bp rs →
    returns (run code (18 + F) 7) t (λ target t, returns_to s t ret target ∧
    regs t RAX = 0 ∧ x_dev (sys t) = lines line 0 rs (x_dev (sys s)) ∧
    (∀ x, regs s RSP <= x → mem t !! x = mem s !! x))).
  { intros t bp Bt Ea Er Em Es Hc. assert (Esp : regs t RSP = regs s RSP - 24) by by rewrite Er.
    eapply (stack_trace_loop rs t bp 0 (5 + fuel)); [done|done|done| |done|lia| | |unfold F; lia|].
    - rewrite Er by done. reflexivity.
    - rewrite Em, Esp. eapply room_only_range; [exact Ho|]. intros k Hk. apply Hrm. lia.
    - rewrite Esp, Em. by replace (regs s RSP - 24 + 16) with (regs s RSP - 8) by lia.
    - intros t2 f2 B2 R2 M2 D2 F2. rewrite Esp, Em in M2. rewrite Es in D2.
      replace f2 with (5 + (f2 - 5))%nat by lia.
      assert (ER : ∀ r, r ∈ [RBX; RBP; R12; R13; R14; R15] → regs t2 r = regs s1 r).
      { intros r Hr. rewrite R2 by (unfold callee_saved; set_solver). apply Er. set_solver. }
      apply (stack_trace_end s m t2); [done|done|done| | |done| |done|done|].
      + by rewrite ER by set_solver.
      + intros r Hr. rewrite ER by set_solver. unfold s1. x_regs. by rewrite !upd_ne by set_solver.
      + intros x Hx. apply M2. lia.
      + exact D2. }
  unfold traced in Ht. destruct (regs s RDI =? 0); x_steps; cbn [goes_on].
  - apply (Hrest s1 (regs s RSP - 8)); [done..|].
    destruct rs as [|r rs]; cbn [chain]; (split; [lia|]).
    + exists ret. replace (regs s RSP - 8 + 8) with (regs s RSP) by lia.
      split; [|done]. eapply word_agree; [exact Hret|]. intros k Hk. apply Hm. lia.
    + destruct Ht as (-> & Hk & Hc). replace (regs s RSP - 8 + 8) with (regs s RSP) by lia.
      split; [eapply word_agree; [exact Hret|]; intros k Hk'; apply Hm; lia|]. split; [done|].
      exists (regs s RBP). split; [done|]. eapply chain_low; [|by eapply chain_agree]. lia.
  - change (regs s1 RDI) with (regs s RDI). rewrite wrap_small by lia.
    apply (Hrest (set_reg RAX (regs s RDI) s1) (regs s RDI)); [by apply bounded_upd|done| |done|done|].
    + intros r Hr. cbn. by rewrite upd_ne by done.
    + eapply chain_low; [|by eapply chain_agree]. lia.
Qed.
End trace.
