(* ===== verification/AsmSpec.v ===== *)
(** The routines of [AsmLib] implement the string functions that the models of
    the C code use: [strlen] and [strncpy] of [Printf], and the copy and the
    fill of the screen of [Term]. *)

From S2P Require Import Prelude Kernel KList State Paging Frame Printf Io Term X86 AsmLib.

Open Scope Z_scope.

Section refine.
Context `{Callees, Devices}.

(** ** The buffers of the formatted output *)

Lemma find_nul_split b k :
  find_nul b = Some k → ∃ bs rest, b = bs ++ 0 :: rest ∧ Forall (λ c, c ≠ 0) bs ∧ k = Z.of_nat (length bs).
Proof.
  revert k. induction b as [|c b IH]; intros k Hk; cbn in Hk; [done|].
  destruct (Z.eqb_spec c 0) as [->|Hc].
  - injection Hk as <-. by exists [], b.
  - destruct (find_nul b) as [j|]; [|done]. cbn in Hk. injection Hk as <-.
    destruct (IH j eq_refl) as (bs & rest & -> & Hf & ->).
    exists (c :: bs), rest. split; [done|]. split; [by constructor|]. cbn [length]. lia.
Qed.

(** [strlen] of [strlen.asm] computes what the formatted output takes
    [strlen] of a buffer to be. *)
Theorem strlen_asm_refines s b k ret fuel :
  bytes_at (mem s) (regs s RDI) b → Forall (λ c, 0 <= c < 256) b → strlen b = Ok k b →
  0 <= regs s RDI → regs s RDI + Z.of_nat (length b) < 2 ^ 64 - 1 →
  word (mem s) (regs s RSP) ret → 0 <= regs s RSP → regs s RSP + 8 < 2 ^ 64 →
  (6 * length b + 10 <= fuel)%nat →
  returns (run strlen_asm fuel 0) s (λ target t, returns_to s t ret target ∧ regs t RAX = k ∧ mem t = mem s).
Proof.
  intros Hb Hf Hk Hd1 Hd2 Hw Hp1 Hp2 Hfu. unfold strlen in Hk.
  destruct (find_nul b) as [j|] eqn:E; [|done]. injection Hk as <-.
  apply find_nul_split in E as (bs & rest & -> & Hnz & ->). rewrite length_app in *. cbn [length] in *.
  apply strlen_asm_spec; [|lia|lia|done|lia|lia|lia]. split.
  - apply Forall_app in Hf as [Hf _]. rewrite Forall_forall in Hf, Hnz. apply Forall_forall. intros c Hc.
    specialize (Hf c Hc). specialize (Hnz c Hc). cbn in *. lia.
  - rewrite cons_middle, app_assoc in Hb. by apply bytes_at_app in Hb as [Hb _].
Qed.

(** C35: [strncpy] of [strncpy.asm], with the length of at least one that
    [vsnprintf] passes, does to the buffer what the formatted output takes
    [strncpy] to do: it refines the model's function. *)
Theorem strncpy_asm_refines s src b len ret fuel :
  bounded s → regs s RDX = len → 0 < len <= Z.of_nat (length b) →
  Forall (λ c, 0 < c < 256) src → bytes_at (mem s) (regs s RSI) (take (Z.to_nat len) (src ++ [0])) →
  regs s RSI + len < 2 ^ 64 → bytes_at (mem s) (regs s RDI) b → regs s RDI + Z.of_nat (length b) < 2 ^ 64 →
  regs s RSI + len <= regs s RDI ∨ regs s RDI + len <= regs s RSI →
  word (mem s) (regs s RSP) ret → room (mem s) (regs s RSP - 24) 24 → 24 <= regs s RSP → regs s RSP + 8 < 2 ^ 64 →
  regs s RSP + 8 <= regs s RDI ∨ regs s RDI + Z.of_nat (length b) <= regs s RSP - 24 →
  regs s RSP + 8 <= regs s RSI ∨ regs s RSI + len <= regs s RSP - 24 →
  (9 * length b + 18 <= fuel)%nat →
  returns (run strncpy_asm fuel 0) s (λ target t,
    returns_to s t ret target ∧ regs t RAX = regs s RDI ∧
    ∃ b', strncpy src len b = Ok () b' ∧ bytes_at (mem t) (regs s RDI) b').
Proof.
  intros Hbd Hn Hl Hf Hs Ha2 Hb Hd2 Hd Hw Hrs Hp1 Hp2 Hpd Hps Hfu.
  destruct (Z.to_nat len) as [|n] eqn:En; [lia|]. assert (El : len = Z.of_nat (S n)) by lia.
  assert (Hroom : room (mem s) (regs s RDI) len).
  { intros k Hk. destruct (lookup_lt_is_Some_2 b (Z.to_nat k)) as [c Hc]; [lia|].
    exists c. specialize (Hb _ _ Hc). by rewrite Z2Nat.id in Hb by lia. }
  rewrite El in *. eapply returns_mono;
    [apply (strncpy_asm_spec s src n ret); [done|done|done|done|lia|done|lia|done|done|done|done|lia|lia|lia|lia]|].
  intros target t (Hret & Hax & Hbt & Hot). split; [done|]. split; [done|].
  unfold strncpy. rewrite (proj2 (Z.leb_le _ _)) by lia. eexists. split; [done|].
  rewrite Nat2Z.id. apply bytes_at_app. split; [done|].
  assert (Hlen : Z.of_nat (length (strncpy_bytes src (S n))) = Z.of_nat (S n)).
  { unfold strncpy_bytes. rewrite length_app, length_take, length_replicate. lia. }
  rewrite Hlen. intros i c Hi. rewrite lookup_drop in Hi. pose proof (lookup_lt_Some _ _ _ Hi).
  rewrite Hot by lia. rewrite <- Z.add_assoc, <- Nat2Z.inj_add. by apply Hb.
Qed.

(** ** The screen *)

Definition holds_vga (m : gmap Z Z) (base : Z) (t : term) : Prop :=
  ∀ a, 0 <= a < vga_size → m !! (base + a) = Some (vga t a).

(** Copying upwards within the screen, as scrolling does, is what [memcpy.asm]
    does: the ranges overlap and the destination is the lower one. *)
Theorem memcpy_asm_refines s t base dst src n ret fuel :
  holds_vga (mem s) base t → (∀ a, 0 <= vga t a < 256) → 0 <= base → base + vga_size < 2 ^ 64 →
  0 <= dst <= src → 0 <= n → src + n <= vga_size →
  regs s RDI = base + dst → regs s RSI = base + src → regs s RDX = n →
  word (mem s) (regs s RSP) ret → 0 <= regs s RSP → regs s RSP + 8 < 2 ^ 64 →
  regs s RSP + 8 <= base ∨ base + vga_size <= regs s RSP → (Z.to_nat n + 3 <= fuel)%nat →
  returns (run memcpy_asm fuel 0) s (λ target u, returns_to s u ret target ∧
    ∃ t', vga_memcpy dst src n t = Ok () t' ∧ holds_vga (mem u) base t').
Proof.
  intros Hv Hby Hb1 Hb2 Hds Hn Hsn Edi Esi Edx Hw Hp1 Hp2 Hpd Hfu.
  set (bs := (λ i, vga t (src + Z.of_nat i)) <$> seq 0 (Z.to_nat n)).
  assert (Hl : Z.of_nat (length bs) = n) by (unfold bs; rewrite length_fmap, length_seq; lia).
  assert (Hbs : ∀ i, 0 <= i < n → bs !! Z.to_nat i = Some (vga t (src + i))).
  { intros i Hi. unfold bs. rewrite list_lookup_fmap, lookup_seq_lt by lia. cbn. by rewrite Z2Nat.id by lia. }
  eapply returns_mono; [apply (memcpy_asm_spec s bs ret); rewrite ?Hl, ?Edi, ?Esi; try done; try lia|].
  - apply Forall_forall. intros b Hb. apply list_elem_of_fmap in Hb as (i & -> & _). apply Hby.
  - intros i b Hi. pose proof (lookup_lt_Some _ _ _ Hi). rewrite <- (Nat2Z.id i), Hbs in Hi by lia.
    injection Hi as <-. rewrite <- Z.add_assoc. apply Hv. lia.
  - intros k Hk. rewrite <- Z.add_assoc, Hv by lia. done.
  - cbv beta. rewrite Hl, Edi. intros target u (Hret & Hbu & Hou & _). split; [done|].
    unfold vga_memcpy. rewrite !(proj2 (Z.leb_le _ _)) by lia. eexists. split; [done|].
    intros a Ha. cbn. destruct (Z.leb_spec dst a), (Z.ltb_spec a (dst + n)); cbn.
    2-4: rewrite Hou by lia; by apply Hv.
    specialize (Hbu (Z.to_nat (a - dst)) _ (Hbs (a - dst) ltac:(lia))). rewrite Z2Nat.id in Hbu by lia.
    replace (a - dst + src) with (src + (a - dst)) by lia. rewrite <- Hbu. f_equal. lia.
Qed.

Lemma fill_bytes_2 c v i : (i < 2 * c)%nat →
  fill_bytes 2 c v !! i = Some (if Nat.even i then u8 v else u8 (Z.shiftr v 8)).
Proof.
  revert i. induction c as [|c IH]; intros i Hi; [lia|]. change (fill_bytes 2 (S c) v) with
    (le_bytes 2 v ++ fill_bytes 2 c v).
  destruct i as [|[|i]].
  - cbn. by rewrite Z.div_1_r.
  - cbn. by rewrite Z.shiftr_div_pow2 by lia.
  - rewrite lookup_app_r by (cbn; lia). cbn [le_bytes length fmap list_fmap seq Nat.sub]. rewrite Nat.sub_0_r.
    rewrite IH by lia. done.
Qed.

Lemma even_of_nat i : Nat.even i = Z.even (Z.of_nat i).
Proof.
  apply eq_true_iff_eq. rewrite Z.even_spec, Nat.even_spec.
  split; intros [k Hk]; [exists (Z.of_nat k)|exists (Z.to_nat k)]; lia.
Qed.

(** Filling screen cells, as scrolling does with the last row, is what
    [memsetw] of [memset.asm] does, for an even number of bytes. *)
Theorem memsetw_asm_refines s t base dst v n ret fuel :
  holds_vga (mem s) base t → 0 <= base → base + vga_size < 2 ^ 64 →
  0 <= dst → 0 <= n → Z.even n = true → dst + n <= vga_size → 0 <= v < 2 ^ 64 →
  regs s RDI = base + dst → regs s RSI = v → regs s RDX = n →
  word (mem s) (regs s RSP) ret → 0 <= regs s RSP → regs s RSP + 8 < 2 ^ 64 →
  regs s RSP + 8 <= base ∨ base + vga_size <= regs s RSP → (Z.to_nat n + 5 <= fuel)%nat →
  returns (run memsetw_asm fuel 0) s (λ target u, returns_to s u ret target ∧
    ∃ t', vga_memsetw dst v n t = Ok () t' ∧ holds_vga (mem u) base t').
Proof.
  intros Hv Hb1 Hb2 Hd Hn He Hdn Hvb Edi Esi Edx Hw Hp1 Hp2 Hpd Hfu.
  apply Z.even_spec in He as [c ->]. set (m := Z.to_nat (2 * c)).
  assert (Em : Z.of_nat m = 2 * c) by lia. assert (Ec : (m / 2 = Z.to_nat c)%nat).
  { replace m with (Z.to_nat c * 2)%nat by lia. by apply Nat.div_mul. }
  destruct (memsetw_asm_spec s m ret fuel) as [Hrun _]; rewrite ?Edi, ?Esi, ?Em; try done; try lia.
  { intros k Hk. rewrite <- Z.add_assoc, Hv by lia. done. }
  eapply returns_mono; [exact Hrun|]. cbv beta. rewrite Ec, Edi, Esi.
  intros target u (Hret & Hbu & Hou & _). split; [done|].
  unfold vga_memsetw. rewrite !(proj2 (Z.leb_le _ _)) by lia. eexists. split; [done|].
  intros a Ha. cbn. destruct (Z.leb_spec dst a), (Z.ltb_spec a (dst + 2 * c)); cbn.
  2-4: rewrite Hou by lia; by apply Hv.
  pose proof (fill_bytes_2 (Z.to_nat c) v (Z.to_nat (a - dst)) ltac:(lia)) as Hi. apply Hbu in Hi.
  rewrite Z2Nat.id in Hi by lia. replace (base + dst + (a - dst)) with (base + a) in Hi by lia. rewrite Hi.
  by rewrite (even_of_nat (Z.to_nat (a - dst))), Z2Nat.id by lia.
Qed.
End refine.
