(* ===== verification/AsmDemo.v ===== *)
(** The assembly routines on concrete states: the theorems of [AsmTrap],
    [AsmTrace], [AsmLib] and [AsmSpec] applied, and what happens outside their
    hypotheses. *)

From S2P Require Import Prelude Kernel KList State Paging Frame Printf Io Term Desc Machine Lapic Trap X86 AsmLib AsmSys AsmCpu AsmTrap AsmTrace AsmSpec.

Open Scope Z_scope.

(** The called C functions do nothing. *)
Definition no_callee : Callees := λ _, mret ().
#[local] Existing Instance no_callee.
(** The devices answer with zeros. *)
Definition silent : Devices := {| dev_in := λ _ _ _, 0; dev_mmio := λ _ _, 0; dev_msr := λ _ _, 0 |}.
#[local] Existing Instance silent.

(** Flat kernel segments, interrupts enabled. *)
Definition kernel_mode : system := System (λ r, if decide (r = CS) then 8 else 16) (λ _, 0x11) (λ _, (0, 0x756e, 2 ^ 20, 0)) 0x202 None None 0 [].

(** Memory of zeros, with bytes and words put into it. *)
Definition zeros (a n : Z) : gmap Z Z := list_to_map ((λ x, (x, 0)) <$> seqZ a n).
Fixpoint put_bytes (a : Z) (bs : list Z) (m : gmap Z Z) : gmap Z Z :=
  match bs with [] => m | b :: bs => put_bytes (a + 1) bs (<[a := b]> m) end.
Definition put_words (a : Z) (ws : list Z) (m : gmap Z Z) : gmap Z Z := put_bytes a (concat (le_bytes 8 <$> ws)) m.

(** ** Deciding what the theorems ask of the memory *)

Definition bytes_atb (m : gmap Z Z) (a : Z) (bs : list Z) : bool :=
  forallb (λ i, bool_decide (m !! (a + Z.of_nat i) = bs !! i)) (seq 0 (length bs)).
Definition wordb (m : gmap Z Z) (a v : Z) : bool :=
  (0 <=? v) && (v <? 2 ^ 64) && bytes_atb m a (le_bytes 8 v).
Definition words_atb (m : gmap Z Z) (a : Z) (ws : list Z) : bool :=
  forallb (λ i, match ws !! i with Some w => wordb m (a + 8 * Z.of_nat i) w | None => true end) (seq 0 (length ws)).
Definition roomb (m : gmap Z Z) (a n : Z) : bool :=
  forallb (λ k, bool_decide (is_Some (m !! (a + k)))) (seqZ 0 n).

Lemma forallb_seq (f : nat → bool) n i : forallb f (seq 0 n) = true → (i < n)%nat → f i = true.
Proof. rewrite forallb_forall. intros Hf Hi. apply Hf, in_seq. lia. Qed.

Lemma bytes_at_dec m a bs : bytes_atb m a bs = true → bytes_at m a bs.
Proof.
  intros Hb i b Hi. pose proof (lookup_lt_Some _ _ _ Hi) as Hl.
  apply (forallb_seq _ _ _ Hb), bool_decide_eq_true in Hl. by rewrite Hl.
Qed.

Lemma word_dec m a v : wordb m a v = true → word m a v.
Proof.
  unfold wordb. rewrite !andb_true_iff, Z.leb_le, Z.ltb_lt. intros [[H1 H2] Hb]. split; [done|].
  intros k Hk. apply bytes_at_dec in Hb. replace (a + k) with (a + Z.of_nat (Z.to_nat k)) by lia.
  apply Hb. unfold le_bytes. rewrite list_lookup_fmap, lookup_seq_lt by lia. cbn. by rewrite Z2Nat.id by lia.
Qed.

Lemma words_at_dec m a ws : words_atb m a ws = true → words_at m a ws.
Proof.
  intros Hw i w Hi. pose proof (lookup_lt_Some _ _ _ Hi) as Hl. apply (forallb_seq _ _ _ Hw) in Hl.
  rewrite Hi in Hl. by apply word_dec.
Qed.

Lemma room_dec m a n : roomb m a n = true → room m a n.
Proof.
  unfold roomb. rewrite forallb_forall. intros Hr k Hk. apply (bool_decide_eq_true_1 _), Hr.
  apply list_elem_of_In, elem_of_seqZ. lia.
Qed.

(** Register files. *)
Definition file (rs : list (reg * Z)) : reg → Z := foldr (λ '(r, v) f, upd f r v) (λ _, 0) rs.
Definition regs_in_range (f : reg → Z) : bool :=
  forallb (λ r, (0 <=? f r) && (f r <? 2 ^ 64))
    [RAX; RCX; RDX; RBX; RSP; RBP; RSI; RDI; R8; R9; R10; R11; R12; R13; R14; R15].
Lemma bounded_dec s : regs_in_range (regs s) = true → bounded s.
Proof.
  unfold regs_in_range. rewrite forallb_forall. intros Hf r.
  assert (Hin : List.In r [RAX; RCX; RDX; RBX; RSP; RBP; RSI; RDI; R8; R9; R10; R11; R12; R13; R14; R15])
    by (destruct r; cbn; tauto).
  specialize (Hf r Hin). lia.
Qed.

(** ** Interrupts *)

(** A page fault at 0x1000, with error code 2; an alignment check there, with
    error code 0; and a floating point error, which has no error code. *)
Definition fault_words (n err : Z) : list Z := pushed_by_cpu n err [0x1000; 8; 0x202; 0x9000; 16] ++ [0x77].
Definition fault_state (n err : Z) : cpu :=
  Cpu (file [(RSP, 0x8000); (RAX, 7); (R15, 2 ^ 63)]) false
    (put_words 0x8000 (fault_words n err) (zeros (0x8000 - 136) 192)) kernel_mode.

Lemma no_callee_abi f ok : respects_abi f ok.
Proof. intros t _ Hb. unfold callee, no_callee. by apply returns_ret. Qed.

Lemma vector_restores_witness :
  let F := trap_frame 14 (fault_state 14 2) (fault_words 14 2) in
  err_no F = 2 ∧ rip F = 0x1000 ∧
  returns (run (vector 14 ++ trap_handler_asm) 39 0) (fault_state 14 2) (λ target t,
    target = 0x1000 ∧ regs t RSP = 0x9000 ∧ x_segs (sys t) CS = 8 ∧ regs t RAX = 7 ∧ regs t R15 = 2 ^ 63).
Proof.
  split; [reflexivity|]. split; [reflexivity|].
  assert (Hb : bounded (fault_state 14 2)) by (apply bounded_dec; vm_compute; reflexivity).
  assert (Hw : words_at (mem (fault_state 14 2)) 0x8000 (fault_words 14 2))
    by (apply words_at_dec; vm_compute; reflexivity).
  assert (Hr : room (mem (fault_state 14 2)) (0x8000 - 136) 136) by (apply room_dec; vm_compute; reflexivity).
  eapply returns_mono; [apply (vector_restores 14 (fault_state 14 2) 2 0x1000 8 0x202 0x9000 16 0x77 39)|].
  - lia.
  - exact Hb.
  - exact Hw.
  - vm_compute. discriminate.
  - vm_compute. reflexivity.
  - exact Hr.
  - apply no_callee_abi.
  - lia.
  - intros target t (_ & Hregs & _ & Hok & _ & _). cbv beta.
    destruct Hok as (_ & _ & _ & _ & _ & _ & Ht & Hsp & Hcs & _); [lia|lia|]. split; [exact Ht|]. split; [exact Hsp|].
    split; [exact Hcs|].
    split; rewrite Hregs by discriminate; reflexivity.
Defined.

(** The two wrong entries of the table: the first goes to the code segment
    selector as an address, the second to the error code. *)
Example vector_16_17_go_wrong :
  match run (vector 16 ++ trap_handler_asm) 39 0 (fault_state 16 0),
        run (vector 17 ++ trap_handler_asm) 39 0 (fault_state 17 0) with
  | Ok target _, Ok target' _ => target = 8 ∧ target' = 0
  | _, _ => False
  end.
Proof. vm_compute. done. Qed.

(** ** setjmp and longjmp *)

(** [setjmp] called with a buffer at 0x140 from a function that returns to
    0x1234; later, with other registers, [longjmp] with the value 5. *)
Definition jump_state : cpu :=
  Cpu (file [(RSP, 0x120); (RDI, 0x140); (RBX, 11); (R15, 22)]) false (put_words 0x120 [0x1234] (zeros 0x100 0x80)) kernel_mode.
Definition later_state (v : Z) (t : cpu) : cpu := Cpu (file [(RSP, 0x110); (RDI, 0x140); (RSI, v); (RBX, 1)]) false (mem t) (sys t).

Lemma setjmp_longjmp_witness :
  returns (run setjmp_asm 12 0) jump_state (λ target t, target = 0x1234 ∧ regs t RAX = 0 ∧
    returns (run longjmp_asm 9 0) (later_state 5 t) (λ target' w,
      target' = 0x1234 ∧ regs w RAX = 5 ∧ regs w RBX = 11 ∧ regs w R15 = 22 ∧ regs w RSP = 0x128)).
Proof.
  assert (Hw : word (mem jump_state) 0x120 0x1234) by (apply word_dec; vm_compute; reflexivity).
  assert (Hb : bounded jump_state) by (apply bounded_dec; vm_compute; reflexivity).
  assert (Hr : room (mem jump_state) 0x140 64) by (apply room_dec; vm_compute; reflexivity).
  eapply returns_mono; [apply (setjmp_longjmp jump_state 0x1234 12)|].
  - exact Hb.
  - exact Hw.
  - vm_compute. discriminate.
  - vm_compute. reflexivity.
  - exact Hr.
  - vm_compute. reflexivity.
  - left. vm_compute. discriminate.
  - lia.
  - intros target t ((-> & _ & _) & Hax & _ & Hlong). cbv beta. split; [done|]. split; [done|].
    eapply returns_mono; [apply (Hlong (later_state 5 t) 9%nat)|].
    + apply bounded_dec. vm_compute. reflexivity.
    + reflexivity.
    + reflexivity.
    + lia.
    + intros target' w ((-> & Hsp & Hregs) & Hv & _). cbv beta.
      split; [reflexivity|]. split; [exact Hv|].
      rewrite Hsp, (Hregs RBX), (Hregs R15) by (apply (bool_decide_unpack _); reflexivity).
      repeat split.
Defined.

(** The value zero is returned as it is: the caller takes the jump for the
    return of [setjmp]. *)
Example longjmp_zero :
  match run setjmp_asm 12 0 jump_state with
  | Ok target t =>
      match run longjmp_asm 9 0 (later_state 0 t) with
      | Ok target' w => (target, regs t RAX) = (target', regs w RAX) ∧ regs w RAX = 0
      | Err _ _ => False
      end
  | Err _ _ => False
  end.
Proof. vm_compute. done. Qed.

(** What [SYS_EXIT] does: no code calls [setjmp] on [sys_exit_buf], so it is
    zero, and [longjmp] goes to address 0 with a null stack. *)
Example sys_exit_goes_to_zero :
  match run longjmp_asm 9 0 (Cpu (file [(RSP, 0x110); (RDI, 0x140); (RSI, 0x1234)]) false (zeros 0x140 64) kernel_mode) with
  | Ok target w => target = 0 ∧ regs w RSP = 0 ∧ regs w RAX = 0x1234
  | Err _ _ => False
  end.
Proof. vm_compute. done. Qed.

(** ** Segments *)

(** The kernel's tables at these addresses, and a stack with the operand of
    [lgdt] above the return address. *)
#[local] Instance asm_symbols : Symbols := {|
  vectors := λ n, 0xFFFFFFFF80001000 + 16 * n;
  system_tss_addr := 0xFFFFFFFF80123460;
  idt_addr := 0xFFFFFFFF80200000;
  gdt_addr := 0xFFFFFFFF80201000;
|}.
Definition empty_tables : tables :=
  Tables (λ _, IdtDescriptor 0 0 0 0 0 0) (λ _, 0) (λ _, 0) (λ _, 0) None None.
Definition flush_state : cpu :=
  Cpu (file [(RSP, 0x140); (RDI, 0x150); (RBX, 11)]) false
    (put_words 0x140 [0x1234] (put_bytes 0x150 (le_bytes 2 79 ++ le_bytes 8 0xFFFFFFFF80201000) (zeros 0x100 0x80)))
    kernel_mode.

Lemma segments_loaded_witness :
  returns gdt_init empty_tables (λ _ t',
    returns (run (gdt_flush_asm 0x5000) 8 0) flush_state (λ target u, target = 0x5000 ∧
      returns (run gdt_flush_tail 8 0) u (λ target' v, target' = 0x1234 ∧ x_gdtr (sys v) = gdtr t' ∧
        selects t' (x_segs (sys v) CS) 0x1A 0 ∧ selects t' (x_segs (sys v) DS) 0x12 0))).
Proof.
  eapply returns_mono; [apply (segments_loaded empty_tables)|].
  - vm_compute. split; [discriminate|reflexivity].
  - intros a t' Hrun. cbv beta in Hrun. eapply returns_mono; [apply (Hrun flush_state 0x5000 0x1234 8%nat 8%nat)|].
    + split; [split; [vm_compute; discriminate|vm_compute; reflexivity]|].
      split; [apply bytes_at_dec|apply word_dec]; vm_compute; reflexivity.
    + vm_compute. discriminate.
    + apply bounded_dec. vm_compute. reflexivity.
    + vm_compute. split; [discriminate|reflexivity].
    + lia.
    + apply word_dec. vm_compute. reflexivity.
    + apply room_dec. vm_compute. reflexivity.
    + vm_compute. discriminate.
    + vm_compute. reflexivity.
    + lia.
    + lia.
    + intros target u [Ht Htail]. cbv beta. split; [exact Ht|]. eapply returns_mono; [exact Htail|].
      intros target' v ((-> & _) & Hg & Hs & _). cbv beta. split; [done|]. split; [exact Hg|].
      split; [exact (Hs CS)|exact (Hs DS)].
Defined.

(** ** Strings *)

(** "ab" at 0x100, a buffer of eight bytes at 0x110, the stack at 0x140. *)
Definition copy_state (len : Z) : cpu :=
  Cpu (file [(RSP, 0x140); (RDI, 0x110); (RSI, 0x100); (RDX, len)]) false
    (put_words 0x140 [0x1234] (put_bytes 0x100 [97; 98; 0] (put_bytes 0x110 (replicate 8 1) (zeros 0x100 0x80)))) kernel_mode.

Lemma strncpy_asm_refines_witness :
  returns (run strncpy_asm 90 0) (copy_state 5) (λ target t,
    target = 0x1234 ∧ regs t RAX = 0x110 ∧ bytes_at (mem t) 0x110 [97; 98; 0; 0; 0; 1; 1; 1]).
Proof.
  assert (Hb : bounded (copy_state 5)) by (apply bounded_dec; vm_compute; reflexivity).
  assert (Hs : bytes_at (mem (copy_state 5)) 0x100 (take 5 ([97; 98] ++ [0])))
    by (apply bytes_at_dec; vm_compute; reflexivity).
  assert (Hd : bytes_at (mem (copy_state 5)) 0x110 (replicate 8 1)) by (apply bytes_at_dec; vm_compute; reflexivity).
  assert (Hw : word (mem (copy_state 5)) 0x140 0x1234) by (apply word_dec; vm_compute; reflexivity).
  assert (Hr : room (mem (copy_state 5)) (0x140 - 24) 24) by (apply room_dec; vm_compute; reflexivity).
  eapply returns_mono; [apply (strncpy_asm_refines (copy_state 5) [97; 98] (replicate 8 1) 5 0x1234 90)|].
  - exact Hb.
  - reflexivity.
  - split; [lia|vm_compute; discriminate].
  - repeat constructor.
  - exact Hs.
  - vm_compute. reflexivity.
  - exact Hd.
  - vm_compute. reflexivity.
  - left. vm_compute. discriminate.
  - exact Hw.
  - exact Hr.
  - vm_compute. discriminate.
  - vm_compute. reflexivity.
  - right. vm_compute. discriminate.
  - right. vm_compute. discriminate.
  - cbn. lia.
  - intros target t ((-> & _ & _) & Hax & b' & Hb' & Hbt). cbv beta. split; [done|]. split; [exact Hax|].
    vm_compute in Hb'. injection Hb' as <-. exact Hbt.
Defined.

(** With a length of zero [strncpy] copies the whole string, and then fills
    memory with zeros until it runs into an address that is not mapped. *)
Example strncpy_zero_runs_away :
  match run strncpy_asm 500 0 (copy_state 0) with
  | Err (PageFault a) t =>
      a = 0x180 ∧ bytes_atb (mem t) 0x110 ([97; 98] ++ replicate 0x6E 0) = true
  | _ => False
  end.
Proof. vm_compute. done. Qed.

(** [strcpy] leaves the byte behind the copy as it was. *)
Example strcpy_not_terminated :
  match run strcpy_asm 50 0 (copy_state 0) with
  | Ok target t => target = 0x1234 ∧ regs t RAX = 0 ∧ bytes_atb (mem t) 0x110 [97; 98; 1] = true
  | Err _ _ => False
  end.
Proof. vm_compute. done. Qed.

(** ** The stack trace *)

(** [printf] here sends the depth and the address to a device. *)
Definition logged_line (i r : Z) : trace := [Out 64 (u16 i) r].
Definition log_callee : Callees := λ f,
  if String.eqb f "printf" then
    i ← gets (λ s, regs s RSI); r ← gets (λ s, regs s RDX);
    modify (λ s, set_sys (set_dev (logged_line i r ++ x_dev (sys s))) s)
  else mret ().

Lemma log_callee_prints fmt i r : prints (H := log_callee) fmt logged_line i r.
Proof.
  intros t _ <- <- Hb. unfold callee, log_callee. cbn [String.eqb Ascii.eqb Bool.eqb].
  do 2 (apply returns_bind, returns_gets). apply returns_modify. split; [exact Hb|]. by split; [|split].
Qed.

(** Two frames in the kernel, at 0x8100 and 0x8200; the second one saves the
    frame pointer [last]. *)
Definition trace_state (last : Z) : cpu :=
  Cpu (file [(RSP, 0x8040); (RDI, 0x8100)]) false
    (put_words 0x8300 [0; 0x7f000] (put_words 0x8200 [last; 0x1020] (put_words 0x8100 [0x8200; 0x1010]
      (put_words 0x8040 [0x77] (zeros 0x8000 0x400))))) kernel_mode.

Example stack_trace_two_frames :
  returns (run (H := log_callee) (stack_trace_asm 0x1800 0x1000 0x2000) 61 0) (trace_state 0x8300)
    (λ target t, target = 0x77 ∧ regs t RAX = 0 ∧ x_dev (sys t) = [Out 64 1 0x1020; Out 64 0 0x1010]).
Proof.
  eapply returns_mono.
  - apply (stack_trace_asm_spec (H := log_callee) 0x1800 0x1000 0x2000 logged_line) with
      (s := trace_state 0x8300) (rs := [0x1010; 0x1020]) (ret := 0x77) (fuel := O).
    + lia.
    + lia.
    + intros i r _. apply log_callee_prints.
    + apply bounded_dec. vm_compute. reflexivity.
    + vm_compute. discriminate.
    + vm_compute. reflexivity.
    + vm_compute. reflexivity.
    + apply room_dec. vm_compute. reflexivity.
    + apply word_dec. vm_compute. reflexivity.
    + change (traced _ _ _ _ _) with (chain 0x1000 0x2000 0x8040 (mem (trace_state 0x8300)) 0x8100 [0x1010; 0x1020]).
      unfold chain, in_kernel. split; [lia|]. split; [apply word_dec; vm_compute; reflexivity|]. split; [lia|].
      exists 0x8200. split; [apply word_dec; vm_compute; reflexivity|].
      split; [lia|]. split; [apply word_dec; vm_compute; reflexivity|]. split; [lia|].
      exists 0x8300. split; [apply word_dec; vm_compute; reflexivity|].
      split; [lia|]. exists 0x7f000. split; [apply word_dec; vm_compute; reflexivity|lia].
  - intros target t ((Ht & _) & Ha & Hd & _). done.
Qed.

(** A frame pointer that is not mapped faults again, in the middle of the
    trace; the handler of page faults passes on the [rbp] of the code that it
    interrupted. *)
Example stack_trace_bad_frame :
  match run (H := log_callee) (stack_trace_asm 0x1800 0x1000 0x2000) 61 0 (trace_state 0) with
  | Err f t => f = PageFault 8 ∧ x_dev (sys t) = [Out 64 1 0x1020; Out 64 0 0x1010]
  | Ok _ _ => False
  end.
Proof. vm_compute. done. Qed.

(** ** The feature tests *)

Definition feature_state : cpu :=
  Cpu (file [(RSP, 0x120); (RBX, 11)]) false (put_words 0x120 [0x1234] (zeros 0x100 0x80)) kernel_mode.

(** [CR0] with the protection bit and bit 4 gets the monitoring bit, [CR4] the
    two bits of the extension; the caller's [rbx] is gone. *)
Example sse42_enabled_runs :
  match run sse42_enabled_asm 14 0 feature_state with
  | Ok target t => target = 0x1234 ∧ regs t RAX = 1 ∧ x_crs (sys t) CR0 = 0x13 ∧ x_crs (sys t) CR4 = 0x611 ∧
      regs t RBX = 0x756e
  | Err _ _ => False
  end.
Proof. vm_compute. done. Qed.

(** Without the x2APIC bit the answer is not zero. *)
Example x2apic_enabled_nonzero :
  match run x2apic_enabled_asm 5 0 feature_state with
  | Ok _ t => Z.testbit (2 ^ 20) 21 = false ∧ regs t RAX = 2 ^ 20
  | Err _ _ => False
  end.
Proof. vm_compute. done. Qed.

(** The theorem on the feature test at this state. *)
Example sse42_enabled_applies :
  returns (run sse42_enabled_asm 14 0) feature_state (λ target t, target = 0x1234 ∧ regs t RAX = 1).
Proof.
  eapply returns_mono; [apply (sse42_enabled_asm_spec feature_state 0 0x756e (2 ^ 20) 0 0x1234)|].
  - reflexivity.
  - apply bounded_dec. vm_compute. reflexivity.
  - by intros [].
  - apply word_dec. vm_compute. reflexivity.
  - vm_compute. reflexivity.
  - lia.
  - intros target t ((-> & _) & _ & Ha & _). exact (conj eq_refl Ha).
Qed.
