(* ===== verification/BootDemo.v ===== *)
(** The kernel's start on a small machine: 256 KB of memory, the boot loader's
    tables, a memory map of four regions and a firmware table with two
    processors and an I/O interrupt controller. *)

From S2P Require Import Prelude Kernel KList State Paging Bytes Frame FrameSpec FrameRefine FrameMark Demo FrameEdge.
From S2P Require Import FrameInit PmmInit Mmu Lib Io Term Desc DeviceDemo Machine Lapic Trap TrapSpec Pic.
From S2P Require Import Ioapic Rtc Drivers Acpi Syscall BoardDemo Boot Elf Typed.

Open Scope Z_scope.

#[local] Existing Instances board board_handlers demo_symbols.

(** The image ends at 36 KB; the entry code of the other processors is 16
    bytes long. *)
#[local] Instance boot_image : Image := {|
  kernel_end := P2V 0x9000;
  ap_entry_start := P2V 0x6000;
  ap_entry_end := P2V 0x6010;
|}.
#[local] Instance boot_asm : Asm := {|
  stack_trace _ := skip;
  local_page := 0x500;
  syscall_entry := 0xFFFFFFFF80002000;
|}.
#[local] Instance boot_cpu : Cpu := 1.

Definition boot_map : list memory_map :=
  [MemoryMap 0 0x8000 1; MemoryMap 0x10000 0x10000 1; MemoryMap 0x20000 0x8000 2;
   MemoryMap 0x28000 0x18000 1].

(** The boot loader's page tables map the first two megabytes at the higher
    half. *)
Definition loader_ram : Z → Z := λ a,
  if a =? 0x1000 + 8 * 511 then table_entry 0x2000 else
  if a =? 0x2000 + 8 * 510 then table_entry 0x3000 else
  if a =? 0x3000 then big_entry 0 else
  if a =? 0x6000 then 0x1122334455667788 else
  if a =? 0x6FF0 then 24 * 4 else
  if (0x7000 <=? a) && (a <? 0x7000 + 24 * 4) then
    nth (Z.to_nat ((a - 0x7000) / 8)) (boot_map ≫= λ e, [mm_base e; mm_len e; mm_type e]) 0
  else 0.

Definition boot_base : Z := P2V 0xA000.
Definition loader_state : kstate :=
  KState
    (list_to_map ((λ a, (a, Node a a)) <$>
      [l_free; l_used; l_lru] ++ (page_addrs boot_base 65 ≫= λ p, [lru_of p; pages_of p])))
    (<[0x500 := Page 0 0 0 0]> (list_to_map ((λ i, (page_at boot_base i, Page 77 0 5 0)) <$> seqZ 0 65)))
    0 0 0 0 true loader_ram 0x1000 0 [].

Definition fw_bytes : list (Z * list Z) :=
  [(P2V 0xE0000, chars "RSD PTR " ++ replicate 8 0 ++ [0; 0x10; 0xFE; 0x07]);
   (P2V 0x7FE1000, chars "RSDT" ++ [40; 0; 0; 0] ++ replicate 28 0 ++ [0; 0x20; 0xFE; 0x07]);
   (P2V 0x7FE2000, chars "APIC" ++ [116; 0; 0; 0] ++ replicate 36 0 ++
     [0; 8; 0; 0; 1; 0; 0; 0] ++ [1; 12; 0; 0; 0; 0; 0xC0; 0xFE; 0; 0; 0; 0] ++ [0; 8; 1; 1; 1; 0; 0; 0])].
#[local] Instance boot_fw : Firmware := λ a,
  foldr (λ e v, if (e.1 <=? a) && (a <? e.1 + Z.of_nat (length e.2)) then nth (Z.to_nat (a - e.1)) e.2 0 else v)
    0 fw_bytes.

Definition loader_machine : mach :=
  Mach loader_state (console 0 0) zero_tables (λ _, h_null) irqmask_init 0 0 0 (λ _, 0) false false 0.


(** ** The memory map *)

Lemma boot_map_at : map_at loader_state 0x7000 boot_map.
Proof. repeat split; vm_compute; reflexivity. Qed.

Lemma loader_base : P2V (init_table (highest boot_map) (V2P KERNEL_END)) = boot_base.
Proof. vm_compute. reflexivity. Qed.

Lemma loader_layout : layout_ok boot_base 65.
Proof.
  split; [vm_compute; intuition discriminate|vm_compute; intuition discriminate|].
  intros a [Ha _]. assert (E : boot_base = 0xFFFFFFFF8000A000) by (vm_compute; reflexivity).
  rewrite E in Ha. cbn [l_free l_used l_lru demo_layout]. lia.
Qed.

Lemma loader_ready : init_ready (highest boot_map) (V2P KERNEL_END) loader_state.
Proof.
  assert (Em : highest boot_map = 0x40000) by (vm_compute; reflexivity).
  assert (Et : V2P KERNEL_END = 0x9000) by (vm_compute; reflexivity).
  assert (En : init_numpages 0x40000 = 65) by (vm_compute; reflexivity).
  assert (Eb : P2V (init_table 0x40000 0x9000) = boot_base) by (vm_compute; reflexivity).
  assert (Hb : init_big 0x40000 0x9000 = false) by (vm_compute; reflexivity).
  rewrite Em, Et. split; rewrite ?En, ?Eb.
  - lia.
  - vm_compute. discriminate.
  - lia.
  - apply loader_layout.
  - unfold nodes_ok. apply is_page_all. apply (bool_decide_unpack _). vm_compute. reflexivity.
  - apply is_page_all. apply (bool_decide_unpack _). vm_compute. reflexivity.
  - split_and!; apply (bool_decide_unpack _); vm_compute; reflexivity.
  - split; vm_compute; reflexivity.
  - rewrite Hb. discriminate.
Qed.

(** Page 0x28 is covered by a reserved region and then by a usable one. *)
Lemma pmm_init_marks_witness :
  boot_verdict boot_map 0x28 = Some false ∧ boot_verdict boot_map 0x20 = Some true ∧
  boot_verdict boot_map 0x9 = Some true ∧
  returns (pmm_init (P2V 0x7000) (Z.of_nat (length boot_map))) loader_state (λ _ s',
    let memory := highest boot_map in
    let table := V2P KERNEL_END in
    let base := P2V (init_table memory table) in
    page_lock s' = false ∧ parray s' = base ∧ numpages s' = init_numpages memory ∧
    ∃ P, tracks s' P ∧ ∀ i pg0,
      0 <= i < init_numpages memory → store loader_state !! page_at base i = Some pg0 →
      (init_reserved memory table i → in_pools P (page_at base i) None) ∧
      (¬ init_reserved memory table i →
         in_pools P (page_at base i) (if immutable pg0 then None else boot_verdict boot_map i)) ∧
      address <$> store s' !! page_at base i = Some (4096 * i)).
Proof.
  split_and!; [vm_compute; reflexivity..|].
  apply (pmm_init_marks loader_state boot_map).
  - apply boot_map_at.
  - cbn. lia.
  - repeat (constructor; [split_and!; cbn; lia|]). constructor.
  - vm_compute. discriminate.
  - apply loader_ready.
Defined.

Definition pmm_started : kstate := final (pmm_init (P2V 0x7000) 4 loader_state).
Definition shared_page : Z := page_at boot_base 0x28.



(** ** Types *)

Lemma loader_ram_in64 a : in64 (loader_ram a).
Proof.
  unfold loader_ram. repeat (case_match; [by apply in64_const|]). case_match; [|by apply in64_const].
  assert (F : Forall in64 (boot_map ≫= λ e, [mm_base e; mm_len e; mm_type e])).
  { repeat (constructor; [by apply in64_const|]). constructor. }
  revert F. generalize (boot_map ≫= λ e, [mm_base e; mm_len e; mm_type e]) as l. intros l F.
  generalize (Z.to_nat ((a - 0x7000) / 8)) as n. induction F as [|x l Hx F IH]; intros [|n]; cbn;
    by auto || by apply in64_const.
Qed.

Lemma loader_typed : typed loader_state.
Proof.
  split; [by split; apply in64_const|by split; apply in64_const| |apply loader_ram_in64|by split; apply in64_const].
  intros p pg Hp. assert (C : map_Forall (λ _ pg, (address pg = 0 ∨ address pg = 77) ∧ flags pg = 0 ∧
    (data pg = 0 ∨ data pg = 5) ∧ refs pg = 0) (store loader_state)).
  { apply (bool_decide_unpack _). vm_compute. reflexivity. }
  destruct (C p pg Hp) as (Ea & Ef & Ed & Er). unfold in64 in *.
  split; unfold in64; rewrite ?Ef, ?Er; lia.
Qed.


(** ** The whole start *)

Lemma main_enables_last_witness :
  match main 10 loader_machine with
  | Ok _ m' => running m' ∧ ∃ t, io m' = Sti :: t ++ io loader_machine ∧ Sti ∉ t
  | Err _ m' => ∃ t, io m' = t ++ io loader_machine ∧ Sti ∉ t
  end.
Proof. apply (main_enables_last 10 loader_machine). split; [intros n Hn; cbn; lia|cbn; lia]. Defined.

