(* ===== verification/ElfDemo.v ===== *)
(** The ELF loader on a small machine: an image with one program header at the
    end of the mapped memory. *)

From S2P Require Import Prelude Kernel KList State Paging Bytes Frame FrameSpec FrameRefine Demo FrameInit PmmInit.
From S2P Require Import PagingWf PagingTree Mmu MmuSpec MmuMap MmuBoot UserPages MmuDemo Elf ElfLoad.

Open Scope Z_scope.

(** A file whose header lies 128 bytes before the end of the mapped two
    megabytes; its only program header, of type 6, follows. *)
Definition file_at : Z := P2V 0x1FFF80.
Definition file_ram : Z → Z := λ a,
  if a =? 0x1000 + 8 * 511 then table_entry 0x2000 else
  if a =? 0x2000 + 8 * 510 then table_entry 0x3000 else
  if a =? 0x3000 then big_entry 0 else
  if a =? 0x1FFF80 + 32 then 64 else
  if a =? 0x1FFF80 + 48 then 56 * 2 ^ 48 else
  if a =? 0x1FFF80 + 56 then 1 else
  if a =? 0x1FFF80 + 64 then 6 else 0.
Definition file_state : kstate := put_ram file_ram (put_cr3 0x1000 (demo_state 4)).

Lemma file_header : elf_header file_state file_at 64 56 1.
Proof. split; try (vm_compute; reflexivity); vm_compute; intuition discriminate. Qed.


(** ** A file that is loaded *)

(** One segment of five bytes at [0x40001010], three of them in the file. The
    loader visits 56 headers; behind the first, the file holds zeroes. *)
Definition image_frame : Z := 0x8000.
Definition image_at : Z := P2V image_frame.
Definition image_segment : phdr := Phdr PT_LOAD 0xD00 0x40001010 3 5.
Definition image_headers : list phdr := image_segment :: replicate 55 (Phdr 0 0 0 0 0).
Definition image_bytes : list (Z * Z) :=
  [(32, 64); (54, 56); (56, 1); (64, 1); (64 + 9, 0xD); (64 + 16, 0x10); (64 + 17, 0x10);
   (64 + 19, 0x40); (64 + 32, 3); (64 + 40, 5); (0xD00, 0xAA); (0xD01, 0xBB); (0xD02, 0xCC)].
Definition poke (s : kstate) (b : Z * Z) : kstate :=
  put_ram (ram_set_byte (ram s) (image_frame + b.1) b.2) s.
Definition image_vm : kstate := foldl poke vm image_bytes.
Definition image_byte (k : Z) : Z := ram_byte (ram image_vm) (image_frame + k).

Definition vm_pools : pools := Pools vm_free [] [].
Definition vm_level : Z → Z := boot_level vm_pml4 vm_pdpt vm_pd.

(** What writing the file keeps. *)
Record vm_inv (s : kstate) : Prop := {
  vi_paged : paged vm_direct s vm_pools vm_level 4;
  vi_tree : unshared (ram s) (cr3 s) vm_level;
  vi_small : ∀ va, PML4E va ≠ MMU_RE → small vm va → small s va;
  vi_quiet : quiet s vm_pools vm_level image_frame;
  vi_mapped : ∀ a, 0 <= a < 2 ^ 21 → mapped (ram s) (cr3 s) (P2V a) a;
}.

Lemma vm_mapped a : 0 <= a < 2 ^ 21 → mapped vm_ram vm_pml4 (P2V a) a.
Proof.
  intros Ha. destruct (P2V_indices a) as (Hc & I4 & I3 & I2 & Ho); [lia|].
  split; [done|left]. exists vm_pd. rewrite dir_slot_eq, I4, I3, I2, Ho.
  replace (a / 2 ^ 21) with 0 by dlia. split_and!; [by vm_compute..|].
  replace (Z.land (vm_ram vm_pd) 0x000FFFFFFFE00000) with 0 by (by vm_compute). dlia.
Qed.

(** Nothing is mapped in the lower half. *)
Lemma vm_root_low i : 0 <= i < 256 → vm_ram (vm_pml4 + 8 * i) = 0.
Proof.
  intros Hi. apply vm_ram_outside. unfold boot_slot, vm_pml4, vm_pdpt, vm_pd, MMU_RE.
  change (PDPTE 0) with 0. intros [?|[?|[?|[?|(k & ? & ?)]]]]; lia.
Qed.

Lemma vm_unshared : unshared vm_ram vm_pml4 vm_level.
Proof.
  assert (Hno : ∀ t, ¬ below vm_ram vm_pml4 vm_level t).
  { induction 1 as [i t Hi (_ & _ & Hs & _)|]; [|done]. by rewrite vm_root_low in Hs. }
  intros t f i g j Hb. by destruct (Hno t).
Qed.

Lemma vm_start : vm_inv vm.
Proof.
  split; [apply vm_ok|apply vm_unshared|done| |apply vm_mapped].
  split; [done|split; [done|]]. apply Forall_forall. apply (bool_decide_unpack _); vm_compute; reflexivity.
Qed.

Lemma poke_inv s b : 0 <= b.1 < 4096 → vm_inv s → vm_inv (poke s b).
Proof.
  intros Hb [G U Hs Q Hm]. pose proof (taken_write vm_direct s _ _ _ _ _ (b.2) G Q Hb) as T. split.
  - by apply paged_write.
  - by apply T.
  - intros va Hva S. by apply T, Hs.
  - apply Q.
  - intros a Ha. apply (mapped_write vm_direct s _ _ _ _ _ (b.2) G Q Hb); [|by apply Hm].
    destruct (P2V_indices a) as (_ & -> & _); [lia|done].
Qed.

Lemma pokes_inv bs s : Forall (λ b : Z * Z, 0 <= b.1 < 4096) bs → vm_inv s → vm_inv (foldl poke s bs).
Proof.
  revert s. induction bs as [|b bs IH]; intros s Hbs Hi; [done|].
  apply Forall_cons in Hbs as [Hb Hbs]. cbn. apply IH; [done|]. by apply poke_inv.
Qed.

Lemma image_inv : vm_inv image_vm.
Proof. apply pokes_inv; [apply (bool_decide_unpack _); vm_compute; reflexivity|apply vm_start]. Qed.

(** The file can be read. *)
Lemma image_readable k : 0 <= k < 4096 →
  readable image_vm vm_pools vm_level (image_at + k) (image_byte k).
Proof.
  intros Hk. destruct image_inv as [_ _ _ Q Hm].
  assert (E : image_at + k = P2V (image_frame + k)).
  { unfold image_at, image_frame. rewrite !P2V_add by lia. lia. }
  destruct (P2V_indices (image_frame + k)) as (_ & I4 & _); [unfold image_frame; lia|].
  rewrite E. split; [rewrite P2V_add; unfold image_frame, KERNEL_VIRT; lia|].
  rewrite I4. split; [lia|split; [done|]]. exists (image_frame + k).
  replace ((image_frame + k) / 4096 * 4096) with image_frame by (unfold image_frame; dlia).
  split_and!; [|done|done]. apply Hm. unfold image_frame. lia.
Qed.

(** A load checked by evaluation. *)
Definition gives (c : M kstate Z) (s : kstate) (v : Z) : bool :=
  match c s with Ok v' _ => v' =? v | Err _ _ => false end.

Lemma load_bytes_state n x s v s' : load_bytes n x s = Ok v s' → s' = s.
Proof.
  revert x v s'. induction n as [|n IH]; intros x v s'; cbn [load_bytes]; [by intros [= _ <-]|].
  unfold mbind, M_bind, load8. destruct (translate _ _ _); [|done].
  destruct (load_bytes n _ s) as [w t|] eqn:E; [|done]. intros [= _ <-]. by eapply IH.
Qed.

Lemma gives_loads n x s v : gives (load_bytes n x) s v = true → loads (load_bytes n x) s v.
Proof.
  unfold gives, loads. destruct (load_bytes n x s) as [w t|] eqn:E; [|done].
  intros ->%Z.eqb_eq. by rewrite (load_bytes_state _ _ _ _ _ E).
Qed.

Definition header_gives (s : kstate) (h : Z) (ph : phdr) : bool :=
  gives (p_type h) s (ph_type ph) && gives (p_offset h) s (ph_off ph) &&
  gives (p_vaddr h) s (ph_va ph) && gives (p_filesz h) s (ph_fsz ph) &&
  gives (p_memsz h) s (ph_msz ph).

Lemma image_headers_give : forallb (λ i, match image_headers !! i with
    | Some ph => header_gives image_vm (header image_at 64 (Z.of_nat i)) ph
    | None => false
    end) (seq 0 56) = true.
Proof. vm_compute. reflexivity. Qed.

Lemma image_loadable : loadable image_vm vm_pools vm_level image_at 64 image_byte image_headers.
Proof.
  split.
  - by vm_compute.
  - intros i ph Hi. pose proof (lookup_lt_Some _ _ _ Hi) as Hlt.
    pose proof (proj1 (forallb_forall _ _) image_headers_give i) as Hg.
    cbv beta in Hg. rewrite Hi in Hg. specialize (Hg ltac:(apply in_seq; cbn in Hlt; lia)).
    unfold header_gives in Hg. rewrite !andb_true_iff in Hg. destruct Hg as ((((? & ?) & ?) & ?) & ?).
    split; try (by apply gives_loads). intros k Hk. unfold sizeof_Elf64_Phdr in Hk. cbn in Hlt.
    exists (image_byte (64 + 56 * Z.of_nat i + k)). unfold header.
    replace (image_at + 64 + 56 * Z.of_nat i + k) with (image_at + (64 + 56 * Z.of_nat i + k)) by lia.
    apply image_readable. lia.
  - intros ph [->|Hp]%elem_of_cons Ht; [|by apply elem_of_replicate in Hp as [-> _]].
    split; [by vm_compute|]. intros k Hk. cbn in *. rewrite <- Z.add_assoc. apply image_readable. lia.
  - apply (bool_decide_unpack _); vm_compute; reflexivity.
  - intros n Hn. assert (n = 0x40001) as ->.
    { revert n Hn. apply Forall_forall. apply (bool_decide_unpack _); vm_compute; reflexivity. }
    apply image_inv; [by vm_compute|]. intros d. by vm_compute.
Qed.

Lemma image_header : elf_header image_vm image_at 64 56 1.
Proof. split; [by apply gives_loads..| |]; by vm_compute. Qed.

(** The five bytes of the segment, in memory after loading. *)
Lemma elf_load_loads_witness :
  returns (elf_load 100 image_at) image_vm (λ _ t,
    (λ k, match load8 (0x40001010 + k) t with Ok b _ => b | Err _ _ => -1 end) <$> seqZ 0 5 =
      [0xAA; 0xBB; 0xCC; 0; 0]).
Proof.
  eapply returns_mono;
    [apply (elf_load_loads vm_direct 0 100 image_vm vm_pools vm_level image_at 64 56 1 image_byte image_headers)|].
  - apply image_inv.
  - apply image_inv.
  - apply image_header.
  - reflexivity.
  - apply image_loadable.
  - by vm_compute; lia.
  - cbv beta. intros _ t (P' & lv' & _ & Hc & _).
    assert (Hk : ∀ k, 0 <= k < 5 → load8 (0x40001010 + k) t = Ok (content image_byte image_segment k) t).
    { intros k Hk. apply (Hc image_segment k); [apply elem_of_cons; by left|done|done]. }
    transitivity (content image_byte image_segment <$> seqZ 0 5); [|by vm_compute].
    apply list_fmap_ext. intros i k [-> Hi]%lookup_seqZ. by rewrite Hk by lia.
Defined.

(** ** What the loader does not do *)

(** The same file with its segment at [0x40001FFE], across a page boundary. *)
Definition crossing_vm : kstate :=
  foldl poke image_vm [(64 + 16, 0xFE); (64 + 17, 0x1F)].

(** The access bits that the processor combines for an address of user mode:
    every entry on the way must have [USER] set. *)
Definition user_bits (s : kstate) (va : Z) : list bool :=
  let e4 := ram s (entry_addr (cr3 s) + 8 * PML4E va) in
  let e3 := ram s (entry_addr e4 + 8 * PDPTE va) in
  let e2 := ram s (entry_addr e3 + 8 * PDE va) in
  let e1 := ram s (entry_addr e2 + 8 * PTE va) in
  (λ e, nz (Z.land e USER)) <$> [e4; e3; e2; e1].

