(* ===== verification/StartDemo.v ===== *)
(** The kernel's start on a machine with four megabytes of memory and the page
    tables that the boot loader builds ([boot.asm]): the theorem of [Start]
    applied, and where it leaves the frames of those tables. *)

From S2P Require Import Prelude Kernel KList State Paging Frame FrameSpec FrameRefine FrameMark Demo.
From S2P Require Import FrameInit PmmInit PagingWf PagingTree Mmu MmuWalk MmuSpec MmuBoot MmuInit Start.

Open Scope Z_scope.

(** The kernel's image ends at 1152 KB. *)
#[local] Instance start_image : Image := {|
  kernel_end := P2V 0x120000;
  ap_entry_start := P2V 0x6000;
  ap_entry_end := P2V 0x6010;
|}.

(** The map of such a machine: low memory, the firmware's data area and its
    read-only memory, and the rest. *)
Definition pc_map : list memory_map :=
  [MemoryMap 0 0x9FC00 1; MemoryMap 0x9FC00 0x400 2; MemoryMap 0xF0000 0x10000 2;
   MemoryMap 0x100000 0x300000 1].

(** The boot loader's root, its table, its directory and its two page tables
    ([paging] in boot.asm): four megabytes, mapped at 0 and at
    [KERNEL_VIRT]; the map [es] is at 0x7000. *)
Definition loader_mem (es : list memory_map) : Z → Z := λ a,
  if (a =? 0x3F1000) || (a =? 0x3F1FF8) then table_entry 0x3F2000 else
  if (a =? 0x3F2000) || (a =? 0x3F2FF0) then table_entry 0x3F3000 else
  if a =? 0x3F3000 then table_entry 0x3F4000 else
  if a =? 0x3F3008 then table_entry 0x3F5000 else
  if (0x3F4000 <=? a) && (a <? 0x3F6000) then table_entry ((a - 0x3F4000) / 8 * 4096) else
  if (0x7000 <=? a) && (a <? 0x7000 + 24 * 4) then
    nth (Z.to_nat ((a - 0x7000) / 8)) (es ≫= λ e, [mm_base e; mm_len e; mm_type e]) 0
  else 0.
Definition ld_ram : Z → Z := loader_mem pc_map.
Definition ld_level : Z → Z := λ f,
  if f =? 0x3F1000 then 4 else if f =? 0x3F2000 then 3 else if f =? 0x3F3000 then 2 else
  if (f =? 0x3F4000) || (f =? 0x3F5000) then 1 else 0.
Definition ld_direct (f : Z) : Prop := frame_ok f ∧ f + 4096 <= 0x400000.

Definition pc_base : Z := P2V 0x121000.
Definition pc_pages : Z := 0x401.
Definition pc_nodes : heap :=
  list_to_map ((λ a, (a, Node a a)) <$>
    [l_free; l_used; l_lru] ++ (page_addrs pc_base pc_pages ≫= λ p, [lru_of p; pages_of p])).
Definition pc_store : gmap Z page :=
  list_to_map ((λ i, (page_at pc_base i, Page 0 0 0 0)) <$> seqZ 0 pc_pages).
Definition pc_state : kstate :=
  KState pc_nodes pc_store 0 0 0 0 true ld_ram 0x3F1000 0 [].

(** ** The boot loader's tables *)

Lemma ld_leaf a : 0 <= a < 0x400000 →
  canonical (P2V a) = true ∧
  leaf_slot ld_ram 0x3F1000 (P2V a) = Some (0x3F4000 + 8 * (a / 4096)) ∧ P2V a mod 2 ^ 12 = a mod 2 ^ 12.
Proof.
  intros Ha. destruct (P2V_indices a) as (Hc & I4 & I3 & I2 & Ho); [lia|]. split; [done|].
  assert (I1 : PTE (P2V a) = a / 4096 mod 512).
  { rewrite PTE_spec, P2V_add by lia. unfold KERNEL_VIRT. dlia. }
  split; [|rewrite P2V_add by lia; unfold KERNEL_VIRT; dlia].
  unfold leaf_slot, dir_slot. rewrite I4, I3, I2, I1.
  change (entry_addr 0x3F1000 + 8 * 511) with 0x3F1FF8.
  change (ld_ram 0x3F1FF8) with (table_entry 0x3F2000). rewrite table_entry_step by done.
  change (entry_addr (table_entry 0x3F2000) + 8 * 510) with 0x3F2FF0.
  change (ld_ram 0x3F2FF0) with (table_entry 0x3F3000). rewrite table_entry_step by done.
  change (entry_addr (table_entry 0x3F3000)) with 0x3F3000.
  assert (Hk : a / 2 ^ 21 = 0 ∨ a / 2 ^ 21 = 1) by dlia. destruct Hk as [Hk|Hk]; rewrite Hk.
  - change (ld_ram (0x3F3000 + 8 * 0)) with (table_entry 0x3F4000). rewrite table_entry_step by done.
    change (entry_addr (table_entry 0x3F4000)) with 0x3F4000. f_equal. dlia.
  - change (ld_ram (0x3F3000 + 8 * 1)) with (table_entry 0x3F5000). rewrite table_entry_step by done.
    change (entry_addr (table_entry 0x3F5000)) with 0x3F5000. f_equal. dlia.
Qed.

Lemma ld_page_entry es k : 0 <= k < 1024 → loader_mem es (0x3F4000 + 8 * k) = table_entry (4096 * k).
Proof.
  intros Hk. unfold loader_mem. rewrite !(proj2 (Z.eqb_neq _ _)) by lia. cbn [orb].
  replace ((0x3F4000 <=? 0x3F4000 + 8 * k) && (0x3F4000 + 8 * k <? 0x3F6000)) with true by lia.
  f_equal. dlia.
Qed.

(** Every other frame is clear. *)
Lemma loader_mem_clear es i j : 8 <= i → (i < 0x3F1 ∨ 0x3F6 <= i) → 0 <= j < 512 →
  present (loader_mem es (4096 * i + 8 * j)) = false.
Proof.
  intros Hi Ho Hj. unfold loader_mem. rewrite !(proj2 (Z.eqb_neq _ _)) by lia. cbn [orb].
  replace ((0x3F4000 <=? 4096 * i + 8 * j) && (4096 * i + 8 * j <? 0x3F6000)) with false by lia.
  by replace ((0x7000 <=? 4096 * i + 8 * j) && (4096 * i + 8 * j <? 0x7000 + 24 * 4)) with false by lia.
Qed.

Lemma ld_mapped a : 0 <= a < 0x400000 → mapped ld_ram 0x3F1000 (P2V a) a.
Proof.
  intros Ha. destruct (ld_leaf a Ha) as (Hc & Hl & Ho). split; [done|]. right.
  exists (0x3F4000 + 8 * (a / 4096)). rewrite Hl, Ho. unfold ld_ram. rewrite ld_page_entry by dlia.
  assert (Hal : 4096 * (a / 4096) mod 4096 = 0) by dlia.
  split; [done|]. split.
  - destruct (steps_true _ (table_entry_step _ Hal)). done.
  - rewrite table_entry_addr by dlia. dlia.
Qed.

Lemma ld_window f : ld_direct f → window ld_ram 0x3F1000 (P2V f) f.
Proof.
  intros [[Hf ?] Hb]. split.
  - rewrite P2V_add by lia. unfold KERNEL_VIRT. lia.
  - intros i Hi. replace (u64 (P2V f + 8 * i)) with (P2V (f + 8 * i)); [apply ld_mapped; lia|].
    rewrite !P2V_add by lia. rewrite wrap_small; unfold KERNEL_VIRT; lia.
Qed.

Lemma ld_tables_bounds f : ld_level f ≠ 0 →
  0x3F1000 <= f <= 0x3F5000 ∧ frame_ok f ∧ 1 <= ld_level f <= 4 ∧ (ld_level f = 4 ↔ f = 0x3F1000).
Proof.
  unfold ld_level, frame_ok.
  destruct (Z.eqb_spec f 0x3F1000) as [->|]; [intros _; split_and!; (done || lia)|].
  destruct (Z.eqb_spec f 0x3F2000) as [->|]; [intros _; split_and!; (done || lia)|].
  destruct (Z.eqb_spec f 0x3F3000) as [->|]; [intros _; split_and!; (done || lia)|].
  destruct (Z.eqb_spec f 0x3F4000) as [->|]; [intros _; split_and!; (done || lia)|].
  destruct (Z.eqb_spec f 0x3F5000) as [->|]; [intros _; split_and!; (done || lia)|]. by intros [].
Qed.

(** The entries the loader writes above the page tables. *)
Lemma ld_present f i : 2 <= ld_level f → 0 <= i < 512 → present (ld_ram (f + 8 * i)) = true →
  ∃ q, ld_ram (f + 8 * i) = table_entry q ∧ q mod 4096 = 0 ∧ 0 <= q < 2 ^ 52 ∧ ld_level q = ld_level f - 1.
Proof.
  intros Hf Hi. assert (Hc : f = 0x3F1000 ∨ f = 0x3F2000 ∨ f = 0x3F3000).
  { revert Hf. unfold ld_level. repeat case_match; lia. }
  destruct Hc as [-> | [-> | ->]]; unfold ld_ram, loader_mem.
  - destruct (Z.eqb_spec (0x3F1000 + 8 * i) 0x3F1000), (Z.eqb_spec (0x3F1000 + 8 * i) 0x3F1FF8); cbn [orb];
      try (intros _; by exists 0x3F2000).
    rewrite !(proj2 (Z.eqb_neq _ _)) by lia. cbn [orb].
    replace ((0x3F4000 <=? 0x3F1000 + 8 * i) && (0x3F1000 + 8 * i <? 0x3F6000)) with false by lia.
    by replace ((0x7000 <=? 0x3F1000 + 8 * i) && (0x3F1000 + 8 * i <? 0x7000 + 24 * 4)) with false by lia.
  - destruct (Z.eqb_spec (0x3F2000 + 8 * i) 0x3F2000), (Z.eqb_spec (0x3F2000 + 8 * i) 0x3F2FF0);
      rewrite ?(proj2 (Z.eqb_neq _ _)) by lia; cbn [orb]; try (intros _; by exists 0x3F3000).
    replace ((0x3F4000 <=? 0x3F2000 + 8 * i) && (0x3F2000 + 8 * i <? 0x3F6000)) with false by lia.
    by replace ((0x7000 <=? 0x3F2000 + 8 * i) && (0x3F2000 + 8 * i <? 0x7000 + 24 * 4)) with false by lia.
  - rewrite !(proj2 (Z.eqb_neq (0x3F3000 + 8 * i) 0x3F1000)), !(proj2 (Z.eqb_neq (0x3F3000 + 8 * i) 0x3F1FF8)),
      !(proj2 (Z.eqb_neq (0x3F3000 + 8 * i) 0x3F2000)), !(proj2 (Z.eqb_neq (0x3F3000 + 8 * i) 0x3F2FF0)) by lia.
    cbn [orb]. destruct (Z.eqb_spec (0x3F3000 + 8 * i) 0x3F3000); [intros _; by exists 0x3F4000|].
    destruct (Z.eqb_spec (0x3F3000 + 8 * i) 0x3F3008); [intros _; by exists 0x3F5000|].
    replace ((0x3F4000 <=? 0x3F3000 + 8 * i) && (0x3F3000 + 8 * i <? 0x3F6000)) with false by lia.
    by replace ((0x7000 <=? 0x3F3000 + 8 * i) && (0x3F3000 + 8 * i <? 0x7000 + 24 * 4)) with false by lia.
Qed.

Lemma ld_wf : pt_wf (with_recursion pc_state) 0x3F1000 ld_level.
Proof.
  assert (Eslot : recursive_slot pc_state = 0x3F1000 + 8 * MMU_RE) by done.
  split.
  - intros f. split; [|by intros ->]. intros Hf. apply ld_tables_bounds in Hf as Hb; [done|lia].
  - intros f Hf. destruct (ld_tables_bounds f Hf) as (? & ? & ? & _). split; [done|lia].
  - unfold with_recursion. rewrite Eslot, ram_set_eq. split; [by apply table_entry_step|].
    by apply table_entry_addr.
  - intros f i Hf Hi Hre. assert (Hne : f + 8 * i ≠ recursive_slot pc_state).
    { rewrite Eslot. intros Heq. destruct (ld_tables_bounds f) as (_ & [Ha _] & _ & Hl); [lia|].
      apply slot_inj in Heq as [-> ->]; try done. by apply Hre. }
    unfold with_recursion. rewrite ram_set_ne by done. intros Hp.
    destruct (ld_present f i Hf Hi Hp) as (q & E & Hq & Hqb & Hl). change (ram pc_state) with ld_ram.
    rewrite E, table_entry_addr, table_entry_round, Hl by done. right.
    by destruct (steps_true _ (table_entry_step _ Hq)).
Qed.

Lemma ld_loader_tables : loader_tables pc_state pc_map ld_level ld_direct.
Proof.
  split.
  - exact ld_wf.
  - intros Hp. exfalso. revert Hp. by vm_compute.
  - intros f Hf. destruct (ld_tables_bounds f Hf) as (? & ? & _). split; [done|lia].
  - intros f Hf. split; [apply Hf|by apply ld_window].
  - by vm_compute.
  - intros f Hf T. destruct (ld_tables_bounds f Hf) as (? & _).
    assert (ET : T = 0x121000) by (by vm_compute). assert (Ep : init_pages (highest pc_map) = 17) by (by vm_compute).
    rewrite ET, Ep. lia.
Qed.

(** ** The rest of what the loader leaves *)

Lemma pc_highest : highest pc_map = 0x400000.
Proof. by vm_compute. Qed.
Lemma pc_table : start_table = 0x120000.
Proof. by vm_compute. Qed.
Lemma pc_numpages : init_numpages 0x400000 = pc_pages.
Proof. by vm_compute. Qed.
Lemma pc_start_base : start_base pc_map = pc_base.
Proof. by vm_compute. Qed.

Lemma pc_layout : layout_ok pc_base pc_pages.
Proof.
  split; [vm_compute; intuition discriminate|vm_compute; intuition discriminate|].
  intros a [Ha _]. assert (E : pc_base = 0xFFFFFFFF80121000) by (vm_compute; reflexivity).
  rewrite E in Ha. cbn [l_free l_used l_lru demo_layout]. lia.
Qed.

Lemma pc_ready : init_ready (highest pc_map) start_table pc_state.
Proof.
  assert (Hb : init_big 0x400000 0x120000 = false) by (by vm_compute).
  assert (Eb : P2V (init_table 0x400000 0x120000) = pc_base) by (by vm_compute).
  rewrite pc_highest, pc_table. split; rewrite ?pc_numpages, ?Eb.
  - lia.
  - by vm_compute.
  - lia.
  - apply pc_layout.
  - unfold nodes_ok. apply is_page_all. apply (bool_decide_unpack _). vm_compute. reflexivity.
  - apply is_page_all. apply (bool_decide_unpack _). vm_compute. reflexivity.
  - split_and!; apply (bool_decide_unpack _); vm_compute; reflexivity.
  - split; vm_compute; reflexivity.
  - rewrite Hb. discriminate.
Qed.

(** A property of the first [n] numbers, by evaluation. *)
Lemma below_all (n : Z) (Q : Z → bool) : forallb Q (seqZ 0 n) = true → ∀ i, 0 <= i < n → Q i = true.
Proof.
  intros Hq i Hi. rewrite forallb_forall in Hq. apply Hq. apply list_elem_of_In, elem_of_seqZ. lia.
Qed.

Lemma pc_settled_check : forallb (λ i, implb (ever_used pc_map i)
  (bool_decide (boot_verdict pc_map i = Some true))) (seqZ 0 pc_pages) = true.
Proof. vm_compute. reflexivity. Qed.

Lemma pc_settled : settled pc_map.
Proof.
  intros i Hi Hu. rewrite pc_highest, pc_numpages in Hi.
  pose proof (below_all _ _ pc_settled_check i Hi) as Hc. cbv beta in Hc.
  rewrite Hu in Hc. by apply bool_decide_eq_true in Hc.
Qed.

Lemma pc_clean : clean_array pc_state pc_map.
Proof.
  intros i pg _. change (store pc_state) with pc_store. unfold pc_store. intros E.
  apply elem_of_list_to_map_2, list_elem_of_fmap in E as (j & [= _ ->] & _). done.
Qed.

Lemma pc_loaded : loaded_kernel pc_state pc_map.
Proof.
  split.
  - repeat split; vm_compute; reflexivity.
  - cbn. lia.
  - repeat (constructor; [split_and!; cbn; lia|]). constructor.
  - vm_compute. intuition discriminate.
  - apply pc_settled.
  - by vm_compute.
  - apply pc_ready.
  - apply pc_clean.
Qed.

(** ** The theorems, applied *)

(** The free pages before the boot loader's tables: from the end of the page
    array to the root. *)
Definition pc_first : Z := 0x132.
Definition pc_ready_pages : nat := 703.

Lemma pc_reserved i : init_reserved (highest pc_map) start_table i ↔ 0x121 <= i < 0x132.
Proof.
  rewrite pc_highest, pc_table. unfold init_reserved.
  assert (E1 : init_round 0x120000 / 4096 = 0x121) by (by vm_compute).
  assert (E2 : init_table 0x400000 0x120000 / 4096 + init_pages 0x400000 = 0x132) by (by vm_compute).
  by rewrite E1, E2.
Qed.

Lemma pc_verdict_check : forallb (λ i, bool_decide (boot_verdict pc_map i =
  if i <=? 0x120 then Some true else Some false)) (seqZ 0 pc_pages) = true.
Proof. vm_compute. reflexivity. Qed.

Lemma pc_starts_free i : 0 <= i < pc_pages → starts_free pc_map i ↔ pc_first <= i.
Proof.
  intros Hi. pose proof (below_all _ _ pc_verdict_check i Hi) as Hv. apply bool_decide_eq_true in Hv.
  unfold starts_free. rewrite pc_reserved, Hv. unfold pc_first.
  destruct (Z.leb_spec i 0x120); split.
  - by intros [_ ?].
  - lia.
  - intros [? _]. lia.
  - intros ?. split; [lia|done].
Qed.

Lemma ld_blank i : pc_first <= i < 0x3F1 → blank ld_direct ld_ram ld_level (4096 * i).
Proof.
  unfold pc_first. intros Hi. assert (Hf : frame_ok (4096 * i)) by (split; [dlia|lia]).
  split; [done|]. split; [lia|]. split; [|split; [|split; [done|lia]]].
  - unfold ld_level. by rewrite !(proj2 (Z.eqb_neq _ _)) by lia.
  - intros j Hj. apply loader_mem_clear; lia.
Qed.

Lemma pc_ready_ok : ready_pages pc_state pc_map ld_level ld_direct pc_first pc_ready_pages.
Proof.
  assert (Hn : pc_first + Z.of_nat pc_ready_pages = 0x3F1) by (by vm_compute).
  split; rewrite ?Hn, ?pc_highest, ?pc_numpages.
  - by vm_compute.
  - intros i Hi. rewrite pc_starts_free by (unfold pc_first, pc_pages in *; lia). lia.
  - intros i Hi. split; [|by apply ld_blank].
    apply pc_starts_free; unfold pc_first, pc_pages in *; lia.
Qed.

Lemma pc_not_big : init_big (highest pc_map) start_table = false.
Proof. by vm_compute. Qed.

Lemma start_paged_witness :
  returns (pmm_init (P2V 0x7000) (Z.of_nat (length pc_map));; mmu_init) pc_state (λ _ s', ∃ P,
    paged ld_direct s' P ld_level pc_ready_pages ∧
    take pc_ready_pages (free_pool P) = page_at (start_base pc_map) <$> seqZ pc_first (Z.of_nat pc_ready_pages) ∧
    (∀ i, 0 <= i < init_numpages (highest pc_map) →
       (page_at (start_base pc_map) i ∈ free_pool P ↔ starts_free pc_map i ∧ 4096 * i ≠ cr3 s') ∧
       frame_of s' (page_at (start_base pc_map) i) = 4096 * i) ∧
    cr3 s' = (if init_big (highest pc_map) start_table then init_round start_table else cr3 pc_state)).
Proof.
  apply (start_paged pc_state pc_map ld_level ld_direct pc_first pc_ready_pages).
  - apply pc_loaded.
  - right; [apply pc_not_big|apply ld_loader_tables].
  - apply pc_ready_ok.
Defined.

(** The second-level table of the boot loader is in the free list. *)
Lemma start_frees_loader_tables_witness :
  returns (pmm_init (P2V 0x7000) (Z.of_nat (length pc_map));; mmu_init) pc_state (λ _ s', ∃ P,
    repr s' P ∧ page_at (start_base pc_map) (0x3F2000 / 4096) ∈ free_pool P ∧
    frame_of s' (page_at (start_base pc_map) (0x3F2000 / 4096)) = 0x3F2000 ∧
    cr3 s' = cr3 pc_state ∧ pt_wf (ram s') (cr3 s') ld_level).
Proof.
  apply (start_frees_loader_tables pc_state pc_map ld_level ld_direct pc_first pc_ready_pages 0x3F2000).
  - apply pc_loaded.
  - apply pc_not_big.
  - apply ld_loader_tables.
  - apply pc_ready_ok.
  - by vm_compute.
  - by vm_compute.
  - by vm_compute.
  - apply pc_starts_free; by vm_compute.
Defined.
