(* ===== verification/StartBig.v ===== *)
(** The kernel's start on a machine whose page array does not fit in the four
    megabytes that the boot loader maps: the case of [Start] in which
    [page_init] builds new tables. *)

From S2P Require Import Prelude Kernel KList State Paging Frame FrameSpec FrameRefine FrameMark Demo.
From S2P Require Import FrameInit PmmInit PagingWf Mmu MmuSpec MmuBoot MmuInit Start StartDemo.

Open Scope Z_scope.

(** Six megabytes of memory and a large kernel image. *)
#[local] Instance big_image : Image := {|
  kernel_end := P2V 0x3E8000;
  ap_entry_start := P2V 0x6000;
  ap_entry_end := P2V 0x6010;
|}.
Definition big_map : list memory_map :=
  [MemoryMap 0 0x9FC00 1; MemoryMap 0x9FC00 0x400 2; MemoryMap 0xF0000 0x10000 2;
   MemoryMap 0x100000 0x500000 1].
Definition big_base : Z := P2V 0x3EC000.
Definition big_pages : Z := 0x601.
Definition big_nodes : heap :=
  list_to_map ((λ a, (a, Node a a)) <$>
    [l_free; l_used; l_lru] ++ (page_addrs big_base big_pages ≫= λ p, [lru_of p; pages_of p])).
Definition big_store : gmap Z page :=
  list_to_map ((λ i, (page_at big_base i, Page 0 0 0 0)) <$> seqZ 0 big_pages).
Definition big_state : kstate :=
  KState big_nodes big_store 0 0 0 0 true (loader_mem big_map) 0x3F1000 0 [].

Lemma big_highest : highest big_map = 0x600000.
Proof. by vm_compute. Qed.
Lemma big_table : start_table = 0x3E8000.
Proof. by vm_compute. Qed.
Lemma big_numpages : init_numpages 0x600000 = big_pages.
Proof. by vm_compute. Qed.
Lemma big_is_big : init_big 0x600000 0x3E8000 = true.
Proof. by vm_compute. Qed.
Lemma big_round : init_round 0x3E8000 = 0x3E9000.
Proof. by vm_compute. Qed.
Lemma big_top : init_top 0x600000 0x3E8000 = 0x600000.
Proof. by vm_compute. Qed.

(** The boot loader maps the frames of the new tables at their own addresses,
    whatever they hold. *)
Lemma big_identity : identity_mapped (loader_mem big_map) 0x3F1000 [0x3E9000; 0x3E9000 + 4096; 0x3E9000 + 8192].
Proof.
  intros r f i Hr Hf Hi. cbn in Hf.
  assert (Hfb : 0x3E9000 <= f <= 0x3EB000 ∧ f mod 4096 = 0).
  { rewrite !elem_of_cons, elem_of_nil in Hf. destruct Hf as [-> | [-> | [-> | []]]]; by split. }
  assert (Hout : ∀ a, 0x3F1000 <= a → r a = loader_mem big_map a).
  { intros a Ha. apply Hr. intros g j Hg Hj. cbn in Hg. rewrite !elem_of_cons, elem_of_nil in Hg.
    destruct Hg as [-> | [-> | [-> | []]]]; lia. }
  set (k := f / 4096). assert (Hk : 0x3E9 <= k <= 0x3EB ∧ f = 4096 * k) by (subst k; dlia).
  assert (Hal : 4096 * k mod 4096 = 0) by dlia.
  rewrite (translate_4k _ _ _ (0x3F4000 + 8 * k)).
  - rewrite Hout, ld_page_entry, table_entry_addr by (done || lia || dlia). f_equal. dlia.
  - unfold canonical. lia.
  - unfold leaf_slot, dir_slot.
    replace (PML4E (f + 8 * i)) with 0 by (rewrite PML4E_spec; dlia).
    replace (PDPTE (f + 8 * i)) with 0 by (rewrite PDPTE_spec; dlia).
    replace (PDE (f + 8 * i)) with 1 by (rewrite PDE_spec; dlia).
    replace (PTE (f + 8 * i)) with (k - 512) by (rewrite PTE_spec; dlia).
    change (entry_addr 0x3F1000 + 8 * 0) with 0x3F1000. rewrite Hout by lia.
    change (loader_mem big_map 0x3F1000) with (table_entry 0x3F2000). rewrite table_entry_step by done.
    change (entry_addr (table_entry 0x3F2000) + 8 * 0) with 0x3F2000. rewrite Hout by lia.
    change (loader_mem big_map 0x3F2000) with (table_entry 0x3F3000). rewrite table_entry_step by done.
    change (entry_addr (table_entry 0x3F3000) + 8 * 1) with 0x3F3008. rewrite Hout by lia.
    change (loader_mem big_map 0x3F3008) with (table_entry 0x3F5000). rewrite table_entry_step by done.
    change (entry_addr (table_entry 0x3F5000)) with 0x3F5000. f_equal. lia.
  - rewrite Hout, ld_page_entry by lia. by destruct (steps_true _ (table_entry_step _ Hal)).
Qed.

Lemma big_layout : layout_ok big_base big_pages.
Proof.
  split; [vm_compute; intuition discriminate|vm_compute; intuition discriminate|].
  intros a [Ha _]. assert (E : big_base = 0xFFFFFFFF803EC000) by (vm_compute; reflexivity).
  rewrite E in Ha. cbn [l_free l_used l_lru demo_layout]. lia.
Qed.

Lemma big_ready : init_ready (highest big_map) start_table big_state.
Proof.
  assert (Eb : P2V (init_table 0x600000 0x3E8000) = big_base) by (by vm_compute).
  rewrite big_highest, big_table. split; rewrite ?big_numpages, ?Eb.
  - lia.
  - by vm_compute.
  - lia.
  - apply big_layout.
  - unfold nodes_ok. apply is_page_all. apply (bool_decide_unpack _). vm_compute. reflexivity.
  - apply is_page_all. apply (bool_decide_unpack _). vm_compute. reflexivity.
  - split_and!; apply (bool_decide_unpack _); vm_compute; reflexivity.
  - split; vm_compute; reflexivity.
  - intros _. rewrite big_round. split; [exact big_identity|]. by vm_compute.
Qed.

Lemma big_settled_check : forallb (λ i, implb (ever_used big_map i)
  (bool_decide (boot_verdict big_map i = Some true))) (seqZ 0 big_pages) = true.
Proof. vm_compute. reflexivity. Qed.

Lemma big_loaded : loaded_kernel big_state big_map.
Proof.
  split.
  - repeat split; vm_compute; reflexivity.
  - cbn. lia.
  - repeat (constructor; [split_and!; cbn; lia|]). constructor.
  - vm_compute. intuition discriminate.
  - intros i Hi Hu. rewrite big_highest, big_numpages in Hi.
    pose proof (below_all _ _ big_settled_check i Hi) as Hc. cbv beta in Hc.
    rewrite Hu in Hc. by apply bool_decide_eq_true in Hc.
  - by vm_compute.
  - apply big_ready.
  - intros i pg _. change (store big_state) with big_store. unfold big_store. intros E.
    apply elem_of_list_to_map_2, list_elem_of_fmap in E as (j & [= _ ->] & _). done.
Qed.

Definition big_level : Z → Z := boot_level 0x3E9000 (0x3E9000 + 4096) (0x3E9000 + 8192).
Definition big_direct (f : Z) : Prop := frame_ok f ∧ f + 4096 <= 0x600000.

Lemma big_tables : start_tables big_state big_map big_level big_direct.
Proof.
  pose proof (start_new big_state big_map) as T.
  rewrite big_highest, big_table, big_round, big_top in T. apply T; [exact big_is_big|].
  intros f i Hf Hi. unfold init_frames in Hf. rewrite big_round in Hf.
  rewrite !elem_of_cons, elem_of_nil in Hf.
  destruct Hf as [-> | [-> | [-> | []]]]; [apply (loader_mem_clear big_map 0x3E9)|
    apply (loader_mem_clear big_map 0x3EA)|apply (loader_mem_clear big_map 0x3EB)]; lia.
Qed.

(** The free pages below the end of the direct map: from the end of the page
    array on. *)
Definition big_first : Z := 0x405.
Definition big_ready_pages : nat := 507.

Lemma big_reserved i : init_reserved (highest big_map) start_table i ↔ 0x3E9 <= i < 0x405.
Proof.
  rewrite big_highest, big_table. unfold init_reserved. rewrite big_round.
  by assert (init_table 0x600000 0x3E8000 / 4096 + init_pages 0x600000 = 0x405) as -> by (by vm_compute).
Qed.

Lemma big_verdict_check : forallb (λ i, bool_decide (boot_verdict big_map i =
  if i <=? 0x3E8 then Some true else Some false)) (seqZ 0 big_pages) = true.
Proof. vm_compute. reflexivity. Qed.

Lemma big_starts_free i : 0 <= i < big_pages → starts_free big_map i ↔ big_first <= i.
Proof.
  intros Hi. pose proof (below_all _ _ big_verdict_check i Hi) as Hv. apply bool_decide_eq_true in Hv.
  unfold starts_free. rewrite big_reserved, Hv. unfold big_first.
  destruct (Z.leb_spec i 0x3E8); split.
  - by intros [_ ?].
  - lia.
  - intros [? _]. lia.
  - intros ?. split; [lia|done].
Qed.

(** The frames behind the boot loader's tables are as clear as the rest. *)
Lemma big_ready_ok : ready_pages big_state big_map big_level big_direct big_first big_ready_pages.
Proof.
  assert (Hn : big_first + Z.of_nat big_ready_pages = 0x600) by (by vm_compute).
  split; rewrite ?Hn, ?big_highest, ?big_numpages.
  - by vm_compute.
  - intros i Hi. rewrite big_starts_free by (unfold big_first, big_pages in *; lia). lia.
  - unfold big_first. intros i Hi.
    split; [apply big_starts_free; unfold big_first, big_pages in *; lia|].
    assert (Hf : frame_ok (4096 * i)) by (split; [dlia|lia]).
    split; [done|]. split; [lia|]. split; [|split; [|split; [done|lia]]].
    + unfold big_level, boot_level. by rewrite !(proj2 (Z.eqb_neq _ _)) by lia.
    + intros j Hj. apply loader_mem_clear; lia.
Qed.

(** More than five hundred pages are ready for new page tables. *)
Lemma big_start :
  returns (pmm_init (P2V 0x7000) (Z.of_nat (length big_map));; mmu_init) big_state (λ _ s', ∃ P,
    paged big_direct s' P big_level big_ready_pages ∧ cr3 s' = 0x3E9000).
Proof.
  ret_use (returns_start big_state big_map big_level big_direct big_first big_ready_pages);
    [apply big_loaded|apply big_tables|apply big_ready_ok|].
  intros _ s' (P & G & _ & _ & Hc). exists P. split; [done|]. rewrite Hc.
  by rewrite big_highest, big_table, big_is_big, big_round.
Qed.

(** [page_init] asks [mmu_bootstrap] for the memory up to the end that the
    array would have without the three tables in front of it. On this machine
    (311 MB, a kernel that ends at 1152 KB) the array's last page is not
    mapped. *)
Lemma array_beyond_direct_map :
  let memory := 0x136FFFFF in let table := 0x120000 in
  init_big memory table = true ∧ init_table memory table / 4096 + init_pages memory <= init_numpages memory ∧
  init_top memory table < init_table memory table + init_pages memory * 4096.
Proof. by vm_compute. Qed.
